(** * Network Mystic: a shallow embedding of [main.py]

    The development follows the layout of the program: Python built-ins the
    program relies on, the glyph and entity classes, the whisper collector,
    the ancient-script encoder, the scanner ([scan_spirits]), the renderer
    ([draw_veil] and its helpers), the event loop and the archivist
    ([save_mysteries]); then the notions the statements use, sample data,
    and the properties.

    Modelling conventions.
    - A Python [str] is a list of Unicode code points ([str := list N]);
      literals are written in UTF-8 and decoded by [u8].
    - A Python [int] is a [Z]; a Python [float] is an exact rational [Q]
      (rounding, infinities and NaN of IEEE doubles are outside the model).
    - A [dict] is an association list in insertion order, read through
      [dict_get]; a [set] of strings is a list read through membership.
    - The outside world (clock, pseudo-random generator, [/proc/net/dev],
      the [ip] command, the keyboard, the file system) is an explicit
      [World] value that every effectful function threads through; the
      [curses] window is an abstract [Curses] instance, with a character
      grid as the concrete one.
    - Exceptions are values of type [exn]; a block that may raise yields an
      [outcome], which keeps the state reached when the exception left the
      block; a [try]/[except] is a function that inspects that outcome.
    - The loop of [run_ritual] runs for a given number of passes at most;
      [start] and [main] are modelled on top of it, [main] from the
      construction of the mystic on and up to the exit handler.
    - Not modelled: [MysticConfig.load_from_file] and with it the
      configuration step of [main] ([hasattr] and [setattr] work on the
      attributes of a dynamically typed object), the terminal set-up calls
      of [run_ritual], the prints of [cleanup], [time.sleep],
      [KeyboardInterrupt] and the signal handlers. *)

From Stdlib Require Import String Ascii.
From Stdlib Require Import ZArith NArith QArith Qround Qabs List Bool Lia Lqa.
From Stdlib Require Import Permutation Sorted.
Import ListNotations.

Set Implicit Arguments.
Open Scope Z_scope.

(* ================================================================== *)
(** * Python built-ins                                                  *)
(* ================================================================== *)

(** ** Strings *)

Definition uchar := N.
Definition str := list uchar.

Fixpoint utf8_go (pending : nat) (acc : N) (bs : list N) : str :=
  match bs with
  | [] => []
  | b :: bs' =>
      match pending with
      | O =>
          if (b <? 128)%N then b :: utf8_go 0 0 bs'
          else if (b <? 224)%N then utf8_go 1 (b mod 32)%N bs'
          else if (b <? 240)%N then utf8_go 2 (b mod 16)%N bs'
          else utf8_go 3 (b mod 8)%N bs'
      | S O => (acc * 64 + b mod 64)%N :: utf8_go 0 0 bs'
      | S p => utf8_go p (acc * 64 + b mod 64)%N bs'
      end
  end.

(** [u8 "..."] is the Python string written by the UTF-8 literal. *)
Definition u8 (s : string) : str :=
  utf8_go 0 0 (map N_of_ascii (list_ascii_of_string s)).
Arguments u8 s%_string_scope.

Definition str_eqb (a b : str) : bool :=
  if list_eq_dec N.eq_dec a b then true else false.

(** [len(s)] *)
Definition len {A} (l : list A) : Z := Z.of_nat (length l).

(** [x in xs] for a list or set of strings *)
Definition str_in (x : str) (xs : list str) : bool := existsb (str_eqb x) xs.

(** [str.isspace] on one character (the Unicode white-space code points) *)
Definition is_space (c : uchar) : bool :=
  ((9 <=? c) && (c <=? 13) || (28 <=? c) && (c <=? 32)
   || (c =? 133) || (c =? 160) || (c =? 5760)
   || (8192 <=? c) && (c <=? 8202)
   || (c =? 8232) || (c =? 8233) || (c =? 8239) || (c =? 8287)
   || (c =? 12288))%N.

Fixpoint lstrip (s : str) : str :=
  match s with
  | c :: s' => if is_space c then lstrip s' else s
  | [] => []
  end.

Definition rstrip (s : str) : str := rev (lstrip (rev s)).

(** [s.strip()] *)
Definition strip (s : str) : str := rstrip (lstrip s).

(** [s.split(sep)] for a one-character separator: always at least one part *)
Fixpoint split_on (sep : uchar) (s : str) : list str :=
  match s with
  | [] => [[]]
  | c :: s' =>
      if (c =? sep)%N then [] :: split_on sep s'
      else match split_on sep s' with
           | p :: ps => (c :: p) :: ps
           | [] => [[c]]
           end
  end.

(** [s.split()]: the maximal runs of non-space characters *)
Fixpoint split_ws_go (cur : str) (s : str) : list str :=
  match s with
  | [] => match cur with [] => [] | _ => [rev cur] end
  | c :: s' =>
      if is_space c
      then match cur with [] => split_ws_go [] s' | _ => rev cur :: split_ws_go [] s' end
      else split_ws_go (c :: cur) s'
  end.

Definition split_ws (s : str) : list str := split_ws_go [] s.

(** [s.startswith(p)] *)
Fixpoint startswith (s p : str) : bool :=
  match p, s with
  | [], _ => true
  | c :: p', d :: s' => (c =? d)%N && startswith s' p'
  | _ :: _, [] => false
  end.

(** [sep.join(parts)] *)
Fixpoint join (sep : str) (parts : list str) : str :=
  match parts with
  | [] => []
  | [p] => p
  | p :: ps => p ++ sep ++ join sep ps
  end.

(** [s * n]: empty when [n <= 0] *)
Definition repeat_str (s : str) (n : Z) : str :=
  concat (repeat s (Z.to_nat n)).

(** [l[:k]], with Python's reading of a negative bound *)
Definition slice_to {A} (l : list A) (k : Z) : list A :=
  if k <? 0 then firstn (Z.to_nat (len l + k)) l else firstn (Z.to_nat k) l.

(** [l[-k:]] for a positive literal [k]: the last [k] items *)
Definition last_n {A} (k : nat) (l : list A) : list A :=
  skipn (length l - k) l.

(** [l[i]] for [0 <= i] *)
Definition nth_str (l : list str) (i : Z) : str := nth (Z.to_nat i) l [].

(** ** Numbers *)

Definition Qltb (a b : Q) : bool := negb (Qle_bool b a).

(** [min(a, b)]: the first argument unless the second is smaller *)
Definition py_min (a b : Q) : Q := if Qltb b a then b else a.

(** [int(x)] on a float: truncation towards zero *)
Definition int_of_float (x : Q) : Z := Z.quot (Qnum x) (Z.pos (Qden x)).

Definition digit_char (d : Z) : uchar := Z.to_N (48 + d).

Fixpoint digits_go (fuel : nat) (n : Z) (acc : str) : str :=
  match fuel with
  | O => acc
  | S f =>
      let acc' := digit_char (n mod 10) :: acc in
      if n / 10 =? 0 then acc' else digits_go f (n / 10) acc'
  end.

(** decimal digits of a non-negative integer *)
Definition digits (n : Z) : str := digits_go (S (Z.to_nat (Z.log2 n))) n [].

(** [str(n)] on an int *)
Definition str_of_int (n : Z) : str :=
  if n <? 0 then u8 "-" ++ digits (- n) else digits n.

(** zero-padded decimal field of width [w], as [%02d] *)
Definition pad0 (w : nat) (n : Z) : str :=
  let d := digits n in repeat 48%N (w - length d) ++ d.

(** nearest integer of a non-negative rational, ties to even *)
Definition round_half_even (x : Q) : Z :=
  let f := Qfloor x in
  let r := (x - inject_Z f)%Q in
  if Qltb r (1 # 2) then f
  else if Qltb (1 # 2) r then f + 1
  else if Z.even f then f else f + 1.

(** [f"{x:.<d>f}"] *)
Definition format_fixed (d : nat) (x : Q) : str :=
  let scaled := round_half_even (Qabs x * inject_Z (10 ^ Z.of_nat d))%Q in
  let ds := pad0 (S d) scaled in
  let k := (length ds - d)%nat in
  (if Qltb x 0 then u8 "-" else [])
    ++ firstn k ds ++ (match d with O => [] | _ => u8 "." ++ skipn k ds end).

(** [int(s)] on a string: optional surrounding white space, an optional
    sign, then decimal digits in which single underscores may separate
    digits.  Only the ASCII digits are recognised: the model is that of
    [int()] on text up to U+00FF (the counter source is ASCII), while
    Python also reads the decimal digits of other scripts, the first of
    which are at U+0660. *)
Definition is_digit (c : uchar) : bool := ((48 <=? c) && (c <=? 57))%N.

Fixpoint int_digits (acc : Z) (prev_digit : bool) (s : str) : option Z :=
  match s with
  | [] => if prev_digit then Some acc else None
  | c :: s' =>
      if is_digit c then int_digits (acc * 10 + (Z.of_N c - 48)) true s'
      else if (c =? 95)%N && prev_digit then
             match s' with
             | d :: _ => if is_digit d then int_digits acc false s' else None
             | [] => None
             end
      else None
  end.

Definition py_int (s : str) : option Z :=
  match strip s with
  | c :: s' =>
      if (c =? 45)%N then option_map Z.opp (int_digits 0 false s')
      else if (c =? 43)%N then int_digits 0 false s'
      else int_digits 0 false (c :: s')
  | [] => None
  end.

Definition hex_digit (d : N) : uchar := (if d <? 10 then 48 + d else 87 + d)%N.

(** one character inside [repr(s)]: the quote in use and the backslash take
    a backslash, tab, line feed and carriage return their letter, and the
    other characters that are not printable their code as [\xhh] *)
Definition repr_char (quote c : uchar) : str :=
  if ((c =? quote) || (c =? 92))%N then [92%N; c]
  else if (c =? 9)%N then [92%N; 116%N]
  else if (c =? 10)%N then [92%N; 110%N]
  else if (c =? 13)%N then [92%N; 114%N]
  else if ((c <? 32) || (127 <=? c) && (c <=? 160) || (c =? 173))%N
       then [92%N; 120%N; hex_digit (c / 16); hex_digit (c mod 16)]
  else [c].

(** [repr(s)] on a string: the text between apostrophes, or between double
    quotes when it holds an apostrophe and no double quote.  Which
    characters are printable is known up to U+00FF; the characters from
    U+0100 on are all taken as printable. *)
Definition py_repr (s : str) : str :=
  let quote := if existsb (N.eqb 39) s && negb (existsb (N.eqb 34) s) then 34%N else 39%N in
  [quote] ++ flat_map (repr_char quote) s ++ [quote].

(* ================================================================== *)
(** * Exceptions and the outside world                                  *)
(* ================================================================== *)

Inductive exn :=
| OSError (msg : str)       (* the counter source or a file cannot be opened *)
| ValueError (msg : str)    (* [int()] on a non-numeric field *)
| KeyError (key : Z)        (* a missing colour pair *)
| CursesError.              (* [curses.error] *)

(** [str(e)] *)
Definition str_of_exn (e : exn) : str :=
  match e with
  | OSError msg => msg
  | ValueError msg => msg
  | KeyError k => str_of_int k
  | CursesError => u8 "curses function returned ERR"
  end.

Record DateTime := {
  year : Z; month : Z; day : Z;
  hour : Z; minute : Z; second : Z; microsecond : Z
}.

(** What the program reads from and writes to its environment.  Each oracle
    is indexed by the number of reads made so far. *)
Record World := {
  time_time : nat -> Q;              (* successive values of [time.time()] *)
  datetime_now : nat -> DateTime;    (* successive values of [datetime.now()] *)
  clock_reads : nat;
  random_random : nat -> Q;          (* successive draws, each in [0, 1) *)
  rng_draws : nat;
  proc_net_dev : nat -> exn + list str;  (* successive [readlines()] of /proc/net/dev *)
  proc_reads : nat;
  ip_addr_show : str -> option str;  (* stdout of [ip -o -4 addr show], if it ran *)
  files : list (str * str);          (* path and content *)
  open_error : str -> option exn;    (* paths that cannot be opened for append *)
  getch : nat -> Z;                  (* successive key codes, -1 when none is pending *)
  key_reads : nat;
  math_sin : Q -> Q                  (* [math.sin], which has no exact rational model *)
}.

Definition with_clock_reads (w : World) (n : nat) : World :=
  {| time_time := time_time w; datetime_now := datetime_now w; clock_reads := n;
     random_random := random_random w; rng_draws := rng_draws w;
     proc_net_dev := proc_net_dev w; proc_reads := proc_reads w;
     ip_addr_show := ip_addr_show w; files := files w; open_error := open_error w;
     getch := getch w; key_reads := key_reads w; math_sin := math_sin w |}.

Definition with_rng_draws (w : World) (n : nat) : World :=
  {| time_time := time_time w; datetime_now := datetime_now w; clock_reads := clock_reads w;
     random_random := random_random w; rng_draws := n;
     proc_net_dev := proc_net_dev w; proc_reads := proc_reads w;
     ip_addr_show := ip_addr_show w; files := files w; open_error := open_error w;
     getch := getch w; key_reads := key_reads w; math_sin := math_sin w |}.

Definition with_proc_reads (w : World) (n : nat) : World :=
  {| time_time := time_time w; datetime_now := datetime_now w; clock_reads := clock_reads w;
     random_random := random_random w; rng_draws := rng_draws w;
     proc_net_dev := proc_net_dev w; proc_reads := n;
     ip_addr_show := ip_addr_show w; files := files w; open_error := open_error w;
     getch := getch w; key_reads := key_reads w; math_sin := math_sin w |}.

Definition with_files (w : World) (fs : list (str * str)) : World :=
  {| time_time := time_time w; datetime_now := datetime_now w; clock_reads := clock_reads w;
     random_random := random_random w; rng_draws := rng_draws w;
     proc_net_dev := proc_net_dev w; proc_reads := proc_reads w;
     ip_addr_show := ip_addr_show w; files := fs; open_error := open_error w;
     getch := getch w; key_reads := key_reads w; math_sin := math_sin w |}.

Definition with_key_reads (w : World) (n : nat) : World :=
  {| time_time := time_time w; datetime_now := datetime_now w; clock_reads := clock_reads w;
     random_random := random_random w; rng_draws := rng_draws w;
     proc_net_dev := proc_net_dev w; proc_reads := proc_reads w;
     ip_addr_show := ip_addr_show w; files := files w; open_error := open_error w;
     getch := getch w; key_reads := n; math_sin := math_sin w |}.

(** [time.time()] *)
Definition py_time (w : World) : Q * World :=
  (time_time w (clock_reads w), with_clock_reads w (S (clock_reads w))).

(** [datetime.now()] *)
Definition py_now (w : World) : DateTime * World :=
  (datetime_now w (clock_reads w), with_clock_reads w (S (clock_reads w))).

(** [random.random()] *)
Definition py_random (w : World) : Q * World :=
  (random_random w (rng_draws w), with_rng_draws w (S (rng_draws w))).

(** an integer below [n] from one draw *)
Definition randbelow (n : Z) (w : World) : Z * World :=
  let '(u, w') := py_random w in (Qfloor (u * inject_Z n)%Q, w').

(** [random.choice(seq)] on a non-empty sequence *)
Definition py_choice {A} (seq : list A) (default : A) (w : World) : A * World :=
  let '(i, w') := randbelow (len seq) w in (nth (Z.to_nat i) seq default, w').

(** [random.randint(a, b)] *)
Definition py_randint (a b : Z) (w : World) : Z * World :=
  let '(i, w') := randbelow (b - a + 1) w in (a + i, w').

(** [random.uniform(a, b)] *)
Definition py_uniform (a b : Q) (w : World) : Q * World :=
  let '(u, w') := py_random w in ((a + (b - a) * u)%Q, w').

(** [strftime("%H:%M:%S")] *)
Definition strftime_HMS (t : DateTime) : str :=
  pad0 2 (hour t) ++ u8 ":" ++ pad0 2 (minute t) ++ u8 ":" ++ pad0 2 (second t).

(** [strftime("%Y-%m-%d %H:%M:%S")] *)
Definition strftime_YmdHMS (t : DateTime) : str :=
  pad0 4 (year t) ++ u8 "-" ++ pad0 2 (month t) ++ u8 "-" ++ pad0 2 (day t)
    ++ u8 " " ++ strftime_HMS t.

(** [isoformat()] *)
Definition isoformat (t : DateTime) : str :=
  pad0 4 (year t) ++ u8 "-" ++ pad0 2 (month t) ++ u8 "-" ++ pad0 2 (day t)
    ++ u8 "T" ++ strftime_HMS t
    ++ (if microsecond t =? 0 then [] else u8 "." ++ pad0 6 (microsecond t)).

(* ================================================================== *)
(** * Glyphs and entities                                               *)
(* ================================================================== *)

Inductive GlyphType := FLOW | PULSE | WHISPER | SHADOW | ECHO.

Definition GlyphType_eqb (a b : GlyphType) : bool :=
  match a, b with
  | FLOW, FLOW | PULSE, PULSE | WHISPER, WHISPER | SHADOW, SHADOW | ECHO, ECHO => true
  | _, _ => false
  end.

Record Glyph := {
  type : GlyphType;
  intensity : Q;
  position : Z * Z;
  age : nat;
  char : str;
  color_pair : Z
}.

Record NetworkEntity := {
  name : str;
  interface : str;
  rx_bytes : Z;
  tx_bytes : Z;
  rx_rate : Q;
  tx_rate : Q;
  essence : Q;
  aura : str;
  glyphs : list Glyph;
  last_seen : Q;
  whispers : list str
}.

Definition with_glyphs (e : NetworkEntity) (gs : list Glyph) : NetworkEntity :=
  {| name := name e; interface := interface e; rx_bytes := rx_bytes e; tx_bytes := tx_bytes e;
     rx_rate := rx_rate e; tx_rate := tx_rate e; essence := essence e; aura := aura e;
     glyphs := gs; last_seen := last_seen e; whispers := whispers e |}.

Definition with_whispers (e : NetworkEntity) (ws : list str) : NetworkEntity :=
  {| name := name e; interface := interface e; rx_bytes := rx_bytes e; tx_bytes := tx_bytes e;
     rx_rate := rx_rate e; tx_rate := tx_rate e; essence := essence e; aura := aura e;
     glyphs := glyphs e; last_seen := last_seen e; whispers := ws |}.

Definition with_last_seen (e : NetworkEntity) (t : Q) : NetworkEntity :=
  {| name := name e; interface := interface e; rx_bytes := rx_bytes e; tx_bytes := tx_bytes e;
     rx_rate := rx_rate e; tx_rate := tx_rate e; essence := essence e; aura := aura e;
     glyphs := glyphs e; last_seen := t; whispers := whispers e |}.

Definition with_rates (e : NetworkEntity) (rx tx : Q) : NetworkEntity :=
  {| name := name e; interface := interface e; rx_bytes := rx_bytes e; tx_bytes := tx_bytes e;
     rx_rate := rx; tx_rate := tx; essence := essence e; aura := aura e;
     glyphs := glyphs e; last_seen := last_seen e; whispers := whispers e |}.

Definition with_bytes (e : NetworkEntity) (rx tx : Z) : NetworkEntity :=
  {| name := name e; interface := interface e; rx_bytes := rx; tx_bytes := tx;
     rx_rate := rx_rate e; tx_rate := tx_rate e; essence := essence e; aura := aura e;
     glyphs := glyphs e; last_seen := last_seen e; whispers := whispers e |}.

(** The table of [_generate_spirit_name], in the order the dict is written. *)
Definition spirit_names : list (str * list str) :=
  [ (u8 "eth",    [u8 "Silent River"; u8 "Whispering Wind"; u8 "Ethereal Flow"]);
    (u8 "wlan",   [u8 "Air Spirit"; u8 "Cloud Dancer"; u8 "Sky Whisper"]);
    (u8 "lo",     [u8 "Inner Echo"; u8 "Soul Mirror"; u8 "Self Reflection"]);
    (u8 "veth",   [u8 "Bridge Guardian"; u8 "Gatekeeper"; u8 "Threshold Walker"]);
    (u8 "docker", [u8 "Container Spirit"; u8 "Boxed Essence"; u8 "Isolated Soul"]);
    (u8 "tun",    [u8 "Tunnel Dreamer"; u8 "Veil Piercer"; u8 "Hidden Path"]);
    (u8 "tap",    [u8 "Mirror Pool"; u8 "Reflection Well"; u8 "Surface Tension"]) ].

Definition mystic_suffixes : list str :=
  [u8 " the Observer"; u8 " the Watcher"; u8 " the Listener";
   u8 " the Silent"; u8 " the Flowing"; u8 " the Hidden"].

Definition mystic_prefixes : list str :=
  [u8 "Whispering "; u8 "Echoing "; u8 "Veiled "; u8 "Ancient ";
   u8 "Forgotten "; u8 "Secret "].

Definition _generate_spirit_name (interface : str) (w : World) : str * World :=
  match find (fun entry => startswith interface (fst entry)) spirit_names with
  | Some (_, names) =>
      let '(n, w1) := py_choice names [] w in
      (n ++ u8 " (" ++ interface ++ u8 ")", w1)
  | None =>
      let '(u, w1) := py_random w in
      if Qltb (1 # 2) u then
        let '(p, w2) := py_choice mystic_prefixes [] w1 in (p ++ interface, w2)
      else
        let '(s, w2) := py_choice mystic_suffixes [] w1 in (interface ++ s, w2)
  end.

Definition auras : list str :=
  [u8 "Pale Blue Mist"; u8 "Flickering Shadow"; u8 "Soft Golden Glow";
   u8 "Deep Ocean Haze"; u8 "Forest Whisper Green"; u8 "Twilight Purple";
   u8 "Dawn Orange"; u8 "Dusk Red"; u8 "Moon Silver"; u8 "Sun Gold"].

Definition _generate_aura (w : World) : str * World := py_choice auras [] w.

(** [NetworkEntity.__init__] *)
Definition NetworkEntity_init (name_arg interface_arg : str) (w : World)
  : NetworkEntity * World :=
  let '(n, w1) := _generate_spirit_name name_arg w in
  let '(ess, w2) := py_uniform (1 # 10) 1 w1 in
  let '(au, w3) := _generate_aura w2 in
  let '(t, w4) := py_time w3 in
  ({| name := n; interface := interface_arg; rx_bytes := 0; tx_bytes := 0;
      rx_rate := 0; tx_rate := 0; essence := ess; aura := au;
      glyphs := []; last_seen := t; whispers := [] |}, w4).

(** [NetworkEntity.add_whisper] *)
Definition add_whisper (e : NetworkEntity) (message : str) (w : World)
  : NetworkEntity * World :=
  let '(now, w1) := py_now w in
  let ws := whispers e ++ [u8 "[" ++ strftime_HMS now ++ u8 "] " ++ message] in
  (with_whispers e (if 5 <? len ws then tl ws else ws), w1).

(** The alphabet of each glyph kind. *)
Definition glyph_alphabet (t : GlyphType) : list str :=
  match t with
  | FLOW => [u8 "↗"; u8 "↘"; u8 "↖"; u8 "↙"; u8 "↕"; u8 "↔"]
  | PULSE => [u8 "●"; u8 "○"; u8 "◎"; u8 "◉"; u8 "⊙"]
  | WHISPER => [u8 "…"; u8 "~"; u8 "⋮"; u8 "⋯"]
  | SHADOW => [u8 "░"; u8 "▒"; u8 "▓"; u8 "▚"; u8 "▞"]
  | ECHO => [u8 "⦿"; u8 "⟳"; u8 "⟲"; u8 "↻"; u8 "↺"]
  end.

(** One pass of the loop of [update_glyphs] over an existing glyph: the
    glyph after the tick, and whether it is kept in [active_glyphs]. *)
Definition tick_glyph (g : Glyph) (w : World) : (Glyph * bool) * World :=
  let age' := S (age g) in
  let intensity' := (intensity g * (95 # 100))%Q in
  let keep := Qltb (1 # 10) intensity' in
  let '(c, w1) := py_choice (glyph_alphabet (type g)) [] w in
  ({| type := type g; intensity := intensity'; position := position g;
      age := age'; char := c; color_pair := color_pair g |}, keep, w1).

Fixpoint tick_glyphs (gs : list Glyph) (w : World) : list Glyph * World :=
  match gs with
  | [] => ([], w)
  | g :: gs' =>
      let '(g', keep, w1) := tick_glyph g w in
      let '(active, w2) := tick_glyphs gs' w1 in
      (if keep then g' :: active else active, w2)
  end.

(** A freshly constructed [Glyph(type=..., intensity=..., position=..., color_pair=...)] *)
Definition new_glyph (t : GlyphType) (i : Q) (pos : Z * Z) (c : Z) : Glyph :=
  {| type := t; intensity := i; position := pos; age := 0;
     char := u8 " "; color_pair := c |}.

(** [if random.random() < p: self.glyphs.append(Glyph(...))] *)
Definition maybe_spawn (t : GlyphType) (p i : Q) (gs : list Glyph) (w : World)
  : list Glyph * World :=
  let '(u, w1) := py_random w in
  if Qltb u p then
    let '(x, w2) := py_randint 0 20 w1 in
    let '(y, w3) := py_randint 0 5 w2 in
    let '(c, w4) := py_randint 1 6 w3 in
    (gs ++ [new_glyph t i (x, y) c], w4)
  else (gs, w1).

(** [NetworkEntity.update_glyphs] *)
Definition update_glyphs (e : NetworkEntity) (w : World) : NetworkEntity * World :=
  let '(active_glyphs, w1) := tick_glyphs (glyphs e) w in
  let flow_intensity := (py_min (rx_rate e + tx_rate e) 1000 / 1000)%Q in
  let '(gs2, w2) := maybe_spawn FLOW (flow_intensity * (3 # 10))%Q flow_intensity active_glyphs w1 in
  let '(gs3, w3) := maybe_spawn WHISPER (essence e * (2 # 10))%Q (essence e) gs2 w2 in
  (with_glyphs e gs3, w3).

(* ================================================================== *)
(** * Configuration, whisper collector, ancient script                  *)
(* ================================================================== *)

Record MysticConfig := {
  update_interval : Q;
  glyph_density : Q;
  show_whispers : bool;
  show_aura : bool;
  ancient_script : bool;
  encrypt_logs : bool;
  log_file : option str;      (* [None] and the empty string are both falsy *)
  ritual_timeout : Z;
  max_spirits : Z;
  show_loopback : bool
}.

(** [MysticConfig.__init__] *)
Definition MysticConfig_init : MysticConfig :=
  {| update_interval := 1; glyph_density := 3 # 10; show_whispers := true;
     show_aura := true; ancient_script := true; encrypt_logs := false;
     log_file := Some (u8 "network_mysteries.log"); ritual_timeout := 30;
     max_spirits := 20; show_loopback := false |}.

Definition with_show_loopback (c : MysticConfig) (b : bool) : MysticConfig :=
  {| update_interval := update_interval c; glyph_density := glyph_density c;
     show_whispers := show_whispers c; show_aura := show_aura c;
     ancient_script := ancient_script c; encrypt_logs := encrypt_logs c;
     log_file := log_file c; ritual_timeout := ritual_timeout c;
     max_spirits := max_spirits c; show_loopback := b |}.

Definition with_ancient_script (c : MysticConfig) (b : bool) : MysticConfig :=
  {| update_interval := update_interval c; glyph_density := glyph_density c;
     show_whispers := show_whispers c; show_aura := show_aura c;
     ancient_script := b; encrypt_logs := encrypt_logs c;
     log_file := log_file c; ritual_timeout := ritual_timeout c;
     max_spirits := max_spirits c; show_loopback := show_loopback c |}.

(** A configuration file may set [max_spirits] to any integer. *)
Definition with_max_spirits (c : MysticConfig) (k : Z) : MysticConfig :=
  {| update_interval := update_interval c; glyph_density := glyph_density c;
     show_whispers := show_whispers c; show_aura := show_aura c;
     ancient_script := ancient_script c; encrypt_logs := encrypt_logs c;
     log_file := log_file c; ritual_timeout := ritual_timeout c;
     max_spirits := k; show_loopback := show_loopback c |}.

(** [WhisperCollector]: a [deque(maxlen=100)] of lines, oldest first. *)
Record WhisperCollector := { collected : list str }.

Definition WhisperCollector_init : WhisperCollector := {| collected := [] |}.

(** [deque.append] under [maxlen=100] *)
Definition deque_append (l : list str) (x : str) : list str :=
  let l' := l ++ [x] in if 100 <? len l' then tl l' else l'.

(** [WhisperCollector.add_whisper] *)
Definition collect_whisper (c : WhisperCollector) (source message level : str) (w : World)
  : WhisperCollector * World :=
  let '(now, w1) := py_now w in
  let whisper := u8 "[" ++ strftime_YmdHMS now ++ u8 "] [" ++ level ++ u8 "] "
                   ++ source ++ u8 ": " ++ message in
  ({| collected := deque_append (collected c) whisper |}, w1).

(** [WhisperCollector.get_recent_whispers]: [list(self.whispers)[-count:]],
    which for a count of 0 is the whole list *)
Definition get_recent_whispers (c : WhisperCollector) (count : nat) : list str :=
  match count with
  | O => collected c
  | S _ => last_n count (collected c)
  end.

(** ** AncientScript *)

Definition ancient_symbols : list str :=
  [u8 "Ⅰ"; u8 "Ⅱ"; u8 "Ⅲ"; u8 "Ⅳ"; u8 "Ⅴ"; u8 "Ⅵ"; u8 "Ⅶ"; u8 "Ⅷ"; u8 "Ⅸ"; u8 "Ⅹ";
   u8 "Ⅺ"; u8 "Ⅻ"; u8 "ↀ"; u8 "ↁ"; u8 "ↂ"; u8 "Ↄ"; u8 "ↅ"; u8 "ↆ"; u8 "ↇ"; u8 "ↈ"].

(** the [while int_part > 0] loop of [encode_number]; [result] is kept
    reversed, as the final [reversed(result)] reads it *)
Fixpoint encode_number_loop (fuel : nat) (int_part : Z) (result : list str) : list str :=
  match fuel with
  | O => result
  | S f =>
      if 0 <? int_part then
        let symbol_idx := (int_part - 1) mod len ancient_symbols in
        encode_number_loop f (int_part / len ancient_symbols)
                           (nth_str ancient_symbols symbol_idx :: result)
      else result
  end.

(** [AncientScript.encode_number] *)
Definition encode_number (num : Q) : str :=
  if Qltb num 1 then u8 "↊"
  else
    let int_part := int_of_float num in
    concat (encode_number_loop (S (Z.to_nat (Z.log2 int_part))) int_part []).

Definition rate_units : list (str * Z) :=
  [ (u8 "Ⓑ/ⓢ", 1); (u8 "ⓀⒷ/ⓢ", 1024); (u8 "ⓂⒷ/ⓢ", 1024 ^ 2);
    (u8 "ⒼⒷ/ⓢ", 1024 ^ 3); (u8 "ⓉⒷ/ⓢ", 1024 ^ 4) ].

(** the descending [for i in range(len(units) - 1, -1, -1)] of [encode_rate] *)
Fixpoint encode_rate_loop (rate : Q) (units_desc : list (str * Z)) : option str :=
  match units_desc with
  | [] => None
  | (unit, divisor) :: rest =>
      if Qle_bool (inject_Z divisor) rate
      then Some (encode_number (rate / inject_Z divisor)%Q ++ u8 " " ++ unit)
      else encode_rate_loop rate rest
  end.

(** [AncientScript.encode_rate] *)
Definition encode_rate (rate : Q) : str :=
  match encode_rate_loop rate (rev rate_units) with
  | Some s => s
  | None => u8 "↊ " ++ u8 "Ⓑ/ⓢ"
  end.

Definition hour_symbols : list str :=
  [u8 "子"; u8 "丑"; u8 "寅"; u8 "卯"; u8 "辰"; u8 "巳";
   u8 "午"; u8 "未"; u8 "申"; u8 "酉"; u8 "戌"; u8 "亥"].

Definition minute_symbols : list str :=
  [u8 "初"; u8 "壹"; u8 "贰"; u8 "叁"; u8 "肆"; u8 "伍";
   u8 "陆"; u8 "柒"; u8 "捌"; u8 "玖"; u8 "拾"].

(** [AncientScript.get_mystic_time] *)
Definition get_mystic_time (w : World) : str * World :=
  let '(now, w1) := py_now w in
  let hour_idx := hour now mod 12 in
  let minute_idx := minute now / 6 in
  (nth_str hour_symbols hour_idx ++ nth_str minute_symbols minute_idx ++ u8 "刻", w1).

(* ================================================================== *)
(** * The mystic: state, rituals and the scanner                        *)
(* ================================================================== *)

(** ** Dictionaries keyed by strings, in insertion order *)

Section Dict.
Variable V : Type.

Fixpoint dict_get (k : str) (d : list (str * V)) : option V :=
  match d with
  | [] => None
  | (k', v) :: d' => if str_eqb k k' then Some v else dict_get k d'
  end.

(** [d[k] = v]: in place when the key exists, appended otherwise *)
Fixpoint dict_set (k : str) (v : V) (d : list (str * V)) : list (str * V) :=
  match d with
  | [] => [(k, v)]
  | (k', v') :: d' =>
      if str_eqb k k' then (k, v) :: d' else (k', v') :: dict_set k v d'
  end.

(** [d.pop(k)]: the key is gone afterwards *)
Definition dict_pop (k : str) (d : list (str * V)) : list (str * V) :=
  filter (fun kv => negb (str_eqb k (fst kv))) d.

(** [k in d] *)
Definition dict_has (k : str) (d : list (str * V)) : bool :=
  match dict_get k d with Some _ => true | None => false end.

(** [d.values()] *)
Definition dict_values (d : list (str * V)) : list V := map snd d.

Definition dict_keys (d : list (str * V)) : list str := map fst d.
End Dict.

(** [s.add(x)] on a set of strings *)
Definition set_add (x : str) (s : list str) : list str :=
  if str_in x s then s else s ++ [x].

Record NetworkMystic := {
  config : MysticConfig;
  entities : list (str * NetworkEntity);
  mystic_whispers : WhisperCollector;
  last_update : Q;
  running : bool;
  colors : list (Z * Z)
}.

Definition with_config (m : NetworkMystic) (c : MysticConfig) : NetworkMystic :=
  {| config := c; entities := entities m; mystic_whispers := mystic_whispers m;
     last_update := last_update m; running := running m; colors := colors m |}.

Definition with_entities (m : NetworkMystic) (d : list (str * NetworkEntity)) : NetworkMystic :=
  {| config := config m; entities := d; mystic_whispers := mystic_whispers m;
     last_update := last_update m; running := running m; colors := colors m |}.

Definition with_mystic_whispers (m : NetworkMystic) (c : WhisperCollector) : NetworkMystic :=
  {| config := config m; entities := entities m; mystic_whispers := c;
     last_update := last_update m; running := running m; colors := colors m |}.

Definition with_last_update (m : NetworkMystic) (t : Q) : NetworkMystic :=
  {| config := config m; entities := entities m; mystic_whispers := mystic_whispers m;
     last_update := t; running := running m; colors := colors m |}.

Definition with_running (m : NetworkMystic) (b : bool) : NetworkMystic :=
  {| config := config m; entities := entities m; mystic_whispers := mystic_whispers m;
     last_update := last_update m; running := b; colors := colors m |}.

Definition with_colors (m : NetworkMystic) (c : list (Z * Z)) : NetworkMystic :=
  {| config := config m; entities := entities m; mystic_whispers := mystic_whispers m;
     last_update := last_update m; running := running m; colors := c |}.

(** [NetworkMystic.__init__] *)
Definition NetworkMystic_init (c : MysticConfig) (w : World) : NetworkMystic * World :=
  let '(t, w1) := py_time w in
  ({| config := c; entities := []; mystic_whispers := WhisperCollector_init;
      last_update := t; running := false; colors := [] |}, w1).

(** [self.whispers.add_whisper(source, message, level)] *)
Definition mystic_whisper (source message level : str) (m : NetworkMystic) (w : World)
  : NetworkMystic * World :=
  let '(c, w1) := collect_whisper (mystic_whispers m) source message level w in
  (with_mystic_whispers m c, w1).

(** ** Rituals *)

(** [x % m] on floats, for a positive [m] *)
Definition float_mod (x m : Q) : Q := (x - inject_Z (Qfloor (x / m)) * m)%Q.

Definition _ritual_moon_cycle (w : World) : str * World :=
  let '(now, w1) := py_time w in
  let moon_cycle := (float_mod now 2419200 / 2419200)%Q in
  (if Qltb moon_cycle (25 # 100) then u8 "New Moon: Spirits are quiet"
   else if Qltb moon_cycle (5 # 10) then u8 "Waxing Moon: Connections strengthen"
   else if Qltb moon_cycle (75 # 100) then u8 "Full Moon: Maximum flow"
   else u8 "Waning Moon: Paths fade", w1).

Definition _ritual_tide_change (w : World) : str * World :=
  let '(now, w1) := py_time w in
  let tide := math_sin w (now / 3600)%Q in
  (if Qltb (7 # 10) tide then u8 "High Tide: Data flows freely"
   else if Qltb tide (- (7 # 10))%Q then u8 "Low Tide: Channels narrow"
   else u8 "Changing Tide: Flux in patterns", w1).

Definition _ritual_star_alignment (w : World) : str * World :=
  py_choice [u8 "Stars favor communication"; u8 "Constellations whisper of packets";
             u8 "Celestial paths clear"; u8 "Starlight reveals hidden flows";
             u8 "Galactic currents shift"] [] w.

Definition _ritual_wind_shift (w : World) : str * World :=
  py_choice [u8 "Northern Wind: Cold data streams"; u8 "Southern Wind: Warm connections";
             u8 "Eastern Wind: Dawn of new packets"; u8 "Western Wind: Dusk of old routes";
             u8 "Still Air: Silent monitoring"] [] w.

(** [init_rituals] *)
Definition rituals : list (World -> str * World) :=
  [_ritual_moon_cycle; _ritual_tide_change; _ritual_star_alignment; _ritual_wind_shift].

Definition perform_rituals (m : NetworkMystic) (w : World) : NetworkMystic * World :=
  let '(u, w1) := py_random w in
  if Qltb u (1 # 10) then
    let '(ritual, w2) := py_choice rituals (fun w => ([], w)) w1 in
    let '(result, w3) := ritual w2 in
    mystic_whisper (u8 "Ritual") result (u8 "MYSTIC") m w3
  else (m, w1).

(** ** Outcomes of code that may raise *)

Inductive outcome (S A : Type) :=
| Return (a : A) (s : S)     (* normal completion *)
| Raise (e : exn) (s : S).   (* an exception leaves the block; mutations so far stay *)
Arguments Return {S A} a s.
Arguments Raise {S A} e s.

(** ** The scanner *)

(** What the loop body of [scan_spirits] makes of one line before it
    touches the registry. *)
Inductive Row :=
| Skipped                                   (* one of the first three [continue]s *)
| Malformed (interface : str)               (* counted as found, fewer than 16 fields *)
| NotANumber (interface : str) (e : exn)    (* counted as found, [int()] raises *)
| Sample (interface : str) (rx tx : Z).     (* counted as found, counters parsed *)

(** the [ValueError] of [int(s)]; the message shows [repr(s)] *)
Definition int_error (s : str) : exn :=
  ValueError (u8 "invalid literal for int() with base 10: " ++ py_repr s).

Definition parse_line (show_lo : bool) (line : str) : Row :=
  if str_eqb (strip line) [] then Skipped
  else
    let parts := split_on 58%N line in
    if len parts <? 2 then Skipped
    else
      let interface := strip (nth_str parts 0) in
      if str_eqb interface [] || (str_eqb interface (u8 "lo") && negb show_lo) then Skipped
      else
        let data := split_ws (nth_str parts 1) in
        if len data <? 16 then Malformed interface
        else
          match py_int (nth_str data 0) with
          | None => NotANumber interface (int_error (nth_str data 0))
          | Some rx_bytes =>
              match py_int (nth_str data 8) with
              | None => NotANumber interface (int_error (nth_str data 8))
              | Some tx_bytes => Sample interface rx_bytes tx_bytes
              end
          end.

(** the status message chosen by the rate thresholds, if any *)
Definition status_whisper (e : NetworkEntity) : option str :=
  if Qltb 1000000 (rx_rate e) then Some (u8 "Great flow from beyond")
  else if Qltb (rx_rate e) 1000 && Qltb (tx_rate e) 1000 then Some (u8 "Resting in silence")
  else if Qltb (tx_rate e * 2)%Q (rx_rate e) then Some (u8 "Listening more than speaking")
  else if Qltb (rx_rate e * 2)%Q (tx_rate e) then Some (u8 "Whispering to the void")
  else None.

(** [if interface not in self.entities: ...] *)
Definition ensure_spirit (interface : str) (m : NetworkMystic) (w : World)
  : NetworkMystic * World :=
  if dict_has interface (entities m) then (m, w)
  else
    let '(spirit, w1) := NetworkEntity_init interface interface w in
    let m1 := with_entities m (dict_set interface spirit (entities m)) in
    mystic_whisper (u8 "Veil") (u8 "Spirit '" ++ name spirit ++ u8 "' has appeared")
                   (u8 "SPIRIT") m1 w1.

(** the update of one entity from its parsed counters *)
Definition update_entity (current_time last_upd : Q) (rx_bytes' tx_bytes' : Z)
    (entity : NetworkEntity) (w : World) : NetworkEntity * World :=
  let entity := with_last_seen entity current_time in
  let time_diff := (current_time - last_upd)%Q in
  let entity :=
    if Qltb 0 time_diff then
      with_rates entity (inject_Z (rx_bytes' - rx_bytes entity) / time_diff)%Q
                        (inject_Z (tx_bytes' - tx_bytes entity) / time_diff)%Q
    else entity in
  let entity := with_bytes entity rx_bytes' tx_bytes' in
  let '(entity, w1) :=
    match status_whisper entity with
    | Some msg => add_whisper entity msg w
    | None => (entity, w)
    end in
  update_glyphs entity w1.

(** the rest of the loop body once the counters are parsed *)
Definition observe (current_time : Q) (interface : str) (rx_bytes' tx_bytes' : Z)
    (m : NetworkMystic) (w : World) : NetworkMystic * World :=
  let '(m1, w1) := ensure_spirit interface m w in
  match dict_get interface (entities m1) with
  | Some entity =>
      let '(entity', w2) :=
        update_entity current_time (last_update m1) rx_bytes' tx_bytes' entity w1 in
      (with_entities m1 (dict_set interface entity' (entities m1)), w2)
  | None => (m1, w1)
  end.

(** [for line in lines: ...]; the value returned is [found_interfaces] *)
Fixpoint scan_lines (current_time : Q) (lines : list str) (found : list str)
    (m : NetworkMystic) (w : World) : outcome (NetworkMystic * World) (list str) :=
  match lines with
  | [] => Return found (m, w)
  | line :: rest =>
      match parse_line (show_loopback (config m)) line with
      | Skipped => scan_lines current_time rest found m w
      | Malformed interface => scan_lines current_time rest (set_add interface found) m w
      | NotANumber interface e => Raise e (m, w)
      | Sample interface rx tx =>
          let '(m', w') := observe current_time interface rx tx m w in
          scan_lines current_time rest (set_add interface found) m' w'
      end
  end.

(** [for iface in expired: ...] *)
Fixpoint fade (expired : list str) (m : NetworkMystic) (w : World) : NetworkMystic * World :=
  match expired with
  | [] => (m, w)
  | iface :: rest =>
      match dict_get iface (entities m) with
      | Some spirit =>
          let m1 := with_entities m (dict_pop iface (entities m)) in
          let '(m2, w2) :=
            mystic_whisper (u8 "Veil") (u8 "Spirit '" ++ name spirit ++ u8 "' has faded")
                           (u8 "SPIRIT") m1 w in
          fade rest m2 w2
      | None => fade rest m w
      end
  end.

(** the two loops after the scan of the lines *)
Definition expire (found : list str) (m : NetworkMystic) (w : World) : NetworkMystic * World :=
  let expired := filter (fun iface => negb (str_in iface found)) (dict_keys (entities m)) in
  fade expired m w.

(** [open('/proc/net/dev').readlines()] *)
Definition read_proc_net_dev (w : World) : (exn + list str) * World :=
  (proc_net_dev w (proc_reads w), with_proc_reads w (S (proc_reads w))).

(** the body of the [try] of [scan_spirits] *)
Definition scan_spirits_try (m : NetworkMystic) (w : World)
  : outcome (NetworkMystic * World) unit :=
  let '(r, w0) := read_proc_net_dev w in
  match r with
  | inl e => Raise e (m, w0)
  | inr all_lines =>
      let lines := skipn 2 all_lines in
      let '(current_time, w1) := py_time w0 in
      match scan_lines current_time lines [] m w1 with
      | Raise e s => Raise e s
      | Return found (m2, w2) => Return tt (expire found m2 w2)
      end
  end.

(** [NetworkMystic.scan_spirits]: the [try] and its [except Exception] *)
Definition scan_spirits (m : NetworkMystic) (w : World)
  : outcome (NetworkMystic * World) unit :=
  match scan_spirits_try m w with
  | Return _ s => Return tt s
  | Raise e (m', w') =>
      Return tt (mystic_whisper (u8 "Scanner") (u8 "Failed to scan: " ++ str_of_exn e)
                                (u8 "ERROR") m' w')
  end.

(* ================================================================== *)
(** * The renderer                                                      *)
(* ================================================================== *)

(** ** A small exception-and-state monad *)

Definition M (S A : Type) := S -> outcome S A.

Definition ret {S A} (a : A) : M S A := fun s => Return a s.

Definition bind {S A B} (c : M S A) (k : A -> M S B) : M S B :=
  fun s => match c s with
           | Return a s' => k a s'
           | Raise e s' => Raise e s'
           end.

Definition raise {S A} (e : exn) : M S A := fun s => Raise e s.

Notation "x <- c ;; k" := (bind c (fun x => k))
  (at level 61, c at next level, right associativity).
Notation "c ;;; k" := (bind c (fun _ => k))
  (at level 61, right associativity).

(** [try: body / except: handler] *)
Definition try_except {S A} (body : M S A) (handler : M S A) : M S A :=
  fun s => match body s with
           | Return a s' => Return a s'
           | Raise _ s' => handler s'
           end.

(** [try: body / except: pass] *)
Definition try_pass {S} (body : M S unit) : M S unit := try_except body (ret tt).

(** [try: body / except curses.error: pass] *)
Definition try_pass_curses {S} (body : M S unit) : M S unit :=
  fun s => match body s with
           | Return a s' => Return a s'
           | Raise CursesError s' => Return tt s'
           | Raise e s' => Raise e s'
           end.

(** [for x in xs: body(x)] *)
Fixpoint for_each {S A} (xs : list A) (body : A -> M S unit) : M S unit :=
  match xs with
  | [] => ret tt
  | x :: xs' => body x ;;; for_each xs' body
  end.

(** [range(a, b)] *)
Definition range2 (a b : Z) : list Z :=
  map (fun i => a + Z.of_nat i) (seq 0 (Z.to_nat (b - a))).

(** [range(n)] *)
Definition range (n : Z) : list Z := range2 0 n.

(** ** The curses window *)

(** The operations of the [curses] window the program draws on.  Each
    call gives the window afterwards and whether it succeeded; a call that
    fails raises [curses.error], possibly after changing the window. *)
Class Curses (Screen : Type) := {
  addstr : Z -> Z -> str -> option Z -> Screen -> Screen * bool;  (* [addstr(y, x, s[, attr])] *)
  clear : Screen -> Screen * bool;
  refresh : Screen -> Screen * bool;
  getmaxyx : Screen -> Z * Z;      (* (height, width) *)
  LINES : Screen -> Z;             (* [curses.LINES] *)
  COLS : Screen -> Z               (* [curses.COLS] *)
}.

Definition A_NORMAL : Z := 0.
Definition A_DIM : Z := 1048576.
Definition A_BOLD : Z := 2097152.
Definition curses_color_pair (n : Z) : Z := Z.shiftl n 8.

(** [NetworkMystic.init_colors] *)
Definition init_colors (m : NetworkMystic) : NetworkMystic :=
  with_colors m (map (fun pair_id => (pair_id, curses_color_pair pair_id)) [1; 2; 3; 4; 5; 6; 7]).

Fixpoint colors_get (k : Z) (d : list (Z * Z)) : option Z :=
  match d with
  | [] => None
  | (k', v) :: d' => if k =? k' then Some v else colors_get k d'
  end.

(** [s.splitlines()] *)
Definition is_linebreak (c : uchar) : bool :=
  ((c =? 10) || (c =? 11) || (c =? 12) || (c =? 13) || (c =? 28) || (c =? 29)
   || (c =? 30) || (c =? 133) || (c =? 8232) || (c =? 8233))%N.

Fixpoint splitlines_go (cur : str) (s : str) : list str :=
  match s with
  | [] => match cur with [] => [] | _ => [rev cur] end
  | c :: s' =>
      if is_linebreak c then
        rev cur :: match c, s' with
                   | 13%N, 10%N :: s'' => splitlines_go [] s''
                   | _, _ => splitlines_go [] s'
                   end
      else splitlines_go (c :: cur) s'
  end.

Definition splitlines (s : str) : list str := splitlines_go [] s.

(** [NetworkMystic.get_interface_ips]; [None] from the oracle stands for
    any exception of [subprocess.run], which the bare [except] turns into
    an empty list. *)
Definition get_interface_ips (interface : str) (w : World) : list str :=
  match ip_addr_show w interface with
  | None => []
  | Some stdout =>
      flat_map (fun line =>
                  let parts := split_ws line in
                  if 4 <=? len parts then
                    let ip := nth_str (split_on 47%N (nth_str parts 3)) 0 in
                    if negb (str_eqb ip []) && negb (str_eqb ip (u8 "127.0.0.1"))
                    then [ip] else []
                  else [])
               (splitlines stdout)
  end.

(** the [for unit in units] loop of [format_rate] *)
Fixpoint format_rate_loop (rate : Q) (units : list str) : str :=
  match units with
  | [] => u8 "0 B/s"
  | [unit] => format_fixed 1 rate ++ u8 " " ++ unit
  | unit :: rest =>
      if Qltb rate 1024 then format_fixed 1 rate ++ u8 " " ++ unit
      else format_rate_loop (rate / 1024)%Q rest
  end.

(** [NetworkMystic.format_rate] *)
Definition format_rate (rate : Q) : str :=
  format_rate_loop rate [u8 "B/s"; u8 "KB/s"; u8 "MB/s"; u8 "GB/s"; u8 "TB/s"].

(** the rate text in the display mode selected by [config.ancient_script] *)
Definition display_rate (m : NetworkMystic) (rate : Q) : str :=
  if ancient_script (config m) then encode_rate rate else format_rate rate.

(** insertion into a list already sorted by descending key; [x] goes
    before the items whose key is not larger *)
Fixpoint insert_desc {A} (key : A -> Q) (x : A) (l : list A) : list A :=
  match l with
  | [] => [x]
  | y :: l' => if Qle_bool (key y) (key x) then x :: y :: l' else y :: insert_desc key x l'
  end.

(** [sorted(xs, key=key, reverse=True)]: descending and stable *)
Fixpoint sorted_desc {A} (key : A -> Q) (xs : list A) : list A :=
  match xs with
  | [] => []
  | x :: xs' => insert_desc key x (sorted_desc key xs')
  end.

(** [sum(...)] over floats, starting from [0] *)
Definition py_sum (xs : list Q) : Q := fold_left Qplus xs 0%Q.

Section Renderer.
Context {Screen : Type} {curses : Curses Screen}.

(** The renderer works on the window and reads the world. *)
Definition St := (Screen * World)%type.

(** a call on the window; [curses.error] when it fails *)
Definition on_screen (call : Screen -> Screen * bool) : M St unit :=
  fun s => let '(scr, ok) := call (fst s) in
           if ok then Return tt (scr, snd s) else Raise CursesError (scr, snd s).

Definition ask_screen {A} (f : Screen -> A) : M St A :=
  fun s => Return (f (fst s)) s.

Definition on_world {A} (f : World -> A * World) : M St A :=
  fun s => let '(a, w) := f (snd s) in Return a (fst s, w).

Definition ask_world {A} (f : World -> A) : M St A :=
  fun s => Return (f (snd s)) s.

(** [screen.addstr(y, x, s, attr)] *)
Definition put (y x : Z) (s : str) (attr : option Z) : M St unit :=
  on_screen (addstr y x s attr).

(** [self.colors[k]] *)
Definition the_color (m : NetworkMystic) (k : Z) : M St Z :=
  match colors_get k (colors m) with
  | Some c => ret c
  | None => raise (KeyError k)
  end.

Definition border_chars : list str :=
  [u8 "╔"; u8 "╗"; u8 "╚"; u8 "╝"; u8 "═"; u8 "║"].

(** [NetworkMystic.draw_veil_border] *)
Definition draw_veil_border (height width : Z) : M St unit :=
  let bc := nth_str border_chars in
  for_each (range height) (fun y =>
    if y =? 0 then
      try_pass (put y 0 (bc 0 ++ repeat_str (bc 4) (width - 2) ++ bc 1) None)
    else if y =? height - 1 then
      try_pass (put y 0 (bc 2 ++ repeat_str (bc 4) (width - 2) ++ bc 3) None)
    else
      try_pass (put y 0 (bc 5) None ;;; put y (width - 1) (bc 5) None)).

(** [NetworkMystic.render_glyph] *)
Definition render_glyph (m : NetworkMystic) (glyph : Glyph) (offset_x offset_y : Z)
  : M St unit :=
  let '(x, y) := position glyph in
  let screen_x := offset_x + x in
  let screen_y := offset_y + y in
  cols <- ask_screen COLS ;;
  lines <- ask_screen LINES ;;
  if (0 <=? screen_x) && (screen_x <? cols) && (0 <=? screen_y) && (screen_y <? lines) then
    try_pass
      (let attr := match colors_get (color_pair glyph) (colors m) with
                   | Some c => c
                   | None => A_NORMAL
                   end in
       let attr := if Qltb (3 # 10) (intensity glyph) then Z.lor attr A_BOLD else attr in
       let attr := if Qltb (intensity glyph) (6 # 10) then Z.lor attr A_DIM else attr in
       put screen_y screen_x (char glyph) (Some attr))
  else ret tt.

Definition bar_chars : list str :=
  [u8 "▁"; u8 "▂"; u8 "▃"; u8 "▄"; u8 "▅"; u8 "▆"; u8 "▇"; u8 "█"].

(** one of the two bar loops of [render_flow_visualization] *)
Definition draw_bar (m : NetworkMystic) (bar_height : Z) (x y : Z) (color : Z)
  : M St unit :=
  for_each (range bar_height) (fun i =>
    let char_idx := Z.min (i * len bar_chars / 5) (len bar_chars - 1) in
    try_pass (c <- the_color m color ;;
              put (y + 4 - i) x (nth_str bar_chars char_idx) (Some c))).

(** [NetworkMystic.render_flow_visualization] *)
Definition render_flow_visualization (m : NetworkMystic) (rx_rate' tx_rate' : Q)
    (x y width : Z) : M St unit :=
  let max_rate := 1000%Q in
  let rx_height := Z.min (int_of_float ((rx_rate' / max_rate) * 5)%Q) 5 in
  let tx_height := Z.min (int_of_float ((tx_rate' / max_rate) * 5)%Q) 5 in
  draw_bar m rx_height x y 2 ;;;
  draw_bar m tx_height (x + 2) y 3.

(** the six header lines of an entity block, written in sequence with no
    handler of their own *)
Definition spirit_header (m : NetworkMystic) (entity : NetworkEntity) (y_start : Z)
    (ip_display : str) : list (M St unit) :=
  [ put y_start 2 (u8 "╭─ " ++ name entity) (Some A_BOLD);
    (c <- the_color m 4 ;;
     put (y_start + 1) 2 (u8 "│  Aura: " ++ aura entity) (Some c));
    (c <- the_color m 2 ;;
     put (y_start + 2) 2 (u8 "│  From Beyond: " ++ display_rate m (rx_rate entity)) (Some c));
    (c <- the_color m 3 ;;
     put (y_start + 3) 2 (u8 "│  To Void:     " ++ display_rate m (tx_rate entity)) (Some c));
    put (y_start + 4) 2 (u8 "│  Essence: " ++ format_fixed 2 (essence entity)) (Some A_DIM);
    put (y_start + 5) 2 (u8 "│  Form: " ++ ip_display) (Some A_DIM) ].

(** the loop over [entity.whispers[-2:]]; returns the final [whisper_y] *)
Fixpoint draw_spirit_whispers (ws : list str) (whisper_y : Z) : M St Z :=
  match ws with
  | [] => ret whisper_y
  | whisper :: rest =>
      lines <- ask_screen LINES ;;
      y' <- (if whisper_y <? lines - 2 then
               try_except (put whisper_y 2 (u8 "│  " ++ whisper) (Some A_DIM) ;;;
                           ret (whisper_y + 1))
                          (ret whisper_y)
             else ret whisper_y) ;;
      draw_spirit_whispers rest y'
  end.

(** what follows the header in an entity block *)
Definition spirit_rest (m : NetworkMystic) (entity : NetworkEntity) (y_start : Z)
  : M St unit :=
  render_flow_visualization m (rx_rate entity) (tx_rate entity) 40 (y_start + 1) 10 ;;;
  whisper_y <- draw_spirit_whispers (last_n 2 (whispers entity)) (y_start + 6) ;;
  cols <- ask_screen COLS ;;
  try_pass (put whisper_y 2 (u8 "╰" ++ repeat_str (u8 "─") (cols - 4)) None) ;;;
  for_each (glyphs entity) (fun glyph => render_glyph m glyph 25 (y_start - 4)).

Definition ip_display_of (ips : list str) : str :=
  match ips with
  | [] => u8 "[No physical form]"
  | _ => join (u8 ", ") ips
  end.

(** [NetworkMystic.draw_spirit_info] *)
Definition draw_spirit_info (m : NetworkMystic) (entity : NetworkEntity) (y_start : Z)
  : M St unit :=
  try_pass_curses
    (ips <- ask_world (get_interface_ips (interface entity)) ;;
     for_each (spirit_header m entity y_start (ip_display_of ips)) (fun write => write) ;;;
     spirit_rest m entity y_start).

(** The entity block as the specification words it: every write that
    fails is dropped on its own and the rest of the block follows. *)
Definition draw_spirit_info_each_guarded (m : NetworkMystic) (entity : NetworkEntity)
    (y_start : Z) : M St unit :=
  try_pass_curses
    (ips <- ask_world (get_interface_ips (interface entity)) ;;
     for_each (spirit_header m entity y_start (ip_display_of ips)) try_pass ;;;
     spirit_rest m entity y_start).

(** [NetworkMystic.draw_status_bar] *)
Definition draw_status_bar (m : NetworkMystic) (height width : Z) : M St unit :=
  try_pass_curses
    (let status_y := height - 3 in
     let total_rx := py_sum (map rx_rate (dict_values (entities m))) in
     let total_tx := py_sum (map tx_rate (dict_values (entities m))) in
     let status := u8 "Total Flow: " ++ display_rate m total_rx ++ u8 " ╫ "
                     ++ display_rate m total_tx in
     let status := status ++ u8 " │ Spirits: " ++ str_of_int (len (entities m)) in
     mystic_time <- on_world get_mystic_time ;;
     let status := status ++ u8 " │ " ++ mystic_time in
     let status := if width - 4 <? len status then slice_to status (width - 4) else status in
     let status_x := Z.max 0 ((width - len status) / 2) in
     try_pass (put status_y status_x status (Some A_DIM))).

(** [NetworkMystic.draw_whispers_panel] *)
Definition draw_whispers_panel (m : NetworkMystic) (height width : Z) : M St unit :=
  if negb (show_whispers (config m)) then ret tt
  else
    try_pass_curses
      (let panel_width := Z.min 50 (width - 2) in
       let panel_x := width - panel_width - 1 in
       try_pass (put 1 panel_x (u8 "╭─[Whispers]─") (Some A_DIM)) ;;;
       let whispers := get_recent_whispers (mystic_whispers m) 8 in
       for_each (combine (range (len whispers)) whispers) (fun '(i, whisper) =>
         if i <? height - 4 then
           let line := slice_to whisper (panel_width - 2) in
           try_pass (put (2 + i) panel_x (u8 "│" ++ line) (Some A_DIM))
         else ret tt) ;;;
       for_each (range2 1 (Z.min (len whispers + 2) (height - 2))) (fun y =>
         try_pass (put y (panel_x + panel_width) (u8 "│") (Some A_DIM))) ;;;
       let end_y := Z.min (len whispers + 2) (height - 2) in
       try_pass (put end_y panel_x (u8 "╰" ++ repeat_str (u8 "─") panel_width) (Some A_DIM))).

(** the loop of [draw_veil] over the sorted, truncated entities; [block]
    is the routine that draws one entity block *)
Fixpoint draw_spirits (block : NetworkEntity -> Z -> M St unit)
    (spirits : list NetworkEntity) (y height : Z) : M St unit :=
  match spirits with
  | [] => ret tt
  | spirit :: rest =>
      if y <? height - 10 then
        block spirit y ;;; draw_spirits block rest (y + 9) height
      else draw_spirits block rest y height
  end.

(** [sorted(self.entities.values(), key=..., reverse=True)[:max_spirits]] *)
Definition spirits_to_draw (m : NetworkMystic) : list NetworkEntity :=
  slice_to (sorted_desc (fun e => (rx_rate e + tx_rate e)%Q) (dict_values (entities m)))
           (max_spirits (config m)).

(** [draw_veil] with the block routine as a parameter *)
Definition draw_veil_with (block : NetworkEntity -> Z -> M St unit) (m : NetworkMystic)
  : M St unit :=
  try_pass_curses
    (on_screen clear ;;;
     hw <- ask_screen getmaxyx ;;
     let '(height, width) := hw in
     draw_veil_border height width ;;;
     let title := u8 "╡ Network Mystic ╞" in
     let title_x := Z.max 0 ((width - len title) / 2) in
     try_pass (c <- the_color m 1 ;; put 0 title_x title (Some (Z.lor A_BOLD c))) ;;;
     mystic_time <- on_world get_mystic_time ;;
     let time_x := width - len mystic_time - 2 in
     (if 0 <? time_x then try_pass (put 0 time_x mystic_time (Some A_DIM)) else ret tt) ;;;
     draw_spirits block (spirits_to_draw m) 2 height ;;;
     draw_status_bar m height width ;;;
     draw_whispers_panel m height width ;;;
     on_screen refresh).

(** [NetworkMystic.draw_veil] *)
Definition draw_veil (m : NetworkMystic) : M St unit :=
  draw_veil_with (draw_spirit_info m) m.

(** The frame as the specification words it, with every write guarded on
    its own. *)
Definition draw_veil_each_guarded (m : NetworkMystic) : M St unit :=
  draw_veil_with (draw_spirit_info_each_guarded m) m.

End Renderer.

(* ================================================================== *)
(** * The event loop                                                    *)
(* ================================================================== *)

Section EventLoop.
Context {Screen : Type} {curses : Curses Screen}.

(** [screen.getch()] *)
Definition read_key (w : World) : Z * World :=
  (getch w (key_reads w), with_key_reads w (S (key_reads w))).

(** the [if key == ord(...)] chain of [run_ritual] *)
Definition dispatch_key (key : Z) (m : NetworkMystic) (w : World) : NetworkMystic * World :=
  if key =? 113 then (with_running m false, w)
  else if key =? 32 then perform_rituals m w
  else if key =? 114 then mystic_whisper (u8 "Mystic") (u8 "Ritual refreshed") (u8 "INFO") m w
  else if key =? 108 then
    let m1 := with_config m (with_show_loopback (config m) (negb (show_loopback (config m)))) in
    let status := if show_loopback (config m1) then u8 "shown" else u8 "hidden" in
    mystic_whisper (u8 "Mystic") (u8 "Loopback spirits " ++ status) (u8 "INFO") m1 w
  else if key =? 97 then
    let m1 := with_config m (with_ancient_script (config m) (negb (ancient_script (config m)))) in
    let status := if ancient_script (config m1) then u8 "enabled" else u8 "disabled" in
    mystic_whisper (u8 "Mystic") (u8 "Ancient script " ++ status) (u8 "INFO") m1 w
  else (m, w).

(** the body of the [try] inside [while self.running]; the state is the
    mystic together with the window and the world *)
Definition run_iteration_try : M (NetworkMystic * @St Screen) unit :=
  fun '(m, (scr, w)) =>
    let '(key, w1) := read_key w in
    let '(m1, w2) := dispatch_key key m w1 in
    let '(current_time, w3) := py_time w2 in
    let time_diff := (current_time - last_update m1)%Q in
    if Qle_bool (update_interval (config m1)) time_diff then
      match scan_spirits m1 w3 with
      | Raise e (m2, w4) => Raise e (m2, (scr, w4))
      | Return _ (m2, w4) =>
          let '(m3, w5) := perform_rituals m2 w4 in
          match draw_veil m3 (scr, w5) with
          | Raise e s' => Raise e (m3, s')
          | Return _ s' => Return tt (with_last_update m3 current_time, s')
          end
      end
    else Return tt (m1, (scr, w3)).

(** one pass of the [while] loop: the [try] and its [except Exception]
    ([KeyboardInterrupt] and the sleeps are not modelled) *)
Definition run_iteration : M (NetworkMystic * @St Screen) unit :=
  fun s =>
    match run_iteration_try s with
    | Return _ s' => Return tt s'
    | Raise e (m, (scr, w)) =>
        let '(m', w') :=
          mystic_whisper (u8 "Mystic") (u8 "Error: " ++ str_of_exn e) (u8 "ERROR") m w in
        Return tt (m', (scr, w'))
    end.

(** [while self.running: ...], for at most [fuel] passes *)
Fixpoint run_loop (fuel : nat) : M (NetworkMystic * @St Screen) unit :=
  fun s =>
    match fuel with
    | O => Return tt s
    | S fuel' =>
        if running (fst s) then (run_iteration ;;; run_loop fuel') s
        else Return tt s
    end.

(** [NetworkMystic.run_ritual] up to the loop: colours, the [running]
    flag and the opening whisper *)
Definition run_ritual_begin (m : NetworkMystic) (w : World) : NetworkMystic * World :=
  let m1 := init_colors m in
  let m2 := with_running m1 true in
  mystic_whisper (u8 "Mystic") (u8 "Beginning the ritual...") (u8 "INFO") m2 w.
End EventLoop.

(* ================================================================== *)
(** * The archivist                                                     *)
(* ================================================================== *)

(** ** [json.dump(..., indent=2, ensure_ascii=False)] *)

#[local] Set Warnings "-register-all".
Inductive json :=
| JStr (s : str)
| JInt (n : Z)
| JFloat (x : Q)
| JList (items : list json)
| JDict (items : list (str * json)).

Definition backslash : uchar := 92%N.
Definition double_quote : uchar := 34%N.

(** one character inside a JSON string; only quotes, backslashes and
    control characters are escaped *)
Definition json_escape (c : uchar) : str :=
  if (c =? 34)%N then [backslash; double_quote]
  else if (c =? 92)%N then [backslash; backslash]
  else if (c =? 10)%N then backslash :: u8 "n"
  else if (c =? 13)%N then backslash :: u8 "r"
  else if (c =? 9)%N then backslash :: u8 "t"
  else if (c =? 8)%N then backslash :: u8 "b"
  else if (c =? 12)%N then backslash :: u8 "f"
  else if (c <? 32)%N then backslash :: u8 "u00" ++ [hex_digit (c / 16); hex_digit (c mod 16)]
  else [c].

Definition json_string (s : str) : str :=
  [double_quote] ++ flat_map json_escape s ++ [double_quote].

(** the line break and indentation written before an item at [level] *)
Definition newline_indent (level : nat) : str := 10%N :: repeat 32%N (2 * level).

Section Archivist.
(** [float.__repr__], the shortest decimal that reads back as the float *)
Variable float_repr : Q -> str.

Fixpoint json_encode (level : nat) (j : json) : str :=
  match j with
  | JStr s => json_string s
  | JInt n => str_of_int n
  | JFloat x => float_repr x
  | JList [] => u8 "[]"
  | JList (x :: xs) =>
      u8 "[" ++ newline_indent (S level) ++ json_encode (S level) x
        ++ (fix more (ys : list json) : str :=
              match ys with
              | [] => []
              | y :: ys' =>
                  u8 "," ++ newline_indent (S level) ++ json_encode (S level) y ++ more ys'
              end) xs
        ++ newline_indent level ++ u8 "]"
  | JDict [] => u8 "{}"
  | JDict ((k, v) :: kvs) =>
      u8 "{" ++ newline_indent (S level) ++ json_string k ++ u8 ": " ++ json_encode (S level) v
        ++ (fix more (ys : list (str * json)) : str :=
              match ys with
              | [] => []
              | (k', v') :: ys' =>
                  u8 "," ++ newline_indent (S level) ++ json_string k' ++ u8 ": "
                    ++ json_encode (S level) v' ++ more ys'
              end) kvs
        ++ newline_indent level ++ u8 "}"
  end.

(** the [mystery] dict of one entity *)
Definition mystery_of (entity : NetworkEntity) (w : World) : json * World :=
  let '(now, w1) := py_now w in
  (JDict [ (u8 "spirit", JStr (name entity));
           (u8 "interface", JStr (interface entity));
           (u8 "essence", JFloat (essence entity));
           (u8 "aura", JStr (aura entity));
           (u8 "total_rx", JInt (rx_bytes entity));
           (u8 "total_tx", JInt (tx_bytes entity));
           (u8 "whispers", JList (map JStr (last_n 5 (whispers entity))));
           (u8 "timestamp", JStr (isoformat now)) ], w1).

Fixpoint mysteries_of (es : list NetworkEntity) (w : World) : list json * World :=
  match es with
  | [] => ([], w)
  | e :: es' =>
      let '(j, w1) := mystery_of e w in
      let '(js, w2) := mysteries_of es' w1 in
      (j :: js, w2)
  end.

(** the [log_entry] dict *)
Definition log_entry_of (m : NetworkMystic) (w : World) : json * World :=
  let '(mysteries, w1) := mysteries_of (dict_values (entities m)) w in
  let '(now, w2) := py_now w1 in
  let '(mystic_time, w3) := get_mystic_time w2 in
  (JDict [ (u8 "timestamp", JStr (isoformat now));
           (u8 "mystic_time", JStr mystic_time);
           (u8 "total_spirits", JInt (len (entities m)));
           (u8 "mysteries", JList mysteries);
           (u8 "system_whispers",
            JList (map JStr (get_recent_whispers (mystic_whispers m) 10))) ], w3).

(** [with open(path, 'a') as f: f.write(text)] *)
Definition append_file (path text : str) (w : World) : outcome World unit :=
  match open_error w path with
  | Some e => Raise e w
  | None =>
      let old := match dict_get path (files w) with Some c => c | None => [] end in
      Return tt (with_files w (dict_set path (old ++ text) (files w)))
  end.

(** [NetworkMystic.save_mysteries] *)
Definition save_mysteries (m : NetworkMystic) (w : World) : outcome (NetworkMystic * World) unit :=
  match log_file (config m) with
  | None => Return tt (m, w)
  | Some path =>
      if str_eqb path [] then Return tt (m, w)
      else
        let '(log_entry, w1) := log_entry_of m w in
        match append_file path (json_encode 0 log_entry ++ [10%N]) w1 with
        | Return _ w2 => Return tt (m, w2)
        | Raise e w2 =>
            Return tt (mystic_whisper (u8 "Archivist") (u8 "Failed to save: " ++ str_of_exn e)
                                      (u8 "ERROR") m w2)
        end
  end.

(** [NetworkMystic.cleanup], without its prints *)
Definition cleanup (m : NetworkMystic) (w : World) : outcome (NetworkMystic * World) unit :=
  let '(m1, w1) :=
    mystic_whisper (u8 "Mystic") (u8 "Ritual complete. Veil closing...") (u8 "INFO") m w in
  save_mysteries m1 w1.
End Archivist.

(* ================================================================== *)
(** * A character grid as the curses window                             *)
(* ================================================================== *)

(** A window of [grid_lines] by [grid_cols] cells.  [cells] lists the
    characters written since the last [clear], newest first.  A write that
    starts outside the window raises [curses.error] and changes nothing;
    text wraps at the right margin, and a write that reaches the lower
    right corner raises [curses.error] after the characters that fit have
    been written.  Every character takes one cell, where a terminal gives
    some signs (those of the clock among them) two; the grid serves the
    examples, and the theorems on the renderer are stated for every
    window. *)
Record Grid := {
  grid_lines : Z;
  grid_cols : Z;
  cells : list (Z * Z * uchar)
}.

Definition grid_put (g : Grid) (y x : Z) (c : uchar) : Grid :=
  {| grid_lines := grid_lines g; grid_cols := grid_cols g; cells := (y, x, c) :: cells g |}.

Fixpoint grid_write (s : str) (y x : Z) (g : Grid) : Grid * bool :=
  match s with
  | [] => (g, true)
  | c :: s' =>
      let g' := grid_put g y x c in
      if x + 1 <? grid_cols g then grid_write s' y (x + 1) g'
      else if y + 1 <? grid_lines g then grid_write s' (y + 1) 0 g'
      else (g', false)
  end.

Definition grid_addstr (y x : Z) (s : str) (attr : option Z) (g : Grid) : Grid * bool :=
  if (0 <=? y) && (y <? grid_lines g) && (0 <=? x) && (x <? grid_cols g)
  then grid_write s y x g
  else (g, false).

Definition grid_clear (g : Grid) : Grid * bool :=
  ({| grid_lines := grid_lines g; grid_cols := grid_cols g; cells := [] |}, true).

#[export] Instance Grid_curses : Curses Grid := {
  addstr := grid_addstr;
  clear := grid_clear;
  refresh := fun g => (g, true);
  getmaxyx := fun g => (grid_lines g, grid_cols g);
  LINES := grid_lines;
  COLS := grid_cols
}.

Definition blank_grid (lines cols : Z) : Grid :=
  {| grid_lines := lines; grid_cols := cols; cells := [] |}.

(** the character shown at a cell, if one was written *)
Fixpoint cell_at (cs : list (Z * Z * uchar)) (y x : Z) : option uchar :=
  match cs with
  | [] => None
  | (y', x', c) :: cs' => if (y =? y') && (x =? x') then Some c else cell_at cs' y x
  end.

(* ================================================================== *)
(** * Notions used in the statements                                    *)
(* ================================================================== *)

(** The entity blocks a frame draws, with the line each starts on: the
    calls of the block routine made by the loop of [draw_veil]. *)
Fixpoint blocks_drawn (spirits : list NetworkEntity) (y height : Z)
  : list (NetworkEntity * Z) :=
  match spirits with
  | [] => []
  | spirit :: rest =>
      if y <? height - 10 then (spirit, y) :: blocks_drawn rest (y + 9) height
      else blocks_drawn rest y height
  end.

(** The combined rate the renderer sorts by. *)
Definition combined_rate (e : NetworkEntity) : Q := (rx_rate e + tx_rate e)%Q.

(** What one tick of [update_glyphs] does to a glyph that already exists. *)
Definition decayed (g g' : Glyph) : Prop :=
  intensity g' = (intensity g * (95 # 100))%Q /\ age g' = S (age g) /\
  type g' = type g /\ position g' = position g /\ color_pair g' = color_pair g.

(** The glyph is still bright enough to stay in the collection. *)
Definition bright (g : Glyph) : bool := Qltb (1 # 10) (intensity g).

(** The draw that [update_glyphs] compares with [essence * 0.2]. *)
Definition whisper_draw (e : NetworkEntity) (w : World) : Q :=
  let '(active_glyphs, w1) := tick_glyphs (glyphs e) w in
  let flow_intensity := (py_min (rx_rate e + tx_rate e) 1000 / 1000)%Q in
  let '(_, w2) := maybe_spawn FLOW (flow_intensity * (3 # 10))%Q flow_intensity active_glyphs w1 in
  fst (py_random w2).

(** A glyph of the given kind was spawned during the tick that produced
    the collection: it is there with age 0. *)
Definition spawned_in (t : GlyphType) (gs : list Glyph) : Prop :=
  exists g, In g gs /\ type g = t /\ age g = 0%nat.

(** The interface a line counts as found, if any. *)
Definition row_interface (r : Row) : option str :=
  match r with
  | Skipped => None
  | Malformed i => Some i
  | NotANumber i _ => Some i
  | Sample i _ _ => Some i
  end.

(** The interface ids observed in a scan of [lines]: [found_interfaces]. *)
Definition observed (show_lo : bool) (lines : list str) (i : str) : Prop :=
  exists line, In line lines /\ row_interface (parse_line show_lo line) = Some i.

(** Every line that counts has its 16 fields and integer counters. *)
Definition rows_well_formed (show_lo : bool) (lines : list str) : Prop :=
  forall line, In line lines ->
    parse_line show_lo line = Skipped \/
    exists i rx tx, parse_line show_lo line = Sample i rx tx.

(** The interface is tracked. *)
Definition tracked (i : str) (m : NetworkMystic) : Prop :=
  dict_get i (entities m) <> None.

(** The lines appended to a collector, any of which may already have been
    evicted by the 100-line bound. *)
Definition deque_extend (l : list str) (xs : list str) : list str :=
  fold_left deque_append xs l.

(** the line [add_whisper(source, message, level)] builds at time [now] *)
Definition whisper_line (now : DateTime) (source message level : str) : str :=
  u8 "[" ++ strftime_YmdHMS now ++ u8 "] [" ++ level ++ u8 "] " ++ source ++ u8 ": " ++ message.

(** the creation and removal events, for a spirit of the given name *)
Definition appeared_line (now : DateTime) (spirit_name : str) : str :=
  whisper_line now (u8 "Veil") (u8 "Spirit '" ++ spirit_name ++ u8 "' has appeared") (u8 "SPIRIT").

Definition faded_line (now : DateTime) (spirit_name : str) : str :=
  whisper_line now (u8 "Veil") (u8 "Spirit '" ++ spirit_name ++ u8 "' has faded") (u8 "SPIRIT").

(** The interface has a row whose counters were parsed. *)
Definition sampled (show_lo : bool) (lines : list str) (i : str) : Prop :=
  exists line rx tx, In line lines /\ parse_line show_lo line = Sample i rx tx.

(** [line] is a creation line for the entity that [m'] tracks for the
    interface [i]; [line] is a removal line for the entity that [m] tracked
    for [i]. *)
Definition creation_event (m' : NetworkMystic) (i line : str) : Prop :=
  exists now e, dict_get i (entities m') = Some e /\ line = appeared_line now (name e).

Definition removal_event (m : NetworkMystic) (i line : str) : Prop :=
  exists now e, dict_get i (entities m) = Some e /\ line = faded_line now (name e).

(** The events of a scan that took the mystic from [m] to [m']: one
    creation line for each interface of [created], in that order, then one
    removal line for each interface of [removed], and no other line.  The
    collector holds its former lines followed by these, less the oldest
    ones beyond its bound of 100 lines. *)
Definition scan_events (m m' : NetworkMystic) (created removed : list str) : Prop :=
  exists cs rs,
    Forall2 (creation_event m') created cs /\
    Forall2 (removal_event m) removed rs /\
    collected (mystic_whispers m')
    = last_n 100 (collected (mystic_whispers m) ++ cs ++ rs).

(** the state a block of code leaves behind, however it ends *)
Definition outcome_state {S A} (o : outcome S A) : S :=
  match o with
  | Return _ s => s
  | Raise _ s => s
  end.

(** the block completed without raising *)
Definition returns {S A} (o : outcome S A) : Prop :=
  match o with
  | Return _ _ => True
  | Raise _ _ => False
  end.

(** The colour pairs the renderer indexes are there, as after [init_colors]. *)
Definition colors_ready (m : NetworkMystic) : Prop :=
  forall k, In k [1; 2; 3; 4] -> colors_get k (colors m) <> None.

(** number of line breaks in a text *)
Definition count_newlines (s : str) : nat :=
  List.length (filter (fun c => (c =? 10)%N) s).

(** The collector of [m'] is the collector of [m] with more lines appended. *)
Definition grows (m m' : NetworkMystic) : Prop :=
  exists xs, collected (mystic_whispers m') = deque_extend (collected (mystic_whispers m)) xs.

(** Everything but the registry and the collector is the same. *)
Definition same_settings (m m' : NetworkMystic) : Prop :=
  config m' = config m /\ last_update m' = last_update m /\
  running m' = running m /\ colors m' = colors m.

(** The world in which the loop of [scan_spirits] starts: the counter
    source and the clock have each been read once. *)
Definition scan_world (w : World) : World :=
  with_clock_reads (with_proc_reads w (S (proc_reads w))) (S (clock_reads w)).

(** The time stamp a scan started in [w] takes as [current_time]. *)
Definition scan_time (w : World) : Q := time_time w (clock_reads w).

(** The [except] branch of [scan_spirits]. *)
Definition scan_failed (e : exn) (m : NetworkMystic) (w : World) : NetworkMystic * World :=
  mystic_whisper (u8 "Scanner") (u8 "Failed to scan: " ++ str_of_exn e) (u8 "ERROR") m w.

(** The counter source is where it was: same readings still to come. *)
Definition same_source (w w' : World) : Prop :=
  proc_net_dev w' = proc_net_dev w /\ proc_reads w' = proc_reads w.

(** A line with a name and a colon but too few fields, read without any
    loopback filter. *)
Definition malformed_row (line i : str) : Prop :=
  strip line <> [] /\ 2 <= len (split_on 58%N line) /\
  i = strip (nth_str (split_on 58%N line) 0) /\ i <> [] /\
  len (split_ws (nth_str (split_on 58%N line) 1)) < 16.

(** The loopback interface while the configuration hides it. *)
Definition hidden_loopback (c : MysticConfig) (i : str) : Prop :=
  i = u8 "lo" /\ show_loopback c = false.

(** The block never raises. *)
Definition safe {S A} (c : M S A) : Prop := forall s, returns (c s).

(** The block raises nothing but [curses.error]. *)
Definition raises_only_curses {S A} (c : M S A) : Prop :=
  forall s e s', c s = Raise e s' -> e = CursesError.

(* ================================================================== *)
(** * Sample data for the worked examples                               *)
(* ================================================================== *)

Definition sample_datetime : DateTime :=
  {| year := 2024; month := 1; day := 2; hour := 3; minute := 4; second := 5;
     microsecond := 0 |}.

(** Two header lines, as /proc/net/dev starts. *)
Definition proc_header : list str :=
  [u8 "Inter-|   Receive                |  Transmit" ++ [10%N];
   u8 " face |bytes    packets errs drop|bytes    packets errs drop" ++ [10%N]].

(** A well-formed counter line: 16 fields, receive bytes first, transmit
    bytes ninth. *)
Definition proc_row (iface rx tx : str) : str :=
  u8 "  " ++ iface ++ u8 ": " ++ rx ++ u8 " 1 0 0 0 0 0 0 " ++ tx ++ u8 " 1 0 0 0 0 0 0" ++ [10%N].

(** A world whose clock advances by one second per reading, whose random
    draws are all [u], and whose counter source yields [reads] in turn
    (the last one for ever). *)
Definition sample_world (u : Q) (reads : list (exn + list str)) : World :=
  {| time_time := fun n => inject_Z (Z.of_nat n);
     datetime_now := fun _ => sample_datetime;
     clock_reads := 0;
     random_random := fun _ => u;
     rng_draws := 0;
     proc_net_dev := fun n => nth n reads (last reads (inr []));
     proc_reads := 0;
     ip_addr_show := fun _ => None;
     files := [];
     open_error := fun _ => None;
     getch := fun _ => -1;
     key_reads := 0;
     math_sin := fun _ => 0%Q |}.

Definition sample_entity (iface : str) (rx tx : Z) (rx_r tx_r ess : Q) (gs : list Glyph)
  : NetworkEntity :=
  {| name := iface ++ u8 " the Silent"; interface := iface; rx_bytes := rx; tx_bytes := tx;
     rx_rate := rx_r; tx_rate := tx_r; essence := ess; aura := u8 "Moon Silver";
     glyphs := gs; last_seen := 0; whispers := [] |}.

Definition sample_mystic (c : MysticConfig) (es : list (str * NetworkEntity)) (t : Q)
  : NetworkMystic :=
  init_colors {| config := c; entities := es; mystic_whispers := WhisperCollector_init;
                 last_update := t; running := true; colors := [] |}.

(** A registry tracking the loopback, and a counter source whose loopback
    row is malformed. *)
Definition lo_mystic : NetworkMystic :=
  sample_mystic MysticConfig_init
    [(u8 "lo", sample_entity (u8 "lo") 1000 500 0 0 (1 # 2) [])] 0.

Definition lo_malformed_row : str := u8 "    lo: 1200 7 0" ++ [10%N].

Definition lo_world : World :=
  sample_world (1 # 2) [inr (proc_header ++ [lo_malformed_row])].

(** A session in which the key [l] is pressed before each of the first two
    sampling cycles (loopback shown, then hidden again) while the counter
    source has a well-formed loopback row, then a malformed one. *)
Definition toggle_world : World :=
  let w := sample_world (1 # 2)
             [inr (proc_header ++ [proc_row (u8 "lo") (u8 "1000") (u8 "500")]);
              inr (proc_header ++ [lo_malformed_row])] in
  {| time_time := time_time w; datetime_now := datetime_now w; clock_reads := clock_reads w;
     random_random := random_random w; rng_draws := rng_draws w;
     proc_net_dev := proc_net_dev w; proc_reads := proc_reads w;
     ip_addr_show := ip_addr_show w; files := files w; open_error := open_error w;
     getch := fun n => if (n <? 2)%nat then 108 else -1;
     key_reads := key_reads w; math_sin := math_sin w |}.

(** A session of two sampling cycles: the counter source shows [eth0]
    with 1000/500 bytes, then with 4000/2500 bytes. *)
Definition two_reads_world : World :=
  sample_world (1 # 2)
    [inr (proc_header ++ [proc_row (u8 "eth0") (u8 "1000") (u8 "500")]);
     inr (proc_header ++ [proc_row (u8 "eth0") (u8 "4000") (u8 "2500")])].

(** The program from [NetworkMystic(config)] to the first pass of the loop
    of [run_ritual], in the world [w] and on a 24 by 80 window. *)
Definition session_from (w : World) : NetworkMystic * (Grid * World) :=
  let '(m0, w0) := NetworkMystic_init MysticConfig_init w in
  let '(m1, w1) := run_ritual_begin m0 w0 in
  (m1, (blank_grid 24 80, w1)).

Definition session_start : NetworkMystic * (Grid * World) := session_from two_reads_world.

(** the state after [n] passes of the loop *)
Definition session_after (n : nat) : NetworkMystic * (Grid * World) :=
  outcome_state (run_loop n session_start).

(** the mystic after [n] passes of the session with the [l] key *)
Definition toggle_session (n : nat) : NetworkMystic :=
  fst (outcome_state (run_loop n (session_from toggle_world))).

(** the entity of [eth0] after [n] passes *)
Definition eth0_after (n : nat) : option NetworkEntity :=
  dict_get (u8 "eth0") (entities (fst (session_after n))).

(** The example of the specification: 1000/500 bytes at [t0], then
    2000/1500 bytes two seconds later. *)
Definition spec_example_mystic : NetworkMystic :=
  sample_mystic MysticConfig_init
    [(u8 "eth0", sample_entity (u8 "eth0") 1000 500 0 0 (1 # 2) [])] (-2).

Definition spec_example_world : World :=
  sample_world (1 # 2) [inr (proc_header ++ [proc_row (u8 "eth0") (u8 "2000") (u8 "1500")])].

(** An empty registry, and a counter source whose only row, for [eth1],
    is malformed. *)
Definition empty_mystic : NetworkMystic := sample_mystic MysticConfig_init [] 0.

Definition eth1_malformed_world : World :=
  sample_world (1 # 2) [inr (proc_header ++ [u8 "  eth1: 1200 7 0" ++ [10%N]])].

(** A narrow window, 13 lines of 4 columns, for the mystic as it is after
    the first sampling cycle of the session. *)
Definition narrow_mystic : NetworkMystic := fst (session_after 1).

Definition narrow_frame : Grid * World := (blank_grid 13 4, sample_world (1 # 2) []).

(** Three entities with combined rates 30, 300 and 3. *)
Definition three_spirits : list (str * NetworkEntity) :=
  [(u8 "eth0", sample_entity (u8 "eth0") 0 0 10 20 (1 # 2) []);
   (u8 "eth1", sample_entity (u8 "eth1") 0 0 100 200 (1 # 2) []);
   (u8 "wlan0", sample_entity (u8 "wlan0") 0 0 1 2 (1 # 2) [])].

Definition negative_limit_mystic : NetworkMystic :=
  sample_mystic (with_max_spirits MysticConfig_init (-1)) three_spirits 0.

Definition limit_two_mystic : NetworkMystic :=
  sample_mystic (with_max_spirits MysticConfig_init 2) three_spirits 0.


(** Every draw of the generator lies in [0, 1), as [random.random()]
    promises. *)
Definition rng_valid (w : World) : Prop :=
  forall n, (0 <= random_random w n)%Q /\ (random_random w n < 1)%Q.

(** The clock part of a date is a time of day. *)
Definition valid_time (t : DateTime) : Prop :=
  0 <= hour t < 24 /\ 0 <= minute t < 60.

(** the line [NetworkEntity.add_whisper] builds at time [now] *)
Definition entity_whisper_line (now : DateTime) (message : str) : str :=
  u8 "[" ++ strftime_HMS now ++ u8 "] " ++ message.

(** the place of a symbol in the alphabet of [encode_number], from 0 *)
Fixpoint symbol_index_go (c : uchar) (symbols : list str) (i : Z) : Z :=
  match symbols with
  | [] => i
  | s :: rest => if str_eqb s [c] then i else symbol_index_go c rest (i + 1)
  end.

Definition symbol_index (c : uchar) : Z := symbol_index_go c ancient_symbols 0.

(** The integer a text of ancient symbols stands for, read from the left:
    a symbol counts for its rank, the twentieth for a zero. *)
Definition decode_number (s : str) : Z :=
  fold_left (fun acc c => 20 * acc + (symbol_index c + 1) mod 20) s 0.

(** [w'] is [w] after some more reads: the oracles and the files are the
    same, only the read counters may differ. *)
Definition only_reads (w w' : World) : Prop :=
  time_time w' = time_time w /\ datetime_now w' = datetime_now w /\
  random_random w' = random_random w /\ proc_net_dev w' = proc_net_dev w /\
  ip_addr_show w' = ip_addr_show w /\ files w' = files w /\
  open_error w' = open_error w /\ getch w' = getch w /\ math_sin w' = math_sin w.

(** A glyph as [update_glyphs] makes them: of kind FLOW or WHISPER, at a
    position of the 21 by 6 field, with one of the colour pairs 1 to 6. *)
Definition glyph_in_field (g : Glyph) : Prop :=
  (type g = FLOW \/ type g = WHISPER) /\
  0 <= fst (position g) <= 20 /\ 0 <= snd (position g) <= 5 /\
  1 <= color_pair g <= 6.

(** A glyph that was spawned in the last tick is blank; an older one shows
    a character of the alphabet of its kind. *)
Definition glyph_char_ok (g : Glyph) : Prop :=
  (age g = 0%nat /\ char g = u8 " ") \/
  (age g <> 0%nat /\ In (char g) (glyph_alphabet (type g))).

(** 0.95 to the power [n]: what [n] ticks leave of an intensity of 1 *)
Fixpoint decay_pow (n : nat) : Q :=
  match n with
  | O => 1
  | S n' => decay_pow n' * (95 # 100)
  end.

(** number of glyphs of a given age *)
Definition count_age (a : nat) (gs : list Glyph) : nat :=
  length (filter (fun g => Nat.eqb (age g) a) gs).

(** A collection as the ticks build it: no glyph is brighter than an
    intensity of 1 decayed for its age, and no age is shared by more than
    two glyphs. *)
Definition glyphs_bounded (gs : list Glyph) : Prop :=
  Forall (fun g => (intensity g <= decay_pow (age g))%Q) gs /\
  forall a, (count_age a gs <= 2)%nat.

(** An entry of the registry as the scanner leaves them: keyed by the
    interface of its entity, with at most five messages, an essence
    between 0.1 and 1, and a bounded collection of at most 90 glyphs of
    the field. *)
Definition entity_ok (k : str) (e : NetworkEntity) : Prop :=
  interface e = k /\
  len (whispers e) <= 5 /\
  ((1 # 10) <= essence e)%Q /\ (essence e <= 1)%Q /\
  glyphs_bounded (glyphs e) /\
  Forall glyph_in_field (glyphs e) /\
  (length (glyphs e) <= 90)%nat.

(** every entry of the registry, those shadowed by an earlier entry of the
    same key included (there are none, but the renderer and the archivist
    go through all entries) *)
Definition registry_ok (m : NetworkMystic) : Prop :=
  Forall (fun kv => entity_ok (fst kv) (snd kv)) (entities m).

(** the collector is within its bound *)
Definition collector_ok (m : NetworkMystic) : Prop :=
  len (collected (mystic_whispers m)) <= 100.

(** The block keeps an invariant of the state, however it ends. *)
Definition keeps {S A} (I : S -> Prop) (c : M S A) : Prop :=
  forall s, I s -> I (outcome_state (c s)).

(** The configuration but for the two switches that the keys toggle. *)
Definition same_but_switches (c c' : MysticConfig) : Prop :=
  update_interval c' = update_interval c /\ glyph_density c' = glyph_density c /\
  show_whispers c' = show_whispers c /\ show_aura c' = show_aura c /\
  encrypt_logs c' = encrypt_logs c /\ log_file c' = log_file c /\
  ritual_timeout c' = ritual_timeout c /\ max_spirits c' = max_spirits c.

(* ================================================================== *)
(** * The program as a whole                                            *)
(* ================================================================== *)

Section Program.
Context {Screen : Type} {curses : Curses Screen}.
Variable float_repr : Q -> str.

(** [NetworkMystic.run_ritual] for at most [fuel] passes of its loop (the
    terminal set-up calls are not modelled). *)
Definition run_ritual (fuel : nat) : M (NetworkMystic * @St Screen) unit :=
  fun '(m, (scr, w)) =>
    let '(m1, w1) := run_ritual_begin m w in
    run_loop fuel (m1, (scr, w1)).

(** [self.cleanup()] on the state of the program *)
Definition cleanup_step : M (NetworkMystic * @St Screen) unit :=
  fun '(m, (scr, w)) =>
    match cleanup float_repr m w with
    | Return _ (m', w') => Return tt (m', (scr, w'))
    | Raise e (m', w') => Raise e (m', (scr, w'))
    end.

(** [try: body / finally: handler] *)
Definition try_finally {S} (body handler : M S unit) : M S unit :=
  fun s =>
    match body s with
    | Return _ s' => handler s'
    | Raise e s' =>
        match handler s' with
        | Return _ s'' => Raise e s''
        | Raise e' s'' => Raise e' s''
        end
    end.

(** [NetworkMystic.start]; [curses.wrapper] hands the window to
    [run_ritual] *)
Definition start (fuel : nat) : M (NetworkMystic * @St Screen) unit :=
  try_finally (run_ritual fuel) cleanup_step.

(** [main] from [mystic = NetworkMystic(config)] on, for the
    configuration that the configuration step has produced, and up to the
    exit of the interpreter, when the handler left by
    [atexit.register(mystic.cleanup)] runs (the signal handlers are not
    modelled). *)
Definition main_from_config (config : MysticConfig) (fuel : nat) (scr : Screen) (w : World)
  : outcome (NetworkMystic * @St Screen) unit :=
  let '(mystic, w0) := NetworkMystic_init config w in
  try_finally (start fuel) cleanup_step (mystic, (scr, w0)).
End Program.

(** the line [cleanup] hands to the collector at time [now] *)
Definition closing_line (now : DateTime) : str :=
  whisper_line now (u8 "Mystic") (u8 "Ritual complete. Veil closing...") (u8 "INFO").

(** the text [save_mysteries] appends for the mystic [m] in the world [w] *)
Definition snapshot_text (float_repr : Q -> str) (m : NetworkMystic) (w : World) : str :=
  json_encode float_repr 0 (fst (log_entry_of m w)) ++ [10%N].

(** the content of a file, empty when it does not exist *)
Definition file_content (path : str) (w : World) : str :=
  match dict_get path (files w) with Some c => c | None => [] end.

(** A world in which the first key read is [q]. *)
Definition quit_world : World :=
  let w := sample_world (1 # 2) [inr (proc_header ++ [proc_row (u8 "eth0") (u8 "1000") (u8 "500")])] in
  {| time_time := time_time w; datetime_now := datetime_now w; clock_reads := clock_reads w;
     random_random := random_random w; rng_draws := rng_draws w;
     proc_net_dev := proc_net_dev w; proc_reads := proc_reads w;
     ip_addr_show := ip_addr_show w; files := files w; open_error := open_error w;
     getch := fun _ => 113;
     key_reads := key_reads w; math_sin := math_sin w |}.

(** ** A window that records what is written on it *)

(** One [addstr] call as the window receives it. *)
Record Call := { call_y : Z; call_x : Z; call_text : str; call_attr : option Z }.

(** A window together with the [addstr] calls made on it so far, oldest
    first; each call is recorded, then handed to the window. *)
Definition Traced (Screen : Type) : Type := (Screen * list Call)%type.

Definition traced {Screen : Type} (c : Curses Screen) : Curses (Traced Screen) :=
  {| addstr := fun y x s attr t =>
                 let '(scr, ok) := addstr y x s attr (fst t) in
                 ((scr, snd t ++ [{| call_y := y; call_x := x; call_text := s;
                                     call_attr := attr |}]), ok);
     clear := fun t => let '(scr, ok) := clear (fst t) in ((scr, snd t), ok);
     refresh := fun t => let '(scr, ok) := refresh (fst t) in ((scr, snd t), ok);
     getmaxyx := fun t => getmaxyx (fst t);
     LINES := fun t => LINES (fst t);
     COLS := fun t => COLS (fst t) |}.

(** the calls recorded in a state of the renderer *)
Definition calls_of {Screen : Type} (s : Traced Screen * World) : list Call := snd (fst s).

(** Since the state [s0], calls that satisfy [P] have been made, and no
    others. *)
Definition wrote_only {Screen : Type} (P : Call -> Prop) (s0 s : Traced Screen * World)
  : Prop :=
  exists new, calls_of s = calls_of s0 ++ new /\ Forall P new.

(** the characters the two bars of an entity block are made of *)
Definition bar_cells : list str := [u8 "▁"; u8 "▂"; u8 "▄"; u8 "▅"; u8 "▇"].

(** the messages the four rituals can give *)
Definition ritual_messages : list str :=
  [u8 "New Moon: Spirits are quiet"; u8 "Waxing Moon: Connections strengthen";
   u8 "Full Moon: Maximum flow"; u8 "Waning Moon: Paths fade";
   u8 "High Tide: Data flows freely"; u8 "Low Tide: Channels narrow";
   u8 "Changing Tide: Flux in patterns";
   u8 "Stars favor communication"; u8 "Constellations whisper of packets";
   u8 "Celestial paths clear"; u8 "Starlight reveals hidden flows";
   u8 "Galactic currents shift";
   u8 "Northern Wind: Cold data streams"; u8 "Southern Wind: Warm connections";
   u8 "Eastern Wind: Dawn of new packets"; u8 "Western Wind: Dusk of old routes";
   u8 "Still Air: Silent monitoring"].

(** ** What a frame attempts *)

(** the call [addstr(y, x, text, attr)] *)
Definition addstr_call (y x : Z) (text : str) (attr : option Z) : Call :=
  {| call_y := y; call_x := x; call_text := text; call_attr := attr |}.

(** the calls made on a recording window since the state [s0], oldest
    first *)
Definition calls_since {Screen : Type} (s0 s : Traced Screen * World) : list Call :=
  skipn (length (calls_of s0)) (calls_of s).

(** the record of [s] continues that of [s0] *)
Definition ext {Screen : Type} (s0 s : Traced Screen * World) : Prop :=
  exists new, calls_of s = calls_of s0 ++ new.

(** the call [c] has been made since [s0] *)
Definition made {Screen : Type} (s0 : Traced Screen * World) (c : Call)
    (s : Traced Screen * World) : Prop :=
  exists pre post, calls_of s = calls_of s0 ++ pre ++ c :: post.

(** From a state where [P] holds the block ends, normally or not, in a
    state where [Q] holds. *)
Definition leads {S A : Type} (P Q : S -> Prop) (c : M S A) : Prop :=
  forall s, P s -> Q (outcome_state (c s)).

(** The window reports the same size after a write, as a terminal that is
    not resized does. *)
Definition stable_dims {Screen : Type} (c : Curses Screen) : Prop :=
  forall y x text attr scr,
    LINES (fst (addstr y x text attr scr)) = LINES scr /\
    COLS (fst (addstr y x text attr scr)) = COLS scr.

(** the first write of the border on line [y] *)
Definition border_call (height width y : Z) : Call :=
  if y =? 0 then
    addstr_call y 0 (u8 "╔" ++ repeat_str (u8 "═") (width - 2) ++ u8 "╗") None
  else if y =? height - 1 then
    addstr_call y 0 (u8 "╚" ++ repeat_str (u8 "═") (width - 2) ++ u8 "╝") None
  else addstr_call y 0 (u8 "║") None.

(** the six header writes of the entity block that starts on line
    [y_start] *)
Definition header_calls (m : NetworkMystic) (entity : NetworkEntity) (y_start : Z)
    (ip_display : str) : list Call :=
  [ addstr_call y_start 2 (u8 "╭─ " ++ name entity) (Some A_BOLD);
    addstr_call (y_start + 1) 2 (u8 "│  Aura: " ++ aura entity) (colors_get 4 (colors m));
    addstr_call (y_start + 2) 2 (u8 "│  From Beyond: " ++ display_rate m (rx_rate entity))
                (colors_get 2 (colors m));
    addstr_call (y_start + 3) 2 (u8 "│  To Void:     " ++ display_rate m (tx_rate entity))
                (colors_get 3 (colors m));
    addstr_call (y_start + 4) 2 (u8 "│  Essence: " ++ format_fixed 2 (essence entity))
                (Some A_DIM);
    addstr_call (y_start + 5) 2 (u8 "│  Form: " ++ ip_display) (Some A_DIM) ].

(** the write of the status bar, for the clock text [mystic_time] *)
Definition status_call (m : NetworkMystic) (height width : Z) (mystic_time : str) : Call :=
  let total_rx := py_sum (map rx_rate (dict_values (entities m))) in
  let total_tx := py_sum (map tx_rate (dict_values (entities m))) in
  let status := u8 "Total Flow: " ++ display_rate m total_rx ++ u8 " ╫ "
                  ++ display_rate m total_tx in
  let status := status ++ u8 " │ Spirits: " ++ str_of_int (len (entities m)) in
  let status := status ++ u8 " │ " ++ mystic_time in
  let status := if width - 4 <? len status then slice_to status (width - 4) else status in
  addstr_call (height - 3) (Z.max 0 ((width - len status) / 2)) status (Some A_DIM).

(** the height of a rate bar: [min(int((rate / 1000) * 5), 5)] *)
Definition bar_height (rate : Q) : Z := Z.min (int_of_float ((rate / 1000) * 5)%Q) 5.

(** the write of cell [i] of the rate bar in column [x] whose foot is on
    line [y + 4] *)
Definition bar_call (m : NetworkMystic) (x y color i : Z) : Call :=
  addstr_call (y + 4 - i) x
              (nth_str bar_chars (Z.min (i * len bar_chars / 5) (len bar_chars - 1)))
              (colors_get color (colors m)).

(** the write of a glyph that lies inside the window *)
Definition glyph_call (m : NetworkMystic) (glyph : Glyph) (offset_x offset_y : Z) : Call :=
  let attr := match colors_get (color_pair glyph) (colors m) with
              | Some c => c
              | None => A_NORMAL
              end in
  let attr := if Qltb (3 # 10) (intensity glyph) then Z.lor attr A_BOLD else attr in
  let attr := if Qltb (intensity glyph) (6 # 10) then Z.lor attr A_DIM else attr in
  addstr_call (offset_y + snd (position glyph)) (offset_x + fst (position glyph))
              (char glyph) (Some attr).

(* ================================================================== *)
(** * Properties                                                        *)
(* ================================================================== *)

(** The effectful primitives are kept folded by [simpl]. *)
Arguments py_time : simpl never.
Arguments py_now : simpl never.
Arguments py_random : simpl never.
Arguments randbelow : simpl never.
Arguments py_choice : simpl never.
Arguments py_randint : simpl never.
Arguments py_uniform : simpl never.
Arguments tick_glyph : simpl never.
Arguments maybe_spawn : simpl never.
Arguments add_whisper : simpl never.
Arguments update_glyphs : simpl never.
Arguments collect_whisper : simpl never.
Arguments mystic_whisper : simpl never.
Arguments NetworkEntity_init : simpl never.
Arguments update_entity : simpl never.
Arguments ensure_spirit : simpl never.
Arguments observe : simpl never.
Arguments parse_line : simpl never.
Arguments perform_rituals : simpl never.
Arguments get_mystic_time : simpl never.
Arguments u8 : simpl never.
Arguments str_eqb : simpl never.

(** ** Built-ins *)

Lemma str_eqb_eq a b : str_eqb a b = true <-> a = b.
Proof. unfold str_eqb; destruct (list_eq_dec N.eq_dec a b); split; congruence. Qed.

Lemma str_eqb_refl a : str_eqb a a = true.
Proof. now apply str_eqb_eq. Qed.

Lemma str_eqb_neq a b : str_eqb a b = false <-> a <> b.
Proof. unfold str_eqb; destruct (list_eq_dec N.eq_dec a b); split; congruence. Qed.

Lemma str_eqb_sym a b : str_eqb a b = str_eqb b a.
Proof.
  destruct (str_eqb a b) eqn:E.
  - apply str_eqb_eq in E; subst; symmetry; apply str_eqb_refl.
  - apply str_eqb_neq in E. symmetry; apply str_eqb_neq; congruence.
Qed.

Lemma Qltb_lt a b : Qltb a b = true <-> (a < b)%Q.
Proof.
  unfold Qltb. rewrite negb_true_iff. split; intro H.
  - apply Qnot_le_lt. intro L. apply Qle_bool_iff in L. congruence.
  - destruct (Qle_bool b a) eqn:E; auto.
    apply Qle_bool_iff in E. exfalso. exact (Qlt_not_le _ _ H E).
Qed.

Lemma Qltb_ge a b : Qltb a b = false <-> (b <= a)%Q.
Proof.
  unfold Qltb. rewrite negb_false_iff. apply Qle_bool_iff.
Qed.

Example py_int_ex1 : py_int (u8 "1024") = Some 1024.
Proof. reflexivity. Qed.

Example py_int_ex2 : py_int (u8 "12x") = None.
Proof. reflexivity. Qed.

Example split_on_ex : split_on 58%N (u8 "  eth0: 1 2") = [u8 "  eth0"; u8 " 1 2"].
Proof. reflexivity. Qed.

Example split_ws_ex : split_ws (u8 " 10   20 30 ") = [u8 "10"; u8 "20"; u8 "30"].
Proof. reflexivity. Qed.

Example format_fixed_ex :
  format_fixed 2 (1 # 8) = u8 "0.12" /\ format_fixed 1 (-(3 # 2))%Q = u8 "-1.5"
  /\ format_fixed 1 (2047 # 2) = u8 "1023.5".
Proof. repeat split; reflexivity. Qed.

Example u8_ex : u8 "╔═" = [9556%N; 9552%N] /\ len (u8 "╡ Network Mystic ╞") = 18.
Proof. split; reflexivity. Qed.

Example encode_number_ex :
  encode_number 21 = u8 "ⅠⅠ" /\ encode_number 20 = u8 "Ⅰↈ" /\ encode_number (1 # 2) = u8 "↊".
Proof. repeat split; reflexivity. Qed.

Example encode_rate_ex :
  encode_rate 2048 = u8 "Ⅱ ⓀⒷ/ⓢ" /\ encode_rate (1 # 2) = u8 "↊ Ⓑ/ⓢ".
Proof. split; reflexivity. Qed.
(** ** Worked examples of the scanner and the encoder *)

Example parse_line_ex :
  parse_line false
    (u8 "  eth0: 1234567   12345    0    0    0     0          0         0  7654321   54321    0    0    0     0       0          0"
       ++ [10%N])
  = Sample (u8 "eth0") 1234567 7654321.
Proof. reflexivity. Qed.

Example parse_line_loopback_ex :
  parse_line false (proc_row (u8 "lo") (u8 "10") (u8 "20")) = Skipped /\
  parse_line true (proc_row (u8 "lo") (u8 "10") (u8 "20")) = Sample (u8 "lo") 10 20.
Proof. split; reflexivity. Qed.

Example parse_line_bad_counter_ex :
  parse_line false (proc_row (u8 "eth0") (u8 "12x") (u8 "20"))
  = NotANumber (u8 "eth0") (int_error (u8 "12x")).
Proof. reflexivity. Qed.

Example json_encode_ex :
  json_encode (fun _ => []) 0 (JDict [(u8 "a", JInt 1); (u8 "b", JList [])])
  = u8 "{" ++ [10%N] ++ u8 "  " ++ json_string (u8 "a") ++ u8 ": 1," ++ [10%N]
      ++ u8 "  " ++ json_string (u8 "b") ++ u8 ": []" ++ [10%N] ++ u8 "}".
Proof. reflexivity. Qed.

Example grid_write_ex :
  snd (grid_addstr 0 2 (u8 "abc") None (blank_grid 2 4)) = true /\
  snd (grid_addstr 1 2 (u8 "abc") None (blank_grid 2 4)) = false /\
  snd (grid_addstr 0 4 (u8 "a") None (blank_grid 2 4)) = false.
Proof. repeat split; reflexivity. Qed.

(** ** Glyph animation *)

Lemma tick_glyph_decayed g w : decayed g (fst (fst (tick_glyph g w))).
Proof.
  unfold tick_glyph. destruct (py_choice _ _ w) as [c w1]. simpl.
  repeat split.
Qed.

Lemma tick_glyph_keep g w :
  snd (fst (tick_glyph g w)) = bright (fst (fst (tick_glyph g w))).
Proof.
  unfold tick_glyph. destruct (py_choice _ _ w) as [c w1]. reflexivity.
Qed.

Lemma tick_glyphs_spec gs : forall w,
  exists ticked, Forall2 decayed gs ticked /\ fst (tick_glyphs gs w) = filter bright ticked.
Proof.
  induction gs as [|g gs IH]; intro w; cbn [tick_glyphs].
  - exists []. split; [constructor | reflexivity].
  - pose proof (tick_glyph_decayed g w) as D.
    pose proof (tick_glyph_keep g w) as K.
    destruct (tick_glyph g w) as [[g' keep] w1]. simpl in D, K.
    destruct (IH w1) as [ticked [F E]].
    destruct (tick_glyphs gs w1) as [active w2]. simpl in E.
    exists (g' :: ticked). split; [constructor; assumption|].
    subst keep. simpl. destruct (bright g'); simpl; congruence.
Qed.

Lemma maybe_spawn_spec t p i gs w :
  exists x y c,
    fst (maybe_spawn t p i gs w)
    = gs ++ (if Qltb (fst (py_random w)) p then [new_glyph t i (x, y) c] else []).
Proof.
  unfold maybe_spawn. destruct (py_random w) as [u w1]. cbn [fst].
  destruct (Qltb u p).
  - destruct (py_randint 0 20 w1) as [x w2]. destruct (py_randint 0 5 w2) as [y w3].
    destruct (py_randint 1 6 w3) as [c w4]. exists x, y, c. reflexivity.
  - exists 0, 0, 0. simpl. now rewrite app_nil_r.
Qed.

Lemma decay_strict g g' :
  decayed g g' -> (0 < intensity g)%Q -> (intensity g' < intensity g)%Q.
Proof.
  intros [E _] P. rewrite E. lra.
Qed.

(** The collection after a tick: the old glyphs, decayed and filtered, then
    what the FLOW trial and the WHISPER trial appended. *)
Lemma update_glyphs_shape e w :
  exists ticked flow x y c,
    Forall2 decayed (glyphs e) ticked /\
    Forall (fun g => type g = FLOW /\ age g = 0%nat) flow /\
    glyphs (fst (update_glyphs e w))
    = filter bright ticked ++ flow
        ++ (if Qltb (whisper_draw e w) (essence e * (2 # 10))%Q
            then [new_glyph WHISPER (essence e) (x, y) c] else []).
Proof.
  unfold update_glyphs, whisper_draw.
  destruct (tick_glyphs_spec (glyphs e) w) as [ticked [F E]].
  destruct (tick_glyphs (glyphs e) w) as [active w1]. simpl in E. subst active.
  set (fi := (py_min (rx_rate e + tx_rate e) 1000 / 1000)%Q).
  destruct (maybe_spawn_spec FLOW (fi * (3 # 10))%Q fi (filter bright ticked) w1)
    as [x1 [y1 [c1 E1]]].
  destruct (maybe_spawn FLOW (fi * (3 # 10))%Q fi (filter bright ticked) w1)
    as [gs2 w2]. simpl in E1.
  destruct (maybe_spawn_spec WHISPER (essence e * (2 # 10))%Q (essence e) gs2 w2)
    as [x2 [y2 [c2 E2]]].
  destruct (maybe_spawn WHISPER (essence e * (2 # 10))%Q (essence e) gs2 w2)
    as [gs3 w3]. simpl in E2.
  exists ticked,
    (if Qltb (fst (py_random w1)) (fi * (3 # 10))%Q then [new_glyph FLOW fi (x1, y1) c1] else []),
    x2, y2, c2.
  split; [assumption|]. split.
  - destruct (Qltb (fst (py_random w1)) (fi * (3 # 10))%Q); repeat constructor.
  - simpl. rewrite E2, E1. now rewrite <- app_assoc.
Qed.

Lemma decayed_age g g' : decayed g g' -> age g' <> 0%nat.
Proof. intros [_ [A _]]. rewrite A. discriminate. Qed.

Lemma ticked_ages gs ticked :
  Forall2 decayed gs ticked -> Forall (fun g => age g <> 0%nat) ticked.
Proof.
  induction 1; constructor; eauto using decayed_age.
Qed.

(** C3: on every tick of [update_glyphs] each existing glyph has its
    intensity multiplied by 0.95 and its age incremented ([decayed]), so a
    positive intensity strictly decreases; the collection afterwards holds
    exactly the decayed glyphs whose intensity is still above 0.1, followed
    by the glyphs spawned in this tick (age 0), so a glyph is gone from the
    first tick on which its decayed intensity is at most 0.1. *)
Theorem update_glyphs_decay e w :
  exists ticked spawned,
    Forall2 decayed (glyphs e) ticked /\
    Forall (fun g => age g = 0%nat) spawned /\
    glyphs (fst (update_glyphs e w)) = filter bright ticked ++ spawned /\
    (forall g g', decayed g g' -> (0 < intensity g)%Q -> (intensity g' < intensity g)%Q) /\
    (forall g', In g' ticked ->
       (In g' (glyphs (fst (update_glyphs e w))) <-> (1 # 10 < intensity g')%Q)).
Proof.
  destruct (update_glyphs_shape e w) as [ticked [flow [x [y [c [F [Fl E]]]]]]].
  set (wh := if Qltb (whisper_draw e w) (essence e * (2 # 10))%Q
             then [new_glyph WHISPER (essence e) (x, y) c] else []) in E.
  assert (Sp : Forall (fun g => age g = 0%nat) (flow ++ wh)).
  { apply Forall_app. split.
    - eapply Forall_impl; [|exact Fl]. now intros g [_ A].
    - unfold wh. destruct (Qltb _ _); repeat constructor. }
  exists ticked, (flow ++ wh). repeat split; try assumption.
  - apply decay_strict.
  - rewrite E. intro I. apply in_app_or in I. destruct I as [I|I].
    + apply filter_In in I. destruct I as [_ B]. now apply Qltb_lt in B.
    + exfalso. rewrite Forall_forall in Sp. specialize (Sp _ I).
      pose proof (ticked_ages F) as A. rewrite Forall_forall in A.
      exact (A _ H Sp).
  - intro B. rewrite E. apply in_or_app. left. apply filter_In. split; [assumption|].
    now apply Qltb_lt.
Qed.

(** C7: in a tick of [update_glyphs] a WHISPER glyph is spawned exactly
    when the number drawn for it is below [essence * 0.2]; the spawned
    glyph carries the entity's essence as its intensity; with essence 0 no
    draw (they are never negative) spawns one. *)
Theorem whisper_spawn_rule e w :
  (0 <= whisper_draw e w)%Q ->
  (spawned_in WHISPER (glyphs (fst (update_glyphs e w)))
     <-> (whisper_draw e w < essence e * (2 # 10))%Q) /\
  (forall g, In g (glyphs (fst (update_glyphs e w))) ->
             type g = WHISPER -> age g = 0%nat -> intensity g = essence e) /\
  (essence e == 0 -> ~ spawned_in WHISPER (glyphs (fst (update_glyphs e w)))).
Proof.
  intro U.
  destruct (update_glyphs_shape e w) as [ticked [flow [x [y [c [F [Fl E]]]]]]].
  pose proof (ticked_ages F) as A. rewrite Forall_forall in A, Fl.
  assert (Old : forall g, In g (filter bright ticked ++ flow) ->
                          type g = WHISPER -> age g = 0%nat -> False).
  { intros g I T G. apply in_app_or in I. destruct I as [I|I].
    - apply filter_In in I. destruct I as [I _]. exact (A _ I G).
    - destruct (Fl _ I) as [T' _]. congruence. }
  assert (Iff : spawned_in WHISPER (glyphs (fst (update_glyphs e w)))
                <-> (whisper_draw e w < essence e * (2 # 10))%Q).
  { rewrite E, app_assoc. split.
    - intros [g [I [T G]]]. apply in_app_or in I. destruct I as [I|I].
      + exfalso. eauto.
      + destruct (Qltb (whisper_draw e w) (essence e * (2 # 10))%Q) eqn:B.
        * now apply Qltb_lt in B.
        * destruct I.
    - intro L. apply Qltb_lt in L. rewrite L.
      exists (new_glyph WHISPER (essence e) (x, y) c). split; [|split; reflexivity].
      apply in_or_app. right. now left. }
  split; [exact Iff|]. split.
  - intros g I T G. rewrite E, app_assoc in I. apply in_app_or in I. destruct I as [I|I].
    + exfalso. eauto.
    + destruct (Qltb (whisper_draw e w) (essence e * (2 # 10))%Q); [|destruct I].
      destruct I as [<-|[]]. reflexivity.
  - intros Z S. apply Iff in S. rewrite Z in S. lra.
Qed.

Lemma whisper_spawn_rule_witness :
  (0 <= whisper_draw (sample_entity (u8 "eth0") 0 0 0 0 0 []) (sample_world (1 # 2) []))%Q /\
  ~ spawned_in WHISPER
      (glyphs (fst (update_glyphs (sample_entity (u8 "eth0") 0 0 0 0 0 [])
                                  (sample_world (1 # 2) [])))).
Proof.
  assert (U : (0 <= whisper_draw (sample_entity (u8 "eth0") 0 0 0 0 0 [])
                                 (sample_world (1 # 2) []))%Q)
    by (vm_compute; discriminate).
  split; [exact U|].
  apply (whisper_spawn_rule (sample_entity (u8 "eth0") 0 0 0 0 0 []) (sample_world (1 # 2) []) U).
  reflexivity.
Defined.

(** ** Dictionaries *)

Section DictFacts.
Variable V : Type.
Implicit Types (d : list (str * V)) (k j : str) (v : V).

Lemma dict_get_set_eq k v d : dict_get k (dict_set k v d) = Some v.
Proof.
  induction d as [|[k' v'] d IH]; simpl.
  - now rewrite str_eqb_refl.
  - destruct (str_eqb k k') eqn:E; simpl.
    + now rewrite str_eqb_refl.
    + now rewrite E.
Qed.

Lemma dict_get_set_neq j k v d : j <> k -> dict_get j (dict_set k v d) = dict_get j d.
Proof.
  intro N. apply str_eqb_neq in N.
  induction d as [|[k' v'] d IH]; simpl.
  - now rewrite N.
  - destruct (str_eqb k k') eqn:E; simpl.
    + apply str_eqb_eq in E; subst k'. now rewrite N.
    + destruct (str_eqb j k'); [reflexivity | exact IH].
Qed.

Lemma dict_get_pop_eq k d : dict_get k (dict_pop k d) = None.
Proof.
  unfold dict_pop. induction d as [|[k' v'] d IH]; simpl; [reflexivity|].
  destruct (str_eqb k k') eqn:E; simpl; [exact IH|]. now rewrite E.
Qed.

Lemma dict_get_pop_neq j k d : j <> k -> dict_get j (dict_pop k d) = dict_get j d.
Proof.
  intro N. unfold dict_pop. induction d as [|[k' v'] d IH]; simpl; [reflexivity|].
  destruct (str_eqb k k') eqn:E; simpl.
  - apply str_eqb_eq in E; subst k'. apply str_eqb_neq in N. now rewrite N.
  - destruct (str_eqb j k'); [reflexivity | exact IH].
Qed.

Lemma dict_has_get k d : dict_has k d = true <-> dict_get k d <> None.
Proof.
  unfold dict_has. destruct (dict_get k d); split; congruence.
Qed.

Lemma dict_get_in_keys k d : dict_get k d <> None <-> In k (dict_keys d).
Proof.
  induction d as [|[k' v'] d IH]; simpl.
  - split; [congruence | tauto].
  - destruct (str_eqb k k') eqn:E.
    + apply str_eqb_eq in E; subst. split; [auto | congruence].
    + apply str_eqb_neq in E. rewrite IH. split; [auto | intros [H|H]; congruence].
Qed.
End DictFacts.

Lemma str_in_In x xs : str_in x xs = true <-> In x xs.
Proof.
  unfold str_in. rewrite existsb_exists. split.
  - intros [y [I E]]. apply str_eqb_eq in E. now subst.
  - intro I. exists x. split; [assumption | apply str_eqb_refl].
Qed.

Lemma set_add_In x y s : In y (set_add x s) <-> y = x \/ In y s.
Proof.
  unfold set_add. destruct (str_in x s) eqn:E.
  - apply str_in_In in E. split; [auto | intros [->|H]; assumption].
  - rewrite in_app_iff. simpl. split; [intros [H|[H|[]]]; auto | intros [H|H]; auto].
Qed.

(** ** What the entity update changes *)

Lemma add_whisper_fields e msg w :
  let e' := fst (add_whisper e msg w) in
  name e' = name e /\ interface e' = interface e /\ rx_bytes e' = rx_bytes e /\
  tx_bytes e' = tx_bytes e /\ rx_rate e' = rx_rate e /\ tx_rate e' = tx_rate e /\
  essence e' = essence e /\ aura e' = aura e /\ last_seen e' = last_seen e /\
  glyphs e' = glyphs e.
Proof.
  unfold add_whisper. destruct (py_now w) as [now w1]. simpl. repeat split.
Qed.

Lemma update_glyphs_fields e w :
  let e' := fst (update_glyphs e w) in
  name e' = name e /\ interface e' = interface e /\ rx_bytes e' = rx_bytes e /\
  tx_bytes e' = tx_bytes e /\ rx_rate e' = rx_rate e /\ tx_rate e' = tx_rate e /\
  essence e' = essence e /\ aura e' = aura e /\ last_seen e' = last_seen e /\
  whispers e' = whispers e.
Proof.
  unfold update_glyphs. destruct (tick_glyphs (glyphs e) w) as [a w1].
  destruct (maybe_spawn FLOW _ _ a w1) as [gs2 w2].
  destruct (maybe_spawn WHISPER _ _ gs2 w2) as [gs3 w3]. simpl. repeat split.
Qed.

(** The rates, counters and time stamp an update leaves on the entity. *)
Lemma update_entity_fields now last_upd rx tx e w :
  let e' := fst (update_entity now last_upd rx tx e w) in
  let dt := (now - last_upd)%Q in
  rx_rate e' = (if Qltb 0 dt then (inject_Z (rx - rx_bytes e) / dt)%Q else rx_rate e) /\
  tx_rate e' = (if Qltb 0 dt then (inject_Z (tx - tx_bytes e) / dt)%Q else tx_rate e) /\
  rx_bytes e' = rx /\ tx_bytes e' = tx /\ last_seen e' = now /\
  name e' = name e /\ interface e' = interface e /\ essence e' = essence e /\
  aura e' = aura e.
Proof.
  unfold update_entity.
  set (e1 := with_bytes _ rx tx).
  assert (F1 : rx_rate e1 = (if Qltb 0 (now - last_upd)%Q
                             then (inject_Z (rx - rx_bytes e) / (now - last_upd))%Q
                             else rx_rate e) /\
               tx_rate e1 = (if Qltb 0 (now - last_upd)%Q
                             then (inject_Z (tx - tx_bytes e) / (now - last_upd))%Q
                             else tx_rate e) /\
               rx_bytes e1 = rx /\ tx_bytes e1 = tx /\ last_seen e1 = now /\
               name e1 = name e /\ interface e1 = interface e /\ essence e1 = essence e /\
               aura e1 = aura e).
  { unfold e1. destruct (Qltb 0 (now - last_upd)%Q); simpl; repeat split. }
  assert (F2 : forall e2 w2,
             (e2, w2) = match status_whisper e1 with
                        | Some msg => add_whisper e1 msg w
                        | None => (e1, w)
                        end ->
             rx_rate e2 = rx_rate e1 /\ tx_rate e2 = tx_rate e1 /\ rx_bytes e2 = rx_bytes e1 /\
             tx_bytes e2 = tx_bytes e1 /\ last_seen e2 = last_seen e1 /\ name e2 = name e1 /\
             interface e2 = interface e1 /\ essence e2 = essence e1 /\ aura e2 = aura e1).
  { intros e2 w2 E. destruct (status_whisper e1).
    - pose proof (add_whisper_fields e1 s w) as A. rewrite <- E in A. simpl in A.
      intuition congruence.
    - inversion E. repeat split. }
  destruct (match status_whisper e1 with
            | Some msg => add_whisper e1 msg w
            | None => (e1, w)
            end) as [e2 w2] eqn:E2.
  specialize (F2 e2 w2 eq_refl).
  pose proof (update_glyphs_fields e2 w2) as G. simpl in G. simpl.
  intuition congruence.
Qed.

(** ** The whisper collector *)

Lemma deque_extend_app l xs ys :
  deque_extend (deque_extend l xs) ys = deque_extend l (xs ++ ys).
Proof. unfold deque_extend. now rewrite fold_left_app. Qed.

Lemma grows_refl m : grows m m.
Proof. exists []. reflexivity. Qed.

Lemma grows_trans m1 m2 m3 : grows m1 m2 -> grows m2 m3 -> grows m1 m3.
Proof.
  intros [xs E1] [ys E2]. exists (xs ++ ys). now rewrite E2, E1, deque_extend_app.
Qed.

(** One more line: it comes last, and the oldest line goes when the
    collector is full. *)
Lemma deque_append_eq l x :
  deque_append l x = (if 100 <=? len l then tl l else l) ++ [x].
Proof.
  unfold deque_append, len. rewrite length_app. cbn [length].
  destruct (100 <=? Z.of_nat (length l)) eqn:E.
  - apply Z.leb_le in E.
    assert ((100 <? Z.of_nat (length l + 1)) = true) as -> by (apply Z.ltb_lt; lia).
    destruct l; [cbn [length] in E; lia | reflexivity].
  - apply Z.leb_gt in E.
    assert ((100 <? Z.of_nat (length l + 1)) = false) as -> by (apply Z.ltb_ge; lia).
    reflexivity.
Qed.

(** More lines: the collector keeps the newest 100 of all. *)
Lemma deque_extend_newest xs : forall l,
  len l <= 100 -> deque_extend l xs = last_n 100 (l ++ xs).
Proof.
  induction xs as [|x xs IH]; intros l B.
  - rewrite app_nil_r. unfold last_n, len in *.
    replace (length l - 100)%nat with 0%nat by lia. reflexivity.
  - change (deque_extend l (x :: xs)) with (deque_extend (deque_append l x) xs).
    rewrite deque_append_eq. destruct (100 <=? len l) eqn:E.
    + apply Z.leb_le in E. destruct l as [|a l']; [unfold len in E; cbn [length] in E; lia|].
      cbn [tl]. unfold len in B, E. cbn [length] in B, E.
      rewrite IH by (unfold len; rewrite length_app; cbn [length]; lia).
      rewrite <- app_assoc. cbn [app]. unfold last_n.
      cbn [length]. rewrite !length_app. cbn [length].
      replace (S (length l' + S (length xs)) - 100)%nat
        with (S (length l' + S (length xs) - 100)) by lia.
      reflexivity.
    + apply Z.leb_gt in E.
      rewrite IH by (unfold len in *; rewrite length_app; cbn [length]; lia).
      now rewrite <- app_assoc.
Qed.

Lemma Forall2_impl_In A B (P Q : A -> B -> Prop) l1 l2 :
  (forall a b, In a l1 -> P a b -> Q a b) -> Forall2 P l1 l2 -> Forall2 Q l1 l2.
Proof.
  intros H F. induction F as [|a b l1 l2 Pab F IH]; constructor.
  - apply H; [now left | exact Pab].
  - apply IH. intros a' b' I. apply H. now right.
Qed.

Lemma same_settings_refl m : same_settings m m.
Proof. repeat split. Qed.

Lemma same_settings_trans m1 m2 m3 :
  same_settings m1 m2 -> same_settings m2 m3 -> same_settings m1 m3.
Proof. unfold same_settings. intuition congruence. Qed.

(** One call of [self.whispers.add_whisper] *)
Lemma mystic_whisper_spec source message level m w :
  let m' := fst (mystic_whisper source message level m w) in
  entities m' = entities m /\ same_settings m m' /\
  collected (mystic_whispers m')
  = deque_append (collected (mystic_whispers m))
                 (whisper_line (fst (py_now w)) source message level).
Proof.
  unfold mystic_whisper, collect_whisper. destruct (py_now w) as [now w1]. simpl.
  repeat split.
Qed.

Lemma mystic_whisper_grows source message level m w :
  grows m (fst (mystic_whisper source message level m w)).
Proof.
  destruct (mystic_whisper_spec source message level m w) as [_ [_ E]].
  eexists [_]. exact E.
Qed.

(** ** One observed row *)

Lemma NetworkEntity_init_fresh i w :
  let e := fst (NetworkEntity_init i i w) in
  rx_bytes e = 0 /\ tx_bytes e = 0 /\ rx_rate e = 0%Q /\ tx_rate e = 0%Q /\
  interface e = i /\ glyphs e = [] /\ whispers e = [].
Proof.
  unfold NetworkEntity_init.
  destruct (_generate_spirit_name i w) as [n w1]. destruct (py_uniform _ _ w1) as [ess w2].
  destruct (_generate_aura w2) as [au w3]. destruct (py_time w3) as [t w4]. simpl.
  repeat split.
Qed.

Lemma ensure_spirit_spec i m w :
  let m1 := fst (ensure_spirit i m w) in
  same_settings m m1 /\ grows m m1 /\
  (forall j, j <> i -> dict_get j (entities m1) = dict_get j (entities m)) /\
  (forall e, dict_get i (entities m) = Some e ->
             ensure_spirit i m w = (m, w)) /\
  (dict_get i (entities m) = None ->
     dict_get i (entities m1) = Some (fst (NetworkEntity_init i i w)) /\
     exists now,
       collected (mystic_whispers m1)
       = deque_append (collected (mystic_whispers m))
           (appeared_line now (name (fst (NetworkEntity_init i i w))))).
Proof.
  unfold ensure_spirit, dict_has.
  destruct (dict_get i (entities m)) as [e0|] eqn:G.
  - simpl. repeat split; auto using grows_refl; congruence.
  - destruct (NetworkEntity_init i i w) as [spirit w1]. cbn [fst].
    set (m1 := with_entities m (dict_set i spirit (entities m))).
    destruct (mystic_whisper_spec (u8 "Veil") (u8 "Spirit '" ++ name spirit ++ u8 "' has appeared")
                                  (u8 "SPIRIT") m1 w1) as [E [S C]].
    pose proof (mystic_whisper_grows (u8 "Veil")
                  (u8 "Spirit '" ++ name spirit ++ u8 "' has appeared") (u8 "SPIRIT") m1 w1) as Gr.
    split.
    { destruct S as [? [? [? ?]]]. unfold same_settings. simpl in *. repeat split; congruence. }
    split; [exact Gr|]. split.
    { intros j N. rewrite E. simpl. now apply dict_get_set_neq. }
    split; [discriminate|]. intros _. split.
    { rewrite E. simpl. apply dict_get_set_eq. }
    exists (fst (py_now w1)). exact C.
Qed.

(** The effect of one parsed row on the registry. *)
Lemma observe_spec now i rx tx m w :
  let m' := fst (observe now i rx tx m w) in
  same_settings m m' /\ grows m m' /\
  (forall j, j <> i -> dict_get j (entities m') = dict_get j (entities m)) /\
  (forall e, dict_get i (entities m) = Some e ->
     dict_get i (entities m') = Some (fst (update_entity now (last_update m) rx tx e w))) /\
  (dict_get i (entities m) = None ->
     exists w1 t,
       dict_get i (entities m')
       = Some (fst (update_entity now (last_update m) rx tx (fst (NetworkEntity_init i i w)) w1))
       /\ collected (mystic_whispers m')
          = deque_append (collected (mystic_whispers m))
              (appeared_line t (name (fst (NetworkEntity_init i i w))))).
Proof.
  unfold observe.
  destruct (ensure_spirit_spec i m w) as [S [Gr [Fr [Old New]]]].
  destruct (ensure_spirit i m w) as [m1 w1] eqn:En. cbn [fst] in *.
  destruct (dict_get i (entities m)) as [e0|] eqn:G.
  - specialize (Old e0 eq_refl). inversion Old; subst m1 w1. rewrite G.
    destruct (update_entity now (last_update m) rx tx e0 w) as [e' w2] eqn:U. cbn [fst].
    split; [repeat split|]. split; [exists []; reflexivity|]. split.
    { intros j N. simpl. now apply dict_get_set_neq. }
    split; [|discriminate].
    intros e Ee. inversion Ee; subst. rewrite U. simpl. apply dict_get_set_eq.
  - destruct (New eq_refl) as [Gn [t W]]. rewrite Gn.
    destruct S as [Sc [Sl [Sr Sco]]]. rewrite Sl.
    destruct (update_entity now (last_update m) rx tx (fst (NetworkEntity_init i i w)) w1)
      as [e' w2] eqn:U. cbn [fst].
    split; [repeat split; simpl; assumption|]. split; [exact Gr|]. split.
    { intros j N. simpl. rewrite dict_get_set_neq by assumption. now apply Fr. }
    split; [discriminate|].
    intros _. exists w1, t. rewrite U. split; [simpl; apply dict_get_set_eq|].
    simpl. exact W.
Qed.

(** A row of a tracked interface hands nothing to the collector. *)
Lemma observe_collector now i rx tx m w :
  tracked i m ->
  collected (mystic_whispers (fst (observe now i rx tx m w))) = collected (mystic_whispers m).
Proof.
  unfold tracked, observe. intro T.
  destruct (ensure_spirit_spec i m w) as [_ [_ [_ [Old _]]]].
  destruct (dict_get i (entities m)) as [e0|] eqn:G; [|congruence].
  rewrite (Old e0 eq_refl), G.
  destruct (update_entity now (last_update m) rx tx e0 w) as [e' w2]. reflexivity.
Qed.

(** ** The loop over the lines *)

Lemma scan_lines_app t pre rest : forall found m w,
  scan_lines t (pre ++ rest) found m w =
  match scan_lines t pre found m w with
  | Return f (m1, w1) => scan_lines t rest f m1 w1
  | Raise e s => Raise e s
  end.
Proof.
  induction pre as [|line pre IH]; intros found m w; cbn [scan_lines app].
  - reflexivity.
  - destruct (parse_line (show_loopback (config m)) line) as [|i0|i0 e0|i0 rx tx]; try apply IH.
    + reflexivity.
    + destruct (observe t i0 rx tx m w) as [m' w']. apply IH.
Qed.

(** Whatever the lines are and however the loop ends, it keeps the
    settings, only appends to the collector, and leaves alone every entity
    that has no parsed row. *)
Lemma scan_lines_inv t lines : forall found m w,
  let m' := fst (outcome_state (scan_lines t lines found m w)) in
  same_settings m m' /\ grows m m' /\
  (forall j,
     (forall line rx tx, In line lines ->
        parse_line (show_loopback (config m)) line <> Sample j rx tx) ->
     dict_get j (entities m') = dict_get j (entities m)) /\
  (forall j e, dict_get j (entities m) = Some e ->
     exists e', dict_get j (entities m') = Some e' /\ name e' = name e).
Proof.
  induction lines as [|line lines IH]; intros found m w; cbn [scan_lines].
  - simpl. repeat split; eauto using grows_refl.
  - destruct (parse_line (show_loopback (config m)) line) as [|i0|i0 e0|i0 rx tx] eqn:P.
    + destruct (IH found m w) as [S [G [F N]]]. repeat split; try apply S; auto.
      intros j H. apply F. intros l rx tx I. apply H. now right.
    + destruct (IH (set_add i0 found) m w) as [S [G [F N]]].
      repeat split; try apply S; auto.
      intros j H. apply F. intros l rx tx I. apply H. now right.
    + simpl. repeat split; eauto using grows_refl.
    + destruct (observe_spec t i0 rx tx m w) as [S1 [G1 [F1 [O1 _]]]].
      destruct (observe t i0 rx tx m w) as [m1 w1]. cbn [fst] in *.
      destruct (IH (set_add i0 found) m1 w1) as [S [G [F N]]].
      assert (Cf : config m1 = config m) by apply S1.
      split; [eapply same_settings_trans; eassumption|].
      split; [eapply grows_trans; eassumption|]. split.
      * intros j H.
        assert (Nj : j <> i0).
        { intro E. subst j. apply (H line rx tx); [now left | exact P]. }
        rewrite F; [now apply F1|].
        intros l rx' tx' I. rewrite Cf. apply H. now right.
      * intros j e Gj.
        destruct (list_eq_dec N.eq_dec j i0) as [E|Nj].
        -- subst j. specialize (O1 _ Gj).
           destruct (N _ _ O1) as [e' [Ge' Ne']]. exists e'. split; [assumption|].
           rewrite Ne'.
           now destruct (update_entity_fields t (last_update m) rx tx e w)
             as [_ [_ [_ [_ [_ [Nm _]]]]]].
        -- rewrite <- (F1 j Nj) in Gj. exact (N _ _ Gj).
Qed.

Lemma scan_lines_returns t lines : forall found m w,
  (forall line j e, In line lines ->
     parse_line (show_loopback (config m)) line <> NotANumber j e) ->
  returns (scan_lines t lines found m w).
Proof.
  induction lines as [|line lines IH]; intros found m w H; cbn [scan_lines].
  - exact I.
  - destruct (parse_line (show_loopback (config m)) line) as [|i0|i0 e0|i0 rx tx] eqn:P.
    + apply IH. intros l j e I. apply H. now right.
    + apply IH. intros l j e I. apply H. now right.
    + exfalso. apply (H line i0 e0); [now left | exact P].
    + destruct (observe_spec t i0 rx tx m w) as [S1 _].
      destruct (observe t i0 rx tx m w) as [m1 w1]. cbn [fst] in *.
      apply IH. intros l j e I. replace (config m1) with (config m) by (symmetry; apply S1).
      apply H. now right.
Qed.

(** When the loop completes, [found_i0s] holds what it held before
    and the i0s observed, and the registry tracks what it tracked
    before and the i0s with a parsed row. *)
Lemma scan_lines_found t lines : forall found m w found' m' w',
  scan_lines t lines found m w = Return found' (m', w') ->
  (forall j, In j found' <-> In j found \/ observed (show_loopback (config m)) lines j) /\
  (forall j, tracked j m' <->
     tracked j m \/
     exists line rx tx, In line lines /\
       parse_line (show_loopback (config m)) line = Sample j rx tx).
Proof.
  unfold observed, tracked.
  induction lines as [|line lines IH]; intros found m w found' m' w' E; cbn [scan_lines] in E.
  - inversion E; subst. split; intro j.
    + split; [auto | intros [H|[l [[] _]]]; exact H].
    + split; [auto | intros [H|[l [rx [tx [[] _]]]]]; exact H].
  - destruct (parse_line (show_loopback (config m)) line) as [|i0|i0 e0|i0 rx tx] eqn:P.
    + destruct (IH _ _ _ _ _ _ E) as [Fo Tr]. split; intro j.
      * rewrite Fo. split; intros [H|[l [I R]]]; auto.
        -- right. exists l. split; [now right | exact R].
        -- destruct I as [<-|I]; [rewrite P in R; discriminate|].
           right. exists l. split; assumption.
      * rewrite Tr. split; intros [H|[l [rx [tx [I R]]]]]; auto.
        -- right. exists l, rx, tx. split; [now right | exact R].
        -- destruct I as [<-|I]; [rewrite P in R; discriminate|].
           right. exists l, rx, tx. split; assumption.
    + destruct (IH _ _ _ _ _ _ E) as [Fo Tr]. split; intro j.
      * rewrite Fo, set_add_In. split.
        -- intros [[->|H]|[l [I R]]]; auto.
           ++ right. exists line. split; [now left | rewrite P; reflexivity].
           ++ right. exists l. split; [now right | exact R].
        -- intros [H|[l [[<-|I] R]]]; auto.
           ++ rewrite P in R. simpl in R. inversion R. auto.
           ++ right. exists l. split; assumption.
      * rewrite Tr. split; intros [H|[l [rx [tx [I R]]]]]; auto.
        -- right. exists l, rx, tx. split; [now right | exact R].
        -- destruct I as [<-|I]; [rewrite P in R; discriminate|].
           right. exists l, rx, tx. split; assumption.
    + discriminate.
    + destruct (observe_spec t i0 rx tx m w) as [S1 [G1 [F1 [O1 N1]]]].
      destruct (observe t i0 rx tx m w) as [m1 w1]. cbn [fst] in *.
      assert (Cf : config m1 = config m) by apply S1.
      destruct (IH _ _ _ _ _ _ E) as [Fo Tr]. rewrite Cf in Fo, Tr. split; intro j.
      * rewrite Fo, set_add_In. split.
        -- intros [[->|H]|[l [I R]]]; auto.
           ++ right. exists line. split; [now left | rewrite P; reflexivity].
           ++ right. exists l. split; [now right | exact R].
        -- intros [H|[l [[<-|I] R]]]; auto.
           ++ rewrite P in R. simpl in R. inversion R. auto.
           ++ right. exists l. split; assumption.
      * rewrite Tr.
        assert (T1 : dict_get j (entities m1) <> None <->
                     dict_get j (entities m) <> None \/ j = i0).
        { destruct (list_eq_dec N.eq_dec j i0) as [->|Nj].
          - split; [auto|]. intros _.
            destruct (dict_get i0 (entities m)) as [e0|] eqn:G0.
            + rewrite (O1 _ eq_refl). discriminate.
            + destruct (N1 eq_refl) as [w2 [t0 [Gn _]]]. rewrite Gn. discriminate.
          - rewrite (F1 j Nj). split; [auto | intros [H|H]; [assumption | contradiction]]. }
        rewrite T1. split.
        -- intros [[H| -> ]|[l [rx' [tx' [I R]]]]]; auto.
           ++ right. exists line, rx, tx. split; [now left | exact P].
           ++ right. exists l, rx', tx'. split; [now right | exact R].
        -- intros [H|[l [rx' [tx' [[<-|I] R]]]]]; auto.
           ++ rewrite P in R. inversion R. auto.
           ++ right. exists l, rx', tx'. split; assumption.
Qed.

(** ** Expiry *)

Lemma fade_spec expired : forall m w,
  let m' := fst (fade expired m w) in
  same_settings m m' /\ grows m m' /\
  (forall j, ~ In j expired -> dict_get j (entities m') = dict_get j (entities m)) /\
  (forall j, In j expired -> dict_get j (entities m') = None).
Proof.
  induction expired as [|iface rest IH]; intros m w; cbn [fade].
  - simpl. repeat split; auto using grows_refl; try contradiction.
  - destruct (dict_get iface (entities m)) as [spirit|] eqn:G.
    + set (m1 := with_entities m (dict_pop iface (entities m))).
      destruct (mystic_whisper_spec (u8 "Veil") (u8 "Spirit '" ++ name spirit ++ u8 "' has faded")
                  (u8 "SPIRIT") m1 w) as [E1 [S1 _]].
      pose proof (mystic_whisper_grows (u8 "Veil")
                    (u8 "Spirit '" ++ name spirit ++ u8 "' has faded") (u8 "SPIRIT") m1 w) as G1.
      destruct (mystic_whisper _ _ _ m1 w) as [m2 w2]. cbn [fst] in *.
      destruct (IH m2 w2) as [S [Gr [Keep Gone]]].
      assert (Pop : forall j, dict_get j (entities m2)
                              = if str_eqb j iface then None else dict_get j (entities m)).
      { intro j. rewrite E1. simpl. destruct (str_eqb j iface) eqn:Ej.
        - apply str_eqb_eq in Ej. subst. apply dict_get_pop_eq.
        - apply str_eqb_neq in Ej. now apply dict_get_pop_neq. }
      split; [eapply same_settings_trans; [|exact S]; exact S1|].
      split; [eapply grows_trans; [exact G1 | exact Gr]|]. split.
      * intros j NI. rewrite Keep by (intro; apply NI; now right).
        rewrite Pop. destruct (str_eqb j iface) eqn:Ej; [|reflexivity].
        apply str_eqb_eq in Ej. exfalso. apply NI. now left.
      * intros j I. destruct (in_dec (list_eq_dec N.eq_dec) j rest) as [Ir|Nr].
        -- now apply Gone.
        -- rewrite Keep by assumption. rewrite Pop.
           destruct I as [<-|I]; [now rewrite str_eqb_refl | contradiction].
    + destruct (IH m w) as [S [Gr [Keep Gone]]].
      split; [exact S|]. split; [exact Gr|]. split.
      * intros j NI. apply Keep. intro; apply NI; now right.
      * intros j I. destruct (in_dec (list_eq_dec N.eq_dec) j rest) as [Ir|Nr].
        -- now apply Gone.
        -- rewrite Keep by assumption. destruct I as [<-|I]; [exact G | contradiction].
Qed.

(** The lines the removal loop hands to the collector: one for each
    interface it removes. *)
Lemma fade_events expired : forall m w,
  exists removed rs,
    NoDup removed /\
    (forall i, In i removed <-> In i expired /\ tracked i m) /\
    Forall2 (removal_event m) removed rs /\
    collected (mystic_whispers (fst (fade expired m w)))
    = deque_extend (collected (mystic_whispers m)) rs.
Proof.
  induction expired as [|iface rest IH]; intros m w; cbn [fade].
  - exists [], []. split; [constructor|]. split.
    + intro i. split; [intros [] | intros [[] _]].
    + split; [constructor | reflexivity].
  - destruct (dict_get iface (entities m)) as [spirit|] eqn:G.
    + set (m1 := with_entities m (dict_pop iface (entities m))).
      destruct (mystic_whisper_spec (u8 "Veil") (u8 "Spirit '" ++ name spirit ++ u8 "' has faded")
                  (u8 "SPIRIT") m1 w) as [E1 [_ C1]].
      destruct (mystic_whisper _ _ _ m1 w) as [m2 w2]. cbn [fst] in *.
      destruct (IH m2 w2) as [removed [rs [ND [Ir [F C]]]]].
      assert (Pop : forall j, dict_get j (entities m2)
                              = if str_eqb j iface then None else dict_get j (entities m)).
      { intro j. rewrite E1. simpl. destruct (str_eqb j iface) eqn:Ej.
        - apply str_eqb_eq in Ej. subst. apply dict_get_pop_eq.
        - apply str_eqb_neq in Ej. now apply dict_get_pop_neq. }
      assert (T2 : forall j, tracked j m2 <-> j <> iface /\ tracked j m).
      { intro j. unfold tracked. rewrite Pop. destruct (str_eqb j iface) eqn:Ej.
        - apply str_eqb_eq in Ej. split; [congruence | intros [N _]; contradiction].
        - apply str_eqb_neq in Ej. tauto. }
      exists (iface :: removed), (faded_line (fst (py_now w)) (name spirit) :: rs).
      split; [constructor; [|exact ND]|].
      { rewrite Ir, T2. intros [_ [N _]]. now apply N. }
      split; [|split].
      * intro i. cbn [In]. rewrite Ir, T2. split.
        -- intros [<-|[I [N T]]]; [|tauto].
           split; [now left|]. unfold tracked. rewrite G. discriminate.
        -- intros [[<-|I] T]; [now left|].
           destruct (list_eq_dec N.eq_dec iface i) as [->|N]; [now left|].
           right. split; [assumption|]. split; [congruence | assumption].
      * constructor.
        -- exists (fst (py_now w)), spirit. split; [exact G | reflexivity].
        -- eapply Forall2_impl_In; [|exact F].
           intros a b _ [now [e [Ge Eb]]]. exists now, e. split; [|exact Eb].
           rewrite Pop in Ge. destruct (str_eqb a iface); [discriminate | exact Ge].
      * rewrite C, C1. reflexivity.
    + destruct (IH m w) as [removed [rs [ND [Ir [F C]]]]].
      exists removed, rs. split; [exact ND|]. split; [|split; assumption].
      intro i. rewrite Ir. split.
      * intros [I T]. split; [now right | exact T].
      * intros [[<-|I] T]; [unfold tracked in T; congruence|]. split; assumption.
Qed.

(** After the expiry loops an entity stays exactly when its interface was
    found; each one removed is reported. *)
Lemma expire_spec found m w :
  let m' := fst (expire found m w) in
  same_settings m m' /\ grows m m' /\
  (forall j, In j found -> dict_get j (entities m') = dict_get j (entities m)) /\
  (forall j, ~ In j found -> dict_get j (entities m') = None).
Proof.
  unfold expire.
  set (expired := filter (fun iface => negb (str_in iface found)) (dict_keys (entities m))).
  assert (Ex : forall j, In j expired <-> dict_get j (entities m) <> None /\ ~ In j found).
  { intro j. unfold expired. rewrite filter_In, negb_true_iff, dict_get_in_keys.
    split; intros [A B]; split; auto.
    - intro I. apply str_in_In in I. congruence.
    - destruct (str_in j found) eqn:E; [|reflexivity]. apply str_in_In in E. contradiction. }
  destruct (fade_spec expired m w) as [S [Gr [Keep Gone]]].
  split; [exact S|]. split; [exact Gr|]. split.
  - intros j I. apply Keep. rewrite Ex. tauto.
  - intros j NI. destruct (dict_get j (entities m)) as [e|] eqn:G.
    + apply Gone. rewrite Ex. split; [congruence | assumption].
    + rewrite Keep; [exact G|]. rewrite Ex. intros [A _]. congruence.
Qed.

(** ** The scanner as a whole *)

Lemma scan_spirits_read_ok m w all_lines :
  proc_net_dev w (proc_reads w) = inr all_lines ->
  scan_spirits m w =
  match scan_lines (scan_time w) (skipn 2 all_lines) [] m (scan_world w) with
  | Return found (m2, w2) => Return tt (expire found m2 w2)
  | Raise e (m2, w2) => Return tt (scan_failed e m2 w2)
  end.
Proof.
  intro R. unfold scan_spirits, scan_spirits_try, read_proc_net_dev. rewrite R.
  unfold py_time. cbn [time_time clock_reads with_proc_reads].
  fold (scan_time w). fold (scan_world w).
  destruct (scan_lines (scan_time w) (skipn 2 all_lines) [] m (scan_world w)) as [f [m2 w2]|e [m2 w2]];
    reflexivity.
Qed.

Lemma scan_spirits_read_fails m w err :
  proc_net_dev w (proc_reads w) = inl err ->
  scan_spirits m w = Return tt (scan_failed err m (with_proc_reads w (S (proc_reads w)))).
Proof.
  intro R. unfold scan_spirits, scan_spirits_try, read_proc_net_dev. now rewrite R.
Qed.

Lemma scan_failed_spec e m w :
  let m' := fst (scan_failed e m w) in
  entities m' = entities m /\ same_settings m m' /\ grows m m'.
Proof.
  unfold scan_failed.
  destruct (mystic_whisper_spec (u8 "Scanner") (u8 "Failed to scan: " ++ str_of_exn e)
              (u8 "ERROR") m w) as [E [S _]].
  repeat split; try apply S; try exact E. apply mystic_whisper_grows.
Qed.

(** A scan never raises to its caller. *)
Lemma scan_spirits_returns m w : returns (scan_spirits m w).
Proof.
  unfold scan_spirits. destruct (scan_spirits_try m w) as [a s|e [m' w']]; exact I.
Qed.

(** Whatever the scan meets, an interface with no parsed row that is
    counted as found keeps its entity untouched. *)
Lemma scan_keeps_unparsed m w all_lines i :
  proc_net_dev w (proc_reads w) = inr all_lines ->
  observed (show_loopback (config m)) (skipn 2 all_lines) i ->
  (forall l rx tx, In l (skipn 2 all_lines) ->
     parse_line (show_loopback (config m)) l <> Sample i rx tx) ->
  dict_get i (entities (fst (outcome_state (scan_spirits m w)))) = dict_get i (entities m).
Proof.
  intros R Ob NoS. rewrite (scan_spirits_read_ok m w R).
  pose proof (scan_lines_inv (scan_time w) (skipn 2 all_lines) [] m (scan_world w))
    as [S [G [F _]]].
  destruct (scan_lines (scan_time w) (skipn 2 all_lines) [] m (scan_world w))
    as [found [m2 w2]|e [m2 w2]] eqn:E; cbn [outcome_state fst] in *.
  - destruct (scan_lines_found _ _ _ _ _ E) as [Fo _].
    destruct (expire_spec found m2 w2) as [_ [_ [Keep _]]].
    rewrite Keep; [now apply F|]. apply Fo. now right.
  - destruct (scan_failed_spec e m2 w2) as [En _]. rewrite En. now apply F.
Qed.

(** ** The counter source is read by the scanner only *)

Lemma same_source_refl w : same_source w w.
Proof. split; reflexivity. Qed.

Lemma same_source_trans w1 w2 w3 : same_source w1 w2 -> same_source w2 w3 -> same_source w1 w3.
Proof. unfold same_source. intuition congruence. Qed.

Lemma py_time_source w : same_source w (snd (py_time w)).
Proof. split; reflexivity. Qed.

Lemma py_now_source w : same_source w (snd (py_now w)).
Proof. split; reflexivity. Qed.

Lemma py_random_source w : same_source w (snd (py_random w)).
Proof. split; reflexivity. Qed.

Lemma py_choice_source A (seq : list A) d w : same_source w (snd (py_choice seq d w)).
Proof.
  unfold py_choice, randbelow. destruct (py_random w) as [u w1] eqn:E.
  change w1 with (snd (u, w1)). rewrite <- E. apply py_random_source.
Qed.

Lemma py_choice_in A (seq : list A) d w :
  In (fst (py_choice seq d w)) seq \/ fst (py_choice seq d w) = d.
Proof.
  unfold py_choice, randbelow. destruct (py_random w) as [u w1]. cbn [fst].
  destruct (nth_in_or_default (Z.to_nat (Qfloor (u * inject_Z (len seq)))) seq d); auto.
Qed.

Lemma mystic_whisper_source source message level m w :
  same_source w (snd (mystic_whisper source message level m w)).
Proof.
  unfold mystic_whisper, collect_whisper. destruct (py_now w) as [now w1] eqn:E.
  change w1 with (snd (now, w1)). rewrite <- E. apply py_now_source.
Qed.

Lemma ritual_source (ritual : World -> str * World) w :
  In ritual rituals \/ ritual = (fun w => ([], w)) -> same_source w (snd (ritual w)).
Proof.
  intros [[<-|[<-|[<-|[<-|[]]]]]| ->].
  - unfold _ritual_moon_cycle. destruct (py_time w) as [t w1] eqn:E.
    change w1 with (snd (t, w1)). rewrite <- E. apply py_time_source.
  - unfold _ritual_tide_change. destruct (py_time w) as [t w1] eqn:E.
    change w1 with (snd (t, w1)). rewrite <- E. apply py_time_source.
  - apply py_choice_source.
  - apply py_choice_source.
  - apply same_source_refl.
Qed.

Lemma perform_rituals_spec m w :
  let r := perform_rituals m w in
  entities (fst r) = entities m /\ same_settings m (fst r) /\ same_source w (snd r).
Proof.
  unfold perform_rituals.
  pose proof (py_random_source w) as S0. destruct (py_random w) as [u w1]. cbn [snd] in S0.
  destruct (Qltb u (1 # 10)).
  - pose proof (py_choice_source rituals (fun w => ([], w)) w1) as S1.
    pose proof (py_choice_in rituals (fun w => ([], w)) w1) as I1.
    destruct (py_choice rituals (fun w => ([], w)) w1) as [ritual w2]. cbn [fst snd] in *.
    pose proof (@ritual_source ritual w2 I1) as S2.
    destruct (ritual w2) as [result w3]. cbn [snd] in S2.
    destruct (mystic_whisper_spec (u8 "Ritual") result (u8 "MYSTIC") m w3) as [E [S _]].
    pose proof (mystic_whisper_source (u8 "Ritual") result (u8 "MYSTIC") m w3) as S3.
    split; [exact E|]. split; [exact S|].
    eauto using same_source_trans.
  - simpl. repeat split; apply S0.
Qed.

Lemma dispatch_key_spec key m w :
  let r := dispatch_key key m w in
  entities (fst r) = entities m /\
  running (fst r) = running m && negb (key =? 113) /\
  colors (fst r) = colors m /\
  same_source w (snd r).
Proof.
  cbv zeta. unfold dispatch_key.
  destruct (key =? 113) eqn:K1.
  { simpl. rewrite andb_false_r. repeat split. }
  rewrite andb_true_r.
  destruct (key =? 32).
  { destruct (perform_rituals_spec m w) as [E [[_ [_ [R C]]] S]]. repeat split; try assumption; apply S. }
  destruct (key =? 114).
  { destruct (mystic_whisper_spec (u8 "Mystic") (u8 "Ritual refreshed") (u8 "INFO") m w)
      as [E [[_ [_ [R C]]] _]].
    repeat split; try assumption; apply mystic_whisper_source. }
  destruct (key =? 108).
  { match goal with |- context [mystic_whisper ?a ?b ?c ?m1 w] =>
      destruct (mystic_whisper_spec a b c m1 w) as [E [[_ [_ [R C]]] _]];
      pose proof (mystic_whisper_source a b c m1 w) as S
    end.
    repeat split; try assumption; apply S. }
  destruct (key =? 97).
  { match goal with |- context [mystic_whisper ?a ?b ?c ?m1 w] =>
      destruct (mystic_whisper_spec a b c m1 w) as [E [[_ [_ [R C]]] _]];
      pose proof (mystic_whisper_source a b c m1 w) as S
    end.
    repeat split; try assumption; apply S. }
  simpl. repeat split.
Qed.

(** ** A scan that cannot read the counter source *)

(** C9: when the counter source cannot be read, [scan_spirits] returns
    normally, the registry and every setting are as before, and the
    warning is logged: the collector holds the lines it held, less the
    oldest one when it was full, followed by one new line, the [ERROR] line
    from "Scanner" with the text of the error; the pass of the event loop
    in which this happens completes, keeps the registry, and leaves
    [running] set unless the key read was [q]. *)
Theorem scan_read_failure m w err :
  proc_net_dev w (proc_reads w) = inl err ->
  (exists m' w',
     scan_spirits m w = Return tt (m', w') /\
     entities m' = entities m /\ same_settings m m' /\
     collected (mystic_whispers m')
     = (if 100 <=? len (collected (mystic_whispers m))
        then tl (collected (mystic_whispers m)) else collected (mystic_whispers m))
       ++ [whisper_line (datetime_now w (clock_reads w)) (u8 "Scanner")
                        (u8 "Failed to scan: " ++ str_of_exn err) (u8 "ERROR")]) /\
  (forall (Screen : Type) (curses : Curses Screen) (scr : Screen),
     let r := run_iteration (m, (scr, w)) in
     returns r /\
     entities (fst (outcome_state r)) = entities m /\
     running (fst (outcome_state r)) = running m && negb (getch w (key_reads w) =? 113)).
Proof.
  intro R. split.
  - rewrite (scan_spirits_read_fails m w R). unfold scan_failed.
    destruct (mystic_whisper_spec (u8 "Scanner") (u8 "Failed to scan: " ++ str_of_exn err)
                (u8 "ERROR") m (with_proc_reads w (S (proc_reads w)))) as [E [S C]].
    destruct (mystic_whisper _ _ _ m _) as [m' w']. cbn [fst] in *.
    rewrite deque_append_eq in C.
    exists m', w'. repeat split; try apply S; assumption.
  - intros Screen curses scr. cbv zeta.
    unfold run_iteration, run_iteration_try, read_key.
    pose proof (dispatch_key_spec (getch w (key_reads w)) m (with_key_reads w (S (key_reads w))))
      as [E1 [R1 [_ S1]]].
    destruct (dispatch_key _ m _) as [m1 w2]. cbn [fst snd] in *.
    pose proof (py_time_source w2) as S2.
    destruct (py_time w2) as [t w3]. cbn [snd] in S2.
    assert (R3 : proc_net_dev w3 (proc_reads w3) = inl err).
    { destruct S1 as [A1 B1], S2 as [A2 B2]. rewrite A2, B2, A1, B1. exact R. }
    destruct (Qle_bool (update_interval (config m1)) (t - last_update m1)).
    + rewrite (scan_spirits_read_fails m1 w3 R3).
      destruct (scan_failed_spec err m1 (with_proc_reads w3 (S (proc_reads w3))))
        as [E2 [[_ [_ [R2 _]]] _]].
      destruct (scan_failed err m1 _) as [m2 w4]. cbn [fst] in *.
      destruct (perform_rituals_spec m2 w4) as [E3 [[_ [_ [R4 _]]] _]].
      destruct (perform_rituals m2 w4) as [m3 w5]. cbn [fst] in *.
      destruct (draw_veil m3 (scr, w5)) as [[] s'|e [scr' w6]].
      * simpl. repeat split; congruence.
      * destruct (mystic_whisper_spec (u8 "Mystic") (u8 "Error: " ++ str_of_exn e)
                    (u8 "ERROR") m3 w6) as [E5 [[_ [_ [R5 _]]] _]].
        destruct (mystic_whisper _ _ _ m3 w6) as [m4 w7]. cbn [fst] in *.
        simpl. repeat split; congruence.
    + simpl. repeat split; congruence.
Qed.

Lemma scan_read_failure_witness :
  exists m' w',
    scan_spirits (sample_mystic MysticConfig_init
                    [(u8 "eth0", sample_entity (u8 "eth0") 1000 500 0 0 (1 # 2) [])] 0)
                 (sample_world (1 # 2) [inl (OSError (u8 "[Errno 13] Permission denied"))])
    = Return tt (m', w') /\
    entities m' = [(u8 "eth0", sample_entity (u8 "eth0") 1000 500 0 0 (1 # 2) [])].
Proof.
  destruct (scan_read_failure
              (sample_mystic MysticConfig_init
                 [(u8 "eth0", sample_entity (u8 "eth0") 1000 500 0 0 (1 # 2) [])] 0)
              (sample_world (1 # 2) [inl (OSError (u8 "[Errno 13] Permission denied"))])
              (err := OSError (u8 "[Errno 13] Permission denied")) eq_refl)
    as [[m' [w' [E [En _]]]] _].
  exists m', w'. split; [exact E | exact En].
Defined.

(** ** Malformed rows *)

Lemma parse_line_malformed sl line i :
  parse_line sl line = Malformed i <->
  malformed_row line i /\ ~ (i = u8 "lo" /\ sl = false).
Proof.
  unfold parse_line, malformed_row.
  destruct (str_eqb (strip line) []) eqn:E0.
  { apply str_eqb_eq in E0. split; [discriminate | intros [[H _] _]; contradiction]. }
  apply str_eqb_neq in E0.
  destruct (len (split_on 58%N line) <? 2) eqn:E1.
  { apply Z.ltb_lt in E1. split; [discriminate | intros [[_ [H _]] _]; lia]. }
  apply Z.ltb_ge in E1.
  set (iface := strip (nth_str (split_on 58%N line) 0)).
  set (data := split_ws (nth_str (split_on 58%N line) 1)).
  destruct (str_eqb iface []) eqn:E2; cbn [orb].
  { apply str_eqb_eq in E2. split; [discriminate|]. intros [[_ [_ [A [B _]]]] _]. congruence. }
  apply str_eqb_neq in E2.
  destruct (str_eqb iface (u8 "lo") && negb sl) eqn:E3.
  { apply andb_true_iff in E3. destruct E3 as [A B]. apply str_eqb_eq in A.
    apply negb_true_iff in B. split; [discriminate|]. intros [[_ [_ [C _]]] N].
    exfalso. apply N. split; congruence. }
  destruct (len data <? 16) eqn:E4.
  - apply Z.ltb_lt in E4. split.
    + intro H. inversion H; subst i. repeat split; try assumption.
      intros [A B]. apply andb_false_iff in E3. destruct E3 as [C|C].
      * apply str_eqb_neq in C. contradiction.
      * subst sl. discriminate.
    + intros [[_ [_ [A _]]] _]. now subst i.
  - apply Z.ltb_ge in E4. split.
    + intro H. destruct (py_int (nth_str data 0)); [destruct (py_int (nth_str data 8))|];
        discriminate.
    + intros [[_ [_ [_ [_ A]]]] _]. lia.
Qed.

(** C10 as worded does not hold for the loopback row while loopback is
    hidden.  In a session where loopback is shown for the first sampling
    cycle and hidden again before the second, [lo] is tracked after the
    first cycle; in the second cycle its row is malformed, and the scan
    removes the entity all the same. *)
Lemma hidden_loopback_row_removed :
  show_loopback (config (toggle_session 1)) = true /\
  dict_get (u8 "lo") (entities (toggle_session 1)) <> None /\
  proc_net_dev toggle_world 1 = inr (proc_header ++ [lo_malformed_row]) /\
  malformed_row lo_malformed_row (u8 "lo") /\
  show_loopback (config (toggle_session 2)) = false /\
  dict_get (u8 "lo") (entities (toggle_session 2)) = None.
Proof.
  split; [vm_compute; reflexivity|]. split; [vm_compute; discriminate|].
  split; [reflexivity|]. split; [|split; vm_compute; reflexivity].
  unfold malformed_row. repeat split; try (vm_compute; congruence).
Qed.

(** C10 (amended): when every row of an already-tracked interface in the
    scan is malformed, and the interface is not the loopback hidden by the
    configuration, the scan returns with that entity still in the registry
    and none of its fields changed. *)
Theorem malformed_row_keeps_entity m w all_lines i e line :
  proc_net_dev w (proc_reads w) = inr all_lines ->
  dict_get i (entities m) = Some e ->
  In line (skipn 2 all_lines) ->
  malformed_row line i ->
  ~ hidden_loopback (config m) i ->
  (forall l rx tx, In l (skipn 2 all_lines) ->
     parse_line (show_loopback (config m)) l <> Sample i rx tx) ->
  exists m' w',
    scan_spirits m w = Return tt (m', w') /\ dict_get i (entities m') = Some e.
Proof.
  intros R G I Mal NH NoS.
  assert (Ob : observed (show_loopback (config m)) (skipn 2 all_lines) i).
  { exists line. split; [assumption|].
    assert (P : parse_line (show_loopback (config m)) line = Malformed i)
      by (apply parse_line_malformed; split; assumption).
    now rewrite P. }
  pose proof (scan_keeps_unparsed m w R Ob NoS) as K.
  pose proof (scan_spirits_returns m w) as Rt.
  destruct (scan_spirits m w) as [[] [m' w']|]; [|contradiction].
  exists m', w'. split; [reflexivity|]. cbn [outcome_state fst] in K. congruence.
Qed.

Lemma malformed_row_keeps_entity_witness :
  exists m' w',
    scan_spirits (with_config lo_mystic (with_show_loopback MysticConfig_init true)) lo_world
    = Return tt (m', w') /\
    dict_get (u8 "lo") (entities m') = Some (sample_entity (u8 "lo") 1000 500 0 0 (1 # 2) []).
Proof.
  apply (malformed_row_keeps_entity
           (with_config lo_mystic (with_show_loopback MysticConfig_init true)) lo_world
           (all_lines := proc_header ++ [lo_malformed_row])
           (line := lo_malformed_row)).
  - reflexivity.
  - reflexivity.
  - now left.
  - unfold malformed_row. repeat split; try (vm_compute; congruence).
  - intros [_ H]. discriminate.
  - intros l rx tx [<-|[]]. vm_compute. discriminate.
Defined.

(** ** Rates *)

(** C1 as worded fails in the second sampling cycle of a session:
    the rate of [eth0] is its byte difference divided by the time since
    the loop's [last_update] (8 seconds), not by the time since the
    entity's own [last_seen] (7 seconds). *)
Lemma rate_uses_cycle_timer :
  exists e1 e2,
    eth0_after 1 = Some e1 /\ eth0_after 2 = Some e2 /\
    (0 < last_seen e2 - last_seen e1)%Q /\
    ~ (rx_rate e2 == inject_Z (rx_bytes e2 - rx_bytes e1) / (last_seen e2 - last_seen e1))%Q /\
    (rx_rate e2 == inject_Z (rx_bytes e2 - rx_bytes e1)
                   / (last_seen e2 - last_update (fst (session_after 1))))%Q.
Proof.
  assert (E1 : exists e1, eth0_after 1 = Some e1 /\ rx_bytes e1 = 1000 /\ last_seen e1 = 3%Q
                          /\ last_update (fst (session_after 1)) = 2%Q).
  { eexists. vm_compute. repeat split. }
  assert (E2 : exists e2, eth0_after 2 = Some e2 /\ rx_bytes e2 = 4000 /\ last_seen e2 = 10%Q
                          /\ rx_rate e2 = (3000 # 8)%Q).
  { eexists. vm_compute. repeat split. }
  destruct E1 as [e1 [A1 [B1 [C1 D1]]]]. destruct E2 as [e2 [A2 [B2 [C2 D2]]]].
  exists e1, e2. rewrite B1, C1, D1, B2, C2, D2.
  repeat split; try assumption; vm_compute; congruence.
Qed.

(** C1 (amended): when a tracked entity is observed again through a
    well-formed row (its only row in the scan, reached without an
    exception), the scan takes [dt] as its own time stamp minus the loop's
    [last_update]; if [dt] is positive it sets both rates to the byte
    difference divided by [dt], otherwise it leaves them; in both cases
    the raw counters and [last_seen] are updated. *)
Theorem scan_derives_rates m w all_lines pre line post i e rx tx :
  proc_net_dev w (proc_reads w) = inr all_lines ->
  skipn 2 all_lines = pre ++ line :: post ->
  dict_get i (entities m) = Some e ->
  parse_line (show_loopback (config m)) line = Sample i rx tx ->
  (forall l, In l (pre ++ post) ->
     row_interface (parse_line (show_loopback (config m)) l) <> Some i) ->
  (forall l j err, In l pre ->
     parse_line (show_loopback (config m)) l <> NotANumber j err) ->
  exists m' w' e',
    scan_spirits m w = Return tt (m', w') /\
    dict_get i (entities m') = Some e' /\
    ((0 < scan_time w - last_update m)%Q ->
       rx_rate e' = (inject_Z (rx - rx_bytes e) / (scan_time w - last_update m))%Q /\
       tx_rate e' = (inject_Z (tx - tx_bytes e) / (scan_time w - last_update m))%Q) /\
    ((scan_time w - last_update m <= 0)%Q ->
       rx_rate e' = rx_rate e /\ tx_rate e' = tx_rate e) /\
    rx_bytes e' = rx /\ tx_bytes e' = tx /\ last_seen e' = scan_time w.
Proof.
  intros R Sp G P Only Reach.
  rewrite (scan_spirits_read_ok m w R), Sp, scan_lines_app.
  set (t := scan_time w).
  (* the rows before *)
  pose proof (scan_lines_returns t pre [] m (scan_world w) Reach) as Rt.
  pose proof (scan_lines_inv t pre [] m (scan_world w)) as [S1 [_ [F1 _]]].
  destruct (scan_lines t pre [] m (scan_world w)) as [f1 [m1 w1]|]; [|contradiction].
  cbn [outcome_state fst] in *.
  assert (G1 : dict_get i (entities m1) = Some e).
  { rewrite F1; [exact G|]. intros l rx' tx' I E.
    apply (Only l); [apply in_or_app; now left | now rewrite E]. }
  destruct S1 as [Cf [Lu _]].
  (* the row itself *)
  cbn [scan_lines]. rewrite Cf, P.
  destruct (observe_spec t i rx tx m1 w1) as [S2 [_ [_ [O2 _]]]].
  specialize (O2 _ G1). rewrite Lu in O2.
  destruct (observe t i rx tx m1 w1) as [m2 w2]. cbn [fst] in *.
  set (e' := fst (update_entity t (last_update m) rx tx e w1)) in *.
  assert (Cf2 : config m2 = config m) by (destruct S2 as [A _]; congruence).
  (* the rows after *)
  pose proof (scan_lines_inv t post (set_add i f1) m2 w2) as [_ [_ [F3 _]]].
  assert (G3 : dict_get i (entities (fst (outcome_state
                 (scan_lines t post (set_add i f1) m2 w2)))) = Some e').
  { rewrite F3; [exact O2|]. intros l rx' tx' I E. rewrite Cf2 in E.
    apply (Only l); [apply in_or_app; now right | now rewrite E]. }
  assert (Final : exists m' w',
             match scan_lines t post (set_add i f1) m2 w2 with
             | Return found (m3, w3) => Return tt (expire found m3 w3)
             | Raise err (m3, w3) => Return tt (scan_failed err m3 w3)
             end = Return tt (m', w') /\ dict_get i (entities m') = Some e').
  { destruct (scan_lines t post (set_add i f1) m2 w2) as [found [m3 w3]|err [m3 w3]] eqn:E;
      cbn [outcome_state fst] in G3.
    - destruct (scan_lines_found _ _ _ _ _ E) as [Fo _].
      destruct (expire_spec found m3 w3) as [_ [_ [Keep _]]].
      destruct (expire found m3 w3) as [m' w']. cbn [fst] in *.
      exists m', w'. split; [reflexivity|]. rewrite Keep; [exact G3|].
      apply Fo. left. apply set_add_In. now left.
    - destruct (scan_failed_spec err m3 w3) as [En _].
      destruct (scan_failed err m3 w3) as [m' w']. cbn [fst] in *.
      exists m', w'. split; [reflexivity | congruence]. }
  destruct Final as [m' [w' [E Gf]]].
  exists m', w', e'. split; [exact E|]. split; [exact Gf|].
  destruct (update_entity_fields t (last_update m) rx tx e w1)
    as [Rx [Tx [Bx [Bt [Ls _]]]]]. fold e' in Rx, Tx, Bx, Bt, Ls.
  split; [|split]; [| |repeat split; assumption].
  - intro Pos. apply Qltb_lt in Pos. rewrite Pos in Rx, Tx. split; assumption.
  - intro Neg. apply Qltb_ge in Neg. rewrite Neg in Rx, Tx. split; assumption.
Qed.

Lemma scan_derives_rates_witness :
  exists m' w' e',
    scan_spirits spec_example_mystic spec_example_world = Return tt (m', w') /\
    dict_get (u8 "eth0") (entities m') = Some e' /\
    (rx_rate e' == 500)%Q /\ (tx_rate e' == 500)%Q /\
    rx_bytes e' = 2000 /\ tx_bytes e' = 1500 /\ last_seen e' = 0%Q.
Proof.
  destruct (@scan_derives_rates spec_example_mystic spec_example_world
              (proc_header ++ [proc_row (u8 "eth0") (u8 "2000") (u8 "1500")])
              [] (proc_row (u8 "eth0") (u8 "2000") (u8 "1500")) []
              (u8 "eth0") (sample_entity (u8 "eth0") 1000 500 0 0 (1 # 2) []) 2000 1500)
    as [m' [w' [e' [E [G [Pos [_ [Bx [Bt Ls]]]]]]]]].
  - reflexivity.
  - reflexivity.
  - reflexivity.
  - reflexivity.
  - intros l [].
  - intros l j err [].
  - exists m', w', e'. split; [exact E|]. split; [exact G|].
    destruct Pos as [Rx Tx]; [reflexivity|]. rewrite Rx, Tx.
    repeat split; try assumption; reflexivity.
Defined.

(** The first row of an interface already gives it rates: its whole
    counters over the time since [last_update]. *)
Lemma observe_new_entity_rates now i rx tx m w :
  dict_get i (entities m) = None ->
  (0 < now - last_update m)%Q ->
  exists e',
    dict_get i (entities (fst (observe now i rx tx m w))) = Some e' /\
    rx_rate e' = (inject_Z (rx - 0) / (now - last_update m))%Q /\
    tx_rate e' = (inject_Z (tx - 0) / (now - last_update m))%Q.
Proof.
  intros G Pos.
  destruct (observe_spec now i rx tx m w) as [_ [_ [_ [_ New]]]].
  destruct (New G) as [w1 [t [Ge _]]].
  destruct (NetworkEntity_init_fresh i w) as [Bx [Bt _]].
  destruct (update_entity_fields now (last_update m) rx tx (fst (NetworkEntity_init i i w)) w1)
    as [Rx [Tx _]].
  apply Qltb_lt in Pos. rewrite Pos, Bx in Rx. rewrite Pos, Bt in Tx.
  eexists. split; [exact Ge|]. split; assumption.
Qed.

(** C5: the scan that creates an entity already derives rates for it.  In
    the first sampling cycle of the session [eth0] is not tracked before
    the scan and has non-zero rates after it: its whole counters divided
    by the 3 seconds since the mystic was constructed. *)
Lemma first_scan_derives_rate :
  eth0_after 0 = None /\
  exists e, eth0_after 1 = Some e /\
            rx_bytes e = 1000 /\ tx_bytes e = 500 /\
            rx_rate e = (1000 # 3)%Q /\ tx_rate e = (500 # 3)%Q.
Proof.
  split; [reflexivity|]. eexists. vm_compute. repeat split.
Qed.

(** ** Registry and scan *)

(** The lines the loop over the rows hands to the collector when it
    completes: one creation line for each interface it starts to track,
    in the order of their first parsed rows. *)
Lemma scan_lines_events t lines : forall found m w found' m' w',
  scan_lines t lines found m w = Return found' (m', w') ->
  exists created cs,
    NoDup created /\
    (forall i, In i created <->
       ~ tracked i m /\ sampled (show_loopback (config m)) lines i) /\
    Forall2 (creation_event m') created cs /\
    collected (mystic_whispers m') = deque_extend (collected (mystic_whispers m)) cs.
Proof.
  unfold sampled.
  induction lines as [|line lines IH]; intros found m w found' m' w' E; cbn [scan_lines] in E.
  - inversion E; subst. exists [], []. split; [constructor|]. split.
    + intro i. split; [intros [] | intros [_ [l [rx [tx [[] _]]]]]].
    + split; [constructor | reflexivity].
  - destruct (parse_line (show_loopback (config m)) line) as [|i0|i0 e0|i0 rx0 tx0] eqn:P.
    + destruct (IH _ _ _ _ _ _ E) as [created [cs [ND [Ic [F C]]]]].
      exists created, cs. split; [exact ND|]. split; [|split; assumption].
      intro i. rewrite Ic. split; intros [NT [l [rx [tx [I R]]]]]; (split; [exact NT|]).
      * exists l, rx, tx. split; [now right | exact R].
      * destruct I as [<-|I]; [congruence|]. exists l, rx, tx. split; assumption.
    + destruct (IH _ _ _ _ _ _ E) as [created [cs [ND [Ic [F C]]]]].
      exists created, cs. split; [exact ND|]. split; [|split; assumption].
      intro i. rewrite Ic. split; intros [NT [l [rx [tx [I R]]]]]; (split; [exact NT|]).
      * exists l, rx, tx. split; [now right | exact R].
      * destruct I as [<-|I]; [congruence|]. exists l, rx, tx. split; assumption.
    + discriminate.
    + pose proof (observe_spec t i0 rx0 tx0 m w) as [S1 [_ [F1 [O1 N1]]]].
      pose proof (@observe_collector t i0 rx0 tx0 m w) as OC.
      destruct (observe t i0 rx0 tx0 m w) as [m1 w1] eqn:Ob. cbn [fst] in *.
      assert (Cf : config m1 = config m) by apply S1.
      destruct (IH _ _ _ _ _ _ E) as [created [cs [ND [Ic [F C]]]]]. rewrite Cf in Ic.
      pose proof (scan_lines_inv t lines (set_add i0 found) m1 w1) as [_ [_ [_ Nm]]].
      rewrite E in Nm. cbn [outcome_state fst] in Nm.
      destruct (dict_get i0 (entities m)) as [e0|] eqn:G0.
      * assert (T1 : forall j, tracked j m1 <-> tracked j m).
        { intro j. unfold tracked. destruct (list_eq_dec N.eq_dec j i0) as [->|Nj].
          - rewrite (O1 _ eq_refl), G0. split; discriminate.
          - now rewrite (F1 j Nj). }
        exists created, cs. split; [exact ND|]. split; [|split; [exact F|]].
        -- intro i. rewrite Ic, T1. split.
           ++ intros [NT [l [rx [tx [I R]]]]]. split; [exact NT|].
              exists l, rx, tx. split; [now right | exact R].
           ++ intros [NT [l [rx [tx [[<-|I] R]]]]].
              ** exfalso. rewrite P in R. inversion R; subst. apply NT. unfold tracked.
                 rewrite G0. discriminate.
              ** split; [exact NT|]. exists l, rx, tx. split; assumption.
        -- rewrite C, OC; [reflexivity|]. unfold tracked. rewrite G0. discriminate.
      * destruct (N1 eq_refl) as [wa [now [Gn Cn]]].
        assert (T1 : forall j, tracked j m1 <-> tracked j m \/ j = i0).
        { intro j. unfold tracked. destruct (list_eq_dec N.eq_dec j i0) as [->|Nj].
          - rewrite Gn. split; [now right | discriminate].
          - rewrite (F1 j Nj). split; [auto | intros [H|H]; [assumption | contradiction]]. }
        destruct (Nm _ _ Gn) as [e' [Ge' Ne']].
        destruct (update_entity_fields t (last_update m) rx0 tx0
                    (fst (NetworkEntity_init i0 i0 w)) wa) as [_ [_ [_ [_ [_ [Na _]]]]]].
        exists (i0 :: created), (appeared_line now (name e') :: cs).
        split; [constructor; [|exact ND]|].
        { rewrite Ic, T1. intros [NT _]. apply NT. now right. }
        split; [|split].
        -- intro i. cbn [In]. rewrite Ic, T1. split.
           ++ intros [<-|[NT [l [rx [tx [I R]]]]]].
              ** split; [unfold tracked; rewrite G0; intro H; now apply H|].
                 exists line, rx0, tx0. split; [now left | exact P].
              ** split; [tauto|]. exists l, rx, tx. split; [now right | exact R].
           ++ intros [NT [l [rx [tx [[<-|I] R]]]]].
              ** left. rewrite P in R. now inversion R.
              ** destruct (list_eq_dec N.eq_dec i0 i) as [->|Ni]; [now left|].
                 right. split; [intros [H|H]; [contradiction | congruence]|].
                 exists l, rx, tx. split; assumption.
        -- constructor; [|exact F]. exists now, e'. split; [exact Ge' | reflexivity].
        -- rewrite C, Cn, Ne', Na. reflexivity.
Qed.

(** The events of a scan that reads the counter source and gets through
    its rows: it starts to track the interfaces that have a parsed row and
    were not tracked, and stops tracking those that were tracked and are
    not observed, with one line for each in the collector. *)
Lemma scan_completed_events m w all_lines :
  proc_net_dev w (proc_reads w) = inr all_lines ->
  returns (scan_lines (scan_time w) (skipn 2 all_lines) [] m (scan_world w)) ->
  collector_ok m ->
  exists created removed,
    NoDup created /\ NoDup removed /\
    (forall i, In i created <->
       ~ tracked i m /\ sampled (show_loopback (config m)) (skipn 2 all_lines) i) /\
    (forall i, In i removed <->
       tracked i m /\ ~ observed (show_loopback (config m)) (skipn 2 all_lines) i) /\
    scan_events m (fst (outcome_state (scan_spirits m w))) created removed.
Proof.
  intros R Rt B. rewrite (scan_spirits_read_ok m w R).
  set (sl := show_loopback (config m)) in *. set (lines := skipn 2 all_lines) in *.
  pose proof (scan_lines_inv (scan_time w) lines [] m (scan_world w)) as [_ [_ [_ Nm]]].
  destruct (scan_lines (scan_time w) lines [] m (scan_world w)) as [found [m2 w2]|] eqn:E;
    [|contradiction].
  cbn [outcome_state fst] in *.
  destruct (scan_lines_found _ _ _ _ _ E) as [Fo Tr]. fold sl in Fo, Tr.
  destruct (scan_lines_events _ _ _ _ _ E) as [created [cs [NDc [Ic [Fc Cc]]]]]. fold sl in Ic.
  destruct (expire_spec found m2 w2) as [_ [_ [Keep _]]].
  unfold expire in *.
  set (expired := filter (fun iface => negb (str_in iface found)) (dict_keys (entities m2))) in *.
  assert (Ex : forall j, In j expired <-> tracked j m2 /\ ~ In j found).
  { intro j. unfold expired, tracked. rewrite filter_In, negb_true_iff, dict_get_in_keys.
    split; intros [A C]; split; auto.
    - intro I. apply str_in_In in I. congruence.
    - destruct (str_in j found) eqn:Ej; [|reflexivity]. apply str_in_In in Ej. contradiction. }
  destruct (fade_events expired m2 w2) as [removed [rs [NDr [Ir [Fr Cr]]]]].
  assert (FoO : forall i, In i found <-> observed sl lines i).
  { intro i. rewrite Fo. split; [intros [[]|H]; exact H | auto]. }
  assert (SO : forall i, sampled sl lines i -> observed sl lines i).
  { intros i [l [rx [tx [I Si]]]]. exists l. split; [exact I | now rewrite Si]. }
  assert (Rm : forall i, In i removed <-> tracked i m /\ ~ observed sl lines i).
  { intro i. rewrite Ir, Ex, FoO, Tr. split.
    - intros [[[T|Sa] NO] _]; [tauto|]. exfalso. apply NO. fold (sampled sl lines i) in Sa. auto.
    - intros [T NO]. tauto. }
  exists created, removed. split; [exact NDc|]. split; [exact NDr|].
  split; [exact Ic|]. split; [exact Rm|].
  exists cs, rs. split; [|split].
  - eapply Forall2_impl_In; [|exact Fc].
    intros a b Ia [now [e [Ge Eb]]]. exists now, e. split; [|exact Eb].
    rewrite Keep; [exact Ge|]. apply FoO, SO. now apply Ic.
  - eapply Forall2_impl_In; [|exact Fr].
    intros a b Ia [now [e2 [Ge2 Eb]]]. apply Rm in Ia. destruct Ia as [T _].
    unfold tracked in T. destruct (dict_get a (entities m)) as [e|] eqn:Ga; [|congruence].
    destruct (Nm _ _ Ga) as [e' [Ge' Ne']].
    exists now, e. split; [exact Ga|]. rewrite Eb. congruence.
  - rewrite Cr, Cc, deque_extend_app. now apply deque_extend_newest.
Qed.

(** C2 as worded fails on a malformed row of an interface that is
    not tracked yet: the interface is observed in the scan, and no entity
    is created for it. *)
Lemma observed_but_not_created :
  observed false (skipn 2 (proc_header ++ [u8 "  eth1: 1200 7 0" ++ [10%N]])) (u8 "eth1") /\
  ~ tracked (u8 "eth1")
      (fst (outcome_state (scan_spirits empty_mystic eth1_malformed_world))).
Proof.
  split.
  - exists (u8 "  eth1: 1200 7 0" ++ [10%N]). split; [now left | reflexivity].
  - unfold tracked. vm_compute. congruence.
Qed.

(** C2 (amended): after every scan in which each counted row is
    well-formed, an entity is in the registry exactly when its interface
    id was observed in that scan.  The scan has created one entity for
    each observed id that was not tracked (the ids of [created]) and
    removed the entity of each tracked id that was not observed (the ids
    of [removed]), and it has logged exactly these events: one creation
    line for each created entity, then one removal line for each removed
    one, which the collector holds after its former lines (it keeps the
    newest 100 lines of all). *)
Theorem registry_matches_scan m w all_lines :
  proc_net_dev w (proc_reads w) = inr all_lines ->
  rows_well_formed (show_loopback (config m)) (skipn 2 all_lines) ->
  collector_ok m ->
  exists m' w',
    scan_spirits m w = Return tt (m', w') /\
    (forall i, tracked i m' <-> observed (show_loopback (config m)) (skipn 2 all_lines) i) /\
    exists created removed,
      NoDup created /\ NoDup removed /\
      (forall i, In i created <->
         observed (show_loopback (config m)) (skipn 2 all_lines) i /\ ~ tracked i m) /\
      (forall i, In i removed <->
         tracked i m /\ ~ observed (show_loopback (config m)) (skipn 2 all_lines) i) /\
      scan_events m m' created removed.
Proof.
  intros R WF B.
  set (sl := show_loopback (config m)) in *. set (lines := skipn 2 all_lines) in *.
  set (t := scan_time w).
  assert (ObS : forall i, observed sl lines i <-> sampled sl lines i).
  { intro i. split.
    - intros [l [I Ri]]. destruct (WF l I) as [Sk|[j [rx [tx Sj]]]].
      + rewrite Sk in Ri. discriminate.
      + rewrite Sj in Ri. inversion Ri; subst. now exists l, rx, tx.
    - intros [l [rx [tx [I Si]]]]. exists l. split; [assumption | now rewrite Si]. }
  assert (Rt : returns (scan_lines t lines [] m (scan_world w))).
  { apply scan_lines_returns. intros l j e I E.
    destruct (WF l I) as [Sk|[j' [rx [tx Sj]]]]; fold sl in E; congruence. }
  destruct (@scan_completed_events m w all_lines R Rt B) as [created [removed [NDc [NDr [Ic [Ir Ev]]]]]].
  fold sl lines in Ic, Ir. rewrite (scan_spirits_read_ok m w R) in Ev. fold lines t in Ev.
  rewrite (scan_spirits_read_ok m w R). fold lines t.
  destruct (scan_lines t lines [] m (scan_world w)) as [found [m2 w2]|]  eqn:E; [|contradiction].
  cbn [outcome_state fst] in *.
  destruct (scan_lines_found _ _ _ _ _ E) as [Fo Tr]. fold sl in Fo, Tr.
  destruct (expire_spec found m2 w2) as [_ [_ [Keep Gone]]].
  destruct (expire found m2 w2) as [m' w']. cbn [fst] in *.
  assert (FoO : forall i, In i found <-> observed sl lines i).
  { intro i. rewrite Fo. split; [intros [[]|H]; exact H | auto]. }
  exists m', w'. split; [reflexivity|]. split.
  - intro i. unfold tracked. split.
    + intro T. destruct (in_dec (list_eq_dec N.eq_dec) i found) as [I|NI].
      * now apply FoO.
      * rewrite (Gone i NI) in T. congruence.
    + intro O. rewrite Keep by (now apply FoO). apply Tr. right. now apply ObS.
  - exists created, removed. split; [exact NDc|]. split; [exact NDr|]. split; [|split].
    + intro i. rewrite Ic, ObS. tauto.
    + exact Ir.
    + exact Ev.
Qed.

Lemma registry_matches_scan_witness :
  exists m' w',
    scan_spirits lo_mystic two_reads_world = Return tt (m', w') /\
    tracked (u8 "eth0") m' /\ ~ tracked (u8 "lo") m' /\
    exists created removed,
      In (u8 "eth0") created /\ In (u8 "lo") removed /\
      scan_events lo_mystic m' created removed.
Proof.
  destruct (@registry_matches_scan lo_mystic two_reads_world
              (proc_header ++ [proc_row (u8 "eth0") (u8 "1000") (u8 "500")]))
    as [m' [w' [E [T [created [removed [_ [_ [Ic [Ir Ev]]]]]]]]]].
  - reflexivity.
  - intros l [<-|[]]. right. exists (u8 "eth0"), 1000, 500. reflexivity.
  - vm_compute. discriminate.
  - assert (O : observed (show_loopback (config lo_mystic))
                  (skipn 2 (proc_header ++ [proc_row (u8 "eth0") (u8 "1000") (u8 "500")]))
                  (u8 "eth0")).
    { exists (proc_row (u8 "eth0") (u8 "1000") (u8 "500")). split; [now left | reflexivity]. }
    assert (NO : ~ observed (show_loopback (config lo_mystic))
                   (skipn 2 (proc_header ++ [proc_row (u8 "eth0") (u8 "1000") (u8 "500")]))
                   (u8 "lo")).
    { intros [l [[<-|[]] Ri]]. vm_compute in Ri. discriminate. }
    exists m', w'. split; [exact E|]. split; [now apply T|]. split.
    + intro A. apply T in A. contradiction.
    + exists created, removed. split; [|split; [|exact Ev]].
      * apply Ic. split; [exact O|]. unfold tracked. vm_compute. intro H. now apply H.
      * apply Ir. split; [|exact NO]. unfold tracked. vm_compute. discriminate.
Defined.

(** ** The renderer never raises *)

Section MonadFacts.
Context {S : Type}.

Lemma safe_ret A (a : A) : safe (S := S) (ret a).
Proof. intro s. exact I. Qed.

Lemma safe_bind A B (c : M S A) (k : A -> M S B) :
  safe c -> (forall a, safe (k a)) -> safe (bind c k).
Proof.
  intros Hc Hk s. unfold bind. specialize (Hc s).
  destruct (c s) as [a s'|e s']; [apply Hk | contradiction].
Qed.

Lemma safe_try_except A (body handler : M S A) : safe handler -> safe (try_except body handler).
Proof.
  intros H s. unfold try_except. destruct (body s) as [a s'|e s']; [exact I | apply H].
Qed.

Lemma safe_try_pass (body : M S unit) : safe (try_pass body).
Proof. apply safe_try_except, safe_ret. Qed.

Lemma safe_for_each A (xs : list A) (body : A -> M S unit) :
  (forall x, In x xs -> safe (body x)) -> safe (for_each xs body).
Proof.
  induction xs as [|x xs IH]; intro H; cbn [for_each].
  - apply safe_ret.
  - apply safe_bind; [apply H; now left|]. intros _. apply IH. intros y I. apply H. now right.
Qed.

Lemma safe_raises_only_curses A (c : M S A) : safe c -> raises_only_curses c.
Proof. intros H s e s' E. specialize (H s). rewrite E in H. contradiction. Qed.

Lemma raises_only_curses_bind A B (c : M S A) (k : A -> M S B) :
  raises_only_curses c -> (forall a, raises_only_curses (k a)) ->
  raises_only_curses (bind c k).
Proof.
  intros Hc Hk s e s' E. unfold bind in E.
  destruct (c s) as [a s1|e1 s1] eqn:C.
  - exact (Hk a s1 e s' E).
  - inversion E; subst. exact (Hc s e s' C).
Qed.

Lemma raises_only_curses_for_each A (xs : list A) (body : A -> M S unit) :
  (forall x, In x xs -> raises_only_curses (body x)) -> raises_only_curses (for_each xs body).
Proof.
  induction xs as [|x xs IH]; intro H; cbn [for_each].
  - apply safe_raises_only_curses, safe_ret.
  - apply raises_only_curses_bind; [apply H; now left|].
    intros _. apply IH. intros y I. apply H. now right.
Qed.

Lemma safe_try_pass_curses (body : M S unit) :
  raises_only_curses body -> safe (try_pass_curses body).
Proof.
  intros H s. unfold try_pass_curses. destruct (body s) as [a s'|e s'] eqn:E; [exact I|].
  rewrite (H s e s' E). exact I.
Qed.

(** Once every write of a sequence succeeds, guarding each one on its own
    changes nothing. *)
Lemma for_each_try_pass (writes : list (M S unit)) s :
  returns (for_each writes (fun write => write) s) ->
  for_each writes try_pass s = for_each writes (fun write => write) s.
Proof.
  revert s. induction writes as [|wr writes IH]; intros s R; cbn [for_each] in *.
  - reflexivity.
  - unfold bind, try_pass, try_except in *.
    destruct (wr s) as [[] s1|e s1]; [now apply IH | contradiction].
Qed.
End MonadFacts.

Section RendererFacts.
Context {Screen : Type} {curses : Curses Screen}.
Lemma raises_only_curses_on_screen (call : Screen -> Screen * bool) :
  raises_only_curses (on_screen call).
Proof.
  intros s e s' E. unfold on_screen in E.
  destruct (call (fst s)) as [scr ok]. destruct ok; inversion E. reflexivity.
Qed.

Lemma safe_ask_screen A (f : Screen -> A) : safe (ask_screen f).
Proof. intro s. exact I. Qed.

Lemma safe_ask_world A (f : World -> A) : safe (ask_world (Screen := Screen) f).
Proof. intro s. exact I. Qed.

Lemma safe_on_world A (f : World -> A * World) : safe (on_world (Screen := Screen) f).
Proof. intro s. unfold on_world. destruct (f (snd s)). exact I. Qed.

Lemma raises_only_curses_put y x s attr : raises_only_curses (put y x s attr).
Proof. apply raises_only_curses_on_screen. Qed.

Lemma the_color_ready m k :
  colors_ready m -> In k [1; 2; 3; 4] -> exists c, the_color m k = ret (S := @St Screen) c.
Proof.
  intros H I. unfold the_color. specialize (H k I).
  destruct (colors_get k (colors m)) as [c|]; [now exists c | congruence].
Qed.

Lemma safe_draw_veil_border height width : safe (draw_veil_border height width).
Proof.
  unfold draw_veil_border. apply safe_for_each. intros y _.
  destruct (y =? 0); [|destruct (y =? height - 1)]; apply safe_try_pass.
Qed.

Lemma safe_render_glyph m glyph ox oy : safe (render_glyph m glyph ox oy).
Proof.
  unfold render_glyph. destruct (position glyph) as [x y].
  apply safe_bind; [apply safe_ask_screen|]. intro cols.
  apply safe_bind; [apply safe_ask_screen|]. intro lines.
  destruct (_ && _); [apply safe_try_pass | apply safe_ret].
Qed.

Lemma safe_draw_bar m h x y color : safe (draw_bar m h x y color).
Proof. unfold draw_bar. apply safe_for_each. intros i _. apply safe_try_pass. Qed.

Lemma safe_render_flow_visualization m rx tx x y width :
  safe (render_flow_visualization m rx tx x y width).
Proof.
  unfold render_flow_visualization.
  apply safe_bind; [apply safe_draw_bar|]. intros _. apply safe_draw_bar.
Qed.

Lemma safe_draw_spirit_whispers ws : forall y, safe (draw_spirit_whispers ws y).
Proof.
  induction ws as [|whisper rest IH]; intro y; cbn [draw_spirit_whispers].
  - apply safe_ret.
  - apply safe_bind; [apply safe_ask_screen|]. intro lines.
    apply safe_bind; [|intro y'; apply IH].
    destruct (y <? lines - 2); [apply safe_try_except|]; apply safe_ret.
Qed.

Lemma safe_spirit_rest m entity y_start : safe (spirit_rest m entity y_start).
Proof.
  unfold spirit_rest.
  apply safe_bind; [apply safe_render_flow_visualization|]. intros _.
  apply safe_bind; [apply safe_draw_spirit_whispers|]. intro whisper_y.
  apply safe_bind; [apply safe_ask_screen|]. intro cols.
  apply safe_bind; [apply safe_try_pass|]. intros _.
  apply safe_for_each. intros g _. apply safe_render_glyph.
Qed.

Lemma raises_only_curses_header m entity y_start ip_display :
  colors_ready m ->
  forall write, In write (spirit_header m entity y_start ip_display) ->
                raises_only_curses write.
Proof.
  intros Rdy write I. unfold spirit_header in I.
  destruct (the_color_ready (k := 4) Rdy) as [c4 E4]; [simpl; tauto|].
  destruct (the_color_ready (k := 2) Rdy) as [c2 E2]; [simpl; tauto|].
  destruct (the_color_ready (k := 3) Rdy) as [c3 E3]; [simpl; tauto|].
  rewrite E4, E2, E3 in I.
  destruct I as [<-|[<-|[<-|[<-|[<-|[<-|[]]]]]]];
    try apply raises_only_curses_put;
    (apply raises_only_curses_bind;
     [apply safe_raises_only_curses, safe_ret | intro; apply raises_only_curses_put]).
Qed.

Lemma safe_draw_spirit_info m entity y_start :
  colors_ready m -> safe (draw_spirit_info m entity y_start).
Proof.
  intro Rdy. unfold draw_spirit_info. apply safe_try_pass_curses.
  apply raises_only_curses_bind; [apply safe_raises_only_curses, safe_ask_world|]. intro ips.
  apply raises_only_curses_bind.
  - apply raises_only_curses_for_each. intros write I.
    eapply raises_only_curses_header; eassumption.
  - intros _. apply safe_raises_only_curses, safe_spirit_rest.
Qed.

Lemma safe_draw_status_bar m height width : safe (draw_status_bar m height width).
Proof.
  unfold draw_status_bar. apply safe_try_pass_curses, safe_raises_only_curses.
  apply safe_bind; [apply safe_on_world|]. intro mystic_time. apply safe_try_pass.
Qed.

Lemma safe_draw_whispers_panel m height width : safe (draw_whispers_panel m height width).
Proof.
  unfold draw_whispers_panel. destruct (negb (show_whispers (config m))); [apply safe_ret|].
  apply safe_try_pass_curses, safe_raises_only_curses.
  apply safe_bind; [apply safe_try_pass|]. intros _.
  apply safe_bind.
  { apply safe_for_each. intros [i whisper] _.
    destruct (i <? height - 4); [apply safe_try_pass | apply safe_ret]. }
  intros _. apply safe_bind.
  { apply safe_for_each. intros y _. apply safe_try_pass. }
  intros _. apply safe_try_pass.
Qed.

Lemma safe_draw_spirits (block : NetworkEntity -> Z -> M (@St Screen) unit) spirits height :
  (forall spirit y, safe (block spirit y)) ->
  forall y, safe (draw_spirits block spirits y height).
Proof.
  intro Hb. induction spirits as [|spirit rest IH]; intro y; cbn [draw_spirits].
  - apply safe_ret.
  - destruct (y <? height - 10); [|apply IH].
    apply safe_bind; [apply Hb | intros _; apply IH].
Qed.

(** The loop of [draw_veil] calls the block routine on [blocks_drawn], in
    order. *)
Lemma draw_spirits_blocks (block : NetworkEntity -> Z -> M (@St Screen) unit) spirits height :
  forall y,
  draw_spirits block spirits y height
  = for_each (blocks_drawn spirits y height) (fun b => block (fst b) (snd b)).
Proof.
  induction spirits as [|spirit rest IH]; intro y; cbn [draw_spirits blocks_drawn].
  - reflexivity.
  - destruct (y <? height - 10); [|apply IH]. cbn [for_each fst snd]. now rewrite IH.
Qed.

Lemma safe_draw_veil_with (block : NetworkEntity -> Z -> M (@St Screen) unit) m :
  (forall spirit y, safe (block spirit y)) -> safe (draw_veil_with block m).
Proof.
  intro Hb. unfold draw_veil_with. apply safe_try_pass_curses.
  apply raises_only_curses_bind; [apply raises_only_curses_on_screen|]. intros _.
  apply raises_only_curses_bind; [apply safe_raises_only_curses, safe_ask_screen|].
  intros [height width].
  apply raises_only_curses_bind; [apply safe_raises_only_curses, safe_draw_veil_border|].
  intros _.
  apply raises_only_curses_bind; [apply safe_raises_only_curses, safe_try_pass|]. intros _.
  apply raises_only_curses_bind; [apply safe_raises_only_curses, safe_on_world|].
  intro mystic_time.
  apply raises_only_curses_bind.
  { apply safe_raises_only_curses. destruct (0 <? _); [apply safe_try_pass | apply safe_ret]. }
  intros _.
  apply raises_only_curses_bind.
  { apply safe_raises_only_curses, safe_draw_spirits, Hb. }
  intros _.
  apply raises_only_curses_bind; [apply safe_raises_only_curses, safe_draw_status_bar|].
  intros _.
  apply raises_only_curses_bind; [apply safe_raises_only_curses, safe_draw_whispers_panel|].
  intros _. apply raises_only_curses_on_screen.
Qed.
End RendererFacts.

Lemma sample_mystic_colors c es t : colors_ready (sample_mystic c es t).
Proof.
  intros k [<-|[<-|[<-|[<-|[]]]]]; vm_compute; discriminate.
Qed.

(** C4 as worded fails on a window of 13 lines by 4 columns: the
    sixth header line of the entity block runs past the end of the window,
    the write raises, and the rest of the block is skipped with it; the
    closing rule of the block, which fits at line 8, column 2, and which a
    renderer dropping each failed write on its own does draw, is missing
    from the frame. *)
Lemma header_failure_drops_block :
  returns (draw_veil narrow_mystic narrow_frame) /\
  (exists entity,
     eth0_after 1 = Some entity /\
     ~ returns (for_each (spirit_header narrow_mystic entity 2 (ip_display_of []))
                         (fun write => write) narrow_frame)) /\
  cell_at (cells (fst (outcome_state (draw_veil_each_guarded narrow_mystic narrow_frame)))) 8 2
    = nth_error (u8 "╰") 0 /\
  cell_at (cells (fst (outcome_state (draw_veil narrow_mystic narrow_frame)))) 8 2
    = nth_error (u8 "o") 0.
Proof.
  split; [vm_compute; exact I|]. split.
  - eexists. split; [vm_compute; reflexivity | vm_compute; tauto].
  - split; vm_compute; reflexivity.
Qed.

(** ** The entity blocks of a frame *)

Lemma blocks_drawn_stop spirits y height :
  (y <? height - 10) = false -> blocks_drawn spirits y height = [].
Proof.
  intro E. induction spirits as [|spirit rest IH]; cbn [blocks_drawn]; [reflexivity|].
  now rewrite E.
Qed.

Lemma blocks_drawn_prefix spirits height : forall y,
  exists k, map fst (blocks_drawn spirits y height) = firstn k spirits.
Proof.
  induction spirits as [|spirit rest IH]; intro y; cbn [blocks_drawn].
  - exists 0%nat. reflexivity.
  - destruct (y <? height - 10) eqn:E.
    + destruct (IH (y + 9)) as [k Ek]. exists (S k). cbn [map fst firstn]. now rewrite Ek.
    + rewrite (blocks_drawn_stop rest _ _ E). exists 0%nat. reflexivity.
Qed.

Lemma slice_to_prefix A (l : list A) k : exists n, slice_to l k = firstn n l.
Proof. unfold slice_to. destruct (k <? 0); eexists; reflexivity. Qed.

Lemma insert_desc_perm A (key : A -> Q) x l : Permutation (insert_desc key x l) (x :: l).
Proof.
  induction l as [|y l IH]; cbn [insert_desc]; [reflexivity|].
  destruct (Qle_bool (key y) (key x)); [reflexivity|].
  rewrite IH. apply perm_swap.
Qed.

Lemma sorted_desc_perm A (key : A -> Q) l : Permutation (sorted_desc key l) l.
Proof.
  induction l as [|x l IH]; cbn [sorted_desc]; [reflexivity|].
  rewrite insert_desc_perm. now constructor.
Qed.

Lemma insert_desc_sorted A (key : A -> Q) x l :
  StronglySorted (fun a b => (key b <= key a)%Q) l ->
  StronglySorted (fun a b => (key b <= key a)%Q) (insert_desc key x l).
Proof.
  induction l as [|y l IH]; intro St; cbn [insert_desc].
  - repeat constructor.
  - inversion St as [|? ? St' Fy]; subst.
    destruct (Qle_bool (key y) (key x)) eqn:E.
    + apply Qle_bool_iff in E. constructor; [assumption|].
      constructor; [assumption|].
      rewrite Forall_forall in *. intros z I. specialize (Fy z I). lra.
    + assert (L : (key x <= key y)%Q).
      { destruct (Qlt_le_dec (key x) (key y)) as [H|H]; [lra|].
        apply Qle_bool_iff in H. congruence. }
      constructor; [now apply IH|].
      rewrite Forall_forall in *. intros z I.
      apply (Permutation_in _ (insert_desc_perm key x l)) in I.
      destruct I as [<-|I]; [assumption | now apply Fy].
Qed.

Lemma sorted_desc_sorted A (key : A -> Q) l :
  StronglySorted (fun a b => (key b <= key a)%Q) (sorted_desc key l).
Proof.
  induction l as [|x l IH]; cbn [sorted_desc]; [constructor | now apply insert_desc_sorted].
Qed.

Lemma sorted_app_order A (R : A -> A -> Prop) l1 l2 :
  StronglySorted R (l1 ++ l2) -> forall a b, In a l1 -> In b l2 -> R a b.
Proof.
  induction l1 as [|x l1 IH]; intros St a b Ia Ib; [destruct Ia|].
  cbn [app] in St. inversion St as [|? ? St' F]; subst.
  destruct Ia as [<-|Ia].
  - rewrite Forall_forall in F. apply F. apply in_or_app. now right.
  - now apply IH.
Qed.

(** C6 as worded fails for a negative [max_spirits], which Python
    reads as "all but the last": with the limit at -1 and three entities
    the frame draws two blocks. *)
Lemma negative_limit_draws_blocks :
  max_spirits (config negative_limit_mystic) = -1 /\
  len (blocks_drawn (spirits_to_draw negative_limit_mystic) 2 100) = 2 /\
  ~ len (blocks_drawn (spirits_to_draw negative_limit_mystic) 2 100)
      <= max_spirits (config negative_limit_mystic).
Proof.
  split; [reflexivity|]. split; [reflexivity|]. vm_compute. congruence.
Qed.

(** C6 (amended): for every frame whose [max_spirits] is not negative,
    the loop of the renderer calls the block routine on at most
    [max_spirits] entities, and the entities drawn are exactly a prefix of
    the registry sorted by [rx_rate + tx_rate] in descending order: every
    entity left out has a combined rate no larger than any entity drawn. *)
Theorem blocks_are_top_k m height :
  0 <= max_spirits (config m) ->
  let drawn := map fst (blocks_drawn (spirits_to_draw m) 2 height) in
  let ranked := sorted_desc combined_rate (dict_values (entities m)) in
  (forall (Screen : Type) (block : NetworkEntity -> Z -> M (@St Screen) unit),
     draw_spirits block (spirits_to_draw m) 2 height
     = for_each (blocks_drawn (spirits_to_draw m) 2 height)
                (fun b => block (fst b) (snd b))) /\
  len drawn <= max_spirits (config m) /\
  Permutation ranked (dict_values (entities m)) /\
  StronglySorted (fun a b => (combined_rate b <= combined_rate a)%Q) ranked /\
  exists rest,
    ranked = drawn ++ rest /\
    forall a b, In a drawn -> In b rest -> (combined_rate b <= combined_rate a)%Q.
Proof.
  intros Pos drawn ranked.
  assert (Sl : spirits_to_draw m = firstn (Z.to_nat (max_spirits (config m))) ranked).
  { unfold spirits_to_draw, slice_to.
    destruct (max_spirits (config m) <? 0) eqn:E; [apply Z.ltb_lt in E; lia | reflexivity]. }
  destruct (blocks_drawn_prefix (spirits_to_draw m) height 2) as [k Ek]. fold drawn in Ek.
  assert (Dr : drawn = firstn (Nat.min k (Z.to_nat (max_spirits (config m)))) ranked).
  { rewrite Ek, Sl. apply firstn_firstn. }
  pose proof (sorted_desc_sorted combined_rate (dict_values (entities m))) as St.
  fold ranked in St.
  split; [intros Screen block; apply draw_spirits_blocks|].
  split.
  { unfold len. rewrite Dr, length_firstn. lia. }
  split; [apply sorted_desc_perm|]. split; [exact St|].
  exists (skipn (Nat.min k (Z.to_nat (max_spirits (config m)))) ranked).
  assert (Sp : ranked = drawn ++ skipn (Nat.min k (Z.to_nat (max_spirits (config m)))) ranked).
  { rewrite Dr. symmetry. apply firstn_skipn. }
  split; [exact Sp|].
  intros a b Ia Ib. rewrite Sp in St.
  exact (sorted_app_order _ _ St a b Ia Ib).
Qed.

Lemma blocks_are_top_k_witness :
  len (map fst (blocks_drawn (spirits_to_draw limit_two_mystic) 2 100)) <= 2 /\
  map name (map fst (blocks_drawn (spirits_to_draw limit_two_mystic) 2 100))
  = [u8 "eth1 the Silent"; u8 "eth0 the Silent"].
Proof.
  split; [|reflexivity].
  assert (Pos : 0 <= max_spirits (config limit_two_mystic)) by (vm_compute; discriminate).
  exact (proj1 (proj2 (blocks_are_top_k limit_two_mystic 100 Pos))).
Defined.

(** ** The archivist *)

Lemma count_newlines_app a b :
  count_newlines (a ++ b) = (count_newlines a + count_newlines b)%nat.
Proof. unfold count_newlines. now rewrite filter_app, length_app. Qed.

Lemma count_newlines_indent level : count_newlines (newline_indent level) = 1%nat.
Proof.
  unfold count_newlines, newline_indent. cbn [filter N.eqb Pos.eqb length].
  induction (2 * level)%nat as [|n IH]; [reflexivity|]. cbn [repeat filter N.eqb Pos.eqb]. exact IH.
Qed.

(** A dictionary of five entries is written over at least seven lines. *)
Lemma json_encode_five_entries float_repr k1 v1 k2 v2 k3 v3 k4 v4 k5 v5 :
  (6 <= count_newlines
          (json_encode float_repr 0
             (JDict [(k1, v1); (k2, v2); (k3, v3); (k4, v4); (k5, v5)])))%nat.
Proof.
  cbn [json_encode]. repeat rewrite count_newlines_app.
  repeat rewrite count_newlines_indent. lia.
Qed.

Lemma mysteries_of_world es : forall w,
  files (snd (mysteries_of es w)) = files w /\
  open_error (snd (mysteries_of es w)) = open_error w.
Proof.
  induction es as [|e es IH]; intro w; cbn [mysteries_of]; [split; reflexivity|].
  unfold mystery_of. destruct (py_now w) as [now w1] eqn:E0.
  assert (F1 : files w1 = files w /\ open_error w1 = open_error w).
  { unfold py_now in E0. inversion E0. split; reflexivity. }
  destruct (IH w1) as [A B]. destruct (mysteries_of es w1) as [js w2]. cbn [snd] in *.
  split; [now rewrite A | now rewrite B]; apply F1.
Qed.

Lemma log_entry_of_spec m w :
  (exists v1 v2 v3 v4 v5,
     fst (log_entry_of m w)
     = JDict [(u8 "timestamp", v1); (u8 "mystic_time", v2); (u8 "total_spirits", v3);
              (u8 "mysteries", v4); (u8 "system_whispers", v5)]) /\
  files (snd (log_entry_of m w)) = files w /\
  open_error (snd (log_entry_of m w)) = open_error w.
Proof.
  unfold log_entry_of.
  destruct (mysteries_of_world (dict_values (entities m)) w) as [A B].
  destruct (mysteries_of (dict_values (entities m)) w) as [mysteries w1]. cbn [snd] in *.
  destruct (py_now w1) as [now w2] eqn:E1.
  assert (F2 : files w2 = files w1 /\ open_error w2 = open_error w1).
  { unfold py_now in E1. inversion E1. split; reflexivity. }
  unfold get_mystic_time.
  destruct (py_now w2) as [now' w3] eqn:E2.
  assert (F3 : files w3 = files w2 /\ open_error w3 = open_error w2).
  { unfold py_now in E2. inversion E2. split; reflexivity. }
  cbn [fst snd]. split; [repeat eexists|].
  destruct F2, F3. split; congruence.
Qed.

(** C8 as worded fails on the default configuration: the snapshot
    of an empty session is appended as a text of seven lines. *)
Lemma snapshot_spans_lines :
  exists text,
    dict_get (u8 "network_mysteries.log")
      (files (snd (outcome_state
                     (save_mysteries (fun _ => []) empty_mystic (sample_world (1 # 2) [])))))
    = Some text /\
    count_newlines text = 7%nat.
Proof.
  eexists. split; vm_compute; reflexivity.
Qed.

(** C8 (amended): when a persistence path is configured and the file can
    be opened, the persistence step appends to that file the snapshot as
    one JSON document written with an indentation of two, which spans at
    least seven lines, followed by a line break, and touches no other
    file; when the path is absent or empty nothing is written. *)
Theorem save_mysteries_appends (float_repr : Q -> str) m w :
  (forall path, open_error w path = None) ->
  (log_file (config m) = None \/ log_file (config m) = Some [] ->
   save_mysteries float_repr m w = Return tt (m, w)) /\
  (forall path, log_file (config m) = Some path -> path <> [] ->
     exists w',
       save_mysteries float_repr m w = Return tt (m, w') /\
       dict_get path (files w')
       = Some ((match dict_get path (files w) with Some c => c | None => [] end)
                 ++ json_encode float_repr 0 (fst (log_entry_of m w)) ++ [10%N]) /\
       (forall p, p <> path -> dict_get p (files w') = dict_get p (files w)) /\
       (6 <= count_newlines (json_encode float_repr 0 (fst (log_entry_of m w))))%nat).
Proof.
  intro Open. split.
  - unfold save_mysteries. intros [E|E]; rewrite E; [reflexivity|].
    now rewrite str_eqb_refl.
  - intros path E NE. unfold save_mysteries. rewrite E.
    apply str_eqb_neq in NE. rewrite NE.
    destruct (log_entry_of_spec m w) as [[v1 [v2 [v3 [v4 [v5 Sh]]]]] [Fi Op]].
    destruct (log_entry_of m w) as [log_entry w1]. cbn [fst snd] in *.
    unfold append_file. rewrite Op, Open, Fi.
    eexists. split; [reflexivity|]. cbn [files with_files].
    split; [apply dict_get_set_eq|]. split.
    + intros p Np. now apply dict_get_set_neq.
    + rewrite Sh. apply json_encode_five_entries.
Qed.

Lemma save_mysteries_appends_witness :
  exists w',
    save_mysteries (fun _ => []) empty_mystic (sample_world (1 # 2) []) = Return tt (empty_mystic, w')
    /\ (6 <= count_newlines
               (json_encode (fun _ => []) 0
                  (fst (log_entry_of empty_mystic (sample_world (1 # 2) [])))))%nat.
Proof.
  destruct (proj2 (@save_mysteries_appends (fun _ => []) empty_mystic (sample_world (1 # 2) [])
                     (fun _ => eq_refl))
                  (u8 "network_mysteries.log") eq_refl)
    as [w' [E [_ [_ C]]]].
  - vm_compute. discriminate.
  - exists w'. split; [exact E | exact C].
Defined.
Lemma len_app A (a b : list A) : len (a ++ b) = len a + len b.
Proof. unfold len. rewrite length_app. lia. Qed.

Lemma len_nonneg A (l : list A) : 0 <= len l.
Proof. unfold len. lia. Qed.

Lemma len_tl A (l : list A) : l <> [] -> len (tl l) = len l - 1.
Proof. destruct l; [congruence|]. intros _. unfold len. cbn [tl length]. lia. Qed.

Lemma add_whisper_eq e message w :
  add_whisper e message w
  = (with_whispers e
       (if 5 <? len (whispers e ++ [entity_whisper_line (datetime_now w (clock_reads w)) message])
        then tl (whispers e ++ [entity_whisper_line (datetime_now w (clock_reads w)) message])
        else whispers e ++ [entity_whisper_line (datetime_now w (clock_reads w)) message]),
     with_clock_reads w (S (clock_reads w))).
Proof. reflexivity. Qed.

(** X1: [NetworkEntity.add_whisper] keeps a history of at most five
    messages, oldest first: the new line, stamped with the time of day, is
    the last one; below five lines nothing is dropped, and at five the
    oldest line goes. *)
Theorem add_whisper_history e message w :
  len (whispers e) <= 5 ->
  let e' := fst (add_whisper e message w) in
  let line := entity_whisper_line (datetime_now w (clock_reads w)) message in
  len (whispers e') <= 5 /\
  last (whispers e') [] = line /\
  (len (whispers e) < 5 -> whispers e' = whispers e ++ [line]) /\
  (len (whispers e) = 5 -> whispers e' = tl (whispers e) ++ [line]).
Proof.
  intros B e' line. subst e'. rewrite add_whisper_eq. cbn [fst whispers with_whispers].
  fold line.
  pose proof (len_app (whispers e) [line]) as L. change (len [line]) with 1 in L.
  pose proof (len_nonneg (whispers e)) as N.
  destruct (5 <? len (whispers e ++ [line])) eqn:E.
  - apply Z.ltb_lt in E.
    assert (E5 : len (whispers e) = 5) by lia.
    destruct (whispers e) as [|x ws] eqn:W; [unfold len in E5; simpl in E5; lia|].
    cbn [app tl]. repeat split.
    + rewrite len_app. change (len [line]) with 1.
      assert (len (x :: ws) = len ws + 1) by (unfold len; cbn [length]; lia). lia.
    + apply last_last.
    + lia.
  - apply Z.ltb_ge in E. repeat split; try lia.
    + apply last_last.
Qed.

Lemma add_whisper_history_witness :
  whispers (fst (add_whisper (sample_entity (u8 "eth0") 0 0 0 0 0 []) (u8 "hello")
                   (sample_world (1 # 2) [])))
  = [u8 "[03:04:05] hello"].
Proof.
  refine (proj1 (proj2 (proj2 (@add_whisper_history (sample_entity (u8 "eth0") 0 0 0 0 0 [])
            (u8 "hello") (sample_world (1 # 2) []) _))) _); vm_compute; congruence.
Defined.

Lemma collect_whisper_eq c source message level w :
  collect_whisper c source message level w
  = ({| collected := deque_append (collected c)
                       (whisper_line (datetime_now w (clock_reads w)) source message level) |},
     with_clock_reads w (S (clock_reads w))).
Proof. reflexivity. Qed.

Lemma deque_append_bound l x : len l <= 100 -> len (deque_append l x) <= 100.
Proof.
  intro B. unfold deque_append.
  pose proof (len_app l [x]) as L. change (len [x]) with 1 in L.
  pose proof (len_nonneg l) as N.
  destruct (100 <? len (l ++ [x])) eqn:E.
  - rewrite len_tl; [lia|]. destruct l; discriminate.
  - apply Z.ltb_ge in E. lia.
Qed.

Lemma deque_append_last l x : last (deque_append l x) [] = x.
Proof.
  unfold deque_append. destruct (100 <? len (l ++ [x])) eqn:E.
  - destruct l as [|y l]; [vm_compute in E; discriminate|].
    cbn [app tl]. apply last_last.
  - apply last_last.
Qed.

Lemma last_n_suffix A (k : nat) (l : list A) : firstn (length l - k) l ++ last_n k l = l.
Proof. unfold last_n. apply firstn_skipn. Qed.

Lemma last_n_length A (k : nat) (l : list A) : length (last_n k l) = Nat.min k (length l).
Proof. unfold last_n. rewrite length_skipn. lia. Qed.

Lemma last_skipn A (n : nat) (l : list A) d : (n < length l)%nat -> last (skipn n l) d = last l d.
Proof.
  revert l. induction n as [|n IH]; intros l H; [reflexivity|].
  destruct l as [|x l]; [simpl in H; lia|]. cbn [skipn].
  rewrite IH by (simpl in H; lia).
  destruct l; [simpl in H; lia | reflexivity].
Qed.

(** X2: the whisper collector holds at most 100 lines, oldest first.  After
    [add_whisper] the new line, stamped with date and time and tagged with
    its level and source, is the newest one, and for every positive
    [count] [get_recent_whispers] gives at most [count] lines, which are
    the newest lines of the collector in their order and end with the new
    line. *)
Theorem collector_keeps_newest c source message level w :
  len (collected c) <= 100 ->
  let c' := fst (collect_whisper c source message level w) in
  let line := whisper_line (datetime_now w (clock_reads w)) source message level in
  len (collected c') <= 100 /\
  last (collected c') [] = line /\
  forall count, (0 < count)%nat ->
    len (get_recent_whispers c' count) = Z.min (Z.of_nat count) (len (collected c')) /\
    (exists older, collected c' = older ++ get_recent_whispers c' count) /\
    last (get_recent_whispers c' count) [] = line.
Proof.
  intros B c' line. subst c'. rewrite collect_whisper_eq. cbn [fst collected]. fold line.
  split; [now apply deque_append_bound|]. split; [apply deque_append_last|].
  intros count Pos. unfold get_recent_whispers. cbn [collected].
  destruct count as [|k]; [lia|]. set (count := S k) in *.
  set (l := deque_append (collected c) line).
  assert (NE : (0 < length l)%nat).
  { unfold l, deque_append. destruct (100 <? len (collected c ++ [line])) eqn:E.
    - apply Z.ltb_lt in E. rewrite len_app in E. change (len [line]) with 1 in E.
      assert (T : len (tl (collected c ++ [line])) = len (collected c ++ [line]) - 1).
      { apply len_tl. destruct (collected c); discriminate. }
      rewrite len_app in T. change (len [line]) with 1 in T. unfold len in *. lia.
    - rewrite length_app. simpl. lia. }
  split; [|split].
  - unfold len. rewrite last_n_length. lia.
  - exists (firstn (length l - count) l). symmetry. apply last_n_suffix.
  - unfold last_n. rewrite last_skipn by lia. apply deque_append_last.
Qed.

Lemma collector_keeps_newest_witness :
  last (collected (fst (collect_whisper WhisperCollector_init (u8 "Mystic") (u8 "hello")
                          (u8 "INFO") (sample_world (1 # 2) [])))) []
  = u8 "[2024-01-02 03:04:05] [INFO] Mystic: hello".
Proof.
  refine (proj1 (proj2 (@collector_keeps_newest WhisperCollector_init (u8 "Mystic") (u8 "hello")
                          (u8 "INFO") (sample_world (1 # 2) []) _))).
  vm_compute. congruence.
Defined.

Lemma get_mystic_time_eq w :
  get_mystic_time w
  = (nth_str hour_symbols (hour (datetime_now w (clock_reads w)) mod 12)
       ++ nth_str minute_symbols (minute (datetime_now w (clock_reads w)) / 6) ++ u8 "刻",
     with_clock_reads w (S (clock_reads w))).
Proof. reflexivity. Qed.

Lemma hour_symbol_spec i :
  0 <= i < 12 -> In (nth_str hour_symbols i) hour_symbols /\ len (nth_str hour_symbols i) = 1.
Proof.
  intro H.
  assert (C : i = 0 \/ i = 1 \/ i = 2 \/ i = 3 \/ i = 4 \/ i = 5 \/ i = 6 \/ i = 7 \/ i = 8
              \/ i = 9 \/ i = 10 \/ i = 11) by lia.
  repeat (destruct C as [->|C]; [split; [vm_compute; tauto | reflexivity]|]).
  subst i. split; [vm_compute; tauto | reflexivity].
Qed.

Lemma minute_symbol_spec i :
  0 <= i < 10 ->
  In (nth_str minute_symbols i) (firstn 10 minute_symbols) /\ len (nth_str minute_symbols i) = 1.
Proof.
  intro H.
  assert (C : i = 0 \/ i = 1 \/ i = 2 \/ i = 3 \/ i = 4 \/ i = 5 \/ i = 6 \/ i = 7 \/ i = 8
              \/ i = 9) by lia.
  repeat (destruct C as [->|C]; [split; [vm_compute; tauto | reflexivity]|]).
  subst i. split; [vm_compute; tauto | reflexivity].
Qed.

(** X3: for every time of day [get_mystic_time] stays inside its two
    tables: the text is one of the twelve hour signs (the hour modulo 12,
    so an afternoon hour reads as the morning hour twelve hours earlier),
    one of the first ten minute signs (one per six minutes; the eleventh
    sign of the table is never used) and the closing sign, three
    characters in all. *)
Theorem mystic_time_in_tables w :
  valid_time (datetime_now w (clock_reads w)) ->
  let now := datetime_now w (clock_reads w) in
  exists h mi,
    fst (get_mystic_time w) = h ++ mi ++ u8 "刻" /\
    In h hour_symbols /\ h = nth_str hour_symbols (hour now mod 12) /\
    In mi (firstn 10 minute_symbols) /\ mi = nth_str minute_symbols (minute now / 6) /\
    ~ In (u8 "拾") (firstn 10 minute_symbols) /\
    len (fst (get_mystic_time w)) = 3.
Proof.
  intros [Hh Hm] now. rewrite get_mystic_time_eq. cbn [fst]. fold now.
  assert (Bh : 0 <= hour now mod 12 < 12) by (apply Z.mod_pos_bound; lia).
  assert (Bm : 0 <= minute now / 6 < 10).
  { fold now in Hm. split; [apply Z.div_pos; lia | apply Z.div_lt_upper_bound; lia]. }
  destruct (hour_symbol_spec Bh) as [Ih Lh]. destruct (minute_symbol_spec Bm) as [Im Lm].
  eexists _, _. split; [reflexivity|]. repeat split; try assumption.
  - vm_compute. intuition congruence.
  - rewrite !len_app, Lh, Lm. reflexivity.
Qed.

Lemma mystic_time_in_tables_witness :
  len (fst (get_mystic_time (sample_world (1 # 2) []))) = 3.
Proof.
  destruct (@mystic_time_in_tables (sample_world (1 # 2) [])) as [h [mi [_ [_ [_ [_ [_ [_ L]]]]]]]].
  - vm_compute. intuition congruence.
  - exact L.
Defined.

Lemma Qle_bool_false a b : Qle_bool a b = false <-> (b < a)%Q.
Proof.
  split; intro H.
  - apply Qnot_le_lt. intro L. apply Qle_bool_iff in L. congruence.
  - destruct (Qle_bool a b) eqn:E; [|reflexivity].
    apply Qle_bool_iff in E. exfalso. exact (Qlt_not_le _ _ H E).
Qed.

Lemma encode_rate_loop_skip rate unit divisor rest :
  (rate < inject_Z divisor)%Q ->
  encode_rate_loop rate ((unit, divisor) :: rest) = encode_rate_loop rate rest.
Proof. intro H. cbn [encode_rate_loop]. apply Qle_bool_false in H. now rewrite H. Qed.

Lemma encode_rate_loop_take rate unit divisor rest :
  (inject_Z divisor <= rate)%Q ->
  encode_rate_loop rate ((unit, divisor) :: rest)
  = Some (encode_number (rate / inject_Z divisor)%Q ++ u8 " " ++ unit).
Proof. intro H. cbn [encode_rate_loop]. apply Qle_bool_iff in H. now rewrite H. Qed.

(** X4: [encode_rate] scales a rate by the largest of the five units
    (1, 1024, ..., 1024^4) that is not above it, so the number it encodes
    is at least 1; a rate below 1, a negative one included, is shown as
    the sign for "below one" with the smallest unit. *)
Theorem encode_rate_unit rate :
  ((rate < 1)%Q -> encode_rate rate = u8 "↊ Ⓑ/ⓢ") /\
  (forall k unit divisor,
     nth_error rate_units k = Some (unit, divisor) ->
     (inject_Z divisor <= rate)%Q ->
     (forall unit' divisor', nth_error rate_units (S k) = Some (unit', divisor') ->
                             (rate < inject_Z divisor')%Q) ->
     encode_rate rate = encode_number (rate / inject_Z divisor)%Q ++ u8 " " ++ unit /\
     (1 <= rate / inject_Z divisor)%Q).
Proof.
  split.
  - intro L. unfold encode_rate. cbn [rate_units rev app].
    do 5 (rewrite encode_rate_loop_skip
            by (eapply Qlt_le_trans; [exact L|]; vm_compute; discriminate)).
    reflexivity.
  - intros k unit divisor Hk Ge Lt.
    assert (Pos : (0 < inject_Z divisor)%Q).
    { destruct k as [|[|[|[|[|k]]]]]; cbn in Hk;
        [inversion Hk; subst; reflexivity ..|destruct k; discriminate]. }
    split.
    + unfold encode_rate. cbn [rate_units rev app].
      destruct k as [|[|[|[|[|k]]]]]; cbn [nth_error rate_units] in Hk;
        [inversion Hk; subst ..|destruct k; discriminate].
      * assert (L1 : (rate < inject_Z 1024)%Q) by (eapply Lt; reflexivity).
        do 4 (rewrite encode_rate_loop_skip
                by (eapply Qlt_le_trans; [exact L1|]; vm_compute; discriminate)).
        rewrite encode_rate_loop_take; [reflexivity | assumption].
      * assert (L1 : (rate < inject_Z (1024 ^ 2))%Q) by (eapply Lt; reflexivity).
        do 3 (rewrite encode_rate_loop_skip
                by (eapply Qlt_le_trans; [exact L1|]; vm_compute; discriminate)).
        rewrite encode_rate_loop_take; [reflexivity | assumption].
      * assert (L1 : (rate < inject_Z (1024 ^ 3))%Q) by (eapply Lt; reflexivity).
        do 2 (rewrite encode_rate_loop_skip
                by (eapply Qlt_le_trans; [exact L1|]; vm_compute; discriminate)).
        rewrite encode_rate_loop_take; [reflexivity | assumption].
      * assert (L1 : (rate < inject_Z (1024 ^ 4))%Q) by (eapply Lt; reflexivity).
        do 1 (rewrite encode_rate_loop_skip
                by (eapply Qlt_le_trans; [exact L1|]; vm_compute; discriminate)).
        rewrite encode_rate_loop_take; [reflexivity | assumption].
      * rewrite encode_rate_loop_take; [reflexivity | assumption].
    + apply Qle_shift_div_l; [assumption|]. now rewrite Qmult_1_l.
Qed.

Lemma encode_rate_unit_witness :
  encode_rate 2048 = encode_number (2048 / inject_Z 1024)%Q ++ u8 " " ++ u8 "ⓀⒷ/ⓢ".
Proof.
  refine (proj1 (proj2 (encode_rate_unit 2048) 1%nat (u8 "ⓀⒷ/ⓢ") 1024 eq_refl _ _)).
  - vm_compute. discriminate.
  - intros unit' divisor' E. inversion E. reflexivity.
Defined.

(** X5: [format_rate] divides a rate by 1024 until it is below 1024 or
    the last unit is reached: the number printed (with one decimal) times
    the weight of the unit is the rate, it is below 1024 unless the unit
    is TB/s, and at least 1 unless the unit is B/s; so a negative rate is
    printed in B/s. *)
Theorem format_rate_unit rate :
  exists k v,
    (k <= 4)%nat /\
    (v * inject_Z (1024 ^ Z.of_nat k) == rate)%Q /\
    format_rate rate
    = format_fixed 1 v ++ u8 " "
        ++ nth k [u8 "B/s"; u8 "KB/s"; u8 "MB/s"; u8 "GB/s"; u8 "TB/s"] [] /\
    (k = 0%nat \/ (1 <= v)%Q) /\
    (k = 4%nat \/ (v < 1024)%Q).
Proof.
  unfold format_rate. cbn [format_rate_loop].
  destruct (Qltb rate 1024) eqn:E0.
  { apply Qltb_lt in E0. exists 0%nat, rate. repeat split; auto.
    change (inject_Z (1024 ^ Z.of_nat 0)) with 1%Q. (unfold Qdiv in *; change (/ 1024)%Q with (1 # 1024)%Q in *; lra). }
  apply Qltb_ge in E0.
  destruct (Qltb (rate / 1024) 1024) eqn:E1.
  { apply Qltb_lt in E1. exists 1%nat, (rate / 1024)%Q. repeat split; auto.
    - change (inject_Z (1024 ^ Z.of_nat 1)) with 1024%Q. (unfold Qdiv in *; change (/ 1024)%Q with (1 # 1024)%Q in *; lra).
    - right. (unfold Qdiv in *; change (/ 1024)%Q with (1 # 1024)%Q in *; lra). }
  apply Qltb_ge in E1.
  destruct (Qltb (rate / 1024 / 1024) 1024) eqn:E2.
  { apply Qltb_lt in E2. exists 2%nat, (rate / 1024 / 1024)%Q. repeat split; auto.
    - change (inject_Z (1024 ^ Z.of_nat 2)) with 1048576%Q. (unfold Qdiv in *; change (/ 1024)%Q with (1 # 1024)%Q in *; lra).
    - right. (unfold Qdiv in *; change (/ 1024)%Q with (1 # 1024)%Q in *; lra). }
  apply Qltb_ge in E2.
  destruct (Qltb (rate / 1024 / 1024 / 1024) 1024) eqn:E3.
  { apply Qltb_lt in E3. exists 3%nat, (rate / 1024 / 1024 / 1024)%Q. repeat split; auto.
    - change (inject_Z (1024 ^ Z.of_nat 3)) with 1073741824%Q. (unfold Qdiv in *; change (/ 1024)%Q with (1 # 1024)%Q in *; lra).
    - right. (unfold Qdiv in *; change (/ 1024)%Q with (1 # 1024)%Q in *; lra). }
  apply Qltb_ge in E3.
  exists 4%nat, (rate / 1024 / 1024 / 1024 / 1024)%Q. repeat split; auto.
  - change (inject_Z (1024 ^ Z.of_nat 4)) with 1099511627776%Q. (unfold Qdiv in *; change (/ 1024)%Q with (1 # 1024)%Q in *; lra).
  - right. (unfold Qdiv in *; change (/ 1024)%Q with (1 # 1024)%Q in *; lra).
Qed.

(** ** Reading an encoded number back *)

Lemma ancient_symbol_index d :
  0 <= d < 20 -> exists c, nth_str ancient_symbols d = [c] /\ symbol_index c = d.
Proof.
  intro H.
  assert (C : d = 0 \/ d = 1 \/ d = 2 \/ d = 3 \/ d = 4 \/ d = 5 \/ d = 6 \/ d = 7 \/ d = 8
              \/ d = 9 \/ d = 10 \/ d = 11 \/ d = 12 \/ d = 13 \/ d = 14 \/ d = 15 \/ d = 16
              \/ d = 17 \/ d = 18 \/ d = 19) by lia.
  repeat (destruct C as [->|C]; [eexists; split; vm_compute; reflexivity|]).
  subst d. eexists; split; vm_compute; reflexivity.
Qed.

Lemma encode_number_loop_acc fuel : forall n result,
  concat (encode_number_loop fuel n result)
  = concat (encode_number_loop fuel n []) ++ concat result.
Proof.
  induction fuel as [|f IH]; intros n result; cbn [encode_number_loop].
  - reflexivity.
  - destruct (0 <? n); [|reflexivity].
    rewrite (IH _ (_ :: result)), (IH _ [_]). cbn [concat].
    now rewrite app_nil_r, <- app_assoc.
Qed.

Lemma decode_number_app s c :
  decode_number (s ++ [c]) = 20 * decode_number s + (symbol_index c + 1) mod 20.
Proof. unfold decode_number. now rewrite fold_left_app. Qed.

Lemma decode_encode_loop fuel : forall n,
  0 <= n < 2 ^ Z.of_nat fuel ->
  decode_number (concat (encode_number_loop fuel n [])) = n.
Proof.
  induction fuel as [|f IH]; intros n H; cbn [encode_number_loop].
  - change (2 ^ Z.of_nat 0) with 1 in H. assert (n = 0) by lia. subst. reflexivity.
  - destruct (0 <? n) eqn:P; [|apply Z.ltb_ge in P; assert (n = 0) by lia; subst; reflexivity].
    apply Z.ltb_lt in P. change (len ancient_symbols) with 20.
    rewrite encode_number_loop_acc. cbn [concat]. rewrite app_nil_r.
    destruct (@ancient_symbol_index ((n - 1) mod 20)) as [c [Ec Ic]];
      [apply Z.mod_pos_bound; lia|].
    rewrite Ec, decode_number_app, Ic, IH.
    + rewrite Z.add_mod_idemp_l by lia. replace (n - 1 + 1) with n by lia.
      symmetry. apply Z.div_mod. lia.
    + rewrite Nat2Z.inj_succ, Z.pow_succ_r in H by lia.
      split; [apply Z.div_pos; lia | apply Z.div_lt_upper_bound; lia].
Qed.

Lemma int_of_float_ge1 num : (1 <= num)%Q -> 1 <= int_of_float num.
Proof.
  destruct num as [a b]. unfold Qle, int_of_float. cbn [Qnum Qden]. intro H.
  rewrite Z.mul_1_l, Z.mul_1_r in H.
  rewrite Z.quot_div_nonneg by lia.
  apply Z.div_le_lower_bound; lia.
Qed.

Lemma encode_number_ge1 num :
  (1 <= num)%Q ->
  encode_number num
  = concat (encode_number_loop (S (Z.to_nat (Z.log2 (int_of_float num)))) (int_of_float num) []).
Proof.
  intro H. unfold encode_number.
  destruct (Qltb num 1) eqn:E; [|reflexivity]. apply Qltb_lt in E. lra.
Qed.

(** X6: [encode_number] writes the integer part of a number that is at
    least 1 in a way that can be read back: [decode_number] recovers the
    integer part from the symbols, so two numbers get the same text only
    when their integer parts are equal (the fraction is dropped). *)
Theorem encode_number_reads_back num :
  (1 <= num)%Q ->
  decode_number (encode_number num) = int_of_float num /\
  (forall other, (1 <= other)%Q ->
     (encode_number other = encode_number num <-> int_of_float other = int_of_float num)).
Proof.
  assert (Back : forall x, (1 <= x)%Q -> decode_number (encode_number x) = int_of_float x).
  { intros x H. rewrite (encode_number_ge1 H).
    pose proof (int_of_float_ge1 H) as P.
    apply decode_encode_loop.
    destruct (Z.log2_spec (int_of_float x)) as [_ U]; [lia|].
    rewrite Nat2Z.inj_succ, Z2Nat.id by apply Z.log2_nonneg. lia. }
  intro H. split; [now apply Back|]. intros other Ho. split.
  - intro E. rewrite <- (Back _ H), <- (Back _ Ho). now rewrite E.
  - intro E. rewrite (encode_number_ge1 H), (encode_number_ge1 Ho). now rewrite E.
Qed.

Lemma encode_number_reads_back_witness :
  decode_number (encode_number (421 # 2)) = 210.
Proof.
  refine (proj1 (@encode_number_reads_back (421 # 2) _)). vm_compute. discriminate.
Defined.

(** ** How many entity blocks fit *)

Lemma blocks_drawn_rows spirits height : forall y,
  map snd (blocks_drawn spirits y height)
  = map (fun k => y + 9 * Z.of_nat k) (seq 0 (length (blocks_drawn spirits y height))) /\
  len (blocks_drawn spirits y height)
  = Z.min (len spirits) (Z.max 0 ((height - 2 - y) / 9)).
Proof.
  induction spirits as [|spirit rest IH]; intro y; cbn [blocks_drawn].
  - split; [reflexivity|]. unfold len. cbn [length]. lia.
  - destruct (y <? height - 10) eqn:E.
    + apply Z.ltb_lt in E. destruct (IH (y + 9)) as [Rows Count]. split.
      * cbn [map snd length seq]. f_equal; [lia|].
        rewrite Rows, <- seq_shift, map_map. apply map_ext. intro k. lia.
      * assert (L : forall A (x : A) l, len (x :: l) = len l + 1)
          by (intros; unfold len; cbn [length]; lia).
        rewrite !L, Count.
        replace ((height - 2 - y) / 9) with ((height - 2 - (y + 9)) / 9 + 1)
          by (rewrite <- Z.div_add by lia; f_equal; lia).
        assert (0 <= (height - 2 - (y + 9)) / 9) by (apply Z.div_pos; lia).
        lia.
    + apply Z.ltb_ge in E. rewrite (blocks_drawn_stop rest y height) by (apply Z.ltb_ge; lia).
      split; [reflexivity|].
      assert ((height - 2 - y) / 9 <= 0).
      { apply Z.lt_succ_r. apply Z.div_lt_upper_bound; lia. }
      pose proof (len_nonneg (spirit :: rest)). change (len (@nil (NetworkEntity * Z))) with 0. lia.
Qed.

(** X7: the loop of [draw_veil] starts the entity blocks on the lines 2,
    11, 20, ... (nine lines apart) and draws a block only while its first
    line is above line [height - 10]; so a frame holds
    [(height - 4) / 9] blocks at most (none below 13 lines, two on 24
    lines), and fewer only when there are fewer entities to draw. *)
Theorem blocks_fit_height m height :
  let blocks := blocks_drawn (spirits_to_draw m) 2 height in
  (forall (Screen : Type) (block : NetworkEntity -> Z -> M (@St Screen) unit),
     draw_spirits block (spirits_to_draw m) 2 height
     = for_each blocks (fun b => block (fst b) (snd b))) /\
  map snd blocks = map (fun k => 2 + 9 * Z.of_nat k) (seq 0 (length blocks)) /\
  len blocks = Z.min (len (spirits_to_draw m)) (Z.max 0 ((height - 4) / 9)) /\
  (height < 13 -> blocks = []).
Proof.
  intro blocks. subst blocks.
  destruct (blocks_drawn_rows (spirits_to_draw m) height 2) as [Rows Count].
  replace (height - 2 - 2) with (height - 4) in Count by lia.
  split; [intros Screen block; apply draw_spirits_blocks|].
  split; [exact Rows|]. split; [exact Count|].
  intro Small.
  assert (Z : len (blocks_drawn (spirits_to_draw m) 2 height) = 0).
  { rewrite Count. assert ((height - 4) / 9 <= 0).
    { apply Z.lt_succ_r. apply Z.div_lt_upper_bound; lia. }
    pose proof (len_nonneg (spirits_to_draw m)). lia. }
  destruct (blocks_drawn (spirits_to_draw m) 2 height); [reflexivity|].
  unfold len in Z. cbn [length] in Z. lia.
Qed.

(** ** A scan that meets a counter that is not a number *)




(** ** The world is only read *)

Lemma only_reads_refl w : only_reads w w.
Proof. repeat split. Qed.

Lemma only_reads_trans w1 w2 w3 : only_reads w1 w2 -> only_reads w2 w3 -> only_reads w1 w3.
Proof. unfold only_reads. intuition congruence. Qed.

Lemma only_reads_rng w w' : only_reads w w' -> rng_valid w -> rng_valid w'.
Proof. intros [_ [_ [R _]]] V n. rewrite R. apply V. Qed.

Lemma py_time_reads w : only_reads w (snd (py_time w)).
Proof. repeat split. Qed.

Lemma py_now_reads w : only_reads w (snd (py_now w)).
Proof. repeat split. Qed.

Lemma py_random_reads w : only_reads w (snd (py_random w)).
Proof. repeat split. Qed.

Lemma randbelow_reads n w : only_reads w (snd (randbelow n w)).
Proof. repeat split. Qed.

Lemma py_choice_reads A (seq : list A) d w : only_reads w (snd (py_choice seq d w)).
Proof. repeat split. Qed.

Lemma py_randint_reads a b w : only_reads w (snd (py_randint a b w)).
Proof. repeat split. Qed.

Lemma py_uniform_reads a b w : only_reads w (snd (py_uniform a b w)).
Proof. repeat split. Qed.

(** [frame_call f] names the result of the call [f] in the goal and keeps
    what is known about its world. *)
Ltac frame_call H :=
  let F := fresh "F" in
  pose proof H as F;
  match type of F with
  | only_reads _ (snd ?c) =>
      let a := fresh "a" in let w := fresh "w" in
      destruct c as [a w]; cbn [snd fst] in F |- *
  end.

Ltac frame_done := eauto 10 using only_reads_trans, only_reads_refl.

(** ** Random draws *)

Lemma randbelow_range n w :
  rng_valid w -> 0 < n -> 0 <= fst (randbelow n w) < n.
Proof.
  intros V P. unfold randbelow, py_random. cbn [fst].
  destruct (V (rng_draws w)) as [L U].
  set (u := random_random w (rng_draws w)) in *.
  assert (Pn : (0 < inject_Z n)%Q) by (change 0%Q with (inject_Z 0); now rewrite <- Zlt_Qlt).
  split.
  - change 0 with (Qfloor 0). apply Qfloor_resp_le. nra.
  - rewrite Zlt_Qlt. eapply Qle_lt_trans; [apply Qfloor_le|]. nra.
Qed.

Lemma py_choice_range A (seq : list A) d w :
  rng_valid w -> seq <> [] -> In (fst (py_choice seq d w)) seq.
Proof.
  intros V NE. unfold py_choice.
  pose proof (@randbelow_range (len seq) w V) as R.
  destruct (randbelow (len seq) w) as [i w1]. cbn [fst] in *.
  apply nth_In. assert (0 < len seq) by (destruct seq; [congruence | unfold len; cbn [length]; lia]).
  unfold len in *. lia.
Qed.

Lemma py_randint_range a b w :
  rng_valid w -> a <= b -> a <= fst (py_randint a b w) <= b.
Proof.
  intros V H. unfold py_randint.
  pose proof (@randbelow_range (b - a + 1) w V) as R.
  destruct (randbelow (b - a + 1) w) as [i w1]. cbn [fst] in *. lia.
Qed.

Lemma py_uniform_range a b w :
  rng_valid w -> (a <= b)%Q ->
  (a <= fst (py_uniform a b w))%Q /\ (fst (py_uniform a b w) <= b)%Q.
Proof.
  intros V H. unfold py_uniform, py_random. cbn [fst].
  destruct (V (rng_draws w)) as [L U]. split; nra.
Qed.

(** ** What a tick leaves in the glyph collection *)

Lemma tick_glyph_reads g w : only_reads w (snd (tick_glyph g w)).
Proof. repeat split. Qed.

Lemma tick_glyphs_reads gs : forall w, only_reads w (snd (tick_glyphs gs w)).
Proof.
  induction gs as [|g gs IH]; intro w; cbn [tick_glyphs]; [apply only_reads_refl|].
  pose proof (tick_glyph_reads g w) as F1.
  destruct (tick_glyph g w) as [[g' keep] w1]. cbn [snd] in F1.
  pose proof (IH w1) as F2. destruct (tick_glyphs gs w1) as [active w2]. cbn [snd] in *.
  eauto using only_reads_trans.
Qed.

Lemma maybe_spawn_reads t p i gs w : only_reads w (snd (maybe_spawn t p i gs w)).
Proof.
  unfold maybe_spawn. frame_call (py_random_reads w).
  destruct (Qltb a p); [|assumption].
  frame_call (py_randint_reads 0 20 w0). frame_call (py_randint_reads 0 5 w1).
  frame_call (py_randint_reads 1 6 w2). frame_done.
Qed.

Lemma update_glyphs_reads e w : only_reads w (snd (update_glyphs e w)).
Proof.
  unfold update_glyphs. frame_call (tick_glyphs_reads (glyphs e) w).
  match goal with |- context [maybe_spawn FLOW ?p ?i a w0] =>
    frame_call (maybe_spawn_reads FLOW p i a w0) end.
  match goal with |- context [maybe_spawn WHISPER ?p ?i a0 w1] =>
    frame_call (maybe_spawn_reads WHISPER p i a0 w1) end.
  frame_done.
Qed.

Lemma glyph_alphabet_nonempty t : glyph_alphabet t <> [].
Proof. destruct t; discriminate. Qed.

(** the glyphs that survive a tick *)
Lemma tick_glyphs_kept (P : Glyph -> Prop) gs :
  (forall g w, rng_valid w -> In g gs -> P (fst (fst (tick_glyph g w)))) ->
  forall w, rng_valid w -> Forall P (fst (tick_glyphs gs w)).
Proof.
  induction gs as [|g gs IH]; intros H w V; cbn [tick_glyphs]; [constructor|].
  pose proof (H g w V (or_introl eq_refl)) as Pg.
  pose proof (tick_glyph_reads g w) as F1.
  destruct (tick_glyph g w) as [[g' keep] w1]. cbn [fst snd] in *.
  assert (V1 : rng_valid w1) by eauto using only_reads_rng.
  assert (IH' : Forall P (fst (tick_glyphs gs w1))).
  { apply IH; [|assumption]. intros g0 w0 V0 I0. apply H; [assumption | now right]. }
  destruct (tick_glyphs gs w1) as [active w2]. cbn [fst] in *.
  destruct keep; [constructor|]; assumption.
Qed.

(** what a spawn trial appends *)
Lemma maybe_spawn_appends (P : Glyph -> Prop) t p i gs w :
  rng_valid w ->
  (forall x y c, 0 <= x <= 20 -> 0 <= y <= 5 -> 1 <= c <= 6 -> P (new_glyph t i (x, y) c)) ->
  Forall P gs -> Forall P (fst (maybe_spawn t p i gs w)).
Proof.
  intros V New Old. unfold maybe_spawn.
  frame_call (py_random_reads w). assert (V0 : rng_valid w0) by eauto using only_reads_rng.
  destruct (Qltb a p); [|assumption].
  pose proof (@py_randint_range 0 20 w0 V0) as Rx. frame_call (py_randint_reads 0 20 w0).
  assert (V1 : rng_valid w1) by eauto using only_reads_rng.
  pose proof (@py_randint_range 0 5 w1 V1) as Ry. frame_call (py_randint_reads 0 5 w1).
  assert (V2 : rng_valid w2) by eauto using only_reads_rng.
  pose proof (@py_randint_range 1 6 w2 V2) as Rc. frame_call (py_randint_reads 1 6 w2).
  apply Forall_app. split; [assumption|]. constructor; [|constructor].
  apply New; [apply Rx | apply Ry | apply Rc]; lia.
Qed.

(** an invariant of the glyphs goes through [update_glyphs] once the tick
    of a glyph keeps it and the two kinds of new glyph have it *)
Lemma update_glyphs_keeps (P : Glyph -> Prop) e w :
  rng_valid w ->
  (forall g w', rng_valid w' -> In g (glyphs e) -> P (fst (fst (tick_glyph g w')))) ->
  (forall t i x y c, t = FLOW \/ t = WHISPER ->
     0 <= x <= 20 -> 0 <= y <= 5 -> 1 <= c <= 6 -> P (new_glyph t i (x, y) c)) ->
  Forall P (glyphs (fst (update_glyphs e w))).
Proof.
  intros V Tick New. unfold update_glyphs.
  pose proof (tick_glyphs_kept P (glyphs e) Tick V) as K.
  frame_call (tick_glyphs_reads (glyphs e) w).
  assert (V0 : rng_valid w0) by eauto using only_reads_rng.
  match goal with |- context [maybe_spawn FLOW ?p ?i a w0] =>
    pose proof (@maybe_spawn_appends P FLOW p i a w0 V0) as S1;
    frame_call (maybe_spawn_reads FLOW p i a w0) end.
  assert (V1 : rng_valid w1) by eauto using only_reads_rng.
  match goal with |- context [maybe_spawn WHISPER ?p ?i a0 w1] =>
    pose proof (@maybe_spawn_appends P WHISPER p i a0 w1 V1) as S2;
    frame_call (maybe_spawn_reads WHISPER p i a0 w1) end.
  cbn [fst glyphs with_glyphs]. apply S2; [intros; apply New; auto|].
  apply S1; [intros; apply New; auto | exact K].
Qed.

(** X9: after a tick of [update_glyphs] every glyph that was there before
    shows a character drawn from the alphabet of its kind, and every glyph
    spawned in this tick is still the blank it was constructed with (it
    gets a character on the next tick, so its first frame shows a
    space). *)
Theorem update_glyphs_chars e w :
  rng_valid w -> Forall glyph_char_ok (glyphs (fst (update_glyphs e w))).
Proof.
  intro V. apply update_glyphs_keeps; [assumption| |].
  - intros g w' V' _. right. unfold tick_glyph.
    pose proof (@py_choice_range _ (glyph_alphabet (type g)) [] w' V'
                  (glyph_alphabet_nonempty (type g))) as C.
    destruct (py_choice (glyph_alphabet (type g)) [] w') as [c w1]. cbn [fst] in *.
    split; [discriminate | exact C].
  - intros. left. split; reflexivity.
Qed.

Lemma update_glyphs_chars_witness :
  Forall glyph_char_ok
    (glyphs (fst (update_glyphs
                    (sample_entity (u8 "eth0") 0 0 500 400 (1 # 2)
                       [new_glyph FLOW 1 (3, 4) 2])
                    (sample_world (1 # 20) [])))).
Proof.
  apply update_glyphs_chars. intro n. split; vm_compute; congruence.
Defined.

(** X10: [update_glyphs] only ever makes glyphs of the kinds FLOW and
    WHISPER, at a position of the 21 by 6 field and with a colour pair
    from 1 to 6, and a tick changes none of these: a collection of such
    glyphs stays one (no PULSE, SHADOW or ECHO glyph ever appears). *)
Theorem update_glyphs_in_field e w :
  rng_valid w ->
  Forall glyph_in_field (glyphs e) ->
  Forall glyph_in_field (glyphs (fst (update_glyphs e w))).
Proof.
  intros V Old. apply update_glyphs_keeps; [assumption| |].
  - intros g w' _ I. rewrite Forall_forall in Old. specialize (Old g I).
    unfold tick_glyph. destruct (py_choice _ _ w') as [c w1]. exact Old.
  - intros t i x y c T X Y C. unfold glyph_in_field, new_glyph. cbn. tauto.
Qed.

Lemma update_glyphs_in_field_witness :
  Forall glyph_in_field
    (glyphs (fst (update_glyphs
                    (sample_entity (u8 "eth0") 0 0 500 400 (1 # 2)
                       [new_glyph FLOW 1 (3, 4) 2])
                    (sample_world (1 # 20) [])))).
Proof.
  apply update_glyphs_in_field.
  - intro n. split; vm_compute; congruence.
  - repeat constructor; vm_compute; congruence.
Defined.

(** ** The glyph collection stays small *)

Lemma decay_pow_pos n : (0 < decay_pow n)%Q.
Proof. induction n as [|n IH]; cbn [decay_pow]; [reflexivity | nra]. Qed.

Lemma decay_pow_antitone n m : (n <= m)%nat -> (decay_pow m <= decay_pow n)%Q.
Proof.
  induction 1 as [|m H IH]; [apply Qle_refl|].
  cbn [decay_pow]. pose proof (decay_pow_pos m). nra.
Qed.

Lemma decay_pow_45 : (decay_pow 45 < 1 # 10)%Q.
Proof. vm_compute. reflexivity. Qed.

Lemma bright_age g :
  (intensity g <= decay_pow (age g))%Q -> bright g = true -> (age g <= 44)%nat.
Proof.
  intros F B. apply Qltb_lt in B.
  destruct (le_lt_dec (age g) 44) as [L|L]; [assumption|].
  pose proof (@decay_pow_antitone 45 (age g) L). pose proof decay_pow_45. lra.
Qed.

Lemma count_age_app a l1 l2 : count_age a (l1 ++ l2) = (count_age a l1 + count_age a l2)%nat.
Proof. unfold count_age. now rewrite filter_app, length_app. Qed.

Lemma count_age_filter a f l : (count_age a (filter f l) <= count_age a l)%nat.
Proof.
  unfold count_age. induction l as [|g l IH]; cbn [filter]; [lia|].
  destruct (f g); cbn [filter]; destruct (Nat.eqb (age g) a); cbn [length]; lia.
Qed.

Lemma count_age_ticked gs ticked :
  Forall2 decayed gs ticked ->
  count_age 0 ticked = 0%nat /\ forall a, count_age (S a) ticked = count_age a gs.
Proof.
  unfold count_age. induction 1 as [|g g' gs ticked D F IH]; [split; reflexivity|].
  destruct D as [_ [A _]]. destruct IH as [Z S']. cbn [filter]. rewrite A. cbn [Nat.eqb]. split.
  - exact Z.
  - intro a. destruct (Nat.eqb (age g) a); cbn [length]; now rewrite S'.
Qed.

Lemma filter_split_length A (f : A -> bool) l :
  length l = (length (filter f l) + length (filter (fun x => negb (f x)) l))%nat.
Proof.
  induction l as [|x l IH]; [reflexivity|]. cbn [filter].
  destruct (f x); cbn [negb length]; lia.
Qed.

Lemma length_by_age n : forall gs k,
  Forall (fun g => (age g < n)%nat) gs ->
  (forall a, (count_age a gs <= k)%nat) ->
  (length gs <= k * n)%nat.
Proof.
  induction n as [|n IH]; intros gs k Ages Counts.
  - destruct gs as [|g gs]; [simpl; lia|]. inversion Ages; subst. lia.
  - rewrite (filter_split_length (fun g => Nat.eqb (age g) n) gs).
    assert (Rest : (length (filter (fun g => negb (Nat.eqb (age g) n)) gs) <= k * n)%nat).
    { apply IH.
      - rewrite Forall_forall in *. intros g I. apply filter_In in I. destruct I as [I Ne].
        apply negb_true_iff, Nat.eqb_neq in Ne. specialize (Ages g I). lia.
      - intro a. eapply Nat.le_trans; [apply count_age_filter | apply Counts]. }
    specialize (Counts n). unfold count_age in Counts. lia.
Qed.

(** The collection after a tick, with the two trials spelled out. *)
Lemma update_glyphs_parts e w :
  exists ticked flow whisper,
    Forall2 decayed (glyphs e) ticked /\
    (flow = [] \/ exists x y c,
        flow = [new_glyph FLOW (py_min (rx_rate e + tx_rate e) 1000 / 1000)%Q (x, y) c]) /\
    (whisper = [] \/ exists x y c, whisper = [new_glyph WHISPER (essence e) (x, y) c]) /\
    glyphs (fst (update_glyphs e w)) = filter bright ticked ++ flow ++ whisper.
Proof.
  unfold update_glyphs.
  destruct (tick_glyphs_spec (glyphs e) w) as [ticked [F E]].
  destruct (tick_glyphs (glyphs e) w) as [active w1]. simpl in E. subst active.
  set (fi := (py_min (rx_rate e + tx_rate e) 1000 / 1000)%Q).
  destruct (maybe_spawn_spec FLOW (fi * (3 # 10))%Q fi (filter bright ticked) w1)
    as [x1 [y1 [c1 E1]]].
  destruct (maybe_spawn FLOW (fi * (3 # 10))%Q fi (filter bright ticked) w1)
    as [gs2 w2]. simpl in E1.
  destruct (maybe_spawn_spec WHISPER (essence e * (2 # 10))%Q (essence e) gs2 w2)
    as [x2 [y2 [c2 E2]]].
  destruct (maybe_spawn WHISPER (essence e * (2 # 10))%Q (essence e) gs2 w2)
    as [gs3 w3]. simpl in E2.
  exists ticked,
    (if Qltb (fst (py_random w1)) (fi * (3 # 10))%Q then [new_glyph FLOW fi (x1, y1) c1] else []),
    (if Qltb (fst (py_random w2)) (essence e * (2 # 10))%Q
     then [new_glyph WHISPER (essence e) (x2, y2) c2] else []).
  split; [assumption|]. split; [|split].
  - destruct (Qltb (fst (py_random w1)) _); [right; exists x1, y1, c1 | left]; reflexivity.
  - destruct (Qltb (fst (py_random w2)) _); [right; exists x2, y2, c2 | left]; reflexivity.
  - simpl. rewrite E2, E1. now rewrite <- app_assoc.
Qed.

Lemma py_min_le a b : (py_min a b <= b)%Q.
Proof.
  unfold py_min. destruct (Qltb b a) eqn:E; [apply Qle_refl|]. now apply Qltb_ge in E.
Qed.

Lemma update_glyphs_bounded e w :
  (essence e <= 1)%Q ->
  glyphs_bounded (glyphs e) ->
  let gs' := glyphs (fst (update_glyphs e w)) in
  glyphs_bounded gs' /\
  Forall (fun g => (age g <= 44)%nat) gs' /\
  (length gs' <= 90)%nat.
Proof.
  intros Ess [Fade Counts] gs'. subst gs'.
  destruct (update_glyphs_parts e w) as [ticked [flow [whisper [F [Fl [Wh E]]]]]].
  rewrite E.
  assert (TickedFade : Forall (fun g => (intensity g <= decay_pow (age g))%Q) ticked).
  { clear - F Fade. induction F as [|g g' gs ticked D F IH]; [constructor|].
    inversion Fade; subst. constructor; [|now apply IH].
    destruct D as [I [A _]]. rewrite I, A. cbn [decay_pow]. nra. }
  assert (NewFade : Forall (fun g => (intensity g <= decay_pow (age g))%Q /\ age g = 0%nat)
                           (flow ++ whisper)).
  { apply Forall_app. split.
    - destruct Fl as [->|[x [y [c ->]]]]; [constructor|]. constructor; [|constructor].
      cbn [new_glyph intensity age decay_pow]. split; [|reflexivity].
      pose proof (py_min_le (rx_rate e + tx_rate e) 1000).
      unfold Qdiv. change (/ 1000)%Q with (1 # 1000)%Q. lra.
    - destruct Wh as [->|[x [y [c ->]]]]; [constructor|]. constructor; [|constructor].
      cbn [new_glyph intensity age decay_pow]. split; [assumption | reflexivity]. }
  assert (KeptFade : Forall (fun g => (intensity g <= decay_pow (age g))%Q)
                            (filter bright ticked)).
  { rewrite Forall_forall in *. intros g I. apply filter_In in I. now apply TickedFade. }
  assert (Ages : Forall (fun g => (age g < 45)%nat) (filter bright ticked ++ flow ++ whisper)).
  { apply Forall_app. split.
    - rewrite Forall_forall in *. intros g I. pose proof (KeptFade g I) as Fg.
      apply filter_In in I. destruct I as [_ B].
      pose proof (bright_age g Fg B). lia.
    - eapply Forall_impl; [|exact NewFade]. intros g [_ A]. cbn beta in *. lia. }
  assert (NewCount : forall a, (count_age a (flow ++ whisper) <= 2)%nat /\
                               (a <> 0%nat -> count_age a (flow ++ whisper) = 0%nat)).
  { intro a. rewrite count_age_app.
    destruct Fl as [->|[x [y [c ->]]]], Wh as [->|[x' [y' [c' ->]]]];
      unfold count_age; cbn [filter new_glyph age]; destruct a; cbn; split; try lia;
      congruence. }
  destruct (count_age_ticked F) as [Z S'].
  assert (Bounded : glyphs_bounded (filter bright ticked ++ flow ++ whisper)).
  { split.
    - apply Forall_app. split; [assumption|].
      eapply Forall_impl; [|exact NewFade]. now intros g [A _].
    - intro a. rewrite count_age_app. pose proof (count_age_filter a bright ticked) as Le.
      destruct (NewCount a) as [N2 N0]. destruct a as [|a].
      + rewrite Z in Le. lia.
      + rewrite S' in Le. specialize (Counts a). rewrite N0 by discriminate. lia. }
  split; [exact Bounded|]. split.
  - eapply Forall_impl; [|exact Ages]. intros g A. cbn beta in *. lia.
  - apply (@length_by_age 45 _ 2 Ages). apply Bounded.
Qed.

(** X11: the glyph collection of an entity stays small.  As long as the
    essence is at most 1, a tick of [update_glyphs] keeps the collection
    in the shape the ticks build (no glyph brighter than 0.95 to the power
    of its age, at most two glyphs of any age); every glyph left after a
    tick is at most 44 ticks old, since 0.95 to the power 45 is below the
    threshold 0.1, and the collection holds at most 90 glyphs. *)
Theorem glyphs_stay_bounded e w :
  (essence e <= 1)%Q ->
  glyphs_bounded (glyphs e) ->
  let gs' := glyphs (fst (update_glyphs e w)) in
  glyphs_bounded gs' /\
  Forall (fun g => (age g <= 44)%nat) gs' /\
  (length gs' <= 90)%nat.
Proof. exact (@update_glyphs_bounded e w). Qed.

Lemma glyphs_stay_bounded_witness :
  (length (glyphs (fst (update_glyphs
                          (sample_entity (u8 "eth0") 0 0 500 400 (1 # 2)
                             [new_glyph FLOW 1 (3%Z, 4%Z) 2])
                          (sample_world (1 # 20) [])))) <= 90)%nat.
Proof.
  refine (proj2 (proj2 (@glyphs_stay_bounded
                          (sample_entity (u8 "eth0") 0 0 500 400 (1 # 2)
                             [new_glyph FLOW 1 (3%Z, 4%Z) 2])
                          (sample_world (1 # 20) []) _ _))).
  - vm_compute. discriminate.
  - split.
    + repeat constructor. vm_compute. discriminate.
    + intro a. unfold count_age. cbn [filter sample_entity glyphs new_glyph age].
      destruct (Nat.eqb 0 a); cbn [length]; lia.
Defined.

(** ** The scanner only reads the world *)

Lemma generate_spirit_name_reads i w : only_reads w (snd (_generate_spirit_name i w)).
Proof.
  unfold _generate_spirit_name.
  destruct (find _ spirit_names) as [[p names]|].
  - frame_call (py_choice_reads names [] w). frame_done.
  - frame_call (py_random_reads w). destruct (Qltb (1 # 2) a).
    + frame_call (py_choice_reads mystic_prefixes [] w0). frame_done.
    + frame_call (py_choice_reads mystic_suffixes [] w0). frame_done.
Qed.

Lemma NetworkEntity_init_reads n i w : only_reads w (snd (NetworkEntity_init n i w)).
Proof.
  unfold NetworkEntity_init, _generate_aura.
  frame_call (generate_spirit_name_reads n w).
  frame_call (py_uniform_reads (1 # 10) 1 w0).
  frame_call (py_choice_reads auras [] w1).
  frame_call (py_time_reads w2). frame_done.
Qed.

Lemma add_whisper_reads e msg w : only_reads w (snd (add_whisper e msg w)).
Proof. repeat split. Qed.

Lemma mystic_whisper_reads source message level m w :
  only_reads w (snd (mystic_whisper source message level m w)).
Proof. repeat split. Qed.

Lemma ensure_spirit_reads i m w : only_reads w (snd (ensure_spirit i m w)).
Proof.
  unfold ensure_spirit. destruct (dict_has i (entities m)); [apply only_reads_refl|].
  frame_call (NetworkEntity_init_reads i i w).
  match goal with |- context [mystic_whisper ?a ?b ?c ?m1 w0] =>
    frame_call (mystic_whisper_reads a b c m1 w0) end.
  frame_done.
Qed.

Lemma update_entity_reads t lu rx tx e w : only_reads w (snd (update_entity t lu rx tx e w)).
Proof.
  unfold update_entity.
  set (e1 := with_bytes _ rx tx).
  assert (F : only_reads w (snd (match status_whisper e1 with
                                 | Some msg => add_whisper e1 msg w
                                 | None => (e1, w)
                                 end))).
  { destruct (status_whisper e1); [apply add_whisper_reads | apply only_reads_refl]. }
  destruct (match status_whisper e1 with
            | Some msg => add_whisper e1 msg w
            | None => (e1, w)
            end) as [e2 w2]. cbn [snd] in F.
  eapply only_reads_trans; [exact F | apply update_glyphs_reads].
Qed.

Lemma observe_reads t i rx tx m w : only_reads w (snd (observe t i rx tx m w)).
Proof.
  unfold observe. frame_call (ensure_spirit_reads i m w).
  destruct (dict_get i (entities a)) as [entity|]; [|assumption].
  frame_call (update_entity_reads t (last_update a) rx tx entity w0). frame_done.
Qed.

Lemma scan_lines_reads t lines : forall found m w,
  only_reads w (snd (outcome_state (scan_lines t lines found m w))).
Proof.
  induction lines as [|line lines IH]; intros found m w; cbn [scan_lines].
  - apply only_reads_refl.
  - destruct (parse_line (show_loopback (config m)) line) as [|i0|i0 e0|i0 rx tx]; try apply IH.
    + apply only_reads_refl.
    + frame_call (observe_reads t i0 rx tx m w).
      eapply only_reads_trans; [exact F | apply IH].
Qed.

Lemma fade_reads expired : forall m w, only_reads w (snd (fade expired m w)).
Proof.
  induction expired as [|iface rest IH]; intros m w; cbn [fade]; [apply only_reads_refl|].
  destruct (dict_get iface (entities m)) as [spirit|]; [|apply IH].
  match goal with |- context [mystic_whisper ?a ?b ?c ?m1 w] =>
    frame_call (mystic_whisper_reads a b c m1 w) end.
  eapply only_reads_trans; [exact F | apply IH].
Qed.

Lemma scan_failed_reads e m w : only_reads w (snd (scan_failed e m w)).
Proof. unfold scan_failed. apply mystic_whisper_reads. Qed.

Lemma scan_world_reads w : only_reads w (scan_world w).
Proof. repeat split. Qed.

Lemma scan_spirits_reads m w : only_reads w (snd (outcome_state (scan_spirits m w))).
Proof.
  destruct (proc_net_dev w (proc_reads w)) as [err|all_lines] eqn:R.
  - rewrite (scan_spirits_read_fails m w R). cbn [outcome_state].
    eapply only_reads_trans; [|apply scan_failed_reads]. repeat split.
  - rewrite (scan_spirits_read_ok m w R).
    pose proof (scan_lines_reads (scan_time w) (skipn 2 all_lines) [] m (scan_world w)) as F.
    pose proof (scan_world_reads w) as F0.
    destruct (scan_lines (scan_time w) (skipn 2 all_lines) [] m (scan_world w))
      as [found [m2 w2]|e [m2 w2]]; cbn [outcome_state snd] in *.
    + unfold expire. eauto using only_reads_trans, fade_reads.
    + eauto using only_reads_trans, scan_failed_reads.
Qed.

(** ** Entries of the registry *)

Section DictForall.
Variable V : Type.
Variable P : str * V -> Prop.

Lemma dict_set_Forall k v d : P (k, v) -> Forall P d -> Forall P (dict_set k v d).
Proof.
  intros Pk. induction d as [|[k' v'] d IH]; intro F; cbn [dict_set].
  - repeat constructor. assumption.
  - inversion F; subst. destruct (str_eqb k k'); constructor; auto.
Qed.

Lemma dict_pop_Forall k d : Forall P d -> Forall P (dict_pop k d).
Proof.
  unfold dict_pop. intro F. rewrite Forall_forall in *. intros kv I.
  apply filter_In in I. now apply F.
Qed.

Lemma dict_get_Forall k v d : Forall P d -> dict_get k d = Some v -> P (k, v).
Proof.
  induction d as [|[k' v'] d IH]; intros F G; cbn [dict_get] in G; [discriminate|].
  inversion F; subst. destruct (str_eqb k k') eqn:E.
  - apply str_eqb_eq in E. inversion G. subst. assumption.
  - now apply IH.
Qed.
End DictForall.

Lemma add_whisper_bound e msg w :
  len (whispers e) <= 5 -> len (whispers (fst (add_whisper e msg w))) <= 5.
Proof.
  intro B. rewrite add_whisper_eq. cbn [fst whispers with_whispers].
  set (line := entity_whisper_line _ _).
  pose proof (len_app (whispers e) [line]) as L. change (len [line]) with 1 in L.
  destruct (5 <? len (whispers e ++ [line])) eqn:E.
  - rewrite len_tl; [lia|]. destruct (whispers e); discriminate.
  - apply Z.ltb_ge in E. lia.
Qed.

(** [update_entity] ends with the tick of an entity that has the glyphs,
    the essence and the interface it had. *)
Lemma update_entity_shape t lu rx tx e w :
  exists e2 w2,
    update_entity t lu rx tx e w = update_glyphs e2 w2 /\
    only_reads w w2 /\ glyphs e2 = glyphs e /\ essence e2 = essence e /\
    interface e2 = interface e /\
    (len (whispers e) <= 5 -> len (whispers e2) <= 5).
Proof.
  unfold update_entity.
  set (e1 := with_bytes _ rx tx).
  assert (E1 : glyphs e1 = glyphs e /\ essence e1 = essence e /\ interface e1 = interface e
               /\ whispers e1 = whispers e).
  { unfold e1. destruct (Qltb 0 (t - lu)); repeat split. }
  destruct E1 as [G1 [Es1 [I1 W1]]].
  destruct (status_whisper e1) as [msg|].
  - pose proof (add_whisper_fields e1 msg w) as A. cbv zeta in A.
    pose proof (@add_whisper_bound e1 msg w) as B.
    pose proof (add_whisper_reads e1 msg w) as F.
    destruct (add_whisper e1 msg w) as [e2 w2]. cbn [fst snd] in *.
    exists e2, w2. split; [reflexivity|]. split; [exact F|].
    repeat split; try (intuition congruence).
    intro H. apply B. now rewrite W1.
  - exists e1, w. split; [reflexivity|]. split; [apply only_reads_refl|].
    repeat split; try assumption. intro H. now rewrite W1.
Qed.

Lemma entity_ok_init i w : rng_valid w -> entity_ok i (fst (NetworkEntity_init i i w)).
Proof.
  intro V. unfold NetworkEntity_init, _generate_aura.
  frame_call (generate_spirit_name_reads i w).
  assert (V0 : rng_valid w0) by eauto using only_reads_rng.
  pose proof (@py_uniform_range (1 # 10) 1 w0 V0) as U.
  destruct (py_uniform (1 # 10) 1 w0) as [ess w1]. cbn [fst] in U.
  destruct (py_choice auras [] w1) as [au w2]. destruct (py_time w2) as [t w3].
  destruct U as [U1 U2]; [discriminate|].
  unfold entity_ok. cbn [fst interface whispers essence glyphs].
  split; [reflexivity|]. split; [vm_compute; discriminate|].
  split; [exact U1|]. split; [exact U2|]. split; [|split; [constructor | cbn; lia]].
  split; [constructor|]. intro a'. unfold count_age. cbn. lia.
Qed.

Lemma entity_ok_update k t lu rx tx e w :
  rng_valid w -> entity_ok k e -> entity_ok k (fst (update_entity t lu rx tx e w)).
Proof.
  intros V [I [W [E1 [E2 [B [Fi L]]]]]].
  destruct (update_entity_shape t lu rx tx e w) as [e2 [w2 [Eq [F [G2 [Es2 [I2 W2]]]]]]].
  rewrite Eq.
  assert (V2 : rng_valid w2) by eauto using only_reads_rng.
  pose proof (update_glyphs_fields e2 w2) as Fd. cbv zeta in Fd.
  destruct Fd as [_ [Fi' [_ [_ [_ [_ [Fe [_ [_ Fw]]]]]]]]].
  destruct (@update_glyphs_bounded e2 w2) as [B' [_ L']];
    [rewrite Es2; assumption | rewrite G2; assumption|].
  unfold entity_ok. rewrite Fi', Fe, Fw, Es2, I2.
  repeat split; try assumption; try apply B'; auto.
  apply update_glyphs_keeps; [assumption| |].
  - intros g w' _ Ig. rewrite G2 in Ig. rewrite Forall_forall in Fi. specialize (Fi g Ig).
    unfold tick_glyph. destruct (py_choice _ _ w') as [c w1]. exact Fi.
  - intros t0 i x y c T X Y C. unfold glyph_in_field, new_glyph. cbn. tauto.
Qed.

Lemma deque_extend_bound xs : forall l, len l <= 100 -> len (deque_extend l xs) <= 100.
Proof.
  unfold deque_extend. induction xs as [|x xs IH]; intros l B; cbn [fold_left]; [assumption|].
  apply IH. now apply deque_append_bound.
Qed.

Lemma grows_collector_ok m m' : grows m m' -> collector_ok m -> collector_ok m'.
Proof. intros [xs E] B. unfold collector_ok. rewrite E. now apply deque_extend_bound. Qed.

Lemma ensure_spirit_registry i m w :
  rng_valid w -> registry_ok m -> registry_ok (fst (ensure_spirit i m w)).
Proof.
  intros V R. unfold ensure_spirit. destruct (dict_has i (entities m)); [assumption|].
  pose proof (entity_ok_init i V) as Ok.
  destruct (NetworkEntity_init i i w) as [spirit w1]. cbn [fst] in Ok.
  match goal with |- context [mystic_whisper ?a ?b ?c ?m1 w1] =>
    destruct (mystic_whisper_spec a b c m1 w1) as [E _] end.
  unfold registry_ok. rewrite E. cbn [entities with_entities].
  now apply dict_set_Forall.
Qed.

Lemma observe_registry t i rx tx m w :
  rng_valid w -> registry_ok m -> registry_ok (fst (observe t i rx tx m w)).
Proof.
  intros V R. unfold observe.
  pose proof (ensure_spirit_registry i V R) as R1.
  frame_call (ensure_spirit_reads i m w). cbn [fst] in R1.
  assert (V0 : rng_valid w0) by eauto using only_reads_rng.
  destruct (dict_get i (entities a)) as [entity|] eqn:G; [|assumption].
  pose proof (@dict_get_Forall _ (fun kv => entity_ok (fst kv) (snd kv)) _ _ _ R1 G) as Ok.
  cbn [fst snd] in Ok.
  pose proof (@entity_ok_update i t (last_update a) rx tx entity w0 V0 Ok) as Ok'.
  destruct (update_entity t (last_update a) rx tx entity w0) as [entity' w2]. cbn [fst] in *.
  unfold registry_ok. cbn [entities with_entities]. now apply dict_set_Forall.
Qed.

Lemma scan_lines_registry t lines : forall found m w,
  rng_valid w -> registry_ok m ->
  registry_ok (fst (outcome_state (scan_lines t lines found m w))).
Proof.
  induction lines as [|line lines IH]; intros found m w V R; cbn [scan_lines].
  - assumption.
  - destruct (parse_line (show_loopback (config m)) line) as [|i0|i0 e0|i0 rx tx];
      try (now apply IH).
    + assumption.
    + pose proof (@observe_registry t i0 rx tx m w V R) as R1.
      frame_call (observe_reads t i0 rx tx m w). cbn [fst] in R1.
      apply IH; eauto using only_reads_rng.
Qed.

Lemma fade_registry expired : forall m w, registry_ok m -> registry_ok (fst (fade expired m w)).
Proof.
  induction expired as [|iface rest IH]; intros m w R; cbn [fade]; [assumption|].
  destruct (dict_get iface (entities m)) as [spirit|]; [|now apply IH].
  match goal with |- context [mystic_whisper ?a ?b ?c ?m1 w] =>
    destruct (mystic_whisper_spec a b c m1 w) as [E _];
    destruct (mystic_whisper a b c m1 w) as [m2 w2] end.
  cbn [fst] in E. apply IH. unfold registry_ok. rewrite E. cbn [entities with_entities].
  now apply dict_pop_Forall.
Qed.

Lemma scan_failed_registry e m w : registry_ok m -> registry_ok (fst (scan_failed e m w)).
Proof.
  intro R. destruct (scan_failed_spec e m w) as [E _]. unfold registry_ok. now rewrite E.
Qed.

Lemma scan_spirits_registry m w :
  rng_valid w -> registry_ok m -> registry_ok (fst (outcome_state (scan_spirits m w))).
Proof.
  intros V R.
  destruct (proc_net_dev w (proc_reads w)) as [err|all_lines] eqn:Rd.
  - rewrite (scan_spirits_read_fails m w Rd). cbn [outcome_state].
    now apply scan_failed_registry.
  - rewrite (scan_spirits_read_ok m w Rd).
    assert (V0 : rng_valid (scan_world w)) by eauto using only_reads_rng, scan_world_reads.
    pose proof (@scan_lines_registry (scan_time w) (skipn 2 all_lines) [] m (scan_world w) V0 R)
      as R1.
    destruct (scan_lines (scan_time w) (skipn 2 all_lines) [] m (scan_world w))
      as [found [m2 w2]|e [m2 w2]]; cbn [outcome_state fst] in *.
    + unfold expire. now apply fade_registry.
    + now apply scan_failed_registry.
Qed.

Lemma scan_spirits_grows m w : grows m (fst (outcome_state (scan_spirits m w))).
Proof.
  destruct (proc_net_dev w (proc_reads w)) as [err|all_lines] eqn:Rd.
  - rewrite (scan_spirits_read_fails m w Rd). cbn [outcome_state]. apply scan_failed_spec.
  - rewrite (scan_spirits_read_ok m w Rd).
    pose proof (scan_lines_inv (scan_time w) (skipn 2 all_lines) [] m (scan_world w))
      as [_ [G _]].
    destruct (scan_lines (scan_time w) (skipn 2 all_lines) [] m (scan_world w))
      as [found [m2 w2]|e [m2 w2]]; cbn [outcome_state fst] in *.
    + eapply grows_trans; [exact G | apply expire_spec].
    + eapply grows_trans; [exact G | apply scan_failed_spec].
Qed.

Lemma scan_spirits_settings m w : same_settings m (fst (outcome_state (scan_spirits m w))).
Proof.
  destruct (proc_net_dev w (proc_reads w)) as [err|all_lines] eqn:Rd.
  - rewrite (scan_spirits_read_fails m w Rd). cbn [outcome_state]. apply scan_failed_spec.
  - rewrite (scan_spirits_read_ok m w Rd).
    pose proof (scan_lines_inv (scan_time w) (skipn 2 all_lines) [] m (scan_world w))
      as [S _].
    destruct (scan_lines (scan_time w) (skipn 2 all_lines) [] m (scan_world w))
      as [found [m2 w2]|e [m2 w2]]; cbn [outcome_state fst] in *.
    + eapply same_settings_trans; [exact S | apply expire_spec].
    + eapply same_settings_trans; [exact S | apply scan_failed_spec].
Qed.

(** X12: a scan keeps the registry in order.  Whatever the counter source
    yields (rows of any shape, a failed read, a counter that is not a
    number), if before the scan every entry is keyed by the interface of
    its entity, holds at most five messages, has an essence between 0.1
    and 1 and at most 90 glyphs, all of the kinds, positions and colours
    that [update_glyphs] makes, then the same holds after the scan, for
    the entities the scan creates too; the collector stays within its 100
    lines and the settings ([config], [last_update], [running], [colors])
    are not touched. *)
Theorem scan_keeps_registry m w :
  rng_valid w -> registry_ok m -> collector_ok m ->
  let m' := fst (outcome_state (scan_spirits m w)) in
  returns (scan_spirits m w) /\ registry_ok m' /\ collector_ok m' /\ same_settings m m'.
Proof.
  intros V R C m'. subst m'. split; [apply scan_spirits_returns|].
  split; [now apply scan_spirits_registry|]. split.
  - eapply grows_collector_ok; [apply scan_spirits_grows | assumption].
  - apply scan_spirits_settings.
Qed.

Lemma scan_keeps_registry_witness :
  registry_ok (fst (outcome_state (scan_spirits empty_mystic two_reads_world))).
Proof.
  refine (proj1 (proj2 (@scan_keeps_registry empty_mystic two_reads_world _ _ _))).
  - intro n. split; vm_compute; congruence.
  - constructor.
  - vm_compute. congruence.
Defined.

(** ** Invariants of the state under the renderer *)

Section KeepsFacts.
Context {S : Type}.
Variable I : S -> Prop.

Lemma keeps_ret A (a : A) : keeps I (ret a).
Proof. intros s H. exact H. Qed.

Lemma keeps_raise A e : keeps I (raise (A := A) e).
Proof. intros s H. exact H. Qed.

Lemma keeps_bind A B (c : M S A) (k : A -> M S B) :
  keeps I c -> (forall a, keeps I (k a)) -> keeps I (bind c k).
Proof.
  intros Hc Hk s H. unfold bind. specialize (Hc s H).
  destruct (c s) as [a s'|e s']; [apply Hk|]; exact Hc.
Qed.

Lemma keeps_try_except A (body handler : M S A) :
  keeps I body -> keeps I handler -> keeps I (try_except body handler).
Proof.
  intros Hb Hh s H. unfold try_except. specialize (Hb s H).
  destruct (body s) as [a s'|e s']; [|apply Hh]; exact Hb.
Qed.

Lemma keeps_try_pass (body : M S unit) : keeps I body -> keeps I (try_pass body).
Proof. intro Hb. apply keeps_try_except; [exact Hb | apply keeps_ret]. Qed.

Lemma keeps_try_pass_curses (body : M S unit) : keeps I body -> keeps I (try_pass_curses body).
Proof.
  intros Hb s H. unfold try_pass_curses. specialize (Hb s H).
  destruct (body s) as [a s'|e s']; [exact Hb|]. destruct e; exact Hb.
Qed.

Lemma keeps_for_each A (xs : list A) (body : A -> M S unit) :
  (forall x, In x xs -> keeps I (body x)) -> keeps I (for_each xs body).
Proof.
  induction xs as [|x xs IH]; intro H; cbn [for_each].
  - apply keeps_ret.
  - apply keeps_bind; [apply H; now left|]. intros _. apply IH. intros y Iy. apply H. now right.
Qed.
End KeepsFacts.

Section RendererKeeps.
Context {Screen : Type} {curses : Curses Screen}.
Variable I : @St Screen -> Prop.
Hypothesis I_addstr : forall y x s attr, keeps I (on_screen (addstr y x s attr)).
Hypothesis I_clear : keeps I (on_screen clear).
Hypothesis I_refresh : keeps I (on_screen refresh).
Hypothesis I_time : keeps I (on_world get_mystic_time).

Lemma keeps_ask_screen A (f : Screen -> A) : keeps I (ask_screen f).
Proof. intros s H. exact H. Qed.

Lemma keeps_ask_world A (f : World -> A) : keeps I (ask_world (Screen := Screen) f).
Proof. intros s H. exact H. Qed.

Lemma keeps_put y x s attr : keeps I (put y x s attr).
Proof. apply I_addstr. Qed.

Lemma keeps_the_color m k : keeps I (the_color m k).
Proof. unfold the_color. destruct (colors_get k (colors m)); [apply keeps_ret | apply keeps_raise]. Qed.

Lemma keeps_colored_put m k y x s :
  keeps I (c <- the_color m k ;; put y x s (Some c)).
Proof. apply keeps_bind; [apply keeps_the_color | intro; apply keeps_put]. Qed.

Lemma keeps_draw_veil_border height width : keeps I (draw_veil_border height width).
Proof.
  unfold draw_veil_border. apply keeps_for_each. intros y _.
  destruct (y =? 0); [|destruct (y =? height - 1)]; apply keeps_try_pass;
    try apply keeps_put.
  apply keeps_bind; [apply keeps_put | intro; apply keeps_put].
Qed.

Lemma keeps_render_glyph m glyph ox oy : keeps I (render_glyph m glyph ox oy).
Proof.
  unfold render_glyph. destruct (position glyph) as [x y].
  apply keeps_bind; [apply keeps_ask_screen|]. intro cols.
  apply keeps_bind; [apply keeps_ask_screen|]. intro lines.
  destruct (_ && _); [apply keeps_try_pass, keeps_put | apply keeps_ret].
Qed.

Lemma keeps_draw_bar m h x y color : keeps I (draw_bar m h x y color).
Proof.
  unfold draw_bar. apply keeps_for_each. intros i _.
  apply keeps_try_pass, keeps_colored_put.
Qed.

Lemma keeps_render_flow_visualization m rx tx x y width :
  keeps I (render_flow_visualization m rx tx x y width).
Proof.
  unfold render_flow_visualization.
  apply keeps_bind; [apply keeps_draw_bar|]. intros _. apply keeps_draw_bar.
Qed.

Lemma keeps_draw_spirit_whispers ws : forall y, keeps I (draw_spirit_whispers ws y).
Proof.
  induction ws as [|whisper rest IH]; intro y; cbn [draw_spirit_whispers].
  - apply keeps_ret.
  - apply keeps_bind; [apply keeps_ask_screen|]. intro lines.
    apply keeps_bind; [|intro y'; apply IH].
    destruct (y <? lines - 2); [|apply keeps_ret].
    apply keeps_try_except; [|apply keeps_ret].
    apply keeps_bind; [apply keeps_put | intro; apply keeps_ret].
Qed.

Lemma keeps_spirit_rest m entity y_start : keeps I (spirit_rest m entity y_start).
Proof.
  unfold spirit_rest.
  apply keeps_bind; [apply keeps_render_flow_visualization|]. intros _.
  apply keeps_bind; [apply keeps_draw_spirit_whispers|]. intro whisper_y.
  apply keeps_bind; [apply keeps_ask_screen|]. intro cols.
  apply keeps_bind; [apply keeps_try_pass, keeps_put|]. intros _.
  apply keeps_for_each. intros g _. apply keeps_render_glyph.
Qed.

Lemma keeps_spirit_header m entity y_start ip_display :
  forall write, In write (spirit_header m entity y_start ip_display) -> keeps I write.
Proof.
  intros write Iw. unfold spirit_header in Iw.
  destruct Iw as [<-|[<-|[<-|[<-|[<-|[<-|[]]]]]]];
    try apply keeps_put; apply keeps_colored_put.
Qed.

Lemma keeps_draw_spirit_info m entity y_start : keeps I (draw_spirit_info m entity y_start).
Proof.
  unfold draw_spirit_info. apply keeps_try_pass_curses.
  apply keeps_bind; [apply keeps_ask_world|]. intro ips.
  apply keeps_bind; [|intros _; apply keeps_spirit_rest].
  apply keeps_for_each. intros write Iw. eapply keeps_spirit_header; eassumption.
Qed.

Lemma keeps_draw_status_bar m height width : keeps I (draw_status_bar m height width).
Proof.
  unfold draw_status_bar. apply keeps_try_pass_curses.
  apply keeps_bind; [apply I_time|]. intro mystic_time. apply keeps_try_pass, keeps_put.
Qed.

Lemma keeps_draw_whispers_panel m height width : keeps I (draw_whispers_panel m height width).
Proof.
  unfold draw_whispers_panel. destruct (negb (show_whispers (config m))); [apply keeps_ret|].
  apply keeps_try_pass_curses.
  apply keeps_bind; [apply keeps_try_pass, keeps_put|]. intros _.
  apply keeps_bind.
  { apply keeps_for_each. intros [i whisper] _.
    destruct (i <? height - 4); [apply keeps_try_pass, keeps_put | apply keeps_ret]. }
  intros _. apply keeps_bind.
  { apply keeps_for_each. intros y _. apply keeps_try_pass, keeps_put. }
  intros _. apply keeps_try_pass, keeps_put.
Qed.

Lemma keeps_draw_spirits (block : NetworkEntity -> Z -> M (@St Screen) unit) spirits height :
  (forall spirit y, keeps I (block spirit y)) ->
  forall y, keeps I (draw_spirits block spirits y height).
Proof.
  intro Hb. induction spirits as [|spirit rest IH]; intro y; cbn [draw_spirits].
  - apply keeps_ret.
  - destruct (y <? height - 10); [|apply IH].
    apply keeps_bind; [apply Hb | intros _; apply IH].
Qed.

Lemma keeps_draw_veil m : keeps I (draw_veil m).
Proof.
  unfold draw_veil, draw_veil_with. apply keeps_try_pass_curses.
  apply keeps_bind; [apply I_clear|]. intros _.
  apply keeps_bind; [apply keeps_ask_screen|]. intros [height width].
  apply keeps_bind; [apply keeps_draw_veil_border|]. intros _.
  apply keeps_bind.
  { apply keeps_try_pass, keeps_bind; [apply keeps_the_color | intro; apply keeps_put]. }
  intros _.
  apply keeps_bind; [apply I_time|]. intro mystic_time.
  apply keeps_bind.
  { destruct (0 <? _); [apply keeps_try_pass, keeps_put | apply keeps_ret]. }
  intros _.
  apply keeps_bind; [apply keeps_draw_spirits; intros; apply keeps_draw_spirit_info|].
  intros _.
  apply keeps_bind; [apply keeps_draw_status_bar|]. intros _.
  apply keeps_bind; [apply keeps_draw_whispers_panel|]. intros _. apply I_refresh.
Qed.
End RendererKeeps.

Lemma get_mystic_time_reads w : only_reads w (snd (get_mystic_time w)).
Proof. repeat split. Qed.

(** The renderer reads the clock and the addresses of the interfaces, and
    nothing else of the world. *)
Lemma draw_veil_reads (Screen : Type) (curses : Curses Screen) m (s : @St Screen) :
  only_reads (snd s) (snd (outcome_state (draw_veil m s))).
Proof.
  assert (Scr : forall call, keeps (fun s' => only_reads (snd s) (snd s'))
                                   (@on_screen Screen call)).
  { intros call s' H. unfold on_screen. destruct (call (fst s')) as [scr ok].
    destruct ok; exact H. }
  apply (@keeps_draw_veil Screen curses (fun s' => only_reads (snd s) (snd s'))).
  - intros; apply Scr.
  - apply Scr.
  - apply Scr.
  - intros s' H. unfold on_world.
    pose proof (get_mystic_time_reads (snd s')) as F.
    destruct (get_mystic_time (snd s')) as [t w']. cbn [outcome_state snd] in *.
    eauto using only_reads_trans.
  - apply only_reads_refl.
Qed.

(** ** One pass of the event loop *)

Lemma same_but_switches_refl c : same_but_switches c c.
Proof. repeat split. Qed.

Lemma same_but_switches_trans c1 c2 c3 :
  same_but_switches c1 c2 -> same_but_switches c2 c3 -> same_but_switches c1 c3.
Proof. unfold same_but_switches. intuition congruence. Qed.

Lemma ritual_reads (ritual : World -> str * World) w :
  In ritual rituals \/ ritual = (fun w => ([], w)) -> only_reads w (snd (ritual w)).
Proof.
  intros [[<-|[<-|[<-|[<-|[]]]]]| ->]; repeat split.
Qed.

Lemma perform_rituals_more m w :
  let r := perform_rituals m w in
  grows m (fst r) /\ only_reads w (snd r).
Proof.
  cbv zeta. unfold perform_rituals.
  frame_call (py_random_reads w).
  destruct (Qltb a (1 # 10)); [|split; [apply grows_refl | assumption]].
  pose proof (py_choice_in rituals (fun w => ([], w)) w0) as I1.
  frame_call (py_choice_reads rituals (fun w => ([], w)) w0). cbn [fst] in I1.
  frame_call (@ritual_reads a0 w1 I1).
  pose proof (mystic_whisper_grows (u8 "Ritual") a1 (u8 "MYSTIC") m w2) as G.
  pose proof (mystic_whisper_reads (u8 "Ritual") a1 (u8 "MYSTIC") m w2) as F2.
  split; [exact G|]. eauto using only_reads_trans.
Qed.

Lemma dispatch_key_more key m w :
  let r := dispatch_key key m w in
  grows m (fst r) /\ only_reads w (snd r) /\
  same_but_switches (config m) (config (fst r)) /\ last_update (fst r) = last_update m.
Proof.
  cbv zeta. unfold dispatch_key.
  destruct (key =? 113).
  { cbn [fst snd]. split; [exists []; reflexivity|]. repeat split. }
  destruct (key =? 32).
  { destruct (perform_rituals_more m w) as [G F].
    destruct (perform_rituals_spec m w) as [_ [[C [L _]] _]].
    split; [exact G|]. split; [exact F|].
    split; [rewrite C; apply same_but_switches_refl | exact L]. }
  destruct (key =? 114).
  { destruct (mystic_whisper_spec (u8 "Mystic") (u8 "Ritual refreshed") (u8 "INFO") m w)
      as [_ [[C [L _]] _]].
    split; [apply mystic_whisper_grows|]. split; [apply mystic_whisper_reads|].
    split; [rewrite C; apply same_but_switches_refl | exact L]. }
  destruct (key =? 108).
  { match goal with |- context [mystic_whisper ?a ?b ?c ?m1 w] =>
      destruct (mystic_whisper_spec a b c m1 w) as [_ [[C [L _]] _]];
      pose proof (mystic_whisper_grows a b c m1 w) as G;
      pose proof (mystic_whisper_reads a b c m1 w) as F
    end.
    split; [|split; [exact F|split; [rewrite C; repeat split | exact L]]].
    destruct G as [xs G]. exists xs. exact G. }
  destruct (key =? 97).
  { match goal with |- context [mystic_whisper ?a ?b ?c ?m1 w] =>
      destruct (mystic_whisper_spec a b c m1 w) as [_ [[C [L _]] _]];
      pose proof (mystic_whisper_grows a b c m1 w) as G;
      pose proof (mystic_whisper_reads a b c m1 w) as F
    end.
    split; [|split; [exact F|split; [rewrite C; repeat split | exact L]]].
    destruct G as [xs G]. exists xs. exact G. }
  cbn [fst snd]. split; [exists []; reflexivity|]. repeat split.
Qed.

Lemma read_key_reads w : only_reads w (snd (read_key w)).
Proof. repeat split. Qed.

(** What one pass of the loop leaves, whether or not it samples and
    however the frame ends. *)
Lemma run_iteration_spec (Screen : Type) (curses : Curses Screen) m (scr : Screen) w :
  exists m' scr' w',
    run_iteration (m, (scr, w)) = Return tt (m', (scr', w')) /\
    only_reads w w' /\ grows m m' /\ colors m' = colors m /\
    same_but_switches (config m) (config m') /\
    running m' = running m && negb (getch w (key_reads w) =? 113) /\
    (rng_valid w -> registry_ok m -> registry_ok m').
Proof.
  unfold run_iteration, run_iteration_try, read_key.
  pose proof (dispatch_key_spec (getch w (key_reads w)) m (with_key_reads w (S (key_reads w))))
    as [E1 [R1 [C1 _]]].
  pose proof (dispatch_key_more (getch w (key_reads w)) m (with_key_reads w (S (key_reads w))))
    as [G1 [F1 [Cf1 _]]].
  destruct (dispatch_key _ m _) as [m1 w2]. cbn [fst snd] in *.
  assert (F1' : only_reads w w2).
  { eapply only_reads_trans; [|exact F1]. repeat split. }
  frame_call (py_time_reads w2).
  assert (F3 : only_reads w w0) by eauto using only_reads_trans.
  destruct (Qle_bool (update_interval (config m1)) (a - last_update m1)).
  - pose proof (scan_spirits_returns m1 w0) as Rt.
    pose proof (scan_spirits_reads m1 w0) as F4.
    pose proof (scan_spirits_grows m1 w0) as G4.
    pose proof (scan_spirits_settings m1 w0) as [Cf4 [_ [R4 C4]]].
    pose proof (@scan_spirits_registry m1 w0) as Reg.
    destruct (scan_spirits m1 w0) as [[] [m2 w4]|]; [|contradiction].
    cbn [outcome_state fst snd] in *.
    destruct (perform_rituals_spec m2 w4) as [E5 [[Cf5 [_ [R5 C5]]] _]].
    destruct (perform_rituals_more m2 w4) as [G5 F5].
    destruct (perform_rituals m2 w4) as [m3 w5]. cbn [fst snd] in *.
    pose proof (@draw_veil_reads Screen curses m3 (scr, w5)) as F6.
    assert (Reg3 : rng_valid w -> registry_ok m -> registry_ok m3).
    { intros V R. unfold registry_ok. rewrite E5. apply Reg.
      - eauto using only_reads_rng.
      - unfold registry_ok. now rewrite E1. }
    assert (Cf3 : same_but_switches (config m) (config m3)).
    { rewrite Cf5, Cf4. exact Cf1. }
    destruct (draw_veil m3 (scr, w5)) as [[] [scr' w6]|e [scr' w6]];
      cbn [outcome_state snd] in F6.
    + exists (with_last_update m3 a), scr', w6. split; [reflexivity|].
      split; [eauto 6 using only_reads_trans|].
      split; [destruct (grows_trans G1 (grows_trans G4 G5)) as [xs Ex]; now exists xs|].
      cbn [colors running config with_last_update].
      repeat split; try congruence; try apply Cf3. exact Reg3.
    + pose proof (mystic_whisper_spec (u8 "Mystic") (u8 "Error: " ++ str_of_exn e)
                    (u8 "ERROR") m3 w6) as [E7 [[Cf7 [_ [R7 C7]]] _]].
      pose proof (mystic_whisper_grows (u8 "Mystic") (u8 "Error: " ++ str_of_exn e)
                    (u8 "ERROR") m3 w6) as G7.
      pose proof (mystic_whisper_reads (u8 "Mystic") (u8 "Error: " ++ str_of_exn e)
                    (u8 "ERROR") m3 w6) as F7.
      destruct (mystic_whisper _ _ _ m3 w6) as [m4 w7]. cbn [fst snd] in *.
      exists m4, scr', w7. split; [reflexivity|].
      split; [eauto 7 using only_reads_trans|].
      split; [eauto using grows_trans|].
      split; [congruence|]. split; [rewrite Cf7; exact Cf3|]. split; [congruence|].
      intros V R. unfold registry_ok. rewrite E7. now apply Reg3.
  - exists m1, scr, w0. split; [reflexivity|]. split; [assumption|].
    split; [assumption|]. split; [assumption|]. split; [assumption|]. split; [assumption|].
    intros _ R. unfold registry_ok. now rewrite E1.
Qed.

(** ** The loop *)

Lemma run_loop_stopped (Screen : Type) (curses : Curses Screen) n (s : NetworkMystic * @St Screen) :
  running (fst s) = false -> run_loop n s = Return tt s.
Proof. intro R. destruct n; cbn [run_loop]; [reflexivity|]. now rewrite R. Qed.

Lemma run_loop_spec (Screen : Type) (curses : Curses Screen) n :
  forall m (scr : Screen) w,
  exists m' scr' w',
    run_loop n (m, (scr, w)) = Return tt (m', (scr', w')) /\
    only_reads w w' /\ grows m m' /\ colors m' = colors m /\
    same_but_switches (config m) (config m') /\
    (rng_valid w -> registry_ok m -> registry_ok m').
Proof.
  induction n as [|n IH]; intros m scr w; cbn [run_loop].
  - exists m, scr, w. split; [reflexivity|].
    auto 10 using only_reads_refl, grows_refl, same_but_switches_refl.
  - cbn [fst]. destruct (running m).
    + destruct (run_iteration_spec curses m scr w)
        as [m1 [scr1 [w1 [E1 [F1 [G1 [C1 [Cf1 [_ R1]]]]]]]]].
      unfold bind. rewrite E1.
      destruct (IH m1 scr1 w1) as [m2 [scr2 [w2 [E2 [F2 [G2 [C2 [Cf2 R2]]]]]]]].
      exists m2, scr2, w2. split; [exact E2|].
      split; [eauto using only_reads_trans|]. split; [eauto using grows_trans|].
      split; [congruence|]. split; [eauto using same_but_switches_trans|].
      intros V R. apply R2; [eauto using only_reads_rng | now apply R1].
    + exists m, scr, w. split; [reflexivity|].
      auto 10 using only_reads_refl, grows_refl, same_but_switches_refl.
Qed.

(** X13: the quit key ends the loop.  In the pass that reads [q] the
    [running] flag is cleared, and nothing the pass does afterwards (a
    scan, a ritual, a frame, an error report) sets it again: whatever the
    number of passes allowed, the loop makes this one pass and stops.
    [running] is only ever cleared by a pass: it holds after a pass exactly
    when it held before and the key read was not [q]. *)
Theorem quit_key_stops (Screen : Type) (curses : Curses Screen) m (scr : Screen) w fuel :
  running m = true ->
  let pass := run_iteration (m, (scr, w)) in
  returns pass /\
  running (fst (outcome_state pass)) = negb (getch w (key_reads w) =? 113) /\
  (getch w (key_reads w) = 113 -> run_loop (S fuel) (m, (scr, w)) = pass).
Proof.
  intros R pass. subst pass.
  destruct (run_iteration_spec curses m scr w) as [m1 [scr1 [w1 [E1 [_ [_ [_ [_ [R1 _]]]]]]]]].
  rewrite E1. cbn [outcome_state fst returns]. rewrite R in R1. cbn [andb] in R1.
  split; [exact I|]. split; [exact R1|].
  intro K. cbn [run_loop fst]. rewrite R. unfold bind. rewrite E1.
  apply run_loop_stopped. cbn [fst]. rewrite R1, K. reflexivity.
Qed.

Lemma quit_key_stops_witness :
  returns (run_iteration (sample_mystic MysticConfig_init [] 0,
                          (blank_grid 24 80, sample_world (1 # 2) []))).
Proof.
  exact (proj1 (@quit_key_stops Grid Grid_curses (sample_mystic MysticConfig_init [] 0)
                  (blank_grid 24 80) (sample_world (1 # 2) []) 0 eq_refl)).
Defined.

(** X14: the keys [l] and [a] toggle.  A press of [l] flips
    [show_loopback], a press of [a] flips [ancient_script]; each leaves
    every other setting and the registry alone and reports the new state
    to the collector in one [INFO] line from "Mystic", which is then its
    newest line; two presses of the same key restore the configuration. *)
Theorem toggle_keys_flip m w :
  let l := fst (dispatch_key 108 m w) in
  let a := fst (dispatch_key 97 m w) in
  (show_loopback (config l) = negb (show_loopback (config m)) /\
   ancient_script (config l) = ancient_script (config m) /\
   same_but_switches (config m) (config l) /\ entities l = entities m /\
   collected (mystic_whispers l)
   = deque_append (collected (mystic_whispers m))
       (whisper_line (datetime_now w (clock_reads w)) (u8 "Mystic")
          (u8 "Loopback spirits "
             ++ (if negb (show_loopback (config m)) then u8 "shown" else u8 "hidden"))
          (u8 "INFO")) /\
   last (collected (mystic_whispers l)) []
   = whisper_line (datetime_now w (clock_reads w)) (u8 "Mystic")
       (u8 "Loopback spirits "
          ++ (if negb (show_loopback (config m)) then u8 "shown" else u8 "hidden"))
       (u8 "INFO")) /\
  (ancient_script (config a) = negb (ancient_script (config m)) /\
   show_loopback (config a) = show_loopback (config m) /\
   same_but_switches (config m) (config a) /\ entities a = entities m /\
   collected (mystic_whispers a)
   = deque_append (collected (mystic_whispers m))
       (whisper_line (datetime_now w (clock_reads w)) (u8 "Mystic")
          (u8 "Ancient script "
             ++ (if negb (ancient_script (config m)) then u8 "enabled" else u8 "disabled"))
          (u8 "INFO")) /\
   last (collected (mystic_whispers a)) []
   = whisper_line (datetime_now w (clock_reads w)) (u8 "Mystic")
       (u8 "Ancient script "
          ++ (if negb (ancient_script (config m)) then u8 "enabled" else u8 "disabled"))
       (u8 "INFO")) /\
  (forall w', config (fst (dispatch_key 108 l w')) = config m) /\
  (forall w', config (fst (dispatch_key 97 a w')) = config m).
Proof.
  cbv zeta. unfold dispatch_key.
  change (108 =? 113) with false. change (108 =? 32) with false.
  change (108 =? 114) with false. change (108 =? 108) with true.
  change (97 =? 113) with false. change (97 =? 32) with false.
  change (97 =? 114) with false. change (97 =? 108) with false.
  change (97 =? 97) with true. cbv iota.
  unfold mystic_whisper, collect_whisper, py_now.
  cbn [fst snd config entities mystic_whispers collected with_config with_mystic_whispers
       show_loopback ancient_script with_show_loopback with_ancient_script].
  split; [|split; [|split]].
  - repeat split. apply deque_append_last.
  - repeat split. apply deque_append_last.
  - intros w'. rewrite negb_involutive. destruct (config m). reflexivity.
  - intros w'. rewrite negb_involutive. destruct (config m). reflexivity.
Qed.

(** ** The whole run *)

Lemma init_colors_ready m : colors_ready (init_colors m).
Proof. intros k [<-|[<-|[<-|[<-|[]]]]]; vm_compute; discriminate. Qed.

Lemma colors_ready_same m m' : colors m' = colors m -> colors_ready m -> colors_ready m'.
Proof. intros E R k I. rewrite E. now apply R. Qed.

(** the state in which the loop of [run_ritual] starts *)
Lemma run_ritual_begin_spec m w :
  let r := run_ritual_begin m w in
  entities (fst r) = entities m /\ config (fst r) = config m /\ running (fst r) = true /\
  colors_ready (fst r) /\ grows m (fst r) /\ only_reads w (snd r).
Proof.
  cbv zeta. unfold run_ritual_begin.
  set (m2 := with_running (init_colors m) true).
  destruct (mystic_whisper_spec (u8 "Mystic") (u8 "Beginning the ritual...") (u8 "INFO") m2 w)
    as [E [[C [_ [R Co]]] _]].
  pose proof (mystic_whisper_grows (u8 "Mystic") (u8 "Beginning the ritual...") (u8 "INFO") m2 w)
    as G.
  pose proof (mystic_whisper_reads (u8 "Mystic") (u8 "Beginning the ritual...") (u8 "INFO") m2 w)
    as F.
  split; [rewrite E; reflexivity|]. split; [rewrite C; reflexivity|].
  split; [rewrite R; reflexivity|]. split; [|split; [|exact F]].
  - eapply colors_ready_same; [exact Co|]. apply (init_colors_ready m).
  - destruct G as [xs G]. exists xs. exact G.
Qed.

Lemma run_ritual_spec (Screen : Type) (curses : Curses Screen) fuel m (scr : Screen) w :
  exists m' scr' w',
    run_ritual fuel (m, (scr, w)) = Return tt (m', (scr', w')) /\
    only_reads w w' /\ grows m m' /\ colors_ready m' /\
    same_but_switches (config m) (config m') /\
    (rng_valid w -> registry_ok m -> registry_ok m').
Proof.
  unfold run_ritual.
  destruct (run_ritual_begin_spec m w) as [E [C [_ [Co [G F]]]]].
  destruct (run_ritual_begin m w) as [m1 w1]. cbn [fst snd] in *.
  destruct (run_loop_spec curses fuel m1 scr w1)
    as [m2 [scr2 [w2 [E2 [F2 [G2 [C2 [Cf2 R2]]]]]]]].
  exists m2, scr2, w2. split; [exact E2|].
  split; [eauto using only_reads_trans|]. split; [eauto using grows_trans|].
  split; [eapply colors_ready_same; eassumption|].
  split; [rewrite <- C; exact Cf2|].
  intros V R. apply R2; [eauto using only_reads_rng|]. unfold registry_ok. now rewrite E.
Qed.

(** X15: a run of [run_ritual] stays well-formed.  Starting from a freshly
    constructed mystic, after any number of passes of the loop: no pass has
    raised; the world has only been read (no file has been written); the
    colour pairs the renderer indexes are defined, so that no frame fails
    on a missing colour; the collector holds at most 100 lines; every entry
    of the registry is keyed by the interface of its entity and holds at
    most five messages, an essence between 0.1 and 1, and at most 90
    glyphs; and the configuration is the initial one but for the two
    switches that the keys toggle. *)
Theorem session_stays_well_formed (Screen : Type) (curses : Curses Screen)
    cfg (scr : Screen) w fuel :
  rng_valid w ->
  let start := NetworkMystic_init cfg w in
  let r := run_ritual fuel (fst start, (scr, snd start)) in
  let m := fst (outcome_state r) in
  returns r /\
  only_reads w (snd (snd (outcome_state r))) /\
  files (snd (snd (outcome_state r))) = files w /\
  colors_ready m /\ collector_ok m /\ registry_ok m /\
  same_but_switches cfg (config m).
Proof.
  intros V start r m. subst start r m. unfold NetworkMystic_init.
  frame_call (py_time_reads w). cbn [fst snd].
  set (m0 := {| config := cfg; entities := []; mystic_whispers := WhisperCollector_init;
                last_update := a; running := false; colors := [] |}).
  destruct (run_ritual_spec curses fuel m0 scr w0)
    as [m' [scr' [w' [E [F' [G [Co [Cf R]]]]]]]].
  rewrite E. cbn [outcome_state fst snd returns].
  assert (Fw : only_reads w w') by eauto using only_reads_trans.
  split; [exact I|]. split; [exact Fw|]. split; [apply Fw|]. split; [exact Co|].
  split; [|split; [|exact Cf]].
  - eapply grows_collector_ok; [exact G|]. vm_compute. discriminate.
  - apply R; [eauto using only_reads_rng | constructor].
Qed.

Lemma session_stays_well_formed_witness :
  registry_ok
    (fst (outcome_state
            (run_ritual 2 (fst (NetworkMystic_init MysticConfig_init two_reads_world),
                           (blank_grid 24 80,
                            snd (NetworkMystic_init MysticConfig_init two_reads_world)))))).
Proof.
  refine (proj1 (proj2 (proj2 (proj2 (proj2 (proj2
            (@session_stays_well_formed Grid Grid_curses MysticConfig_init (blank_grid 24 80)
               two_reads_world 2 _))))))).
  intro n. split; vm_compute; congruence.
Defined.

(** ** Shutdown *)

Lemma file_content_set path text w :
  file_content path (with_files w (dict_set path text (files w))) = text.
Proof. unfold file_content. cbn [files with_files]. now rewrite dict_get_set_eq. Qed.

Lemma save_mysteries_spec (float_repr : Q -> str) m w path :
  log_file (config m) = Some path -> path <> [] -> open_error w path = None ->
  exists w',
    save_mysteries float_repr m w = Return tt (m, w') /\
    files w' = dict_set path (file_content path w ++ snapshot_text float_repr m w) (files w) /\
    open_error w' = open_error w.
Proof.
  intros E NE Op. unfold save_mysteries. rewrite E.
  apply str_eqb_neq in NE. rewrite NE.
  destruct (log_entry_of_spec m w) as [_ [Fi Oe]].
  unfold snapshot_text, file_content.
  destruct (log_entry_of m w) as [log_entry w1]. cbn [fst snd] in *.
  unfold append_file. rewrite Oe, Op, Fi.
  eexists. split; [reflexivity|]. cbn [files open_error with_files]. split; [reflexivity|].
  exact Oe.
Qed.

Lemma cleanup_spec (float_repr : Q -> str) m w path :
  log_file (config m) = Some path -> path <> [] -> open_error w path = None ->
  exists m1 w1 w',
    cleanup float_repr m w = Return tt (m1, w') /\
    entities m1 = entities m /\ config m1 = config m /\
    collected (mystic_whispers m1)
    = deque_append (collected (mystic_whispers m)) (closing_line (datetime_now w (clock_reads w))) /\
    files w' = dict_set path (file_content path w ++ snapshot_text float_repr m1 w1) (files w) /\
    open_error w' = open_error w.
Proof.
  intros E NE Op. unfold cleanup.
  destruct (mystic_whisper_spec (u8 "Mystic") (u8 "Ritual complete. Veil closing...")
              (u8 "INFO") m w) as [En [[C _] Co]].
  pose proof (mystic_whisper_reads (u8 "Mystic") (u8 "Ritual complete. Veil closing...")
                (u8 "INFO") m w) as F.
  destruct (mystic_whisper _ _ _ m w) as [m1 w1]. cbn [fst snd] in *.
  assert (Op1 : open_error w1 path = None).
  { replace (open_error w1) with (open_error w) by (symmetry; apply F). exact Op. }
  assert (E1 : log_file (config m1) = Some path) by (rewrite C; exact E).
  destruct (save_mysteries_spec float_repr m1 w1 E1 NE Op1) as [w' [S [Fi Oe]]].
  exists m1, w1, w'. split; [exact S|]. split; [exact En|]. split; [exact C|].
  split; [exact Co|]. split.
  - rewrite Fi. unfold file_content.
    replace (files w1) with (files w) by (symmetry; apply F). reflexivity.
  - rewrite Oe. apply F.
Qed.

(** X16: a run that ends saves its snapshot twice.  [start] calls
    [cleanup] in its [finally], and the handler registered with [atexit]
    calls it again when the interpreter exits: when the log file can be
    opened, the file ends up with its old content followed by two
    snapshots, each of at least seven lines.  The second is taken from the
    same registry as the first, with one more closing line in the
    collector; no other file is touched. *)
Theorem exit_saves_twice (Screen : Type) (curses : Curses Screen) (float_repr : Q -> str)
    cfg fuel (scr : Screen) w path :
  log_file cfg = Some path -> path <> [] -> (forall p, open_error w p = None) ->
  running (fst (outcome_state
                  (run_ritual fuel (fst (NetworkMystic_init cfg w),
                                    (scr, snd (NetworkMystic_init cfg w)))))) = false ->
  let r := main_from_config float_repr cfg fuel scr w in
  exists m1 w1 m2 w2,
    returns r /\
    file_content path (snd (snd (outcome_state r)))
    = file_content path w ++ snapshot_text float_repr m1 w1 ++ snapshot_text float_repr m2 w2 /\
    (forall p, p <> path ->
       dict_get p (files (snd (snd (outcome_state r)))) = dict_get p (files w)) /\
    entities m2 = entities m1 /\
    (exists t1 t2,
       last (collected (mystic_whispers m1)) [] = closing_line t1 /\
       collected (mystic_whispers m2)
       = deque_append (collected (mystic_whispers m1)) (closing_line t2)) /\
    (7 <= count_newlines (snapshot_text float_repr m1 w1))%nat /\
    (7 <= count_newlines (snapshot_text float_repr m2 w2))%nat.
Proof.
  intros E NE Op _ r. subst r. unfold main_from_config, NetworkMystic_init.
  frame_call (py_time_reads w).
  set (m0 := {| config := cfg; entities := []; mystic_whispers := WhisperCollector_init;
                last_update := a; running := false; colors := [] |}).
  destruct (run_ritual_spec curses fuel m0 scr w0)
    as [m' [scr' [w' [Er [F' [_ [_ [Cf _]]]]]]]].
  assert (Fw : only_reads w w') by eauto using only_reads_trans.
  assert (E' : log_file (config m') = Some path).
  { destruct Cf as [_ [_ [_ [_ [_ [L _]]]]]]. rewrite L. exact E. }
  assert (Op' : open_error w' path = None).
  { replace (open_error w') with (open_error w) by (symmetry; apply Fw). apply Op. }
  destruct (cleanup_spec float_repr m' w' E' NE Op')
    as [m1 [w1 [w1' [C1 [En1 [Cf1 [Co1 [Fi1 Oe1]]]]]]]].
  assert (E1 : log_file (config m1) = Some path) by (rewrite Cf1; exact E').
  assert (Op1 : open_error w1' path = None) by (rewrite Oe1; exact Op').
  destruct (cleanup_spec float_repr m1 w1' E1 NE Op1)
    as [m2 [w2 [w2' [C2 [En2 [Cf2 [Co2 [Fi2 Oe2]]]]]]]].
  exists m1, w1, m2, w2.
  unfold try_finally, start, try_finally. rewrite Er. unfold cleanup_step.
  rewrite C1, C2. cbn [outcome_state snd returns].
  assert (Fi : files w' = files w) by apply Fw.
  assert (Lines : forall m3 w3, (7 <= count_newlines (snapshot_text float_repr m3 w3))%nat).
  { intros m3 w3. unfold snapshot_text.
    destruct (log_entry_of_spec m3 w3) as [[v1 [v2 [v3 [v4 [v5 Sh]]]]] _]. rewrite Sh.
    rewrite count_newlines_app.
    pose proof (json_encode_five_entries float_repr (u8 "timestamp") v1 (u8 "mystic_time") v2
                  (u8 "total_spirits") v3 (u8 "mysteries") v4 (u8 "system_whispers") v5).
    change (count_newlines [10%N]) with 1%nat. lia. }
  split; [exact I|]. split; [|split; [|split; [|split; [|split]]]].
  - unfold file_content at 1. rewrite Fi2, dict_get_set_eq.
    unfold file_content at 1. rewrite Fi1, dict_get_set_eq.
    unfold file_content. rewrite Fi. now rewrite <- app_assoc.
  - intros p Np. rewrite Fi2, dict_get_set_neq by assumption.
    rewrite Fi1, dict_get_set_neq by assumption. now rewrite Fi.
  - exact En2.
  - eexists _, _. split; [|exact Co2]. rewrite Co1. apply deque_append_last.
  - apply Lines.
  - apply Lines.
Qed.

Lemma exit_saves_twice_witness :
  exists m1 w1 m2 w2,
    file_content (u8 "network_mysteries.log")
      (snd (snd (outcome_state
                   (main_from_config (fun _ => []) MysticConfig_init 1 (blank_grid 24 80)
                      quit_world))))
    = file_content (u8 "network_mysteries.log") quit_world
        ++ snapshot_text (fun _ => []) m1 w1 ++ snapshot_text (fun _ => []) m2 w2.
Proof.
  destruct (@exit_saves_twice Grid Grid_curses (fun _ => []) MysticConfig_init 1
              (blank_grid 24 80) quit_world (u8 "network_mysteries.log") eq_refl)
    as [m1 [w1 [m2 [w2 [_ [E _]]]]]].
  - vm_compute. discriminate.
  - intro p. reflexivity.
  - vm_compute. reflexivity.
  - exists m1, w1, m2, w2. exact E.
Defined.

Lemma mysteries_of_length es : forall w, length (fst (mysteries_of es w)) = length es.
Proof.
  induction es as [|e es IH]; intro w; cbn [mysteries_of]; [reflexivity|].
  destruct (mystery_of e w) as [j w1]. specialize (IH w1).
  destruct (mysteries_of es w1) as [js w2]. cbn [fst length] in *. now rewrite IH.
Qed.

Lemma log_entry_of_shape m w :
  exists ts mt mysteries,
    fst (log_entry_of m w)
    = JDict [(u8 "timestamp", JStr ts); (u8 "mystic_time", JStr mt);
             (u8 "total_spirits", JInt (len (entities m)));
             (u8 "mysteries", JList mysteries);
             (u8 "system_whispers",
              JList (map JStr (get_recent_whispers (mystic_whispers m) 10)))] /\
    len mysteries = len (entities m).
Proof.
  unfold log_entry_of.
  pose proof (mysteries_of_length (dict_values (entities m)) w) as L.
  destruct (mysteries_of (dict_values (entities m)) w) as [mysteries w1].
  destruct (py_now w1) as [now w2]. destruct (get_mystic_time w2) as [mt w3].
  cbn [fst] in *. exists (isoformat now), mt, mysteries. split; [reflexivity|].
  unfold len. rewrite L. unfold dict_values. now rewrite length_map.
Qed.

(** X17: the snapshot that [cleanup] writes.  When the log file can be
    opened, [cleanup] appends one JSON document whose [total_spirits] is
    the number of entries of the registry and of the list [mysteries], and
    whose [system_whispers] are the newest lines of the collector, ten at
    most, the last of them being the closing line that [cleanup] itself
    has just added. *)
Theorem cleanup_snapshot_content (float_repr : Q -> str) m w path :
  log_file (config m) = Some path -> path <> [] -> open_error w path = None ->
  exists w' ts mt mysteries system,
    returns (cleanup float_repr m w) /\
    snd (outcome_state (cleanup float_repr m w)) = w' /\
    file_content path w'
    = file_content path w
        ++ json_encode float_repr 0
             (JDict [(u8 "timestamp", JStr ts); (u8 "mystic_time", JStr mt);
                     (u8 "total_spirits", JInt (len (entities m)));
                     (u8 "mysteries", JList mysteries);
                     (u8 "system_whispers", JList (map JStr system))])
        ++ [10%N] /\
    len mysteries = len (entities m) /\
    len system <= 10 /\
    last system [] = closing_line (datetime_now w (clock_reads w)).
Proof.
  intros E NE Op.
  destruct (cleanup_spec float_repr m w E NE Op)
    as [m1 [w1 [w' [C [En [_ [Co [Fi _]]]]]]]].
  destruct (log_entry_of_shape m1 w1) as [ts [mt [mysteries [Sh L]]]].
  exists w', ts, mt, mysteries, (get_recent_whispers (mystic_whispers m1) 10).
  rewrite C. cbn [outcome_state snd returns].
  split; [exact I|]. split; [reflexivity|]. split; [|split; [|split]].
  - unfold file_content at 1. rewrite Fi, dict_get_set_eq.
    unfold snapshot_text. rewrite Sh, En. reflexivity.
  - rewrite <- En. exact L.
  - unfold get_recent_whispers, len. rewrite last_n_length. lia.
  - unfold get_recent_whispers, last_n. rewrite Co.
    set (l := deque_append _ _).
    assert (NE' : (0 < length l)%nat).
    { unfold l, deque_append. destruct (100 <? len _) eqn:B.
      - apply Z.ltb_lt in B.
        match goal with |- (0 < length (tl ?x))%nat =>
          assert (T : len (tl x) = len x - 1)
            by (apply len_tl; destruct (collected (mystic_whispers m)); discriminate)
        end.
        unfold len in *. lia.
      - rewrite length_app. cbn [length]. lia. }
    rewrite last_skipn by lia. apply deque_append_last.
Qed.

Lemma cleanup_snapshot_content_witness :
  returns (cleanup (fun _ => []) empty_mystic (sample_world (1 # 2) [])).
Proof.
  destruct (@cleanup_snapshot_content (fun _ => []) empty_mystic (sample_world (1 # 2) [])
              (u8 "network_mysteries.log") eq_refl)
    as [w' [ts [mt [mysteries [system [R _]]]]]].
  - vm_compute. discriminate.
  - reflexivity.
  - exact R.
Defined.

(** X18: a log file that cannot be opened does not stop the shutdown:
    [save_mysteries] returns normally, leaves every file as it was, keeps
    the registry, and hands one [ERROR] line from "Archivist" with the
    text of the error to the collector, which is then its newest line. *)
Theorem save_failure_is_reported (float_repr : Q -> str) m w path e :
  log_file (config m) = Some path -> path <> [] -> open_error w path = Some e ->
  exists m' w' t,
    save_mysteries float_repr m w = Return tt (m', w') /\
    files w' = files w /\
    entities m' = entities m /\ same_settings m m' /\
    collected (mystic_whispers m')
    = deque_append (collected (mystic_whispers m))
        (whisper_line t (u8 "Archivist") (u8 "Failed to save: " ++ str_of_exn e) (u8 "ERROR")) /\
    last (collected (mystic_whispers m')) []
    = whisper_line t (u8 "Archivist") (u8 "Failed to save: " ++ str_of_exn e) (u8 "ERROR").
Proof.
  intros E NE Op. unfold save_mysteries. rewrite E.
  apply str_eqb_neq in NE. rewrite NE.
  destruct (log_entry_of_spec m w) as [_ [Fi Oe]].
  destruct (log_entry_of m w) as [log_entry w1]. cbn [fst snd] in *.
  unfold append_file. rewrite Oe, Op.
  destruct (mystic_whisper_spec (u8 "Archivist") (u8 "Failed to save: " ++ str_of_exn e)
              (u8 "ERROR") m w1) as [En [S Co]].
  pose proof (mystic_whisper_reads (u8 "Archivist") (u8 "Failed to save: " ++ str_of_exn e)
                (u8 "ERROR") m w1) as F.
  destruct (mystic_whisper _ _ _ m w1) as [m' w']. cbn [fst snd] in *.
  exists m', w', (fst (py_now w1)). split; [reflexivity|].
  split; [|split; [exact En|split; [exact S|split; [exact Co|]]]].
  - replace (files w') with (files w1) by (symmetry; apply F). exact Fi.
  - rewrite Co. apply deque_append_last.
Qed.

Lemma save_failure_is_reported_witness :
  exists m' w' t,
    save_mysteries (fun _ => []) empty_mystic
      {| time_time := fun _ => 0%Q; datetime_now := fun _ => sample_datetime; clock_reads := 0;
         random_random := fun _ => 0%Q; rng_draws := 0;
         proc_net_dev := fun _ => inr []; proc_reads := 0;
         ip_addr_show := fun _ => None; files := [];
         open_error := fun _ => Some (OSError (u8 "[Errno 13] Permission denied"));
         getch := fun _ => -1; key_reads := 0; math_sin := fun _ => 0%Q |}
    = Return tt (m', w') /\
    collected (mystic_whispers m')
    = deque_append (collected (mystic_whispers empty_mystic))
        (whisper_line t (u8 "Archivist")
           (u8 "Failed to save: " ++ str_of_exn (OSError (u8 "[Errno 13] Permission denied")))
           (u8 "ERROR")).
Proof.
  destruct (@save_failure_is_reported (fun _ => []) empty_mystic
              {| time_time := fun _ => 0%Q; datetime_now := fun _ => sample_datetime;
                 clock_reads := 0;
                 random_random := fun _ => 0%Q; rng_draws := 0;
                 proc_net_dev := fun _ => inr []; proc_reads := 0;
                 ip_addr_show := fun _ => None; files := [];
                 open_error := fun _ => Some (OSError (u8 "[Errno 13] Permission denied"));
                 getch := fun _ => -1; key_reads := 0; math_sin := fun _ => 0%Q |}
              (u8 "network_mysteries.log") (OSError (u8 "[Errno 13] Permission denied"))
              eq_refl)
    as [m' [w' [t [E [_ [_ [_ [C _]]]]]]]].
  - vm_compute. discriminate.
  - reflexivity.
  - exists m', w', t. split; [exact E | exact C].
Defined.

(** ** What the renderer writes, and where *)

Section TracedFacts.
Context {Screen : Type} {curses : Curses Screen}.
Variable P : Call -> Prop.
Variable s0 : Traced Screen * World.

Lemma wrote_only_start : wrote_only P s0 s0.
Proof. exists []. split; [now rewrite app_nil_r | constructor]. Qed.

Lemma wrote_put y x text attr :
  P {| call_y := y; call_x := x; call_text := text; call_attr := attr |} ->
  keeps (wrote_only P s0) (@put (Traced Screen) (traced curses) y x text attr).
Proof.
  intros Pc s [new [E F]]. unfold put, on_screen. cbn [addstr traced].
  destruct (addstr y x text attr (fst (fst s))) as [scr ok].
  exists (new ++ [{| call_y := y; call_x := x; call_text := text; call_attr := attr |}]).
  split.
  - destruct ok; cbn [outcome_state calls_of fst snd]; unfold calls_of in E;
      rewrite E; now rewrite app_assoc.
  - apply Forall_app. split; [assumption | repeat constructor; assumption].
Qed.

Lemma wrote_ask_screen A (f : Traced Screen -> A) :
  keeps (wrote_only P s0) (@ask_screen (Traced Screen) A f).
Proof. intros s H. exact H. Qed.

Lemma wrote_ask_world A (f : World -> A) :
  keeps (wrote_only P s0) (@ask_world (Traced Screen) A f).
Proof. intros s H. exact H. Qed.

Lemma wrote_on_world A (f : World -> A * World) :
  keeps (wrote_only P s0) (@on_world (Traced Screen) A f).
Proof. intros s H. unfold on_world. destruct (f (snd s)) as [a w']. exact H. Qed.

Lemma wrote_the_color m k : keeps (wrote_only P s0) (@the_color (Traced Screen) m k).
Proof.
  unfold the_color. destruct (colors_get k (colors m)); [apply keeps_ret | apply keeps_raise].
Qed.

Lemma wrote_colored_put m k y x text :
  (forall c, P {| call_y := y; call_x := x; call_text := text; call_attr := Some c |}) ->
  keeps (wrote_only P s0)
        (c <- @the_color (Traced Screen) m k ;;
         @put (Traced Screen) (traced curses) y x text (Some c)).
Proof.
  intro H. apply keeps_bind; [apply wrote_the_color | intro c; apply wrote_put, H].
Qed.
End TracedFacts.

Lemma bar_cell_spec i :
  0 <= i < 5 -> In (nth_str bar_chars (Z.min (i * len bar_chars / 5) (len bar_chars - 1))) bar_cells.
Proof.
  intro H. assert (C : i = 0 \/ i = 1 \/ i = 2 \/ i = 3 \/ i = 4) by lia.
  destruct C as [->|[->|[->|[->| ->]]]]; vm_compute; tauto.
Qed.

Lemma range_In n i : In i (range n) <-> 0 <= i < n.
Proof.
  unfold range, range2. rewrite in_map_iff. split.
  - intros [k [E I]]. apply in_seq in I. lia.
  - intro H. exists (Z.to_nat i). split; [lia|]. apply in_seq. lia.
Qed.

Lemma wrote_draw_bar (Screen : Type) (curses : Curses Screen) (P : Call -> Prop)
    (s : Traced Screen * World) m h x y color :
  (forall i c, 0 <= i < Z.min h 5 ->
     P {| call_y := y + 4 - i; call_x := x;
          call_text := nth_str bar_chars (Z.min (i * len bar_chars / 5) (len bar_chars - 1));
          call_attr := Some c |}) ->
  keeps (wrote_only P s)
        (@draw_bar (Traced Screen) (traced curses) m (Z.min h 5) x y color).
Proof.
  intro H. unfold draw_bar. apply keeps_for_each. intros i Ii.
  apply range_In in Ii. apply keeps_try_pass.
  apply wrote_colored_put. intro c. now apply H.
Qed.

(** X19: the two rate bars of an entity block.  Whatever the rates,
    [render_flow_visualization] writes single cells only, in the column
    [x] (receive) or [x + 2] (transmit), on the five lines from [y] to
    [y + 4], and only the characters of indices 0, 1, 3, 4 and 6 of the bar
    alphabet: the full block is never drawn.  A rate below 200, a negative
    one included, draws nothing. *)
Theorem flow_bars_cells (Screen : Type) (curses : Curses Screen) m rx tx x y width
    (s : Traced Screen * World) :
  wrote_only
    (fun c => (call_x c = x \/ call_x c = x + 2) /\ y <= call_y c <= y + 4 /\
              In (call_text c) bar_cells)
    s (outcome_state (@render_flow_visualization (Traced Screen) (traced curses)
                        m rx tx x y width s)) /\
  ((rx < 200)%Q -> (tx < 200)%Q ->
   calls_of (outcome_state (@render_flow_visualization (Traced Screen) (traced curses)
                              m rx tx x y width s)) = calls_of s).
Proof.
  split.
  - unfold render_flow_visualization.
    apply (@keeps_bind _ (wrote_only _ s)); [| intros _ | apply wrote_only_start].
    + apply wrote_draw_bar. intros i c Hi. cbn [call_x call_y call_text].
      split; [now left|]. split; [lia|]. apply bar_cell_spec. lia.
    + apply wrote_draw_bar. intros i c Hi. cbn [call_x call_y call_text].
      split; [now right|]. split; [lia|]. apply bar_cell_spec. lia.
  - intros Lr Lt.
    assert (Zero : forall r, (r < 200)%Q -> Z.min (int_of_float (r / 1000 * 5)) 5 <= 0).
    { intros r L. assert (Li : int_of_float (r / 1000 * 5) <= 0); [|lia].
      unfold int_of_float.
      set (q := (r / 1000 * 5)%Q). assert (Lq : (q < 1)%Q).
      { unfold q, Qdiv. change (/ 1000)%Q with (1 # 1000)%Q. lra. }
      destruct q as [a b]. unfold Qlt in Lq. cbn [Qnum Qden] in *.
      rewrite Z.mul_1_r, Z.mul_1_l in Lq.
      destruct (Z_le_gt_dec a 0) as [Na|Pa].
      - apply Z.quot_le_upper_bound; lia.
      - rewrite Z.quot_small; lia. }
    assert (Empty : forall h x' color (s' : Traced Screen * World),
               h <= 0 ->
               @draw_bar (Traced Screen) (traced curses) m h x' y color s' = Return tt s').
    { intros h x' color s' Hh. unfold draw_bar, range, range2.
      replace (Z.to_nat (h - 0)) with 0%nat by lia. reflexivity. }
    unfold render_flow_visualization, bind.
    rewrite Empty by (apply Zero; assumption).
    rewrite Empty by (apply Zero; assumption). reflexivity.
Qed.

Lemma slice_to_len A (l : list A) k : 0 <= k -> len (slice_to l k) <= k.
Proof.
  intro H. unfold slice_to. destruct (k <? 0) eqn:E; [apply Z.ltb_lt in E; lia|].
  unfold len. rewrite length_firstn. lia.
Qed.

Lemma cut_len A (st : list A) k :
  0 <= k -> len (if k <? len st then slice_to st k else st) <= k.
Proof.
  intro H. destruct (k <? len st) eqn:E.
  - now apply slice_to_len.
  - now apply Z.ltb_ge in E.
Qed.

Lemma wrote_draw_spirit_whispers (Screen : Type) (curses : Curses Screen) (P : Call -> Prop)
    (s0 : Traced Screen * World) ws :
  forall whisper_y s,
  (forall y text attr, whisper_y <= y < whisper_y + len ws ->
     P {| call_y := y; call_x := 2; call_text := text; call_attr := attr |}) ->
  wrote_only P s0 s ->
  exists y' s',
    @draw_spirit_whispers (Traced Screen) (traced curses) ws whisper_y s = Return y' s' /\
    wrote_only P s0 s' /\ whisper_y <= y' <= whisper_y + len ws.
Proof.
  induction ws as [|whisper rest IH]; intros whisper_y s HP Hs; cbn [draw_spirit_whispers].
  - exists whisper_y, s. split; [reflexivity|]. split; [assumption|].
    change (len (@nil str)) with 0. lia.
  - assert (L : len (whisper :: rest) = len rest + 1) by (unfold len; cbn [length]; lia).
    pose proof (len_nonneg rest) as N.
    unfold bind at 1. unfold ask_screen at 1. unfold bind at 1.
    destruct (whisper_y <? LINES (fst s) - 2).
    + pose proof (@wrote_put Screen curses P s0 whisper_y 2 (u8 "│  " ++ whisper) (Some A_DIM))
        as Hput.
      assert (Here : whisper_y <= whisper_y < whisper_y + len (whisper :: rest)) by lia.
      specialize (Hput (HP whisper_y (u8 "│  " ++ whisper) (Some A_DIM) Here) s Hs).
      unfold try_except, bind.
      destruct (put whisper_y 2 (u8 "│  " ++ whisper) (Some A_DIM) s) as [[] s1|e s1];
        cbn [outcome_state] in Hput.
      * unfold ret.
        destruct (IH (whisper_y + 1) s1) as [y' [s' [E [Hs' B]]]]; [|assumption|].
        { intros y text attr Hy. apply HP. lia. }
        exists y', s'. split; [exact E|]. split; [assumption | lia].
      * unfold ret.
        destruct (IH whisper_y s1) as [y' [s' [E [Hs' B]]]]; [|assumption|].
        { intros y text attr Hy. apply HP. lia. }
        exists y', s'. split; [exact E|]. split; [assumption | lia].
    + unfold ret.
      destruct (IH whisper_y s) as [y' [s' [E [Hs' B]]]]; [|assumption|].
      { intros y text attr Hy. apply HP. lia. }
      exists y', s'. split; [exact E|]. split; [assumption | lia].
Qed.

Lemma keeps_bind_value S (I : S -> Prop) A B (Q : A -> Prop) (c : M S A) (k : A -> M S B) :
  (forall s, I s -> exists a s', c s = Return a s' /\ I s' /\ Q a) ->
  (forall a, Q a -> keeps I (k a)) -> keeps I (bind c k).
Proof.
  intros Hc Hk s Hs. unfold bind. destruct (Hc s Hs) as [a [s' [E [Hs' Qa]]]].
  rewrite E. now apply Hk.
Qed.

Lemma last_n_len A (k : nat) (l : list A) : len (last_n k l) <= Z.of_nat k.
Proof. unfold len. rewrite last_n_length. lia. Qed.

(** ** Addresses of an interface *)

Lemma split_on_first sep s : ~ In sep (nth_str (split_on sep s) 0).
Proof.
  unfold nth_str. cbn [Z.to_nat nth].
  induction s as [|c s IH]; cbn [split_on]; [intros []|].
  destruct (c =? sep)%N eqn:E; [intros []|].
  destruct (split_on sep s) as [|p ps]; cbn [nth] in *.
  - intros [H|[]]. apply N.eqb_neq in E. congruence.
  - intros [H|H]; [apply N.eqb_neq in E; congruence | now apply IH].
Qed.

Lemma flat_map_length_le A B (f : A -> list B) l :
  (forall x, (length (f x) <= 1)%nat) -> (length (flat_map f l) <= length l)%nat.
Proof.
  intro H. induction l as [|x l IH]; cbn [flat_map length]; [lia|].
  rewrite length_app. specialize (H x). lia.
Qed.

(** X22: [get_interface_ips] gives clean addresses.  When the [ip] command
    cannot be run the result is the empty list; otherwise it holds at most
    one address for each line of the output, and no address in it is
    empty, is the loopback address 127.0.0.1, or still carries the prefix
    length (there is no slash in it). *)
Theorem interface_ips_clean interface w :
  (ip_addr_show w interface = None -> get_interface_ips interface w = []) /\
  (forall stdout, ip_addr_show w interface = Some stdout ->
     len (get_interface_ips interface w) <= len (splitlines stdout)) /\
  Forall (fun ip => ip <> [] /\ ip <> u8 "127.0.0.1" /\ ~ In 47%N ip)
         (get_interface_ips interface w).
Proof.
  unfold get_interface_ips. split; [intro E; now rewrite E|]. split.
  - intros stdout E. rewrite E.
    match goal with |- len (flat_map ?f ?l) <= len ?l =>
      assert (H : forall x, (length (f x) <= 1)%nat) end.
    { intro line. cbv beta zeta.
      destruct (4 <=? len (split_ws line)); [|cbn [length]; lia].
      match goal with |- context [if ?b then [?ip] else []] => destruct b end;
        cbn [length]; lia. }
    unfold len. apply inj_le. now apply flat_map_length_le.
  - destruct (ip_addr_show w interface) as [stdout|]; [|constructor].
    apply Forall_flat_map. apply Forall_forall. intros line _.
    destruct (4 <=? len (split_ws line)); [|constructor].
    set (ip := nth_str (split_on 47%N (nth_str (split_ws line) 3)) 0).
    destruct (negb (str_eqb ip []) && negb (str_eqb ip (u8 "127.0.0.1"))) eqn:E;
      [|constructor].
    apply andb_true_iff in E. destruct E as [E1 E2].
    apply negb_true_iff, str_eqb_neq in E1. apply negb_true_iff, str_eqb_neq in E2.
    constructor; [|constructor]. split; [assumption|]. split; [assumption|].
    apply split_on_first.
Qed.

(** ** The loopback switch *)

Lemma parse_line_hides_loopback line :
  row_interface (parse_line false line) <> Some (u8 "lo").
Proof.
  unfold parse_line.
  destruct (str_eqb (strip line) []); [discriminate|].
  destruct (len (split_on 58%N line) <? 2); [discriminate|].
  set (iface := strip (nth_str (split_on 58%N line) 0)).
  destruct (str_eqb iface []); cbn [orb]; [discriminate|].
  destruct (str_eqb iface (u8 "lo")) eqn:E; cbn [andb negb]; [discriminate|].
  apply str_eqb_neq in E.
  destruct (len _ <? 16); [cbn; congruence|].
  destruct (py_int _); [destruct (py_int _)|]; cbn; congruence.
Qed.

(** X23: while loopback is hidden, no scan that completes leaves a
    loopback entity.  With [show_loopback] off the rows of [lo] are
    skipped before they count as found, so a scan that reads the counter
    source and meets no counter that is not a number ends with [lo] out of
    the registry, also when it was tracked before (as after the key [l]
    has hidden it again).  The removal is logged: the scan hands to the
    collector one creation line for each interface it starts to track and
    then one removal line for each interface it stops tracking, [lo] among
    them, and the collector holds the newest 100 of its former lines and
    these. *)
Theorem hidden_loopback_fades m w all_lines :
  proc_net_dev w (proc_reads w) = inr all_lines ->
  show_loopback (config m) = false ->
  (forall l j e, In l (skipn 2 all_lines) ->
     parse_line (show_loopback (config m)) l <> NotANumber j e) ->
  collector_ok m ->
  let m' := fst (outcome_state (scan_spirits m w)) in
  dict_get (u8 "lo") (entities m') = None /\
  exists created removed,
    NoDup removed /\
    (tracked (u8 "lo") m -> In (u8 "lo") removed) /\
    (forall i, In i created <-> ~ tracked i m /\ sampled false (skipn 2 all_lines) i) /\
    (forall i, In i removed <-> tracked i m /\ ~ observed false (skipn 2 all_lines) i) /\
    scan_events m m' created removed.
Proof.
  intros R Hide Good B m'. subst m'.
  pose proof (scan_lines_returns (scan_time w) (skipn 2 all_lines) [] m (scan_world w) Good) as Rt.
  destruct (@scan_completed_events m w all_lines R Rt B)
    as [created [removed [_ [NDr [Ic [Ir Ev]]]]]].
  rewrite Hide in Ic, Ir.
  assert (NO : ~ observed false (skipn 2 all_lines) (u8 "lo")).
  { intros [line [_ Ri]]. exact (parse_line_hides_loopback line Ri). }
  split.
  - rewrite (scan_spirits_read_ok m w R).
    destruct (scan_lines (scan_time w) (skipn 2 all_lines) [] m (scan_world w))
      as [found [m2 w2]|] eqn:E; [|contradiction].
    cbn [outcome_state fst] in *.
    destruct (scan_lines_found _ _ _ _ _ E) as [Fo _].
    assert (NotFound : ~ In (u8 "lo") found).
    { intro I. apply Fo in I. destruct I as [[]|O]. rewrite Hide in O. contradiction. }
    destruct (expire_spec found m2 w2) as [_ [_ [_ Gone]]]. now apply Gone.
  - exists created, removed. split; [exact NDr|]. split; [|split; [exact Ic|split; [exact Ir|exact Ev]]].
    intro T. apply Ir. split; assumption.
Qed.

Lemma hidden_loopback_fades_witness :
  dict_get (u8 "lo") (entities (fst (outcome_state (scan_spirits lo_mystic lo_world)))) = None.
Proof.
  refine (proj1 (@hidden_loopback_fades lo_mystic lo_world (proc_header ++ [lo_malformed_row])
                   eq_refl eq_refl _ _)).
  - intros l j e [<-|[]]. vm_compute. discriminate.
  - vm_compute. discriminate.
Defined.

(** ** Rituals *)

Ltac closed_in := apply str_in_In; vm_compute; reflexivity.

Lemma ritual_message (ritual : World -> str * World) w :
  rng_valid w -> In ritual rituals -> In (fst (ritual w)) ritual_messages.
Proof.
  intros V [<-|[<-|[<-|[<-|[]]]]].
  - unfold _ritual_moon_cycle. destruct (py_time w) as [now w1]. cbn [fst].
    destruct (Qltb _ _); [|destruct (Qltb _ _); [|destruct (Qltb _ _)]]; closed_in.
  - unfold _ritual_tide_change. destruct (py_time w) as [now w1]. cbn [fst].
    destruct (Qltb _ _); [|destruct (Qltb _ _)]; closed_in.
  - unfold _ritual_star_alignment.
    match goal with |- In (fst (py_choice ?l ?d w)) _ =>
      pose proof (@py_choice_range _ l d w V ltac:(discriminate)) as C;
      destruct (py_choice l d w) as [x w1] end.
    cbn [fst In] in *. destruct C as [<-|[<-|[<-|[<-|[<-|[]]]]]]; closed_in.
  - unfold _ritual_wind_shift.
    match goal with |- In (fst (py_choice ?l ?d w)) _ =>
      pose proof (@py_choice_range _ l d w V ltac:(discriminate)) as C;
      destruct (py_choice l d w) as [x w1] end.
    cbn [fst In] in *. destruct C as [<-|[<-|[<-|[<-|[<-|[]]]]]]; closed_in.
Qed.

(** X24: [perform_rituals] performs a ritual exactly when its first draw
    is below 0.1.  It then adds one line to the collector, a [MYSTIC] line
    from "Ritual" carrying one of the seventeen messages of the four
    rituals, which is then the newest line; otherwise it changes nothing.  In both cases the registry and
    the settings are left alone. *)
Theorem ritual_adds_one_line m w :
  rng_valid w ->
  let m' := fst (perform_rituals m w) in
  entities m' = entities m /\ same_settings m m' /\
  ((random_random w (rng_draws w) < 1 # 10)%Q ->
   exists t message,
     In message ritual_messages /\
     collected (mystic_whispers m')
     = deque_append (collected (mystic_whispers m))
         (whisper_line t (u8 "Ritual") message (u8 "MYSTIC")) /\
     last (collected (mystic_whispers m')) []
     = whisper_line t (u8 "Ritual") message (u8 "MYSTIC")) /\
  (~ (random_random w (rng_draws w) < 1 # 10)%Q -> m' = m).
Proof.
  intros V m'. subst m'.
  destruct (perform_rituals_spec m w) as [E [Same _]].
  split; [exact E|]. split; [exact Same|]. clear E Same.
  unfold perform_rituals, py_random. cbn [fst snd].
  set (w0 := with_rng_draws w (S (rng_draws w))).
  assert (V0 : rng_valid w0) by (intro n; apply V).
  destruct (Qltb (random_random w (rng_draws w)) (1 # 10)) eqn:D.
  - split; [|intro N; apply Qltb_lt in D; contradiction]. intros _.
    pose proof (@py_choice_range _ rituals (fun w => ([], w)) w0 V0 ltac:(discriminate)) as C.
    frame_call (py_choice_reads rituals (fun w => ([], w)) w0). cbn [fst] in C.
    assert (V1 : rng_valid w1) by eauto using only_reads_rng.
    pose proof (@ritual_message a w1 V1 C) as Msg.
    destruct (a w1) as [result w2]. cbn [fst] in Msg.
    destruct (mystic_whisper_spec (u8 "Ritual") result (u8 "MYSTIC") m w2) as [_ [_ Co]].
    exists (fst (py_now w2)), result. split; [exact Msg|]. split; [exact Co|].
    rewrite Co. apply deque_append_last.
  - split; [|reflexivity]. intro L. apply Qltb_lt in L. congruence.
Qed.

Lemma ritual_adds_one_line_witness :
  entities (fst (perform_rituals empty_mystic (sample_world (1 # 20) []))) = entities empty_mystic.
Proof.
  refine (proj1 (@ritual_adds_one_line empty_mystic (sample_world (1 # 20) []) _)).
  intro n. split; vm_compute; congruence.
Defined.

(** ** When a pass samples *)

(** X25: the loop samples only when the interval has elapsed.  A pass
    reads a key and the clock; while the time since [last_update] is below
    [update_interval] it does nothing more (no scan, no frame: registry,
    window and [last_update] stay as the key left them).  Once the
    interval has elapsed the pass scans, performs the rituals and draws a
    frame, and, the colour pairs being defined, the frame completes and
    [last_update] becomes the time read at the start of the pass. *)
Theorem sampling_waits_for_interval (Screen : Type) (curses : Curses Screen) m (scr : Screen) w :
  let pressed := dispatch_key (getch w (key_reads w)) m (with_key_reads w (S (key_reads w))) in
  let now := time_time (snd pressed) (clock_reads (snd pressed)) in
  ((now - last_update m < update_interval (config m))%Q ->
   run_iteration (m, (scr, w))
   = Return tt (fst pressed, (scr, snd (py_time (snd pressed))))) /\
  ((update_interval (config m) <= now - last_update m)%Q -> colors_ready m ->
   exists m' s',
     run_iteration (m, (scr, w)) = Return tt (m', s') /\
     last_update m' = now /\
     entities m'
     = entities (fst (outcome_state (scan_spirits (fst pressed) (snd (py_time (snd pressed))))))).
Proof.
  cbv zeta. unfold run_iteration, run_iteration_try, read_key.
  destruct (dispatch_key_more (getch w (key_reads w)) m (with_key_reads w (S (key_reads w))))
    as [_ [_ [[Ui _] Lu]]].
  destruct (dispatch_key_spec (getch w (key_reads w)) m (with_key_reads w (S (key_reads w))))
    as [_ [_ [Co _]]].
  destruct (dispatch_key _ m _) as [m1 w1]. cbn [fst snd] in *.
  unfold py_time. cbn [fst snd]. rewrite Ui, Lu.
  set (now := time_time w1 (clock_reads w1)).
  set (w2 := with_clock_reads w1 (S (clock_reads w1))).
  split.
  - intro L. destruct (Qle_bool _ _) eqn:B; [|reflexivity].
    apply Qle_bool_iff in B. exfalso. exact (Qlt_not_le _ _ L B).
  - intros L Rdy.
    match goal with |- context [Qle_bool ?a ?b] => destruct (Qle_bool a b) eqn:B end;
      [|apply Qle_bool_false in B; exfalso; exact (Qlt_not_le _ _ B L)].
    pose proof (scan_spirits_returns m1 w2) as Rt.
    pose proof (scan_spirits_settings m1 w2) as [_ [_ [_ C4]]].
    destruct (scan_spirits m1 w2) as [[] [m2 w4]|]; [|contradiction].
    cbn [outcome_state fst] in *.
    destruct (perform_rituals_spec m2 w4) as [E5 [[_ [_ [_ C5]]] _]].
    destruct (perform_rituals m2 w4) as [m3 w5]. cbn [fst] in *.
    assert (Rdy3 : colors_ready m3).
    { eapply colors_ready_same; [|exact Rdy]. congruence. }
    pose proof (@safe_draw_veil_with Screen curses (draw_spirit_info m3) m3
                  (fun spirit y => safe_draw_spirit_info spirit y Rdy3) (scr, w5)) as Sf.
    fold (draw_veil m3) in Sf.
    destruct (draw_veil m3 (scr, w5)) as [[] s'|]; [|contradiction].
    exists (with_last_update m3 now), s'. split; [reflexivity|].
    split; [reflexivity | exact E5].
Qed.

Lemma sampling_waits_for_interval_witness :
  exists m' s',
    run_iteration (sample_mystic MysticConfig_init [] (-2),
                   (blank_grid 24 80, sample_world (1 # 2) []))
    = Return tt (m', s').
Proof.
  destruct (proj2 (@sampling_waits_for_interval Grid Grid_curses
                     (sample_mystic MysticConfig_init [] (-2)) (blank_grid 24 80)
                     (sample_world (1 # 2) [])))
    as [m' [s' [E _]]].
  - vm_compute. discriminate.
  - intros k [<-|[<-|[<-|[<-|[]]]]]; vm_compute; discriminate.
  - exists m', s'. exact E.
Defined.

(** ** Ties in the ranking *)

Lemma Qeq_bool_true a b : Qeq_bool a b = true <-> (a == b)%Q.
Proof. split; [apply Qeq_bool_eq | apply Qeq_eq_bool]. Qed.

Lemma insert_desc_filter A (key : A -> Q) k x l :
  filter (fun e => Qeq_bool (key e) k) (insert_desc key x l)
  = filter (fun e => Qeq_bool (key e) k) (x :: l).
Proof.
  induction l as [|y l IH]; cbn [insert_desc]; [reflexivity|].
  destruct (Qle_bool (key y) (key x)) eqn:E; [reflexivity|].
  apply Qle_bool_false in E.
  cbn [filter] in *. rewrite IH.
  destruct (Qeq_bool (key x) k) eqn:Ex; [|reflexivity].
  destruct (Qeq_bool (key y) k) eqn:Ey; [|reflexivity].
  apply Qeq_bool_true in Ex. apply Qeq_bool_true in Ey. lra.
Qed.

Lemma sorted_desc_filter A (key : A -> Q) k l :
  filter (fun e => Qeq_bool (key e) k) (sorted_desc key l)
  = filter (fun e => Qeq_bool (key e) k) l.
Proof.
  induction l as [|x l IH]; cbn [sorted_desc]; [reflexivity|].
  rewrite insert_desc_filter. cbn [filter]. now rewrite IH.
Qed.

(** X26: ties keep the order of the registry.  In the ranking by combined
    rate that [draw_veil] draws from, the entities that share a combined
    rate stand in the order in which the registry holds them, that is the
    order in which they were first seen: the descending sort is stable. *)
Theorem equal_rates_keep_registry_order m k :
  let ranked := sorted_desc (fun e => (rx_rate e + tx_rate e)%Q) (dict_values (entities m)) in
  filter (fun e => Qeq_bool (rx_rate e + tx_rate e) k) ranked
  = filter (fun e => Qeq_bool (rx_rate e + tx_rate e) k) (dict_values (entities m)) /\
  (0 <= max_spirits (config m) ->
   spirits_to_draw m = firstn (Z.to_nat (max_spirits (config m))) ranked).
Proof.
  cbv zeta. split.
  - apply (sorted_desc_filter (fun e => (rx_rate e + tx_rate e)%Q)).
  - intro Pos. unfold spirits_to_draw, slice_to.
    destruct (max_spirits (config m) <? 0) eqn:E; [apply Z.ltb_lt in E; lia | reflexivity].
Qed.

(** ** The border *)

Lemma repeat_str_len c n : len (repeat_str [c] n) = Z.max 0 n.
Proof.
  unfold repeat_str, len.
  assert (L : forall k, length (concat (repeat [c] k)) = k).
  { induction k as [|k IH]; cbn [repeat concat app length]; [reflexivity | now rewrite IH]. }
  rewrite L. lia.
Qed.

(** X27: the border runs along the edge.  [draw_veil_border] writes on the
    lines 0 to [height - 1] only: on the first and on the last line one
    text from column 0, two corners with [width - 2] bars between them
    (just the two corners when the width is below 2), and on every line
    between them one bar at column 0 and one at column [width - 1]. *)
Theorem border_runs_along_edge (Screen : Type) (curses : Curses Screen) height width
    (s : Traced Screen * World) :
  wrote_only
    (fun c => 0 <= call_y c < height /\ call_attr c = None /\
              ((call_x c = 0 /\ (call_y c = 0 \/ call_y c = height - 1) /\
                len (call_text c) = 2 + Z.max 0 (width - 2)) \/
               ((call_x c = 0 \/ call_x c = width - 1) /\ 0 < call_y c < height - 1 /\
                call_text c = u8 "║")))
    s (outcome_state (@draw_veil_border (Traced Screen) (traced curses) height width s)).
Proof.
  unfold draw_veil_border.
  apply (@keeps_for_each _ (wrote_only _ s)); [|apply wrote_only_start].
  intros y Iy. apply range_In in Iy.
  assert (Corner : forall a b, len (nth_str border_chars a ++ repeat_str (nth_str border_chars 4)
                                      (width - 2) ++ nth_str border_chars b)
                               = 2 + Z.max 0 (width - 2) \/ 5 < a \/ 5 < b \/ a < 0 \/ b < 0).
  { intros a b.
    assert (One : forall i, 0 <= i <= 5 -> len (nth_str border_chars i) = 1).
    { intros i Hi. assert (C : i = 0 \/ i = 1 \/ i = 2 \/ i = 3 \/ i = 4 \/ i = 5) by lia.
      destruct C as [->|[->|[->|[->|[->| ->]]]]]; reflexivity. }
    destruct (Z_le_gt_dec 0 a); [|lia]. destruct (Z_le_gt_dec a 5); [|lia].
    destruct (Z_le_gt_dec 0 b); [|lia]. destruct (Z_le_gt_dec b 5); [|lia].
    left. rewrite !len_app, !One by lia.
    change (nth_str border_chars 4) with [9552%N]. rewrite repeat_str_len. lia. }
  destruct (y =? 0) eqn:E0; [|destruct (y =? height - 1) eqn:E1].
  - apply Z.eqb_eq in E0. apply keeps_try_pass, wrote_put.
    cbn [call_y call_x call_text call_attr].
    split; [lia|]. split; [reflexivity|]. left. split; [reflexivity|]. split; [lia|].
    destruct (Corner 0 1) as [H|H]; [exact H | lia].
  - apply Z.eqb_eq in E1. apply keeps_try_pass, wrote_put.
    cbn [call_y call_x call_text call_attr].
    split; [lia|]. split; [reflexivity|]. left. split; [reflexivity|]. split; [lia|].
    destruct (Corner 2 3) as [H|H]; [exact H | lia].
  - apply Z.eqb_neq in E0. apply Z.eqb_neq in E1. apply keeps_try_pass.
    apply keeps_bind; [|intros _]; apply wrote_put; cbn [call_y call_x call_text call_attr];
      (split; [lia|]; split; [reflexivity|]; right; split; [auto|]; split; [lia|];
       vm_compute; reflexivity).
Qed.

(** ** A new entity *)

(** X28: what a new entity looks like.  [NetworkEntity(interface,
    interface)] starts with zero counters and rates, no glyph and no
    message; its essence lies in [0.1, 1) and its aura is one of the ten of
    the table; its name always contains the interface: a title of the
    first table entry whose prefix the interface starts with, followed by
    the interface in parentheses, or else the interface after one of the
    six prefixes or before one of the six suffixes. *)
Theorem new_entity_shape i w :
  rng_valid w ->
  let e := fst (NetworkEntity_init i i w) in
  interface e = i /\ rx_bytes e = 0 /\ tx_bytes e = 0 /\
  rx_rate e = 0%Q /\ tx_rate e = 0%Q /\ glyphs e = [] /\ whispers e = [] /\
  ((1 # 10) <= essence e)%Q /\ (essence e < 1)%Q /\
  In (aura e) auras /\
  match find (fun entry => startswith i (fst entry)) spirit_names with
  | Some (prefix, titles) =>
      exists title, In title titles /\ name e = title ++ u8 " (" ++ i ++ u8 ")"
  | None =>
      (exists p, In p mystic_prefixes /\ name e = p ++ i) \/
      (exists sf, In sf mystic_suffixes /\ name e = i ++ sf)
  end.
Proof.
  intros V e. subst e. unfold NetworkEntity_init, _generate_aura.
  assert (Name : match find (fun entry => startswith i (fst entry)) spirit_names with
                 | Some (prefix, titles) =>
                     exists title, In title titles /\
                       fst (_generate_spirit_name i w) = title ++ u8 " (" ++ i ++ u8 ")"
                 | None =>
                     (exists p, In p mystic_prefixes /\ fst (_generate_spirit_name i w) = p ++ i) \/
                     (exists sf, In sf mystic_suffixes /\ fst (_generate_spirit_name i w) = i ++ sf)
                 end).
  { unfold _generate_spirit_name.
    destruct (find (fun entry => startswith i (fst entry)) spirit_names) as [[prefix titles]|] eqn:Fd.
    - assert (NE : titles <> []).
      { apply find_some in Fd. destruct Fd as [Fd _]. cbn [spirit_names In] in Fd.
        destruct Fd as [H|[H|[H|[H|[H|[H|[H|[]]]]]]]]; inversion H; discriminate. }
      pose proof (@py_choice_range _ titles [] w V NE) as C.
      destruct (py_choice titles [] w) as [n w1]. cbn [fst] in *. now exists n.
    - frame_call (py_random_reads w). assert (V0 : rng_valid w0) by eauto using only_reads_rng.
      destruct (Qltb (1 # 2) a).
      + pose proof (@py_choice_range _ mystic_prefixes [] w0 V0 ltac:(discriminate)) as C.
        destruct (py_choice mystic_prefixes [] w0) as [p w1]. cbn [fst] in *.
        left. now exists p.
      + pose proof (@py_choice_range _ mystic_suffixes [] w0 V0 ltac:(discriminate)) as C.
        destruct (py_choice mystic_suffixes [] w0) as [sf w1]. cbn [fst] in *.
        right. now exists sf. }
  frame_call (generate_spirit_name_reads i w). cbn [fst] in Name.
  assert (V0 : rng_valid w0) by eauto using only_reads_rng.
  assert (U : ((1 # 10) <= fst (py_uniform (1 # 10) 1 w0))%Q /\
              (fst (py_uniform (1 # 10) 1 w0) < 1)%Q).
  { unfold py_uniform, py_random. cbn [fst]. destruct (V0 (rng_draws w0)) as [L U]. split; nra. }
  frame_call (py_uniform_reads (1 # 10) 1 w0). cbn [fst] in U.
  assert (V1 : rng_valid w1) by eauto using only_reads_rng.
  pose proof (@py_choice_range _ auras [] w1 V1 ltac:(discriminate)) as Au.
  destruct (py_choice auras [] w1) as [au w2]. cbn [fst] in Au.
  destruct (py_time w2) as [t w3].
  cbn [fst interface rx_bytes tx_bytes rx_rate tx_rate glyphs whispers essence aura name].
  destruct U as [U1 U2].
  split; [reflexivity|]. split; [reflexivity|]. split; [reflexivity|]. split; [reflexivity|].
  split; [reflexivity|]. split; [reflexivity|]. split; [reflexivity|].
  split; [exact U1|]. split; [exact U2|]. split; [exact Au | exact Name].
Qed.

Lemma new_entity_shape_witness :
  interface (fst (NetworkEntity_init (u8 "eth0") (u8 "eth0") (sample_world (1 # 2) [])))
  = u8 "eth0".
Proof.
  refine (proj1 (@new_entity_shape (u8 "eth0") (sample_world (1 # 2) []) _)).
  intro n. split; vm_compute; congruence.
Defined.

(** ** The identity of an entity *)

Lemma scan_lines_identity t lines : forall found m w j e,
  dict_get j (entities m) = Some e ->
  exists e',
    dict_get j (entities (fst (outcome_state (scan_lines t lines found m w)))) = Some e' /\
    name e' = name e /\ interface e' = interface e /\ essence e' = essence e /\
    aura e' = aura e.
Proof.
  induction lines as [|line lines IH]; intros found m w j e Gj; cbn [scan_lines].
  - exists e. cbn [outcome_state fst]. auto.
  - destruct (parse_line (show_loopback (config m)) line) as [|i0|i0 e0|i0 rx tx].
    + now apply IH.
    + now apply IH.
    + exists e. cbn [outcome_state fst]. auto.
    + destruct (observe_spec t i0 rx tx m w) as [_ [_ [F1 [O1 _]]]].
      destruct (observe t i0 rx tx m w) as [m1 w1]. cbn [fst] in *.
      destruct (list_eq_dec N.eq_dec j i0) as [E|Nj].
      * subst j. specialize (O1 _ Gj).
        destruct (IH (set_add i0 found) m1 w1 i0 _ O1) as [e' [Ge' [A [B [C D]]]]].
        exists e'. split; [assumption|].
        destruct (update_entity_fields t (last_update m) rx tx e w)
          as [_ [_ [_ [_ [_ [Nm [If [Es Au]]]]]]]].
        cbv zeta in *. repeat split; congruence.
      * rewrite <- (F1 j Nj) in Gj. exact (IH _ _ _ _ _ Gj).
Qed.

(** X29: an entity keeps its identity.  Whatever a scan meets, an entity
    that is in the registry before the scan and still there after it has
    the name, the interface, the essence and the aura it had: they are
    drawn once, when the entity is created, and no scan changes them. *)
Theorem scan_keeps_identity m w j e e' :
  dict_get j (entities m) = Some e ->
  dict_get j (entities (fst (outcome_state (scan_spirits m w)))) = Some e' ->
  name e' = name e /\ interface e' = interface e /\ essence e' = essence e /\
  aura e' = aura e.
Proof.
  intros Gj Gj'.
  destruct (proc_net_dev w (proc_reads w)) as [err|all_lines] eqn:Rd.
  - rewrite (scan_spirits_read_fails m w Rd) in Gj'. cbn [outcome_state] in Gj'.
    destruct (scan_failed_spec err m (with_proc_reads w (S (proc_reads w)))) as [En _].
    rewrite En in Gj'. assert (e' = e) by congruence. subst. auto.
  - rewrite (scan_spirits_read_ok m w Rd) in Gj'.
    destruct (@scan_lines_identity (scan_time w) (skipn 2 all_lines) [] m (scan_world w) j e Gj)
      as [e2 [G2 Same]].
    destruct (scan_lines (scan_time w) (skipn 2 all_lines) [] m (scan_world w))
      as [found [m2 w2]|err [m2 w2]]; cbn [outcome_state fst] in *.
    + destruct (expire_spec found m2 w2) as [_ [_ [Keep Gone]]].
      destruct (in_dec (list_eq_dec N.eq_dec) j found) as [I|NI].
      * rewrite (Keep j I) in Gj'. assert (e' = e2) by congruence. subst. exact Same.
      * rewrite (Gone j NI) in Gj'. discriminate.
    + destruct (scan_failed_spec err m2 w2) as [En _]. rewrite En in Gj'.
      assert (e' = e2) by congruence. subst. exact Same.
Qed.

Lemma scan_keeps_identity_witness :
  exists e',
    dict_get (u8 "eth0") (entities (fst (outcome_state (scan_spirits spec_example_mystic
                                                          spec_example_world)))) = Some e' /\
    name e' = name (sample_entity (u8 "eth0") 1000 500 0 0 (1 # 2) []).
Proof.
  assert (G : exists e',
             dict_get (u8 "eth0")
               (entities (fst (outcome_state (scan_spirits spec_example_mystic
                                                spec_example_world)))) = Some e')
    by (eexists; vm_compute; reflexivity).
  destruct G as [e' G]. exists e'. split; [exact G|].
  exact (proj1 (@scan_keeps_identity spec_example_mystic spec_example_world (u8 "eth0")
                  (sample_entity (u8 "eth0") 1000 500 0 0 (1 # 2) []) e' eq_refl G)).
Defined.

(** ** The side panel *)

Lemma combine_range_In A n (l : list A) i x :
  In (i, x) (combine (range n) l) -> 0 <= i < n /\ In x l.
Proof.
  intro I. split; [apply range_In; eapply in_combine_l; exact I | eapply in_combine_r; exact I].
Qed.

(** X30: the side panel.  With [show_whispers] off [draw_whispers_panel]
    writes nothing.  Otherwise it writes, always dimmed, four kinds of
    text: the heading on line 1; eight messages at most, on the lines 2 to
    9 and above line [height - 2], each cut to the width of the panel less
    two; single bars along the right edge of the panel, which is the last
    column of the window; and the closing rule, one character longer than
    the panel is wide, on line 10 or higher up.  All but the bars start at
    the left edge of the panel. *)
Theorem whispers_panel_stays_in_place (Screen : Type) (curses : Curses Screen) m height width
    (s : Traced Screen * World) :
  let panel_width := Z.min 50 (width - 2) in
  let panel_x := width - panel_width - 1 in
  (show_whispers (config m) = false ->
   @draw_whispers_panel (Traced Screen) (traced curses) m height width s = Return tt s) /\
  wrote_only
    (fun c =>
       call_attr c = Some A_DIM /\
       ((call_y c = 1 /\ call_x c = panel_x /\ call_text c = u8 "╭─[Whispers]─") \/
        (2 <= call_y c <= 9 /\ call_y c < height - 2 /\ call_x c = panel_x /\
         exists line, call_text c = u8 "│" ++ line /\
                      (2 <= panel_width -> len line <= panel_width - 2)) \/
        (1 <= call_y c <= 9 /\ call_y c < height - 2 /\ call_x c = width - 1 /\
         call_text c = u8 "│") \/
        (call_y c <= 10 /\ call_y c <= height - 2 /\ call_x c = panel_x /\
         len (call_text c) = 1 + Z.max 0 panel_width)))
    s (outcome_state (@draw_whispers_panel (Traced Screen) (traced curses) m height width s)).
Proof.
  cbv zeta. unfold draw_whispers_panel. split.
  { intro Off. rewrite Off. reflexivity. }
  destruct (negb (show_whispers (config m))); [apply wrote_only_start|].
  set (ws := get_recent_whispers (mystic_whispers m) 8).
  assert (L8 : len ws <= 8) by (unfold ws, get_recent_whispers; apply (last_n_len 8)).
  pose proof (len_nonneg ws) as L0.
  apply (@keeps_try_pass_curses _ (wrote_only _ s)); [|apply wrote_only_start].
  apply keeps_bind.
  { apply keeps_try_pass, wrote_put. cbn [call_y call_x call_text call_attr].
    split; [reflexivity|]. left. repeat split. }
  intros _. apply keeps_bind.
  { apply keeps_for_each. intros [i whisper] Ii. apply combine_range_In in Ii.
    destruct Ii as [Hi _].
    destruct (i <? height - 4) eqn:E; [|apply keeps_ret]. apply Z.ltb_lt in E.
    apply keeps_try_pass, wrote_put. cbn [call_y call_x call_text call_attr].
    split; [reflexivity|]. right. left.
    split; [lia|]. split; [lia|]. split; [reflexivity|].
    eexists. split; [reflexivity|]. intro Wd. apply slice_to_len. lia. }
  intros _. apply keeps_bind.
  { apply keeps_for_each. intros y Iy. unfold range2 in Iy. apply in_map_iff in Iy.
    destruct Iy as [k [<- Ik]]. apply in_seq in Ik.
    apply keeps_try_pass, wrote_put. cbn [call_y call_x call_text call_attr].
    split; [reflexivity|]. right. right. left.
    split; [lia|]. split; [lia|]. split; [lia | reflexivity]. }
  intros _. apply keeps_try_pass, wrote_put. cbn [call_y call_x call_text call_attr].
  split; [reflexivity|]. right. right. right.
  split; [lia|]. split; [lia|]. split; [reflexivity|].
  rewrite len_app. change (u8 "─") with [9472%N]. rewrite repeat_str_len. reflexivity.
Qed.

(** ** What a frame attempts, whatever fails *)

Section LeadsFacts.
Context {S : Type}.

Lemma leads_bind_l A B (P Q : S -> Prop) (c : M S A) (k : A -> M S B) :
  leads P Q c -> (forall a, keeps Q (k a)) -> leads P Q (bind c k).
Proof.
  intros Hc Hk s Hs. unfold bind. specialize (Hc s Hs).
  destruct (c s) as [a s'|e s']; cbn [outcome_state] in *; [now apply Hk | exact Hc].
Qed.

Lemma leads_bind_r A B (P Q : S -> Prop) (c : M S A) (k : A -> M S B) :
  safe c -> keeps P c -> (forall a, leads P Q (k a)) -> leads P Q (bind c k).
Proof.
  intros Sc Kc Hk s Hs. unfold bind. specialize (Sc s). specialize (Kc s Hs).
  destruct (c s) as [a s'|e s']; [|contradiction]. now apply Hk.
Qed.

Lemma leads_try_pass (P Q : S -> Prop) (body : M S unit) :
  leads P Q body -> leads P Q (try_pass body).
Proof.
  intros H s Hs. unfold try_pass, try_except. specialize (H s Hs).
  destruct (body s); exact H.
Qed.

Lemma leads_try_pass_curses (P Q : S -> Prop) (body : M S unit) :
  leads P Q body -> leads P Q (try_pass_curses body).
Proof.
  intros H s Hs. unfold try_pass_curses. specialize (H s Hs).
  destruct (body s) as [a s'|e s']; [exact H|]. destruct e; exact H.
Qed.

Lemma leads_for_each A (P Q : S -> Prop) (xs : list A) (body : A -> M S unit) x :
  In x xs ->
  (forall x', In x' xs -> safe (body x') /\ keeps P (body x') /\ keeps Q (body x')) ->
  leads P Q (body x) -> leads P Q (for_each xs body).
Proof.
  induction xs as [|x0 xs IH]; intros I H L; [destruct I|]. cbn [for_each].
  destruct I as [<-|I].
  - apply leads_bind_l; [exact L|]. intros _. apply keeps_for_each.
    intros y Iy. apply H. now right.
  - destruct (H x0 (or_introl eq_refl)) as [S0 [K0 _]].
    apply leads_bind_r; [exact S0 | exact K0|]. intros _. apply IH; [exact I | | exact L].
    intros x' I'. apply H. now right.
Qed.

Lemma keeps_and A (I1 I2 : S -> Prop) (c : M S A) :
  keeps I1 c -> keeps I2 c -> keeps (fun s => I1 s /\ I2 s) c.
Proof. intros H1 H2 s [A1 A2]. split; [now apply H1 | now apply H2]. Qed.
End LeadsFacts.

Section TracedAttempts.
Context {Screen : Type} {curses : Curses Screen}.
Variable s0 : Traced Screen * World.

(** A write on a recording window: the call is recorded, the world is not
    touched, and the window underneath is what the write makes of it. *)
Lemma traced_put_state y x text attr (s : Traced Screen * World) :
  let s' := outcome_state (@put (Traced Screen) (traced curses) y x text attr s) in
  calls_of s' = calls_of s ++ [addstr_call y x text attr] /\ snd s' = snd s /\
  fst (fst s') = fst (addstr y x text attr (fst (fst s))).
Proof.
  unfold put, on_screen. cbn [addstr traced].
  destruct (addstr y x text attr (fst (fst s))) as [scr ok]. destruct ok; repeat split.
Qed.

Lemma traced_refresh_state (s : Traced Screen * World) :
  let s' := outcome_state (@on_screen (Traced Screen) (@refresh _ (traced curses)) s) in
  calls_of s' = calls_of s /\ snd s' = snd s.
Proof.
  unfold on_screen. cbn [refresh traced].
  destruct (refresh (fst (fst s))) as [scr ok]. destruct ok; repeat split.
Qed.

(** Invariants that no operation of the window breaks. *)
Lemma ext_put y x text attr :
  keeps (ext s0) (@on_screen (Traced Screen) (@addstr _ (traced curses) y x text attr)).
Proof.
  intros s [new E]. destruct (traced_put_state y x text attr s) as [C _].
  unfold put, St in C. exists (new ++ [addstr_call y x text attr]). rewrite C, E. now rewrite <- app_assoc.
Qed.

Lemma made_put c y x text attr :
  keeps (made s0 c) (@on_screen (Traced Screen) (@addstr _ (traced curses) y x text attr)).
Proof.
  intros s [pre [post E]]. destruct (traced_put_state y x text attr s) as [C _].
  unfold put, St in C. exists pre, (post ++ [addstr_call y x text attr]). rewrite C, E.
  now rewrite <- !app_assoc.
Qed.

Lemma world_put (w : World) y x text attr :
  keeps (fun s => snd s = w)
        (@on_screen (Traced Screen) (@addstr _ (traced curses) y x text attr)).
Proof.
  intros s E. destruct (traced_put_state y x text attr s) as [_ [W _]]. unfold put, St in W.
  now rewrite W.
Qed.

Lemma dims_put (L C : Z) y x text attr :
  stable_dims curses ->
  keeps (fun s : Traced Screen * World => LINES (fst (fst s)) = L /\ COLS (fst (fst s)) = C)
        (@on_screen (Traced Screen) (@addstr _ (traced curses) y x text attr)).
Proof.
  intros Stb s [EL EC]. destruct (traced_put_state y x text attr s) as [_ [_ F]].
  unfold put, St in F. rewrite F. destruct (Stb y x text attr (fst (fst s))) as [A B].
  now rewrite A, B.
Qed.

(** The write is attempted, whether it succeeds or not. *)
Lemma leads_put y x text attr :
  leads (ext s0) (made s0 (addstr_call y x text attr))
        (@put (Traced Screen) (traced curses) y x text attr).
Proof.
  intros s [new E]. destruct (traced_put_state y x text attr s) as [C _]. unfold St in C.
  exists new, []. rewrite C, E. now rewrite <- app_assoc.
Qed.

Lemma made_since c (s : Traced Screen * World) : made s0 c s -> In c (calls_since s0 s).
Proof.
  intros [pre [post E]]. unfold calls_since. rewrite E, skipn_app, skipn_all, Nat.sub_diag.
  cbn [skipn app]. apply in_or_app. right. now left.
Qed.

Lemma ext_since new (s : Traced Screen * World) :
  calls_of s = calls_of s0 ++ new -> calls_since s0 s = new.
Proof.
  intro E. unfold calls_since. rewrite E, skipn_app, skipn_all, Nat.sub_diag. reflexivity.
Qed.
End TracedAttempts.

Section FrameAttempts.
Context {Screen : Type} {curses : Curses Screen}.
Variable s0 : Traced Screen * World.

Lemma ext_refl : ext s0 s0.
Proof. exists []. now rewrite app_nil_r. Qed.

(** Each line of the border has its first write attempted. *)
Lemma leads_border height width y :
  0 <= y < height ->
  leads (ext s0) (made s0 (border_call height width y))
        (@draw_veil_border (Traced Screen) (traced curses) height width).
Proof.
  intro Hy. unfold draw_veil_border. apply leads_for_each with (x := y).
  - apply range_In. exact Hy.
  - intros y' _. split; [|split].
    + destruct (y' =? 0); [|destruct (y' =? height - 1)]; apply safe_try_pass.
    + destruct (y' =? 0); [|destruct (y' =? height - 1)]; apply keeps_try_pass;
        try apply ext_put. apply keeps_bind; [apply ext_put | intro; apply ext_put].
    + destruct (y' =? 0); [|destruct (y' =? height - 1)]; apply keeps_try_pass;
        try apply made_put. apply keeps_bind; [apply made_put | intro; apply made_put].
  - unfold border_call. destruct (y =? 0); [|destruct (y =? height - 1)]; apply leads_try_pass.
    + apply leads_put.
    + apply leads_put.
    + apply leads_bind_l; [apply leads_put | intro; apply made_put].
Qed.

(** Every entity block the loop reaches has its first header line
    attempted. *)
Lemma leads_block_header m entity y :
  leads (ext s0) (made s0 (addstr_call y 2 (u8 "╭─ " ++ name entity) (Some A_BOLD)))
        (@draw_spirit_info (Traced Screen) (traced curses) m entity y).
Proof.
  unfold draw_spirit_info. apply leads_try_pass_curses.
  apply leads_bind_r; [apply safe_ask_world | apply keeps_ask_world | intro ips].
  apply leads_bind_l.
  - unfold spirit_header. cbn [for_each]. apply leads_bind_l; [apply leads_put|]. intros _.
    repeat (apply keeps_bind; [|intros _]); try apply keeps_ret;
      try (apply keeps_colored_put; apply made_put); apply made_put.
  - intros _. apply keeps_spirit_rest. apply made_put.
Qed.

Lemma leads_blocks m spirits height entity y : forall y0,
  colors_ready m ->
  In (entity, y) (blocks_drawn spirits y0 height) ->
  leads (ext s0) (made s0 (addstr_call y 2 (u8 "╭─ " ++ name entity) (Some A_BOLD)))
        (@draw_spirits (Traced Screen)
           (@draw_spirit_info (Traced Screen) (traced curses) m) spirits y0 height).
Proof.
  intros y0 Rdy I. rewrite draw_spirits_blocks.
  apply leads_for_each with (x := (entity, y)); [exact I | |].
  - intros [e' y'] _. cbn [fst snd]. split; [|split].
    + now apply safe_draw_spirit_info.
    + apply keeps_draw_spirit_info. apply ext_put.
    + apply keeps_draw_spirit_info. apply made_put.
  - cbn [fst snd]. apply leads_block_header.
Qed.

Ltac keeps_with atom :=
  repeat first
   [ apply keeps_ret
   | apply atom
   | apply keeps_try_pass
   | apply keeps_bind; [|intro]
   | apply keeps_for_each; intros ? _
   | match goal with |- keeps _ (let '(_, _) := ?p in _) => destruct p end
   | match goal with |- keeps _ (if ?b then _ else _) => destruct b end ].

(** The status bar is one write, attempted whatever its outcome. *)
Lemma status_bar_call m height width (s : Traced Screen * World) :
  calls_of (outcome_state (@draw_status_bar (Traced Screen) (traced curses) m height width s))
  = calls_of s ++ [status_call m height width (fst (get_mystic_time (snd s)))].
Proof.
  unfold draw_status_bar, try_pass_curses. unfold bind at 1. unfold on_world at 1.
  destruct (get_mystic_time (snd s)) as [t w']. cbn [fst].
  unfold try_pass, try_except.
  match goal with |- context [put ?y ?x ?txt ?a ?st] =>
    destruct (traced_put_state y x txt a st) as [C _];
    destruct (put y x txt a st) as [[] s1|e s1] end;
    cbn [outcome_state ret] in *; exact C.
Qed.

Lemma range2_In a b i : In i (range2 a b) <-> a <= i < b.
Proof.
  unfold range2. rewrite in_map_iff. split.
  - intros [k [E I]]. apply in_seq in I. lia.
  - intro H. exists (Z.to_nat (i - a)). split; [lia|]. apply in_seq. lia.
Qed.

(** The side panel: heading, messages, bars and closing rule are all
    attempted. *)
Lemma leads_panel_heading m height width :
  show_whispers (config m) = true ->
  leads (ext s0)
        (made s0 (addstr_call 1 (width - Z.min 50 (width - 2) - 1) (u8 "╭─[Whispers]─")
                              (Some A_DIM)))
        (@draw_whispers_panel (Traced Screen) (traced curses) m height width).
Proof.
  intro Sh. unfold draw_whispers_panel. rewrite Sh. cbn [negb].
  apply leads_try_pass_curses.
  apply leads_bind_l; [apply leads_try_pass, leads_put|]. intros _.
  keeps_with made_put.
Qed.

Lemma leads_panel_message m height width i line :
  show_whispers (config m) = true ->
  In (i, line) (combine (range (len (get_recent_whispers (mystic_whispers m) 8)))
                        (get_recent_whispers (mystic_whispers m) 8)) ->
  i < height - 4 ->
  leads (ext s0)
        (made s0 (addstr_call (2 + i) (width - Z.min 50 (width - 2) - 1)
                              (u8 "│" ++ slice_to line (Z.min 50 (width - 2) - 2))
                              (Some A_DIM)))
        (@draw_whispers_panel (Traced Screen) (traced curses) m height width).
Proof.
  intros Sh I Hi. unfold draw_whispers_panel. rewrite Sh. cbn [negb].
  apply leads_try_pass_curses.
  apply leads_bind_r; [apply safe_try_pass | keeps_with ext_put | intros _].
  apply leads_bind_l; [|intros _; keeps_with made_put].
  apply leads_for_each with (x := (i, line)); [exact I | |].
  - intros [i' l'] _. split; [|split].
    + destruct (i' <? height - 4); [apply safe_try_pass | apply safe_ret].
    + keeps_with ext_put.
    + keeps_with made_put.
  - apply Z.ltb_lt in Hi. rewrite Hi. apply leads_try_pass, leads_put.
Qed.

Lemma leads_panel_bar m height width y :
  show_whispers (config m) = true ->
  1 <= y < Z.min (len (get_recent_whispers (mystic_whispers m) 8) + 2) (height - 2) ->
  leads (ext s0)
        (made s0 (addstr_call y (width - 1) (u8 "│") (Some A_DIM)))
        (@draw_whispers_panel (Traced Screen) (traced curses) m height width).
Proof.
  intros Sh Hy. unfold draw_whispers_panel. rewrite Sh. cbn [negb].
  apply leads_try_pass_curses.
  apply leads_bind_r; [apply safe_try_pass | keeps_with ext_put | intros _].
  apply leads_bind_r; [|keeps_with ext_put | intros _].
  { apply safe_for_each. intros [i' l'] _.
    destruct (i' <? height - 4); [apply safe_try_pass | apply safe_ret]. }
  apply leads_bind_l; [|intros _; keeps_with made_put].
  apply leads_for_each with (x := y).
  - apply range2_In. exact Hy.
  - intros y' _. split; [apply safe_try_pass|]. split; [keeps_with ext_put | keeps_with made_put].
  - apply leads_try_pass.
    replace (width - 1) with (width - Z.min 50 (width - 2) - 1 + Z.min 50 (width - 2)) by lia.
    apply leads_put.
Qed.

Lemma leads_panel_rule m height width :
  show_whispers (config m) = true ->
  leads (ext s0)
        (made s0 (addstr_call
                    (Z.min (len (get_recent_whispers (mystic_whispers m) 8) + 2) (height - 2))
                    (width - Z.min 50 (width - 2) - 1)
                    (u8 "╰" ++ repeat_str (u8 "─") (Z.min 50 (width - 2)))
                    (Some A_DIM)))
        (@draw_whispers_panel (Traced Screen) (traced curses) m height width).
Proof.
  intros Sh. unfold draw_whispers_panel. rewrite Sh. cbn [negb].
  apply leads_try_pass_curses.
  apply leads_bind_r; [apply safe_try_pass | keeps_with ext_put | intros _].
  apply leads_bind_r; [|keeps_with ext_put | intros _].
  { apply safe_for_each. intros [i' l'] _.
    destruct (i' <? height - 4); [apply safe_try_pass | apply safe_ret]. }
  apply leads_bind_r; [|keeps_with ext_put | intros _].
  { apply safe_for_each. intros y' _. apply safe_try_pass. }
  apply leads_try_pass, leads_put.
Qed.
End FrameAttempts.

Lemma ext_trans (Screen : Type) (s1 s2 s3 : Traced Screen * World) :
  ext s1 s2 -> ext s2 s3 -> ext s1 s3.
Proof.
  intros [n1 E1] [n2 E2]. exists (n1 ++ n2). rewrite E2, E1. now rewrite app_assoc.
Qed.

Lemma try_pass_curses_state S (c : M S unit) s :
  outcome_state (try_pass_curses c s) = outcome_state (c s).
Proof. unfold try_pass_curses. destruct (c s) as [a s'|e s']; [reflexivity|]. now destruct e. Qed.

Lemma colors_ready_get m k :
  colors_ready m -> In k [1; 2; 3; 4] -> exists c, colors_get k (colors m) = Some c.
Proof.
  intros H I. specialize (H k I). destruct (colors_get k (colors m)) as [c|]; [now exists c | congruence].
Qed.

Lemma safe_outcome S (c : M S unit) s : safe c -> c s = Return tt (outcome_state (c s)).
Proof. intro H. specialize (H s). destruct (c s) as [[] s'|]; [reflexivity | contradiction]. Qed.

Lemma try_pass_outcome S (c : M S unit) s : try_pass c s = Return tt (outcome_state (c s)).
Proof. unfold try_pass, try_except, ret. now destruct (c s) as [[] s'|e s']. Qed.

Lemma made_ext (Screen : Type) (s0 s s' : Traced Screen * World) c :
  made s0 c s -> ext s s' -> made s0 c s'.
Proof.
  intros [pre [post E]] [n E']. exists pre, (post ++ n). rewrite E', E.
  now rewrite <- !app_assoc.
Qed.

Lemma ext_made (Screen : Type) (s0 s s' : Traced Screen * World) c :
  ext s0 s -> made s c s' -> made s0 c s'.
Proof.
  intros [n E] [pre [post E']]. exists (n ++ pre), post. rewrite E', E.
  now rewrite <- !app_assoc.
Qed.

Lemma frame_attempts (Screen : Type) (curses : Curses Screen) m (ts : Traced Screen * World) :
  colors_ready m ->
  snd (clear (fst (fst ts))) = true ->
  let height := fst (getmaxyx (fst (clear (fst (fst ts))))) in
  let width := snd (getmaxyx (fst (clear (fst (fst ts))))) in
  let final := outcome_state (@draw_veil (Traced Screen) (traced curses) m ts) in
  let mystic_time := fst (get_mystic_time (snd ts)) in
  let title := u8 "╡ Network Mystic ╞" in
  (forall y, 0 <= y < height -> made ts (border_call height width y) final) /\
  (exists c1, colors_get 1 (colors m) = Some c1 /\
     made ts (addstr_call 0 (Z.max 0 ((width - len title) / 2)) title
                          (Some (Z.lor A_BOLD c1))) final) /\
  (0 < width - len mystic_time - 2 ->
   made ts (addstr_call 0 (width - len mystic_time - 2) mystic_time (Some A_DIM)) final) /\
  (forall entity y, In (entity, y) (blocks_drawn (spirits_to_draw m) 2 height) ->
     made ts (addstr_call y 2 (u8 "╭─ " ++ name entity) (Some A_BOLD)) final) /\
  made ts (status_call m height width
             (fst (get_mystic_time (snd (get_mystic_time (snd ts)))))) final /\
  (show_whispers (config m) = true ->
   let panel_width := Z.min 50 (width - 2) in
   let panel_x := width - panel_width - 1 in
   let whispers := get_recent_whispers (mystic_whispers m) 8 in
   made ts (addstr_call 1 panel_x (u8 "╭─[Whispers]─") (Some A_DIM)) final /\
   (forall i line, In (i, line) (combine (range (len whispers)) whispers) -> i < height - 4 ->
      made ts (addstr_call (2 + i) panel_x (u8 "│" ++ slice_to line (panel_width - 2))
                           (Some A_DIM)) final) /\
   (forall y, 1 <= y < Z.min (len whispers + 2) (height - 2) ->
      made ts (addstr_call y (width - 1) (u8 "│") (Some A_DIM)) final) /\
   made ts (addstr_call (Z.min (len whispers + 2) (height - 2)) panel_x
                        (u8 "╰" ++ repeat_str (u8 "─") panel_width) (Some A_DIM)) final).
Proof.
  intros Rdy Ok height width final mystic_time title.
  assert (EF : final = outcome_state (@draw_veil (Traced Screen) (traced curses) m ts))
    by reflexivity.
  clearbody final. subst height width mystic_time.
  unfold draw_veil, draw_veil_with in EF. rewrite try_pass_curses_state in EF.
  unfold bind at 1 in EF. unfold on_screen at 1 in EF. cbn [clear traced] in EF.
  destruct (clear (fst (fst ts))) as [scr1 ok]. cbn [fst snd] in *. subst ok.
  unfold bind at 1 in EF. unfold ask_screen at 1 in EF. cbn [getmaxyx traced fst] in EF.
  destruct (getmaxyx scr1) as [height width]. cbn [fst snd].
  match type of EF with context [bind (draw_veil_border height width) _ ?s] =>
    set (ts1 := s) in * end.
  assert (X1 : ext ts ts1) by (exists []; unfold calls_of; cbn [fst snd]; now rewrite app_nil_r).
  (* the border *)
  unfold bind at 1 in EF.
  rewrite (@safe_outcome _ (@draw_veil_border (Traced Screen) (traced curses) height width) ts1
             (@safe_draw_veil_border (Traced Screen) (traced curses) height width)) in EF.
  cbv beta iota in EF.
  set (s2 := outcome_state (@draw_veil_border (Traced Screen) (traced curses)
                              height width ts1)) in *.
  assert (X2 : ext ts1 s2).
  { apply keeps_draw_veil_border; [intros; apply ext_put | apply ext_refl]. }
  assert (W2 : snd s2 = snd ts).
  { apply (@keeps_draw_veil_border (Traced Screen) (traced curses) (fun s => snd s = snd ts));
      [intros; apply world_put | reflexivity]. }
  assert (B2 : forall y, 0 <= y < height -> made ts1 (border_call height width y) s2).
  { intros y Hy. apply leads_border; [exact Hy | apply ext_refl]. }
  clearbody s2.
  (* the title *)
  destruct (colors_ready_get (k := 1) Rdy) as [c1 Ec1]; [simpl; tauto|].
  unfold bind at 1 in EF. unfold the_color at 1 in EF. rewrite Ec1 in EF.
  match type of EF with context [try_pass (bind (ret c1) ?k) s2] =>
    change (try_pass (bind (ret c1) k) s2) with (try_pass (k c1) s2) in EF end.
  rewrite try_pass_outcome in EF. cbv beta iota in EF.
  match type of EF with context [put ?y ?x ?t ?a s2] =>
    destruct (traced_put_state y x t a s2) as [C3 [W3 _]];
    set (s3 := outcome_state (put y x t a s2)) in * end.
  clearbody s3. rewrite W2 in W3.
  (* the clock *)
  unfold bind at 1 in EF. unfold on_world at 1 in EF. rewrite W3 in EF.
  destruct (get_mystic_time (snd ts)) as [t w1]. cbn [fst snd] in *. cbv beta iota in EF.
  unfold bind at 1 in EF.
  match type of EF with context [(if ?b then ?ca else ?cb) ?s] =>
    set (s3' := s) in *; set (clock := if b then ca else cb) in * end.
  assert (X3 : ext s2 s3').
  { eexists. unfold s3', calls_of in *. cbn [fst snd]. exact C3. }
  assert (Sc : safe clock).
  { unfold clock. destruct (0 <? _); [apply safe_try_pass | apply safe_ret]. }
  rewrite (safe_outcome s3' Sc) in EF. cbv beta iota in EF.
  unfold bind at 1 in EF.
  match type of EF with context [draw_spirits _ _ 2 height ?s] => set (s4 := s) in * end.
  assert (X4 : ext s3' s4).
  { unfold s4, clock. destruct (0 <? _); [|apply ext_refl].
    apply keeps_try_pass; [apply ext_put | apply ext_refl]. }
  assert (W4 : snd s4 = w1).
  { unfold s4, clock. destruct (0 <? _); [|reflexivity].
    apply (@keeps_try_pass _ (fun s => snd s = w1)); [apply world_put | reflexivity]. }
  assert (B4 : 0 < width - len t - 2 ->
               made s3' (addstr_call 0 (width - len t - 2) t (Some A_DIM)) s4).
  { intro H. unfold s4, clock. apply Z.ltb_lt in H. rewrite H.
    pose proof (@leads_put Screen curses s3' 0 (width - len t - 2) t (Some A_DIM)) as L.
    apply leads_try_pass in L. apply L. apply ext_refl. }
  clearbody s4. clear Sc. clearbody clock.
  (* the entity blocks *)
  match type of EF with context [match ?c s4 with _ => _ end] =>
    assert (Sb : safe c)
      by (apply safe_draw_spirits; intros; now apply safe_draw_spirit_info);
    rewrite (@safe_outcome _ c s4 Sb) in EF; cbv beta iota in EF;
    set (s5 := outcome_state (c s4)) in *
  end.
  assert (X5 : ext s4 s5).
  { apply keeps_draw_spirits; [|apply ext_refl].
    intros. apply keeps_draw_spirit_info. intros; apply ext_put. }
  assert (W5 : snd s5 = w1).
  { apply (@keeps_draw_spirits (Traced Screen) (fun s => snd s = w1)); [|exact W4].
    intros. apply keeps_draw_spirit_info. intros; apply world_put. }
  assert (B5 : forall entity y,
             In (entity, y) (blocks_drawn (spirits_to_draw m) 2 height) ->
             made s4 (addstr_call y 2 (u8 "╭─ " ++ name entity) (Some A_BOLD)) s5).
  { intros entity y I. apply leads_blocks; [exact Rdy | exact I | apply ext_refl]. }
  clearbody s5.
  (* the status bar *)
  unfold bind at 1 in EF.
  rewrite (safe_outcome s5 (@safe_draw_status_bar (Traced Screen) (traced curses)
                              m height width)) in EF.
  cbv beta iota in EF.
  pose proof (@status_bar_call Screen curses m height width s5) as C6. rewrite W5 in C6.
  set (s6 := outcome_state (@draw_status_bar (Traced Screen) (traced curses)
                              m height width s5)) in *.
  clearbody s6.
  (* the side panel *)
  unfold bind at 1 in EF.
  rewrite (safe_outcome s6 (@safe_draw_whispers_panel (Traced Screen) (traced curses)
                              m height width)) in EF.
  cbv beta iota in EF.
  set (s7 := outcome_state (@draw_whispers_panel (Traced Screen) (traced curses)
                              m height width s6)) in *.
  assert (X7 : ext s6 s7).
  { apply keeps_draw_whispers_panel; [intros; apply ext_put | apply ext_refl]. }
  assert (C8 : calls_of final = calls_of s7).
  { rewrite EF. exact (proj1 (traced_refresh_state s7)). }
  (* the calls add up *)
  assert (X6 : ext s5 s6) by (eexists; exact C6).
  assert (X8 : ext s7 final) by (exists []; now rewrite app_nil_r).
  assert (Y7 : ext s6 final) by eauto using ext_trans.
  assert (Y6 : ext s5 final) by eauto using ext_trans.
  assert (Y5 : ext s4 final) by eauto using ext_trans.
  assert (Y4 : ext s3' final) by eauto using ext_trans.
  assert (Y3 : ext s2 final) by eauto using ext_trans.
  assert (Z2 : ext ts s2) by eauto using ext_trans.
  assert (Z3 : ext ts s3') by eauto using ext_trans.
  assert (Z4 : ext ts s4) by eauto using ext_trans.
  assert (Z5 : ext ts s5) by eauto using ext_trans.
  assert (Z6 : ext ts s6) by eauto using ext_trans.
  split; [|split; [|split; [|split; [|split]]]].
  - intros y Hy. eapply made_ext; [|exact Y3]. eapply ext_made; [exact X1|]. now apply B2.
  - exists c1. split; [exact Ec1|]. eapply made_ext; [|exact Y4].
    destruct Z2 as [n E2]. exists n, []. unfold s3', calls_of in *. cbn [fst snd].
    rewrite C3, E2. now rewrite <- app_assoc.
  - intro H. eapply made_ext; [|exact Y5]. eapply ext_made; [exact Z3|]. now apply B4.
  - intros entity y I. eapply made_ext; [|exact Y6]. eapply ext_made; [exact Z4|].
    now apply B5.
  - eapply made_ext; [|exact Y7]. destruct Z5 as [n E5]. exists n, []. rewrite C6, E5.
    now rewrite <- app_assoc.
  - intro Sh. cbv zeta. split; [|split; [|split]].
    + eapply made_ext; [|exact X8]. eapply ext_made; [exact Z6|].
      apply leads_panel_heading; [exact Sh | apply ext_refl].
    + intros i line I Hi. eapply made_ext; [|exact X8]. eapply ext_made; [exact Z6|].
      apply leads_panel_message; [exact Sh | exact I | exact Hi | apply ext_refl].
    + intros y Hy. eapply made_ext; [|exact X8]. eapply ext_made; [exact Z6|].
      apply leads_panel_bar; [exact Sh | exact Hy | apply ext_refl].
    + eapply made_ext; [|exact X8]. eapply ext_made; [exact Z6|].
      apply leads_panel_rule; [exact Sh | apply ext_refl].
Qed.

(** ** What an entity block attempts *)

Section BlockAttempts.
Context {Screen : Type} {curses : Curses Screen}.

(** A run of unguarded writes stops at the first one that fails: the
    calls made are the writes up to and including that one. *)
Lemma puts_run (cs : list Call) (writes : list (M (@St (Traced Screen)) unit)) :
  Forall2 (fun c w => forall s,
             w s = @put (Traced Screen) (traced curses)
                     (call_y c) (call_x c) (call_text c) (call_attr c) s) cs writes ->
  forall s : Traced Screen * World,
  exists s',
    snd s' = snd s /\
    ((for_each writes (fun write => write) s = Return tt s' /\
      calls_of s' = calls_of s ++ cs) \/
     (for_each writes (fun write => write) s = Raise CursesError s' /\
      exists k, (k < length cs)%nat /\ calls_of s' = calls_of s ++ firstn (S k) cs)).
Proof.
  induction 1 as [|c w cs writes Hw _ IH]; intro s; cbn [for_each].
  - exists s. split; [reflexivity|]. left. split; [reflexivity|]. now rewrite app_nil_r.
  - unfold bind. rewrite Hw.
    destruct (traced_put_state (call_y c) (call_x c) (call_text c) (call_attr c) s)
      as [C [W _]].
    assert (Ec : addstr_call (call_y c) (call_x c) (call_text c) (call_attr c) = c)
      by now destruct c.
    rewrite Ec in C. clear Ec.
    destruct (put (call_y c) (call_x c) (call_text c) (call_attr c) s) as [[] s1|e s1] eqn:E;
      cbn [outcome_state] in C, W.
    + destruct (IH s1) as [s' [W' [[R C']|[R [k [Hk C']]]]]].
      * exists s'. split; [congruence|]. left. split; [exact R|].
        rewrite C', C. now rewrite <- app_assoc.
      * exists s'. split; [congruence|]. right. split; [exact R|].
        exists (S k). split; [cbn [length]; lia|].
        rewrite C', C. now rewrite <- app_assoc.
    + exists s1. split; [exact W|]. right.
      assert (e = CursesError) as ->.
      { revert E. unfold put, on_screen.
        destruct (addstr _ _ _ _ (fst s)) as [scr ok]. destruct ok; congruence. }
      split; [reflexivity|]. exists 0%nat. split; [cbn [length]; lia|]. exact C.
Qed.

(** With its colours at hand the header is its six writes. *)
Lemma header_is_puts m entity y ip :
  colors_ready m ->
  Forall2 (fun c w => forall s,
             w s = @put (Traced Screen) (traced curses)
                     (call_y c) (call_x c) (call_text c) (call_attr c) s)
          (header_calls m entity y ip)
          (@spirit_header (Traced Screen) (traced curses) m entity y ip).
Proof.
  intro Rdy.
  destruct (colors_ready_get (k := 2) Rdy) as [c2 E2]; [simpl; tauto|].
  destruct (colors_ready_get (k := 3) Rdy) as [c3 E3]; [simpl; tauto|].
  destruct (colors_ready_get (k := 4) Rdy) as [c4 E4]; [simpl; tauto|].
  unfold header_calls, spirit_header, the_color. rewrite E2, E3, E4.
  repeat constructor; intro s; reflexivity.
Qed.

(** The cells of a rate bar are all attempted. *)
Lemma leads_draw_bar (s0 : Traced Screen * World) m h x y color i :
  colors_ready m -> In color [1; 2; 3; 4] -> 0 <= i < h ->
  leads (ext s0) (made s0 (bar_call m x y color i))
        (@draw_bar (Traced Screen) (traced curses) m h x y color).
Proof.
  intros Rdy Ic Hi. unfold draw_bar. apply leads_for_each with (x := i).
  - apply range_In. exact Hi.
  - intros i' _. split; [apply safe_try_pass|].
    split; apply keeps_try_pass, keeps_colored_put; intros;
      [apply ext_put | apply made_put].
  - apply leads_try_pass. destruct (colors_ready_get Rdy Ic) as [c Ec].
    unfold bar_call, the_color. rewrite Ec.
    intros s Hs. unfold bind, ret. now apply leads_put.
Qed.

Lemma leads_rest_bars (s0 : Traced Screen * World) m entity y :
  colors_ready m ->
  (forall i, 0 <= i < bar_height (rx_rate entity) ->
     leads (ext s0) (made s0 (bar_call m 40 (y + 1) 2 i))
           (@spirit_rest (Traced Screen) (traced curses) m entity y)) /\
  (forall i, 0 <= i < bar_height (tx_rate entity) ->
     leads (ext s0) (made s0 (bar_call m 42 (y + 1) 3 i))
           (@spirit_rest (Traced Screen) (traced curses) m entity y)).
Proof.
  intro Rdy. split; intros i Hi; unfold spirit_rest;
    (apply leads_bind_l;
     [|intros _;
       apply keeps_bind; [apply keeps_draw_spirit_whispers; intros; apply made_put|];
       intro; apply keeps_bind; [apply keeps_ask_screen|];
       intro; apply keeps_bind; [apply keeps_try_pass, made_put|];
       intros _; apply keeps_for_each; intros g _;
       apply keeps_render_glyph; intros; apply made_put]);
    unfold render_flow_visualization.
  - apply leads_bind_l; [|intros _; apply keeps_draw_bar; intros; apply made_put].
    apply leads_draw_bar; [exact Rdy | simpl; tauto | exact Hi].
  - apply leads_bind_r;
      [apply safe_draw_bar | apply keeps_draw_bar; intros; apply ext_put | intros _].
    change (40 + 2) with 42.
    apply leads_draw_bar; [exact Rdy | simpl; tauto | exact Hi].
Qed.

(** The messages of a block on a window that keeps its size: each one is
    attempted, on the line after the last message written. *)
Lemma whispers_run ws :
  stable_dims curses ->
  forall wy (s : Traced Screen * World),
  exists wy' s',
    @draw_spirit_whispers (Traced Screen) (traced curses) ws wy s = Return wy' s' /\
    ext s s' /\
    (LINES (fst (fst s')) = LINES (fst (fst s)) /\ COLS (fst (fst s')) = COLS (fst (fst s))) /\
    wy <= wy' <= wy + len ws /\
    (forall w, In w ws -> wy + len ws <= LINES (fst (fst s)) - 2 ->
       exists r, wy <= r < wy + len ws /\
                 made s (addstr_call r 2 (u8 "│  " ++ w) (Some A_DIM)) s').
Proof.
  intro Stb. induction ws as [|whisper rest IH]; intros wy s; cbn [draw_spirit_whispers].
  - exists wy, s. split; [reflexivity|]. split; [apply ext_refl|]. split; [now split|].
    change (len (@nil str)) with 0. split; [lia|]. intros w [].
  - assert (Ln : len (whisper :: rest) = len rest + 1) by (unfold len; cbn [length]; lia).
    pose proof (len_nonneg rest) as N.
    unfold bind at 1. unfold ask_screen at 1. unfold bind at 1.
    cbn [LINES traced].
    destruct (wy <? LINES (fst (fst s)) - 2) eqn:Low.
    + destruct (traced_put_state wy 2 (u8 "│  " ++ whisper) (Some A_DIM) s) as [C [_ F]].
      destruct (Stb wy 2 (u8 "│  " ++ whisper) (Some A_DIM) (fst (fst s))) as [DL DC].
      rewrite <- F in DL, DC.
      unfold try_except, bind.
      destruct (put wy 2 (u8 "│  " ++ whisper) (Some A_DIM) s) as [[] s1|e s1];
        cbn [outcome_state] in C, DL, DC; unfold ret.
      * destruct (IH (wy + 1) s1) as [wy' [s' [E [X [[EL EC] [B Ms]]]]]].
        exists wy', s'. split; [exact E|].
        assert (X1 : ext s s1) by (eexists; exact C).
        split; [eapply ext_trans; eassumption|]. split; [split; congruence|].
        split; [lia|]. intros w [<-|I] Fit.
        -- exists wy. split; [lia|]. eapply made_ext; [|exact X].
           exists [], []. exact C.
        -- destruct (Ms w I) as [r [Hr Mr]]; [rewrite DL; lia|].
           exists r. split; [lia|]. eapply ext_made; eassumption.
      * destruct (IH wy s1) as [wy' [s' [E [X [[EL EC] [B Ms]]]]]].
        exists wy', s'. split; [exact E|].
        assert (X1 : ext s s1) by (eexists; exact C).
        split; [eapply ext_trans; eassumption|]. split; [split; congruence|].
        split; [lia|]. intros w [<-|I] Fit.
        -- exists wy. split; [lia|]. eapply made_ext; [|exact X].
           exists [], []. exact C.
        -- destruct (Ms w I) as [r [Hr Mr]]; [rewrite DL; lia|].
           exists r. split; [lia|]. eapply ext_made; eassumption.
    + unfold ret. destruct (IH wy s) as [wy' [s' [E [X [[EL EC] [B Ms]]]]]].
      exists wy', s'. split; [exact E|]. split; [exact X|]. split; [now split|].
      split; [lia|]. intros w _ Fit. apply Z.ltb_ge in Low. lia.
Qed.

(** The glyphs of a block that lie inside the window are all attempted. *)
Lemma leads_glyphs (s0 : Traced Screen * World) (L C : Z) m gs ox oy glyph :
  stable_dims curses ->
  In glyph gs ->
  0 <= ox + fst (position glyph) < C ->
  0 <= oy + snd (position glyph) < L ->
  leads (fun s => ext s0 s /\ (LINES (fst (fst s)) = L /\ COLS (fst (fst s)) = C))
        (made s0 (glyph_call m glyph ox oy))
        (for_each gs (fun g => @render_glyph (Traced Screen) (traced curses) m g ox oy)).
Proof.
  intros Stb I Hx Hy. apply leads_for_each with (x := glyph); [exact I| |].
  - intros g _. split; [apply safe_render_glyph|]. split.
    + apply keeps_and; apply keeps_render_glyph; intros;
        [apply ext_put | now apply dims_put].
    + apply keeps_render_glyph; intros; apply made_put.
  - intros s [X [EL EC]]. unfold render_glyph, glyph_call.
    destruct (position glyph) as [gx gy]. cbn [fst snd] in *.
    unfold bind at 1. unfold ask_screen at 1. unfold bind at 1. unfold ask_screen at 1.
    cbn [LINES COLS traced]. rewrite EL, EC.
    assert ((0 <=? ox + gx) && (ox + gx <? C) && (0 <=? oy + gy) && (oy + gy <? L) = true)
      as ->.
    { rewrite !andb_true_iff, !Z.leb_le, !Z.ltb_lt. lia. }
    match goal with |- context [put ?y ?x ?t ?a] =>
      pose proof (@leads_put Screen curses s0 y x t a) as Lp end.
    apply leads_try_pass in Lp. now apply Lp.
Qed.

(** After the bars of a block, on a window that keeps its size: every
    message that the window has room for, the closing rule and every glyph
    inside the window are attempted. *)
Lemma rest_attempts m entity y (s1 : Traced Screen * World) :
  stable_dims curses ->
  let lines := LINES (fst (fst s1)) in
  let cols := COLS (fst (fst s1)) in
  let ws := last_n 2 (whispers entity) in
  let final := outcome_state (@spirit_rest (Traced Screen) (traced curses) m entity y s1) in
  (forall w, In w ws -> y + 6 + len ws <= lines - 2 ->
     exists r, y + 6 <= r < y + 6 + len ws /\
               made s1 (addstr_call r 2 (u8 "│  " ++ w) (Some A_DIM)) final) /\
  (exists r, y + 6 <= r <= y + 6 + len ws /\
             made s1 (addstr_call r 2 (u8 "╰" ++ repeat_str (u8 "─") (cols - 4)) None)
                  final) /\
  (forall glyph, In glyph (glyphs entity) ->
     0 <= 25 + fst (position glyph) < cols ->
     0 <= y - 4 + snd (position glyph) < lines ->
     made s1 (glyph_call m glyph 25 (y - 4)) final).
Proof.
  intros Stb lines cols ws final.
  assert (EF : final = outcome_state (@spirit_rest (Traced Screen) (traced curses)
                                        m entity y s1)) by reflexivity.
  clearbody final. unfold spirit_rest in EF. unfold bind at 1 in EF.
  match type of EF with context [match ?c s1 with _ => _ end] =>
    assert (Sa : safe c) by apply safe_render_flow_visualization;
    assert (Xa : ext s1 (outcome_state (c s1)))
      by (apply keeps_render_flow_visualization;
          [intros; apply ext_put | apply ext_refl]);
    assert (Da : LINES (fst (fst (outcome_state (c s1)))) = lines /\
                 COLS (fst (fst (outcome_state (c s1)))) = cols)
      by (apply (@keeps_render_flow_visualization (Traced Screen) (traced curses)
                   (fun s => LINES (fst (fst s)) = lines /\ COLS (fst (fst s)) = cols));
          [intros; now apply dims_put | now split]);
    rewrite (@safe_outcome _ c s1 Sa) in EF; cbv beta iota in EF;
    set (sa := outcome_state (c s1)) in *
  end.
  clearbody sa. clear Sa. destruct Da as [La Ca].
  unfold bind at 1 in EF.
  destruct (whispers_run (last_n 2 (whispers entity)) Stb (y + 6) sa)
    as [wy [sb [Eb [Xb [[Lb Cb] [Bb Mb]]]]]].
  fold ws in Eb, Bb, Mb. fold ws in EF. rewrite Eb in EF.
  unfold bind at 1 in EF. unfold ask_screen at 1 in EF. cbn [COLS traced] in EF.
  rewrite Cb, Ca in EF.
  unfold bind at 1 in EF. rewrite try_pass_outcome in EF. cbv beta iota in EF.
  match type of EF with context [put ?py ?px ?pt ?pa sb] =>
    destruct (traced_put_state py px pt pa sb) as [Cc [_ Fc]];
    destruct (Stb py px pt pa (fst (fst sb))) as [DL DC];
    rewrite <- Fc in DL, DC;
    set (sc := outcome_state (put py px pt pa sb)) in *
  end.
  clearbody sc.
  assert (Xc : ext sb sc) by (eexists; exact Cc).
  assert (Xf : ext sc final).
  { rewrite EF. apply keeps_for_each; [|apply ext_refl].
    intros g _. apply keeps_render_glyph. intros; apply ext_put. }
  assert (Y1 : ext s1 sb) by eauto using ext_trans.
  assert (Y2 : ext sb final) by eauto using ext_trans.
  split; [|split].
  - intros w I Fit. destruct (Mb w I) as [r [Hr Mr]]; [rewrite La; lia|].
    exists r. split; [exact Hr|].
    eapply made_ext; [|exact Y2]. eapply ext_made; [exact Xa | exact Mr].
  - exists wy. split; [exact Bb|].
    eapply made_ext; [|exact Xf]. destruct Y1 as [n E1]. exists n, [].
    rewrite Cc, E1. now rewrite <- app_assoc.
  - intros glyph I Hx Hy. rewrite EF.
    eapply ext_made; [eapply ext_trans; [exact Y1 | exact Xc]|].
    apply (@leads_glyphs sc lines cols m (glyphs entity) 25 (y - 4) glyph Stb I Hx Hy).
    split; [apply ext_refl|]. split; congruence.
Qed.
End BlockAttempts.

Lemma made_new (Screen : Type) (s0 s : Traced Screen * World) c new :
  calls_of s = calls_of s0 ++ new -> made s0 c s -> In c new.
Proof.
  intros E [pre [post E']]. rewrite E in E'. apply app_inv_head in E'. subst new.
  apply in_or_app. right. now left.
Qed.

(** An entity block: the header stops at its first failing write and ends
    the block there; a header written in full is followed by the bars and,
    on a window that keeps its size, by the messages, the closing rule and
    the glyphs. *)
Lemma block_attempts (Screen : Type) (curses : Curses Screen) m entity y
    (ts : Traced Screen * World) :
  colors_ready m ->
  let ip_display := ip_display_of (get_interface_ips (interface entity) (snd ts)) in
  let header :=
    for_each (@spirit_header (Traced Screen) (traced curses) m entity y ip_display)
             (fun write => write) in
  let done :=
    calls_since ts (outcome_state (@draw_spirit_info (Traced Screen) (traced curses)
                                     m entity y ts)) in
  (~ returns (header ts) ->
   exists k, (k < 6)%nat /\ done = firstn (S k) (header_calls m entity y ip_display)) /\
  (returns (header ts) ->
   exists rest,
     done = header_calls m entity y ip_display ++ rest /\
     (forall i, 0 <= i < bar_height (rx_rate entity) ->
        In (bar_call m 40 (y + 1) 2 i) rest) /\
     (forall i, 0 <= i < bar_height (tx_rate entity) ->
        In (bar_call m 42 (y + 1) 3 i) rest) /\
     (stable_dims curses ->
      let lines := LINES (fst (fst ts)) in
      let cols := COLS (fst (fst ts)) in
      let ws := last_n 2 (whispers entity) in
      (forall w, In w ws -> y + 6 + len ws <= lines - 2 ->
         exists r, y + 6 <= r < y + 6 + len ws /\
                   In (addstr_call r 2 (u8 "│  " ++ w) (Some A_DIM)) rest) /\
      (exists r, y + 6 <= r <= y + 6 + len ws /\
                 In (addstr_call r 2 (u8 "╰" ++ repeat_str (u8 "─") (cols - 4)) None) rest) /\
      (forall glyph, In glyph (glyphs entity) ->
         0 <= 25 + fst (position glyph) < cols ->
         0 <= y - 4 + snd (position glyph) < lines ->
         In (glyph_call m glyph 25 (y - 4)) rest))).
Proof.
  intros Rdy ip_display header done.
  assert (ED : done = calls_since ts (outcome_state
                        (@draw_spirit_info (Traced Screen) (traced curses) m entity y ts)))
    by reflexivity.
  clearbody done.
  unfold draw_spirit_info in ED. rewrite try_pass_curses_state in ED.
  unfold bind at 1 in ED. unfold ask_world at 1 in ED. fold ip_display in ED.
  unfold bind at 1 in ED. fold header in ED.
  assert (Dh : stable_dims curses ->
               LINES (fst (fst (outcome_state (header ts)))) = LINES (fst (fst ts)) /\
               COLS (fst (fst (outcome_state (header ts)))) = COLS (fst (fst ts))).
  { intro Stb. unfold header.
    apply (@keeps_for_each _ (fun s : Traced Screen * World =>
                                LINES (fst (fst s)) = LINES (fst (fst ts)) /\
                                COLS (fst (fst s)) = COLS (fst (fst ts)))); [|now split].
    intros write Iw. eapply keeps_spirit_header; [|exact Iw].
    intros. now apply dims_put. }
  destruct (puts_run (header_is_puts entity y ip_display Rdy) ts)
    as [s1 [W [[R C]|[R [k [Hk C]]]]]]; fold header in R; rewrite R in ED, Dh |- *;
    cbn [outcome_state] in ED, Dh.
  - split; [intro N; exfalso; apply N; exact I|]. intros _.
    assert (X : ext s1 (outcome_state (@spirit_rest (Traced Screen) (traced curses)
                                         m entity y s1))).
    { apply keeps_spirit_rest; [intros; apply ext_put | apply ext_refl]. }
    destruct X as [rest E]. exists rest.
    destruct (leads_rest_bars s1 entity y Rdy) as [Brx Btx].
    split; [|split; [|split]].
    + rewrite ED. apply ext_since. rewrite E, C. now rewrite <- app_assoc.
    + intros i Hi. eapply made_new; [exact E|]. apply Brx; [exact Hi | apply ext_refl].
    + intros i Hi. eapply made_new; [exact E|]. apply Btx; [exact Hi | apply ext_refl].
    + intros Stb lines cols ws. destruct (Dh Stb) as [DL DC].
      destruct (rest_attempts m entity y s1 Stb) as [Ms [[r [Hr Mr]] Gs]].
      rewrite DL in Ms, Gs. rewrite DC in Mr, Gs.
      split; [|split].
      * intros w Iw Fit. destruct (Ms w Iw Fit) as [r' [Hr' Mr']].
        exists r'. split; [exact Hr'|]. eapply made_new; eassumption.
      * exists r. split; [exact Hr|]. eapply made_new; eassumption.
      * intros glyph Ig Hx Hy. eapply made_new; [exact E|]. now apply Gs.
  - split; [|intros []]. intros _. exists k. split; [exact Hk|].
    rewrite ED. now apply ext_since.
Qed.

(** C4 (amended): whatever the size of the window and whichever writes
    fail, once the colour pairs are initialised rendering a frame
    completes without raising to its caller, and so does every entity
    block; a block whose six header lines are all written is drawn exactly
    as if each of its writes were dropped on its own when it fails.

    What is still produced is read off a window that records every
    [addstr] call made on it, whatever the call returns.  When [clear]
    succeeds the frame attempts, whichever of the writes fail: the first
    write of every border line, the title, the clock when there is room
    for it, the first header line of every entity block the loop reaches,
    the status bar and, when the side panel is shown, its heading, each of
    its message lines, each of its side bars and its closing rule.

    Inside an entity block the six header lines have no handler of their
    own: the first of them that fails ends the block, whose calls are then
    the header writes up to that one and nothing else.  A block whose
    header is written in full goes on to attempt every cell of its two
    rate bars and, on a window whose size does not change under the
    writes, every message it has room for, the closing rule and every
    glyph that lies inside the window. *)
Theorem draw_veil_never_raises (Screen : Type) (curses : Curses Screen)
    (m : NetworkMystic) (s : @St Screen) :
  colors_ready m ->
  returns (draw_veil m s) /\
  (forall entity y s', returns (draw_spirit_info m entity y s')) /\
  (forall entity y s',
     returns (for_each (spirit_header m entity y
                          (ip_display_of (get_interface_ips (interface entity) (snd s'))))
                       (fun write => write) s') ->
     draw_spirit_info m entity y s' = draw_spirit_info_each_guarded m entity y s') /\
  (forall ts : Traced Screen * World,
     snd (clear (fst (fst ts))) = true ->
     let height := fst (getmaxyx (fst (clear (fst (fst ts))))) in
     let width := snd (getmaxyx (fst (clear (fst (fst ts))))) in
     let done :=
       calls_since ts (outcome_state (@draw_veil (Traced Screen) (traced curses) m ts)) in
     let mystic_time := fst (get_mystic_time (snd ts)) in
     let title := u8 "╡ Network Mystic ╞" in
     (forall y, 0 <= y < height -> In (border_call height width y) done) /\
     (exists c1, colors_get 1 (colors m) = Some c1 /\
        In (addstr_call 0 (Z.max 0 ((width - len title) / 2)) title
                        (Some (Z.lor A_BOLD c1))) done) /\
     (0 < width - len mystic_time - 2 ->
      In (addstr_call 0 (width - len mystic_time - 2) mystic_time (Some A_DIM)) done) /\
     (forall entity y, In (entity, y) (blocks_drawn (spirits_to_draw m) 2 height) ->
        In (addstr_call y 2 (u8 "╭─ " ++ name entity) (Some A_BOLD)) done) /\
     In (status_call m height width
           (fst (get_mystic_time (snd (get_mystic_time (snd ts)))))) done /\
     (show_whispers (config m) = true ->
      let panel_width := Z.min 50 (width - 2) in
      let panel_x := width - panel_width - 1 in
      let whispers := get_recent_whispers (mystic_whispers m) 8 in
      In (addstr_call 1 panel_x (u8 "╭─[Whispers]─") (Some A_DIM)) done /\
      (forall i line, In (i, line) (combine (range (len whispers)) whispers) ->
         i < height - 4 ->
         In (addstr_call (2 + i) panel_x (u8 "│" ++ slice_to line (panel_width - 2))
                         (Some A_DIM)) done) /\
      (forall y, 1 <= y < Z.min (len whispers + 2) (height - 2) ->
         In (addstr_call y (width - 1) (u8 "│") (Some A_DIM)) done) /\
      In (addstr_call (Z.min (len whispers + 2) (height - 2)) panel_x
                      (u8 "╰" ++ repeat_str (u8 "─") panel_width) (Some A_DIM)) done)) /\
  (forall entity y (ts : Traced Screen * World),
     let ip_display := ip_display_of (get_interface_ips (interface entity) (snd ts)) in
     let header :=
       for_each (@spirit_header (Traced Screen) (traced curses) m entity y ip_display)
                (fun write => write) in
     let done :=
       calls_since ts (outcome_state (@draw_spirit_info (Traced Screen) (traced curses)
                                        m entity y ts)) in
     (~ returns (header ts) ->
      exists k, (k < 6)%nat /\ done = firstn (S k) (header_calls m entity y ip_display)) /\
     (returns (header ts) ->
      exists rest,
        done = header_calls m entity y ip_display ++ rest /\
        (forall i, 0 <= i < bar_height (rx_rate entity) ->
           In (bar_call m 40 (y + 1) 2 i) rest) /\
        (forall i, 0 <= i < bar_height (tx_rate entity) ->
           In (bar_call m 42 (y + 1) 3 i) rest) /\
        (stable_dims curses ->
         let lines := LINES (fst (fst ts)) in
         let cols := COLS (fst (fst ts)) in
         let ws := last_n 2 (whispers entity) in
         (forall w, In w ws -> y + 6 + len ws <= lines - 2 ->
            exists r, y + 6 <= r < y + 6 + len ws /\
                      In (addstr_call r 2 (u8 "│  " ++ w) (Some A_DIM)) rest) /\
         (exists r, y + 6 <= r <= y + 6 + len ws /\
                    In (addstr_call r 2 (u8 "╰" ++ repeat_str (u8 "─") (cols - 4)) None)
                       rest) /\
         (forall glyph, In glyph (glyphs entity) ->
            0 <= 25 + fst (position glyph) < cols ->
            0 <= y - 4 + snd (position glyph) < lines ->
            In (glyph_call m glyph 25 (y - 4)) rest)))).
Proof.
  intro Rdy. split; [|split; [|split; [|split]]].
  - apply safe_draw_veil_with. intros spirit y. now apply safe_draw_spirit_info.
  - intros entity y s'. now apply safe_draw_spirit_info.
  - intros entity y s' R.
    unfold draw_spirit_info, draw_spirit_info_each_guarded, try_pass_curses.
    unfold bind at 1 3. unfold ask_world.
    unfold bind at 1 2. now rewrite (for_each_try_pass _ _ R).
  - intros ts Ok height width done mystic_time title.
    destruct (@frame_attempts Screen curses m ts Rdy Ok)
      as [Border [[c1 [Ec1 Title]] [Clock [Blocks [Status Panel]]]]].
    split; [|split; [|split; [|split; [|split]]]].
    + intros y Hy. apply made_since. now apply Border.
    + exists c1. split; [exact Ec1|]. apply made_since. exact Title.
    + intro H. apply made_since. now apply Clock.
    + intros entity y I. apply made_since. now apply Blocks.
    + apply made_since. exact Status.
    + intros Sh panel_width panel_x whispers.
      destruct (Panel Sh) as [Heading [Messages [Bars Rule]]].
      split; [|split; [|split]].
      * apply made_since. exact Heading.
      * intros i line I Hi. apply made_since. now apply Messages.
      * intros y Hy. apply made_since. now apply Bars.
      * apply made_since. exact Rule.
  - intros entity y ts. now apply block_attempts.
Qed.

Lemma grid_write_dims s : forall y x g,
  grid_lines (fst (grid_write s y x g)) = grid_lines g /\
  grid_cols (fst (grid_write s y x g)) = grid_cols g.
Proof.
  induction s as [|c s IH]; intros y x g; cbn [grid_write]; [now split|].
  destruct (x + 1 <? grid_cols g); [exact (IH y (x + 1) (grid_put g y x c))|].
  destruct (y + 1 <? grid_lines g); [exact (IH (y + 1) 0 (grid_put g y x c)) | now split].
Qed.

(** The grid keeps its size under writes. *)
Lemma grid_stable_dims : stable_dims Grid_curses.
Proof.
  intros y x text attr g. cbn [addstr LINES COLS Grid_curses]. unfold grid_addstr.
  destruct (_ && _); [apply grid_write_dims | now split].
Qed.

(** The example of the specification, a window of 5 lines by 10 columns:
    the frame completes and the last line of the border is attempted; and
    on the window of 13 lines by 4 columns the entity block is ended by a
    header line. *)
Lemma draw_veil_never_raises_witness :
  returns (draw_veil narrow_mystic (blank_grid 5 10, sample_world (1 # 2) [])) /\
  In (border_call 5 10 4)
     (calls_since ((blank_grid 5 10, []), sample_world (1 # 2) [])
        (outcome_state (@draw_veil (Traced Grid) (traced Grid_curses) narrow_mystic
                          ((blank_grid 5 10, []), sample_world (1 # 2) [])))).
Proof.
  destruct (@draw_veil_never_raises Grid Grid_curses narrow_mystic
              (blank_grid 5 10, sample_world (1 # 2) [])) as [R [_ [_ [F _]]]].
  { intros k [<-|[<-|[<-|[<-|[]]]]]; vm_compute; discriminate. }
  split; [exact R|].
  destruct (F ((blank_grid 5 10, []), sample_world (1 # 2) []) eq_refl) as [B _].
  apply (B 4). vm_compute. split; [discriminate | reflexivity].
Defined.

(** ** Where the status bar and the entity blocks write *)

(** X20: the status bar is one write, cut and centred by its number of
    characters.  On a window at least four columns wide [draw_status_bar]
    makes exactly one call, whether it succeeds or not: dimmed, on line
    [height - 3], with the status text cut to at most [width - 4]
    characters and placed at column [(width - len) / 2], which is column 2
    or later and leaves [len] characters before column [width - 2].  The
    count is the one of [len], in characters: nothing is said about the
    cells a terminal gives the signs of the clock at the end of the text. *)
Theorem status_bar_cut_and_centred (Screen : Type) (curses : Curses Screen) m height width
    (s : Traced Screen * World) :
  4 <= width ->
  exists c,
    calls_since s (outcome_state (@draw_status_bar (Traced Screen) (traced curses)
                                    m height width s)) = [c] /\
    c = status_call m height width (fst (get_mystic_time (snd s))) /\
    call_y c = height - 3 /\ call_attr c = Some A_DIM /\
    len (call_text c) <= width - 4 /\
    call_x c = (width - len (call_text c)) / 2 /\
    2 <= call_x c /\ call_x c + len (call_text c) <= width - 2.
Proof.
  intro W. eexists. split; [|split; [reflexivity|]].
  { apply ext_since. apply status_bar_call. }
  unfold status_call. cbn [call_y call_x call_text call_attr addstr_call].
  match goal with |- context [if ?b then slice_to ?st _ else _] =>
    set (cut := if b then slice_to st (width - 4) else st) end.
  assert (L : len cut <= width - 4) by (apply cut_len; lia).
  pose proof (len_nonneg cut) as N.
  assert (D : 2 <= (width - len cut) / 2) by (apply Z.div_le_lower_bound; lia).
  assert (U : (width - len cut) / 2 * 2 <= width - len cut).
  { rewrite Z.mul_comm. apply Z.mul_div_le. lia. }
  split; [reflexivity|]. split; [reflexivity|]. split; [exact L|].
  split; [lia|]. split; lia.
Qed.

Lemma status_bar_cut_and_centred_witness :
  exists c,
    calls_since ((blank_grid 24 10, []), sample_world (1 # 2) [])
      (outcome_state (@draw_status_bar (Traced Grid) (traced Grid_curses)
                        (sample_mystic MysticConfig_init three_spirits 0) 24 10
                        ((blank_grid 24 10, []), sample_world (1 # 2) []))) = [c] /\
    c = status_call (sample_mystic MysticConfig_init three_spirits 0) 24 10
          (fst (get_mystic_time (sample_world (1 # 2) []))) /\
    call_y c = 24 - 3 /\ call_attr c = Some A_DIM /\
    len (call_text c) <= 10 - 4 /\
    call_x c = (10 - len (call_text c)) / 2 /\
    2 <= call_x c /\ call_x c + len (call_text c) <= 10 - 2.
Proof.
  apply (@status_bar_cut_and_centred Grid Grid_curses
           (sample_mystic MysticConfig_init three_spirits 0) 24 10
           ((blank_grid 24 10, []), sample_world (1 # 2) [])).
  lia.
Defined.

(** X21: where the calls of an entity block start.  Whichever writes
    fail, every [addstr] call of the block that [draw_spirit_info] draws at
    line [y_start] is of one of three kinds: a text line (header, message
    or closing rule), which starts at column 2 on one of the nine lines
    from [y_start] to [y_start + 8]; a cell of a rate bar, at column 40 or
    42 on the lines from [y_start + 1] to [y_start + 5]; or a glyph of the
    entity, at its position counted from column 25 and line
    [y_start - 4].  With the glyphs in the field the scanner keeps them in,
    every call thus starts on the lines [y_start - 4 .. y_start + 8], at
    column 2 or later, and a call that starts above [y_start] starts in
    columns 25 to 45.  This places the start of each call only: the block
    cuts none of its header and message texts, so nothing is said about
    where a long text ends. *)
Theorem block_calls_start_in_place (Screen : Type) (curses : Curses Screen) m entity y_start
    (s : Traced Screen * World) :
  Forall glyph_in_field (glyphs entity) ->
  wrote_only
    (fun c =>
       ((call_x c = 2 /\ y_start <= call_y c <= y_start + 8) \/
        ((call_x c = 40 \/ call_x c = 42) /\ y_start + 1 <= call_y c <= y_start + 5) \/
        (exists g, In g (glyphs entity) /\ call_text c = char g /\
                   call_x c = 25 + fst (position g) /\
                   call_y c = y_start - 4 + snd (position g))) /\
       y_start - 4 <= call_y c <= y_start + 8 /\ 2 <= call_x c /\
       (call_y c < y_start -> 25 <= call_x c <= 45))
    s (outcome_state (@draw_spirit_info (Traced Screen) (traced curses) m entity y_start s)).
Proof.
  intro Field. set (P := fun c => _ /\ _ /\ _ /\ _).
  unfold draw_spirit_info.
  apply (@keeps_try_pass_curses _ (wrote_only P s)); [|apply wrote_only_start].
  apply keeps_bind; [apply wrote_ask_world|]. intro ips.
  apply keeps_bind.
  { apply keeps_for_each. intros write Iw. unfold spirit_header in Iw.
    destruct Iw as [<-|[<-|[<-|[<-|[<-|[<-|[]]]]]]];
      try (apply wrote_put; unfold P; cbn [call_y call_x];
           split; [left|]; lia);
      (apply wrote_colored_put; intro c; unfold P; cbn [call_y call_x];
       split; [left|]; lia). }
  intros _. unfold spirit_rest.
  apply keeps_bind.
  { unfold render_flow_visualization. apply keeps_bind; [|intros _].
    - apply wrote_draw_bar. intros i c Hi. unfold P. cbn [call_y call_x].
      split; [right; left|]; lia.
    - apply wrote_draw_bar. intros i c Hi. unfold P. cbn [call_y call_x].
      split; [right; left|]; lia. }
  intros _.
  apply (@keeps_bind_value _ (wrote_only P s) _ _
           (fun y' => y_start + 6 <= y' <= y_start + 8)).
  { intros s1 Hs1. pose proof (last_n_len 2 (whispers entity)) as L2.
    destruct (@wrote_draw_spirit_whispers Screen curses P s (last_n 2 (whispers entity))
                (y_start + 6) s1) as [y' [s2 [E [Hs2 B]]]]; [|assumption|].
    { intros y text attr Hy. unfold P. cbn [call_y call_x]. split; [left|]; lia. }
    exists y', s2. split; [exact E|]. split; [assumption | lia]. }
  intros y' B.
  apply keeps_bind; [apply wrote_ask_screen|]. intro cols.
  apply keeps_bind.
  { apply keeps_try_pass, wrote_put. unfold P. cbn [call_y call_x]. split; [left|]; lia. }
  intros _. apply keeps_for_each. intros g Ig.
  rewrite Forall_forall in Field. destruct (Field g Ig) as [_ [Gx [Gy _]]].
  unfold render_glyph. destruct (position g) as [x y] eqn:Pg. cbn [fst snd] in Gx, Gy.
  apply keeps_bind; [apply wrote_ask_screen|]. intro cols'.
  apply keeps_bind; [apply wrote_ask_screen|]. intro lines'.
  destruct (_ && _); [|apply keeps_ret].
  apply keeps_try_pass, wrote_put. unfold P. cbn [call_y call_x call_text].
  split; [|lia]. right. right. exists g. rewrite Pg. cbn [fst snd].
  split; [exact Ig|]. split; [reflexivity|]. split; reflexivity.
Qed.

Lemma block_calls_start_in_place_witness :
  wrote_only
    (fun c =>
       ((call_x c = 2 /\ 2 <= call_y c <= 2 + 8) \/
        ((call_x c = 40 \/ call_x c = 42) /\ 2 + 1 <= call_y c <= 2 + 5) \/
        (exists g,
           In g (glyphs (sample_entity (u8 "eth0") 0 0 500 400 (1 # 2)
                           [new_glyph FLOW 1 (3, 4) 2])) /\
           call_text c = char g /\
           call_x c = 25 + fst (position g) /\
           call_y c = 2 - 4 + snd (position g))) /\
       2 - 4 <= call_y c <= 2 + 8 /\ 2 <= call_x c /\
       (call_y c < 2 -> 25 <= call_x c <= 45))
    ((blank_grid 24 80, []), sample_world (1 # 2) [])
    (outcome_state
       (@draw_spirit_info (Traced Grid) (traced Grid_curses)
          (sample_mystic MysticConfig_init [] 0)
          (sample_entity (u8 "eth0") 0 0 500 400 (1 # 2) [new_glyph FLOW 1 (3, 4) 2]) 2
          ((blank_grid 24 80, []), sample_world (1 # 2) []))).
Proof.
  apply block_calls_start_in_place.
  repeat constructor; vm_compute; congruence.
Defined.
